(** * MonoWriter: a shallow embedding of the monochrome residual coder

    The definitions below follow [encoder/MonoWriter.cpp] function by
    function.  Unsigned machine integers are integers in [Z] with their
    wrap-around written out ([u8], [u16], [u32]); arrays are lists read
    and written by index; the bit sink is the list of the calls it
    receives. *)

From Stdlib Require Import ZArith List Lia Bool.
From stdpp Require Import base option list list_numbers gmap.

Set Warnings "-register-all".
Local Open Scope Z_scope.

(** ** Machine integers *)

Definition u8 (v : Z) : Z := v mod 256.
Definition u16 (v : Z) : Z := v mod 65536.
Definition u32 (v : Z) : Z := v mod 4294967296.

(** Modelled from the spec: [BSR32] comes from [decoder/BitMath.hpp],
    which is not among the sources.  It is the index of the highest set
    bit, so that [BSR32 range + 1] is the field width
    [ceil (log2 (max_bits - min_bits + 1))] the specification gives for
    the tile-size field. *)
Definition BSR32 (v : Z) : Z := Z.log2 v.

(** ** Arrays *)

(** [rd a i] is [a[i]] for an array of bytes or words.  A read outside
    the array is not defined by the source; the model yields 0 there. *)
Definition rd (a : list Z) (i : Z) : Z :=
  if (0 <=? i) then nth (Z.to_nat i) a 0 else 0.

Definition rd_or {A} (d : A) (a : list A) (i : Z) : A :=
  if (0 <=? i) then nth (Z.to_nat i) a d else d.

(** [wr a i v] is the array after [a[i] = v]. *)
Definition wr {A} (a : list A) (i : Z) (v : A) : list A :=
  if (0 <=? i) then <[Z.to_nat i := v]> a else a.

(** [slice a off n] is what a callee sees through the pointer [a + off]
    and the count [n]. *)
Definition slice (a : list Z) (off n : Z) : list Z :=
  map (fun i => rd a (off + i)) (seqZ 0 n).

(** Modelled from the spec: [SmartArray::resize] is declared outside the
    sources.  The buffer has [n] cells afterwards ("all buffers are sized
    once per bits iteration and reused"); cells that were not there before
    read 0 in the model. *)
Definition resize {A} (d : A) (a : list A) (n : Z) : list A :=
  take (Z.to_nat n) a ++ replicate (Z.to_nat n - length a)%nat d.

(** [for (int i = lo; i < hi; ++i) body] *)
Definition for_range {S : Type} (lo hi : Z) (body : Z -> S -> S) (s : S) : S :=
  fold_left (fun acc i => body i acc) (seqZ lo (hi - lo)) s.

(** [for (u16 x = 0; x < bound; x += step) body]: the counter wraps at
    16 bits, so the loop need not terminate; [fuel] bounds the number of
    iterations and [None] means it ran out. *)
Fixpoint for_u16 {S : Type} (fuel : nat) (x bound step : Z)
    (body : Z -> S -> option S) (s : S) : option S :=
  match fuel with
  | O => None
  | Datatypes.S k =>
      if x <? bound then
        match body x s with
        | Some s' => for_u16 k (u16 (x + step)) bound step body s'
        | None => None
        end
      else Some s
  end.

(** [u16 p = start, c = count; while (c-- > 0 && p < bound) { body; ++p; }] *)
Fixpoint while_count {S : Type} (c : nat) (p bound : Z)
    (body : Z -> S -> S) (s : S) : S :=
  match c with
  | O => s
  | Datatypes.S c' =>
      if p <? bound then while_count c' (p + 1) bound body (body p s) else s
  end.

(** ** The bit sink *)

Inductive Coder : Type :=
  | ChaosBin (bin : Z)      (* _encoder[bin] *)
  | RowFilterCoder.         (* _row_filter_encoder *)

(** One entry per call that reaches the [ImageWriter]. *)
Inductive Emit : Type :=
  | WriteBits (code len : Z)                 (* writer.writeBits(code, len) *)
  | WriteBit (bit : Z)                       (* writer.writeBit(bit) *)
  | CoderTables (c : Coder) (bits : Z)       (* an entropy coder wrote its tables *)
  | CoderSymbol (c : Coder) (sym bits : Z).  (* an entropy coder wrote one symbol *)

Definition emit_bits (e : Emit) : Z :=
  match e with
  | WriteBits _ len => len
  | WriteBit _ => 1
  | CoderTables _ bits => bits
  | CoderSymbol _ _ bits => bits
  end.

Definition emitted_bits (tr : list Emit) : Z :=
  fold_right (fun e acc => emit_bits e + acc) 0 tr.

(** ** Parameters and filters *)

(** [MonoWriter::Parameters].  The tuning fields (thresholds, awards,
    knobs) are read by the planning stages only and are parameters of the
    model (see [Tuning]). *)
Record Parameters : Type := {
  data : list Z;            (* const u8 *data, row-major *)
  mask : Z -> Z -> bool;    (* mask delegate *)
  num_syms : Z;
  size_x : Z;
  size_y : Z;
  min_bits : Z;
  max_bits : Z
}.

(** [MonoFilterFuncs::safe (data, num_syms - 1, x, y, size_x)]: the
    pointer [data] is the matrix at [(x, y)]. *)
Record MonoFilterFuncs : Type := {
  safe : list Z -> Z -> Z -> Z -> Z -> Z
}.

Definition MASK_TILE : Z := 255.
Definition TODO_TILE : Z := 0.

(** Row filters ([MonoReader::RowFilters]); the source indexes the two
    halves of its code buffer with them and asserts [RF_COUNT <= 2]. *)
Definition RF_NOOP : Z := 0.
Definition RF_PREV : Z := 1.
Definition RF_COUNT : Z := 2.

(** ** What the sources leave out

    The headers of the coder and three collaborators are not among the
    sources: the constants, the chaos model ([MonoChaos]), the entropy
    estimator and the entropy coder.  They are parameters here. *)
Class Primitives : Type := {
  MAX_CHAOS_LEVELS : Z;
  SF_FIXED : Z;
  RECURSE_THRESH_COUNT : Z;
  MAX_ROW_PASSES : nat;
  SF_COUNT : Z;
  UNUSED_SYMPAL : Z;

  MonoChaos : Type;
  chaos_new : MonoChaos;
  chaos_init : MonoChaos -> Z -> Z -> MonoChaos;    (* init(levels, size_x) *)
  chaos_start : MonoChaos -> MonoChaos;
  chaos_startRow : MonoChaos -> MonoChaos;
  chaos_zero : MonoChaos -> MonoChaos;
  chaos_get : MonoChaos -> Z;
  chaos_store : MonoChaos -> Z -> Z -> MonoChaos;   (* store(residual, num_syms) *)
  chaos_getBinCount : MonoChaos -> Z;

  EntropyEstimator : Type;
  ee_init : EntropyEstimator;
  ee_add : EntropyEstimator -> list Z -> EntropyEstimator;
  ee_subtract : EntropyEstimator -> list Z -> EntropyEstimator;
  ee_entropy : EntropyEstimator -> list Z -> Z;
  ee_addSingle : EntropyEstimator -> Z -> EntropyEstimator;
  ee_entropyOverall : EntropyEstimator -> Z;

  EntropyEncoder : Type;
  enc_new : EntropyEncoder;
  enc_add : EntropyEncoder -> Z -> EntropyEncoder;
  enc_finalize : EntropyEncoder -> EntropyEncoder;
  enc_simulate : EntropyEncoder -> Z -> Z;          (* bits simulate(sym) reports *)
  enc_writeTables : EntropyEncoder -> Z;            (* bits writeTables emits *)
  enc_write : EntropyEncoder -> Z -> Z;             (* bits write(sym) emits *)
  enc_reset : EntropyEncoder -> EntropyEncoder
}.

Section State.
Context `{Prim : Primitives}.

(** ** The encoder object *)

(** The fields of [MonoWriter] the coder uses.  The [Stats] counters are
    left out: they are written and never read by the coder. *)
Inductive MonoWriter : Type := Build_MonoWriter {
  _params : Parameters;
  _tile_bits_field_bc : Z;
  _tile_bits_x : Z;
  _tile_bits_y : Z;
  _tile_size_x : Z;
  _tile_size_y : Z;
  _tiles_x : Z;
  _tiles_y : Z;
  _tiles_count : Z;
  _tiles : list Z;
  _tile_row_filters : list Z;
  _residuals : list Z;
  _ecodes : list Z;
  _sympal : list Z;
  _sympal_filter_map : list Z;
  _filters : list MonoFilterFuncs;
  _filter_indices : list Z;
  _normal_filter_count : Z;
  _sympal_filter_count : Z;
  _filter_count : Z;
  _row_filter_entropy : Z;
  _chaos : MonoChaos;
  _chaos_entropy : Z;
  _encoder : list EntropyEncoder;
  _row_filter_encoder : EntropyEncoder;
  _filter_encoder : option MonoWriter;
  _best_writer : option MonoWriter;
  _tile_seen : list bool;
  _prev_filter : Z;
  _write_filter : Z
}.

(** Field updates. *)

Definition set_params (v : Parameters) (m : MonoWriter) : MonoWriter :=
  Build_MonoWriter v (_tile_bits_field_bc m) (_tile_bits_x m) (_tile_bits_y
    m) (_tile_size_x m) (_tile_size_y m) (_tiles_x m) (_tiles_y m)
    (_tiles_count m) (_tiles m) (_tile_row_filters m) (_residuals m)
    (_ecodes m) (_sympal m) (_sympal_filter_map m) (_filters m)
    (_filter_indices m) (_normal_filter_count m) (_sympal_filter_count m)
    (_filter_count m) (_row_filter_entropy m) (_chaos m) (_chaos_entropy m)
    (_encoder m) (_row_filter_encoder m) (_filter_encoder m) (_best_writer
    m) (_tile_seen m) (_prev_filter m) (_write_filter m).

Definition set_tile_bits_field_bc (v : Z) (m : MonoWriter) : MonoWriter :=
  Build_MonoWriter (_params m) v (_tile_bits_x m) (_tile_bits_y m)
    (_tile_size_x m) (_tile_size_y m) (_tiles_x m) (_tiles_y m)
    (_tiles_count m) (_tiles m) (_tile_row_filters m) (_residuals m)
    (_ecodes m) (_sympal m) (_sympal_filter_map m) (_filters m)
    (_filter_indices m) (_normal_filter_count m) (_sympal_filter_count m)
    (_filter_count m) (_row_filter_entropy m) (_chaos m) (_chaos_entropy m)
    (_encoder m) (_row_filter_encoder m) (_filter_encoder m) (_best_writer
    m) (_tile_seen m) (_prev_filter m) (_write_filter m).

Definition set_tile_bits_x (v : Z) (m : MonoWriter) : MonoWriter :=
  Build_MonoWriter (_params m) (_tile_bits_field_bc m) v (_tile_bits_y m)
    (_tile_size_x m) (_tile_size_y m) (_tiles_x m) (_tiles_y m)
    (_tiles_count m) (_tiles m) (_tile_row_filters m) (_residuals m)
    (_ecodes m) (_sympal m) (_sympal_filter_map m) (_filters m)
    (_filter_indices m) (_normal_filter_count m) (_sympal_filter_count m)
    (_filter_count m) (_row_filter_entropy m) (_chaos m) (_chaos_entropy m)
    (_encoder m) (_row_filter_encoder m) (_filter_encoder m) (_best_writer
    m) (_tile_seen m) (_prev_filter m) (_write_filter m).

Definition set_tile_bits_y (v : Z) (m : MonoWriter) : MonoWriter :=
  Build_MonoWriter (_params m) (_tile_bits_field_bc m) (_tile_bits_x m) v
    (_tile_size_x m) (_tile_size_y m) (_tiles_x m) (_tiles_y m)
    (_tiles_count m) (_tiles m) (_tile_row_filters m) (_residuals m)
    (_ecodes m) (_sympal m) (_sympal_filter_map m) (_filters m)
    (_filter_indices m) (_normal_filter_count m) (_sympal_filter_count m)
    (_filter_count m) (_row_filter_entropy m) (_chaos m) (_chaos_entropy m)
    (_encoder m) (_row_filter_encoder m) (_filter_encoder m) (_best_writer
    m) (_tile_seen m) (_prev_filter m) (_write_filter m).

Definition set_tile_size_x (v : Z) (m : MonoWriter) : MonoWriter :=
  Build_MonoWriter (_params m) (_tile_bits_field_bc m) (_tile_bits_x m)
    (_tile_bits_y m) v (_tile_size_y m) (_tiles_x m) (_tiles_y m)
    (_tiles_count m) (_tiles m) (_tile_row_filters m) (_residuals m)
    (_ecodes m) (_sympal m) (_sympal_filter_map m) (_filters m)
    (_filter_indices m) (_normal_filter_count m) (_sympal_filter_count m)
    (_filter_count m) (_row_filter_entropy m) (_chaos m) (_chaos_entropy m)
    (_encoder m) (_row_filter_encoder m) (_filter_encoder m) (_best_writer
    m) (_tile_seen m) (_prev_filter m) (_write_filter m).

Definition set_tile_size_y (v : Z) (m : MonoWriter) : MonoWriter :=
  Build_MonoWriter (_params m) (_tile_bits_field_bc m) (_tile_bits_x m)
    (_tile_bits_y m) (_tile_size_x m) v (_tiles_x m) (_tiles_y m)
    (_tiles_count m) (_tiles m) (_tile_row_filters m) (_residuals m)
    (_ecodes m) (_sympal m) (_sympal_filter_map m) (_filters m)
    (_filter_indices m) (_normal_filter_count m) (_sympal_filter_count m)
    (_filter_count m) (_row_filter_entropy m) (_chaos m) (_chaos_entropy m)
    (_encoder m) (_row_filter_encoder m) (_filter_encoder m) (_best_writer
    m) (_tile_seen m) (_prev_filter m) (_write_filter m).

Definition set_tiles_x (v : Z) (m : MonoWriter) : MonoWriter :=
  Build_MonoWriter (_params m) (_tile_bits_field_bc m) (_tile_bits_x m)
    (_tile_bits_y m) (_tile_size_x m) (_tile_size_y m) v (_tiles_y m)
    (_tiles_count m) (_tiles m) (_tile_row_filters m) (_residuals m)
    (_ecodes m) (_sympal m) (_sympal_filter_map m) (_filters m)
    (_filter_indices m) (_normal_filter_count m) (_sympal_filter_count m)
    (_filter_count m) (_row_filter_entropy m) (_chaos m) (_chaos_entropy m)
    (_encoder m) (_row_filter_encoder m) (_filter_encoder m) (_best_writer
    m) (_tile_seen m) (_prev_filter m) (_write_filter m).

Definition set_tiles_y (v : Z) (m : MonoWriter) : MonoWriter :=
  Build_MonoWriter (_params m) (_tile_bits_field_bc m) (_tile_bits_x m)
    (_tile_bits_y m) (_tile_size_x m) (_tile_size_y m) (_tiles_x m) v
    (_tiles_count m) (_tiles m) (_tile_row_filters m) (_residuals m)
    (_ecodes m) (_sympal m) (_sympal_filter_map m) (_filters m)
    (_filter_indices m) (_normal_filter_count m) (_sympal_filter_count m)
    (_filter_count m) (_row_filter_entropy m) (_chaos m) (_chaos_entropy m)
    (_encoder m) (_row_filter_encoder m) (_filter_encoder m) (_best_writer
    m) (_tile_seen m) (_prev_filter m) (_write_filter m).

Definition set_tiles_count (v : Z) (m : MonoWriter) : MonoWriter :=
  Build_MonoWriter (_params m) (_tile_bits_field_bc m) (_tile_bits_x m)
    (_tile_bits_y m) (_tile_size_x m) (_tile_size_y m) (_tiles_x m)
    (_tiles_y m) v (_tiles m) (_tile_row_filters m) (_residuals m) (_ecodes
    m) (_sympal m) (_sympal_filter_map m) (_filters m) (_filter_indices m)
    (_normal_filter_count m) (_sympal_filter_count m) (_filter_count m)
    (_row_filter_entropy m) (_chaos m) (_chaos_entropy m) (_encoder m)
    (_row_filter_encoder m) (_filter_encoder m) (_best_writer m) (_tile_seen
    m) (_prev_filter m) (_write_filter m).

Definition set_tiles (v : list Z) (m : MonoWriter) : MonoWriter :=
  Build_MonoWriter (_params m) (_tile_bits_field_bc m) (_tile_bits_x m)
    (_tile_bits_y m) (_tile_size_x m) (_tile_size_y m) (_tiles_x m)
    (_tiles_y m) (_tiles_count m) v (_tile_row_filters m) (_residuals m)
    (_ecodes m) (_sympal m) (_sympal_filter_map m) (_filters m)
    (_filter_indices m) (_normal_filter_count m) (_sympal_filter_count m)
    (_filter_count m) (_row_filter_entropy m) (_chaos m) (_chaos_entropy m)
    (_encoder m) (_row_filter_encoder m) (_filter_encoder m) (_best_writer
    m) (_tile_seen m) (_prev_filter m) (_write_filter m).

Definition set_tile_row_filters (v : list Z) (m : MonoWriter) : MonoWriter :=
  Build_MonoWriter (_params m) (_tile_bits_field_bc m) (_tile_bits_x m)
    (_tile_bits_y m) (_tile_size_x m) (_tile_size_y m) (_tiles_x m)
    (_tiles_y m) (_tiles_count m) (_tiles m) v (_residuals m) (_ecodes m)
    (_sympal m) (_sympal_filter_map m) (_filters m) (_filter_indices m)
    (_normal_filter_count m) (_sympal_filter_count m) (_filter_count m)
    (_row_filter_entropy m) (_chaos m) (_chaos_entropy m) (_encoder m)
    (_row_filter_encoder m) (_filter_encoder m) (_best_writer m) (_tile_seen
    m) (_prev_filter m) (_write_filter m).

Definition set_residuals (v : list Z) (m : MonoWriter) : MonoWriter :=
  Build_MonoWriter (_params m) (_tile_bits_field_bc m) (_tile_bits_x m)
    (_tile_bits_y m) (_tile_size_x m) (_tile_size_y m) (_tiles_x m)
    (_tiles_y m) (_tiles_count m) (_tiles m) (_tile_row_filters m) v
    (_ecodes m) (_sympal m) (_sympal_filter_map m) (_filters m)
    (_filter_indices m) (_normal_filter_count m) (_sympal_filter_count m)
    (_filter_count m) (_row_filter_entropy m) (_chaos m) (_chaos_entropy m)
    (_encoder m) (_row_filter_encoder m) (_filter_encoder m) (_best_writer
    m) (_tile_seen m) (_prev_filter m) (_write_filter m).

Definition set_ecodes (v : list Z) (m : MonoWriter) : MonoWriter :=
  Build_MonoWriter (_params m) (_tile_bits_field_bc m) (_tile_bits_x m)
    (_tile_bits_y m) (_tile_size_x m) (_tile_size_y m) (_tiles_x m)
    (_tiles_y m) (_tiles_count m) (_tiles m) (_tile_row_filters m)
    (_residuals m) v (_sympal m) (_sympal_filter_map m) (_filters m)
    (_filter_indices m) (_normal_filter_count m) (_sympal_filter_count m)
    (_filter_count m) (_row_filter_entropy m) (_chaos m) (_chaos_entropy m)
    (_encoder m) (_row_filter_encoder m) (_filter_encoder m) (_best_writer
    m) (_tile_seen m) (_prev_filter m) (_write_filter m).

Definition set_sympal (v : list Z) (m : MonoWriter) : MonoWriter :=
  Build_MonoWriter (_params m) (_tile_bits_field_bc m) (_tile_bits_x m)
    (_tile_bits_y m) (_tile_size_x m) (_tile_size_y m) (_tiles_x m)
    (_tiles_y m) (_tiles_count m) (_tiles m) (_tile_row_filters m)
    (_residuals m) (_ecodes m) v (_sympal_filter_map m) (_filters m)
    (_filter_indices m) (_normal_filter_count m) (_sympal_filter_count m)
    (_filter_count m) (_row_filter_entropy m) (_chaos m) (_chaos_entropy m)
    (_encoder m) (_row_filter_encoder m) (_filter_encoder m) (_best_writer
    m) (_tile_seen m) (_prev_filter m) (_write_filter m).

Definition set_sympal_filter_map (v : list Z) (m : MonoWriter) : MonoWriter :=
  Build_MonoWriter (_params m) (_tile_bits_field_bc m) (_tile_bits_x m)
    (_tile_bits_y m) (_tile_size_x m) (_tile_size_y m) (_tiles_x m)
    (_tiles_y m) (_tiles_count m) (_tiles m) (_tile_row_filters m)
    (_residuals m) (_ecodes m) (_sympal m) v (_filters m) (_filter_indices
    m) (_normal_filter_count m) (_sympal_filter_count m) (_filter_count m)
    (_row_filter_entropy m) (_chaos m) (_chaos_entropy m) (_encoder m)
    (_row_filter_encoder m) (_filter_encoder m) (_best_writer m) (_tile_seen
    m) (_prev_filter m) (_write_filter m).

Definition set_filters (v : list MonoFilterFuncs) (m : MonoWriter) : MonoWriter :=
  Build_MonoWriter (_params m) (_tile_bits_field_bc m) (_tile_bits_x m)
    (_tile_bits_y m) (_tile_size_x m) (_tile_size_y m) (_tiles_x m)
    (_tiles_y m) (_tiles_count m) (_tiles m) (_tile_row_filters m)
    (_residuals m) (_ecodes m) (_sympal m) (_sympal_filter_map m) v
    (_filter_indices m) (_normal_filter_count m) (_sympal_filter_count m)
    (_filter_count m) (_row_filter_entropy m) (_chaos m) (_chaos_entropy m)
    (_encoder m) (_row_filter_encoder m) (_filter_encoder m) (_best_writer
    m) (_tile_seen m) (_prev_filter m) (_write_filter m).

Definition set_filter_indices (v : list Z) (m : MonoWriter) : MonoWriter :=
  Build_MonoWriter (_params m) (_tile_bits_field_bc m) (_tile_bits_x m)
    (_tile_bits_y m) (_tile_size_x m) (_tile_size_y m) (_tiles_x m)
    (_tiles_y m) (_tiles_count m) (_tiles m) (_tile_row_filters m)
    (_residuals m) (_ecodes m) (_sympal m) (_sympal_filter_map m) (_filters
    m) v (_normal_filter_count m) (_sympal_filter_count m) (_filter_count m)
    (_row_filter_entropy m) (_chaos m) (_chaos_entropy m) (_encoder m)
    (_row_filter_encoder m) (_filter_encoder m) (_best_writer m) (_tile_seen
    m) (_prev_filter m) (_write_filter m).

Definition set_normal_filter_count (v : Z) (m : MonoWriter) : MonoWriter :=
  Build_MonoWriter (_params m) (_tile_bits_field_bc m) (_tile_bits_x m)
    (_tile_bits_y m) (_tile_size_x m) (_tile_size_y m) (_tiles_x m)
    (_tiles_y m) (_tiles_count m) (_tiles m) (_tile_row_filters m)
    (_residuals m) (_ecodes m) (_sympal m) (_sympal_filter_map m) (_filters
    m) (_filter_indices m) v (_sympal_filter_count m) (_filter_count m)
    (_row_filter_entropy m) (_chaos m) (_chaos_entropy m) (_encoder m)
    (_row_filter_encoder m) (_filter_encoder m) (_best_writer m) (_tile_seen
    m) (_prev_filter m) (_write_filter m).

Definition set_sympal_filter_count (v : Z) (m : MonoWriter) : MonoWriter :=
  Build_MonoWriter (_params m) (_tile_bits_field_bc m) (_tile_bits_x m)
    (_tile_bits_y m) (_tile_size_x m) (_tile_size_y m) (_tiles_x m)
    (_tiles_y m) (_tiles_count m) (_tiles m) (_tile_row_filters m)
    (_residuals m) (_ecodes m) (_sympal m) (_sympal_filter_map m) (_filters
    m) (_filter_indices m) (_normal_filter_count m) v (_filter_count m)
    (_row_filter_entropy m) (_chaos m) (_chaos_entropy m) (_encoder m)
    (_row_filter_encoder m) (_filter_encoder m) (_best_writer m) (_tile_seen
    m) (_prev_filter m) (_write_filter m).

Definition set_filter_count (v : Z) (m : MonoWriter) : MonoWriter :=
  Build_MonoWriter (_params m) (_tile_bits_field_bc m) (_tile_bits_x m)
    (_tile_bits_y m) (_tile_size_x m) (_tile_size_y m) (_tiles_x m)
    (_tiles_y m) (_tiles_count m) (_tiles m) (_tile_row_filters m)
    (_residuals m) (_ecodes m) (_sympal m) (_sympal_filter_map m) (_filters
    m) (_filter_indices m) (_normal_filter_count m) (_sympal_filter_count m)
    v (_row_filter_entropy m) (_chaos m) (_chaos_entropy m) (_encoder m)
    (_row_filter_encoder m) (_filter_encoder m) (_best_writer m) (_tile_seen
    m) (_prev_filter m) (_write_filter m).

Definition set_row_filter_entropy (v : Z) (m : MonoWriter) : MonoWriter :=
  Build_MonoWriter (_params m) (_tile_bits_field_bc m) (_tile_bits_x m)
    (_tile_bits_y m) (_tile_size_x m) (_tile_size_y m) (_tiles_x m)
    (_tiles_y m) (_tiles_count m) (_tiles m) (_tile_row_filters m)
    (_residuals m) (_ecodes m) (_sympal m) (_sympal_filter_map m) (_filters
    m) (_filter_indices m) (_normal_filter_count m) (_sympal_filter_count m)
    (_filter_count m) v (_chaos m) (_chaos_entropy m) (_encoder m)
    (_row_filter_encoder m) (_filter_encoder m) (_best_writer m) (_tile_seen
    m) (_prev_filter m) (_write_filter m).

Definition set_chaos (v : MonoChaos) (m : MonoWriter) : MonoWriter :=
  Build_MonoWriter (_params m) (_tile_bits_field_bc m) (_tile_bits_x m)
    (_tile_bits_y m) (_tile_size_x m) (_tile_size_y m) (_tiles_x m)
    (_tiles_y m) (_tiles_count m) (_tiles m) (_tile_row_filters m)
    (_residuals m) (_ecodes m) (_sympal m) (_sympal_filter_map m) (_filters
    m) (_filter_indices m) (_normal_filter_count m) (_sympal_filter_count m)
    (_filter_count m) (_row_filter_entropy m) v (_chaos_entropy m) (_encoder
    m) (_row_filter_encoder m) (_filter_encoder m) (_best_writer m)
    (_tile_seen m) (_prev_filter m) (_write_filter m).

Definition set_chaos_entropy (v : Z) (m : MonoWriter) : MonoWriter :=
  Build_MonoWriter (_params m) (_tile_bits_field_bc m) (_tile_bits_x m)
    (_tile_bits_y m) (_tile_size_x m) (_tile_size_y m) (_tiles_x m)
    (_tiles_y m) (_tiles_count m) (_tiles m) (_tile_row_filters m)
    (_residuals m) (_ecodes m) (_sympal m) (_sympal_filter_map m) (_filters
    m) (_filter_indices m) (_normal_filter_count m) (_sympal_filter_count m)
    (_filter_count m) (_row_filter_entropy m) (_chaos m) v (_encoder m)
    (_row_filter_encoder m) (_filter_encoder m) (_best_writer m) (_tile_seen
    m) (_prev_filter m) (_write_filter m).

Definition set_encoder (v : list EntropyEncoder) (m : MonoWriter) : MonoWriter :=
  Build_MonoWriter (_params m) (_tile_bits_field_bc m) (_tile_bits_x m)
    (_tile_bits_y m) (_tile_size_x m) (_tile_size_y m) (_tiles_x m)
    (_tiles_y m) (_tiles_count m) (_tiles m) (_tile_row_filters m)
    (_residuals m) (_ecodes m) (_sympal m) (_sympal_filter_map m) (_filters
    m) (_filter_indices m) (_normal_filter_count m) (_sympal_filter_count m)
    (_filter_count m) (_row_filter_entropy m) (_chaos m) (_chaos_entropy m)
    v (_row_filter_encoder m) (_filter_encoder m) (_best_writer m)
    (_tile_seen m) (_prev_filter m) (_write_filter m).

Definition set_row_filter_encoder (v : EntropyEncoder) (m : MonoWriter) : MonoWriter :=
  Build_MonoWriter (_params m) (_tile_bits_field_bc m) (_tile_bits_x m)
    (_tile_bits_y m) (_tile_size_x m) (_tile_size_y m) (_tiles_x m)
    (_tiles_y m) (_tiles_count m) (_tiles m) (_tile_row_filters m)
    (_residuals m) (_ecodes m) (_sympal m) (_sympal_filter_map m) (_filters
    m) (_filter_indices m) (_normal_filter_count m) (_sympal_filter_count m)
    (_filter_count m) (_row_filter_entropy m) (_chaos m) (_chaos_entropy m)
    (_encoder m) v (_filter_encoder m) (_best_writer m) (_tile_seen m)
    (_prev_filter m) (_write_filter m).

Definition set_filter_encoder (v : option MonoWriter) (m : MonoWriter) : MonoWriter :=
  Build_MonoWriter (_params m) (_tile_bits_field_bc m) (_tile_bits_x m)
    (_tile_bits_y m) (_tile_size_x m) (_tile_size_y m) (_tiles_x m)
    (_tiles_y m) (_tiles_count m) (_tiles m) (_tile_row_filters m)
    (_residuals m) (_ecodes m) (_sympal m) (_sympal_filter_map m) (_filters
    m) (_filter_indices m) (_normal_filter_count m) (_sympal_filter_count m)
    (_filter_count m) (_row_filter_entropy m) (_chaos m) (_chaos_entropy m)
    (_encoder m) (_row_filter_encoder m) v (_best_writer m) (_tile_seen m)
    (_prev_filter m) (_write_filter m).

Definition set_best_writer (v : option MonoWriter) (m : MonoWriter) : MonoWriter :=
  Build_MonoWriter (_params m) (_tile_bits_field_bc m) (_tile_bits_x m)
    (_tile_bits_y m) (_tile_size_x m) (_tile_size_y m) (_tiles_x m)
    (_tiles_y m) (_tiles_count m) (_tiles m) (_tile_row_filters m)
    (_residuals m) (_ecodes m) (_sympal m) (_sympal_filter_map m) (_filters
    m) (_filter_indices m) (_normal_filter_count m) (_sympal_filter_count m)
    (_filter_count m) (_row_filter_entropy m) (_chaos m) (_chaos_entropy m)
    (_encoder m) (_row_filter_encoder m) (_filter_encoder m) v (_tile_seen
    m) (_prev_filter m) (_write_filter m).

Definition set_tile_seen (v : list bool) (m : MonoWriter) : MonoWriter :=
  Build_MonoWriter (_params m) (_tile_bits_field_bc m) (_tile_bits_x m)
    (_tile_bits_y m) (_tile_size_x m) (_tile_size_y m) (_tiles_x m)
    (_tiles_y m) (_tiles_count m) (_tiles m) (_tile_row_filters m)
    (_residuals m) (_ecodes m) (_sympal m) (_sympal_filter_map m) (_filters
    m) (_filter_indices m) (_normal_filter_count m) (_sympal_filter_count m)
    (_filter_count m) (_row_filter_entropy m) (_chaos m) (_chaos_entropy m)
    (_encoder m) (_row_filter_encoder m) (_filter_encoder m) (_best_writer
    m) v (_prev_filter m) (_write_filter m).

Definition set_prev_filter (v : Z) (m : MonoWriter) : MonoWriter :=
  Build_MonoWriter (_params m) (_tile_bits_field_bc m) (_tile_bits_x m)
    (_tile_bits_y m) (_tile_size_x m) (_tile_size_y m) (_tiles_x m)
    (_tiles_y m) (_tiles_count m) (_tiles m) (_tile_row_filters m)
    (_residuals m) (_ecodes m) (_sympal m) (_sympal_filter_map m) (_filters
    m) (_filter_indices m) (_normal_filter_count m) (_sympal_filter_count m)
    (_filter_count m) (_row_filter_entropy m) (_chaos m) (_chaos_entropy m)
    (_encoder m) (_row_filter_encoder m) (_filter_encoder m) (_best_writer
    m) (_tile_seen m) v (_write_filter m).

Definition set_write_filter (v : Z) (m : MonoWriter) : MonoWriter :=
  Build_MonoWriter (_params m) (_tile_bits_field_bc m) (_tile_bits_x m)
    (_tile_bits_y m) (_tile_size_x m) (_tile_size_y m) (_tiles_x m)
    (_tiles_y m) (_tiles_count m) (_tiles m) (_tile_row_filters m)
    (_residuals m) (_ecodes m) (_sympal m) (_sympal_filter_map m) (_filters
    m) (_filter_indices m) (_normal_filter_count m) (_sympal_filter_count m)
    (_filter_count m) (_row_filter_entropy m) (_chaos m) (_chaos_entropy m)
    (_encoder m) (_row_filter_encoder m) (_filter_encoder m) (_best_writer
    m) (_tile_seen m) (_prev_filter m) v.

(** A default-constructed writer. *)
Definition MonoWriter_new : MonoWriter :=
  Build_MonoWriter
    (Build_Parameters [] (fun _ _ => false) 0 0 0 0 0)
    0 0 0 0 0 0 0 0 [] [] [] [] [] [] [] [] 0 0 0 0
    chaos_new 0 (replicate (Z.to_nat MAX_CHAOS_LEVELS) enc_new) enc_new
    None None [] 0 0.

End State.

(** What [designFilters] leaves in the object. *)
Record FilterChoice : Type := {
  fc_tiles : list Z;
  fc_filters : list MonoFilterFuncs;
  fc_filter_indices : list Z;
  fc_sympal_filter_map : list Z;
  fc_normal_filter_count : Z;
  fc_sympal_filter_count : Z;
  fc_filter_count : Z
}.

(** The two planning stages that choose the palette and the filters
    ([designPaletteFilters], [designFilters]) are parameters of the
    coder below: each is given by the values of the fields it assigns,
    as a function of the object it runs on.  [designTiles] is the
    source's ([Planning.designTiles]). *)
Class Planner `{Prim : Primitives} : Type := {
  plan_designPaletteFilters : MonoWriter -> list Z * list Z * Z;
  plan_designFilters : MonoWriter -> FilterChoice
}.

Section Encoder.
Context `{Prim : Primitives} `{Plan : !Planner}.

Implicit Types (st : MonoWriter) (params : Parameters).

(** ** Tile loops *)

(** [for (u16 y = 0; y < size_y; y += tile_size_y)
      for (u16 x = 0; x < size_x; x += tile_size_x) body] *)
Definition for_tiles {S : Type} (fuel : nat) st (body : Z -> Z -> S -> S) (s : S)
    : option S :=
  for_u16 fuel 0 (u16 (size_y (_params st))) (_tile_size_y st)
    (fun y s1 =>
       for_u16 fuel 0 (u16 (size_x (_params st))) (_tile_size_x st)
         (fun x s2 => Some (body x y s2)) s1) s.

(** The element loop of one tile, truncated at the matrix border. *)
Definition for_tile_cells {S : Type} st (x y : Z) (body : Z -> Z -> S -> S) (s : S) : S :=
  while_count (Z.to_nat (_tile_size_y st)) y (u16 (size_y (_params st)))
    (fun py s1 =>
       while_count (Z.to_nat (_tile_size_x st)) x (u16 (size_x (_params st)))
         (fun px s2 => body px py s2) s1) s.

(** ** maskTiles *)

Definition maskTiles (fuel : nat) st : option MonoWriter :=
  match
    for_tiles fuel st
      (fun x y '(p, tiles) =>
         let unmasked :=
           for_tile_cells st x y
             (fun px py found => found || negb (mask (_params st) px py)) false in
         (p + 1, wr tiles p (if unmasked then TODO_TILE else MASK_TILE)))
      (0, _tiles st)
  with
  | Some (_, tiles) => Some (set_tiles tiles st)
  | None => None
  end.

(** ** designPaletteFilters, designFilters *)

Definition designPaletteFilters st : MonoWriter :=
  let '(sympal, sympal_filter_map, sympal_count) := plan_designPaletteFilters st in
  set_sympal_filter_count sympal_count
    (set_sympal_filter_map sympal_filter_map (set_sympal sympal st)).

Definition designFilters st : MonoWriter :=
  let c := plan_designFilters st in
  set_filter_count (fc_filter_count c)
    (set_sympal_filter_count (fc_sympal_filter_count c)
       (set_normal_filter_count (fc_normal_filter_count c)
          (set_sympal_filter_map (fc_sympal_filter_map c)
             (set_filter_indices (fc_filter_indices c)
                (set_filters (fc_filters c) (set_tiles (fc_tiles c) st)))))).

(** ** designPaletteTiles *)

Definition designPaletteTiles (fuel : nat) st : option MonoWriter :=
  if _sympal_filter_count st <? 0 then Some st
  else
    match
      for_tiles fuel st
        (fun _ _ '(p, tiles) =>
           let value := rd tiles p in
           let tiles' :=
             if value =? MASK_TILE then tiles
             else if value >=? SF_COUNT then
               let filter := u8 (rd (_sympal_filter_map st) (value - SF_COUNT)) in
               if negb (filter =? UNUSED_SYMPAL)
               then wr tiles p (u8 (_normal_filter_count st + filter))
               else wr tiles p TODO_TILE
             else tiles in
           (p + 1, tiles'))
        (0, _tiles st)
    with
    | Some (_, tiles) => Some (set_tiles tiles st)
    | None => None
    end.

(** ** computeResiduals *)

Definition no_filter : MonoFilterFuncs := {| safe := fun _ _ _ _ _ => 0 |}.

(** The residual the element loops compute for the element at
    [(px, py)] under filter [f]. *)
Definition residual_of st (f px py : Z) : Z :=
  let size_x := u16 (size_x (_params st)) in
  let num_syms := u16 (num_syms (_params st)) in
  let value := rd (data (_params st)) (px + py * size_x) in
  let prediction :=
    u8 (safe (rd_or no_filter (_filters st) f)
          (data (_params st)) (num_syms - 1) px py size_x) in
  let residual := value + num_syms - prediction in
  if residual >=? num_syms then residual - num_syms else residual.

Definition computeResiduals (fuel : nat) st : option MonoWriter :=
  let size_x := u16 (size_x (_params st)) in
  match
    for_tiles fuel st
      (fun x y '(p, residuals) =>
         let f := rd (_tiles st) p in
         let residuals' :=
           if f >=? _normal_filter_count st then residuals
           else
             for_tile_cells st x y
               (fun px py res =>
                  if negb (mask (_params st) px py)
                  then wr res (px + py * size_x) (u8 (residual_of st f px py))
                  else res)
               residuals in
         (p + 1, residuals'))
      (0, _residuals st)
  with
  | Some (_, residuals) => Some (set_residuals residuals st)
  | None => None
  end.

(** ** designRowFilters *)

(** The inner [tx] loop: both candidate codes of every unmasked tile of
    the row.  [prev] is declared per row and never assigned in this
    loop. *)
Definition row_filter_codes (tiles : list Z) (tiles_x num_filters : Z)
    (pc : Z * list Z) : Z * list Z :=
  let prev := 0 in
  for_range 0 tiles_x
    (fun tx '(p, codes) =>
       let f := rd tiles p in
       let codes' :=
         if negb (f =? MASK_TILE) then
           let codes1 := wr codes tx f in
           let fprev := u8 (f + num_filters - prev) in
           let fprev := if fprev >=? num_filters then u8 (fprev - num_filters) else fprev in
           wr codes1 (tx + tiles_x) fprev
         else codes in
       (p + 1, codes'))
    pc.

Record RowDesign : Type := {
  rd_p : Z;                      (* the tile pointer, as an index *)
  rd_codes : list Z;
  rd_ee : EntropyEstimator;
  rd_row_filters : list Z;
  rd_total_entropy : Z
}.

Definition designRowFilters_row (tiles : list Z) (tiles_x num_filters : Z)
    (passes : nat) (ty : Z) (s : RowDesign) : RowDesign :=
  let '(p, codes) := row_filter_codes tiles tiles_x num_filters (rd_p s, rd_codes s) in
  let ee :=
    match passes with
    | O => rd_ee s
    | _ => ee_subtract (rd_ee s) (slice codes (tiles_x * rd (rd_row_filters s) ty) tiles_x)
    end in
  let e0 := u32 (ee_entropy ee (slice codes 0 tiles_x)) in
  let e1 := u32 (ee_entropy ee (slice codes tiles_x tiles_x)) in
  let '(best_e, best_i) := if e0 >? e1 then (e1, 1) else (e0, 0) in
  {| rd_p := p;
     rd_codes := codes;
     rd_ee := ee_add ee (slice codes (tiles_x * best_i) tiles_x);
     rd_row_filters := wr (rd_row_filters s) ty best_i;
     rd_total_entropy := u32 (rd_total_entropy s + (1 + best_e)) |}.

(** The [while (passes < MAX_ROW_PASSES)] loop, [n] passes to go.  The
    tile pointer [p] is set before the loop and carried across passes. *)
Fixpoint designRowFilters_passes (tiles : list Z) (tiles_x tiles_y num_filters : Z)
    (n passes : nat) (s : RowDesign) : RowDesign :=
  match n with
  | O => s
  | Datatypes.S n' =>
      let s0 :=
        {| rd_p := rd_p s; rd_codes := rd_codes s; rd_ee := rd_ee s;
           rd_row_filters := rd_row_filters s; rd_total_entropy := 0 |} in
      let s1 :=
        for_range 0 tiles_y
          (fun ty acc => designRowFilters_row tiles tiles_x num_filters passes ty acc) s0 in
      designRowFilters_passes tiles tiles_x tiles_y num_filters n' (Datatypes.S passes) s1
  end.

Definition designRowFilters st : MonoWriter :=
  let tiles_x := _tiles_x st in
  let tiles_y := _tiles_y st in
  let num_filters := u16 (_filter_count st) in
  let codes := resize 0 (_ecodes st) (RF_COUNT * tiles_x) in
  let s :=
    designRowFilters_passes (_tiles st) tiles_x tiles_y num_filters MAX_ROW_PASSES O
      {| rd_p := 0; rd_codes := codes; rd_ee := ee_init;
         rd_row_filters := _tile_row_filters st; rd_total_entropy := 0 |} in
  set_row_filter_entropy (rd_total_entropy s)
    (set_tile_row_filters (rd_row_filters s) (set_ecodes (rd_codes s) st)).

(** ** Tile lookup *)

(** Modelled from the spec: [getTile] is declared in [MonoWriter.hpp],
    which is not among the sources; it is the lookup of the tile that
    holds [(x, y)], as [write] performs it inline. *)
Definition getTile st (x y : Z) : Z :=
  rd (_tiles st)
     (Z.shiftr x (_tile_bits_x st) + Z.shiftr y (_tile_bits_y st) * _tiles_x st).

(** [IsMasked (u16 x, u16 y)]; the arguments are 16-bit by type. *)
Definition IsMasked st (x y : Z) : bool :=
  rd (_tiles st) (x + y * _tiles_x st) =? MASK_TILE.

(** ** recurseCompress *)

Definition recurse_params st : Parameters :=
  {| data := _tiles st;
     mask := IsMasked st;
     num_syms := _filter_count st;
     size_x := _tiles_x st;
     size_y := _tiles_y st;
     min_bits := min_bits (_params st);
     max_bits := max_bits (_params st) |}.

(** [rec] stands for [MonoWriter::process] on the inner writer. *)
Definition recurseCompress
    (rec : MonoWriter -> Parameters -> option (MonoWriter * Z)) st
    : option MonoWriter :=
  if _tiles_count st <? RECURSE_THRESH_COUNT then Some st
  else
    match rec MonoWriter_new (recurse_params st) with
    | None => None
    | Some (inner, recurse_entropy) =>
        if recurse_entropy >? _row_filter_entropy st
        then Some (set_filter_encoder None st)
        else Some (set_filter_encoder (Some inner) st)
    end.

(** ** The raster pass shared by designChaos, initializeEncoders and simulate *)

(** Whether the element at [(x, y)] carries no residual:
    [f == MASK_TILE || mask(x, y) || f >= _normal_filter_count]. *)
Definition skipped st (x y : Z) : bool :=
  let f := getTile st x y in
  (f =? MASK_TILE) || mask (_params st) x y || (f >=? _normal_filter_count st).

(** [for y: startRow; for x: if skipped then zero else (get; store; use)],
    the chaos object coming first in the loop state. *)
Definition raster {S : Type} st (use : Z -> Z -> S -> S) (cs : MonoChaos * S)
    : MonoChaos * S :=
  for_range 0 (size_y (_params st))
    (fun y '(c, s) =>
       for_range 0 (size_x (_params st))
         (fun x '(c, s) =>
            if skipped st x y then (chaos_zero c, s)
            else
              let residual := rd (_residuals st) (x + y * size_x (_params st)) in
              let chaos := chaos_get c in
              (chaos_store c residual (num_syms (_params st)), use chaos residual s))
         (chaos_startRow c, s))
    cs.

(** ** designChaos *)

Definition designChaos_level st (chaos_levels : Z)
    (s : MonoChaos * list EntropyEstimator * Z * Z)
    : MonoChaos * list EntropyEstimator * Z * Z :=
  let '(chaos, ee, best_entropy, best_chaos_levels) := s in
  let chaos := chaos_init chaos chaos_levels (size_x (_params st)) in
  let ee := for_range 0 chaos_levels (fun ii ee => wr ee ii ee_init) ee in
  let '(chaos, ee) :=
    raster st
      (fun bin residual ee => wr ee bin (ee_addSingle (rd_or ee_init ee bin) residual))
      (chaos_start chaos, ee) in
  let entropy :=
    for_range 0 chaos_levels
      (fun ii entropy =>
         u32 (u32 (entropy + ee_entropyOverall (rd_or ee_init ee ii))
              + 5 * num_syms (_params st)))
      0 in
  if best_entropy >? entropy
  then (chaos, ee, entropy, chaos_levels)
  else (chaos, ee, best_entropy, best_chaos_levels).

Definition designChaos_sweep st : MonoChaos * list EntropyEstimator * Z * Z :=
  for_range 1 MAX_CHAOS_LEVELS (designChaos_level st)
    (_chaos st, replicate (Z.to_nat MAX_CHAOS_LEVELS) ee_init, 2147483647, 1).

Definition designChaos st : MonoWriter :=
  let '(chaos, _, best_entropy, best_chaos_levels) := designChaos_sweep st in
  set_chaos_entropy best_entropy
    (set_chaos (chaos_init chaos best_chaos_levels (size_x (_params st))) st).

(** ** Row-filter residuals of the tile map *)

(** The tile loop shared by initializeEncoders and simulate: every
    unmasked tile yields its filter, or its difference from the previous
    unmasked filter of the row when the row uses [RF_PREV]. *)
Definition row_filter_symbol (filter_count tile_row_filter f prev : Z) : Z * Z :=
  if tile_row_filter =? RF_PREV then
    let rf := u8 (f + (filter_count - prev)) in
    let rf := if rf >=? filter_count then u8 (rf - filter_count) else rf in
    (rf, f)
  else (f, prev).

Definition for_row_filter_symbols {S : Type} st (use : Z -> S -> S) (s : S) : S :=
  snd
    (for_range 0 (_tiles_y st)
       (fun ty '(tile, s) =>
          let tile_row_filter := rd (_tile_row_filters st) ty in
          let '(tile, _, s) :=
            for_range 0 (_tiles_x st)
              (fun _ '(tile, prev, s) =>
                 let f := rd (_tiles st) tile in
                 if negb (f =? MASK_TILE) then
                   let '(rf, prev') :=
                     row_filter_symbol (_filter_count st) tile_row_filter f prev in
                   (tile + 1, prev', use rf s)
                 else (tile + 1, prev, s))
              (tile, 0, s) in
          (tile, s))
       (0, s)).

(** ** initializeEncoders *)

Definition initializeEncoders st : MonoWriter :=
  let '(chaos, encoder) :=
    raster st
      (fun bin residual enc => wr enc bin (enc_add (rd_or enc_new enc bin) residual))
      (chaos_start (_chaos st), _encoder st) in
  let encoder :=
    for_range 0 (chaos_getBinCount chaos)
      (fun ii enc => wr enc ii (enc_finalize (rd_or enc_new enc ii))) encoder in
  let st1 := set_encoder encoder (set_chaos chaos st) in
  match _filter_encoder st with
  | Some _ => st1
  | None =>
      set_row_filter_encoder
        (enc_finalize
           (for_row_filter_symbols st (fun rf e => enc_add e rf) (_row_filter_encoder st)))
        st1
  end.

(** ** simulate *)

Definition simulate_header st : Z :=
  let bits := 4 + chaos_getBinCount (_chaos st) * 5 * num_syms (_params st) in
  let range := u32 (max_bits (_params st) - min_bits (_params st)) in
  let bits := if range >? 0 then bits + (BSR32 range + 1) else bits in
  let bits := bits + (5 + 7 * _normal_filter_count st) in
  let bits := bits + (4 + 8 * _sympal_filter_count st) in
  bits + 1.

Definition simulate_residuals st : MonoChaos * Z :=
  raster st
    (fun bin residual bits => bits + enc_simulate (rd_or enc_new (_encoder st) bin) residual)
    (chaos_start (_chaos st), 0).

(** The accumulator [bits] is a [u32]; its wrap-around is applied to the
    sum. *)
Fixpoint simulate st : MonoWriter * Z :=
  let '(inner, filter_bits) :=
    match _filter_encoder st with
    | Some inner =>
        let '(inner', b) := simulate inner in (Some inner', b)
    | None =>
        (None,
         for_row_filter_symbols st
           (fun rf bits => bits + enc_simulate (_row_filter_encoder st) rf) 0)
    end in
  let '(chaos, residual_bits) := simulate_residuals st in
  (set_chaos chaos (set_filter_encoder inner st),
   u32 (simulate_header st + filter_bits + residual_bits)).

End Encoder.

(** ** Loops with [break] *)

(** [u16 p = start, c = count; while (c-- > 0 && p < bound) { body; ++p; }]
    whose body may leave the loop: it yields the state and whether the
    loop goes on. *)
Fixpoint while_count_break {S : Type} (c : nat) (p bound : Z)
    (body : Z -> S -> S * bool) (s : S) : S :=
  match c with
  | O => s
  | Datatypes.S c' =>
      if p <? bound then
        let '(s', go) := body p s in
        if go then while_count_break c' (p + 1) bound body s' else s'
      else s
  end.

(** [for (int i = lo; i < hi; ++i) body] whose body may [break]. *)
Fixpoint for_break_from {S : Type} (n : nat) (i : Z)
    (body : Z -> S -> S * bool) (s : S) : S :=
  match n with
  | O => s
  | Datatypes.S n' =>
      let '(s', go) := body i s in
      if go then for_break_from n' (i + 1) body s' else s'
  end.

Definition for_range_break {S : Type} (lo hi : Z) (body : Z -> S -> S * bool) (s : S) : S :=
  for_break_from (Z.to_nat (hi - lo)) lo body s.

(** * The planning stages

    [designPaletteFilters], [designFilters] and [designTiles] as the
    source has them.  What they use beyond [Primitives] is not among the
    sources either and is a parameter: the remaining constants of the
    header, the tuning fields of [Parameters] (every coder of a chain
    holds the same ones: recurseCompress copies them), the filter
    catalog and the filter scorer. *)
Class Tuning : Type := {
  MAX_SYMS : Z;
  MAX_PALETTE : Z;
  MAX_FILTERS : Z;
  MAX_PASSES : Z;

  sympal_thresh_tiles : Z -> Z;   (* (u32)(_params.sympal_thresh * tiles_count) *)
  filter_thresh_tiles : Z -> Z;   (* (int)(_params.filter_thresh * tiles_count) *)
  AWARDS : list Z;
  award_count : Z;
  max_filters : Z;
  mono_revisitCount : Z;          (* _params.knobs->mono_revisitCount *)

  MONO_FILTERS : list MonoFilterFuncs;
  ResidualScore : Z -> Z -> Z;    (* MonoChaos::ResidualScore(residual, num_syms) *)

  FilterScorer : Type;
  fs_init : Z -> FilterScorer;                        (* init(count) *)
  fs_reset : FilterScorer -> FilterScorer;
  fs_add : FilterScorer -> Z -> Z -> FilterScorer;    (* add(index, score) *)
  fs_getTop : FilterScorer -> Z -> list (Z * Z)       (* getTop(k, true): index, score *)
}.

Module Planning.
Section Stages.
Context `{Prim : Primitives} `{Tune : Tuning}.

Implicit Types (st : MonoWriter).

(** ** designPaletteFilters *)

(** The element loops of one tile: [uniform], [seen] and
    [uniform_value].  A second value sets [cy = 0] and breaks, which
    ends both loops. *)
Definition uniform_scan st (x y : Z) : bool * bool * Z :=
  let size_x := u16 (size_x (_params st)) in
  while_count_break (Z.to_nat (_tile_size_y st)) y (u16 (size_y (_params st)))
    (fun py s =>
       let s' :=
         while_count_break (Z.to_nat (_tile_size_x st)) x size_x
           (fun px '(uniform, seen, uniform_value) =>
              if negb (mask (_params st) px py) then
                let value := rd (data (_params st)) (px + py * size_x) in
                if negb seen then ((uniform, true, value), true)
                else if negb (value =? uniform_value)
                     then ((false, seen, uniform_value), false)
                     else ((uniform, seen, uniform_value), true)
              else ((uniform, seen, uniform_value), true))
           s in
       (s', fst (fst s')))
    (true, false, 0).

(** The tile loops: [hist] after them. *)
Definition uniform_histogram (fuel : nat) st : option (list Z) :=
  match
    for_tiles fuel st
      (fun x y '(p, hist) =>
         if rd (_tiles st) p =? MASK_TILE then (p + 1, hist)
         else
           let '(uniform, _, uniform_value) := uniform_scan st x y in
           (p + 1,
            if uniform
            then wr hist uniform_value (u32 (rd hist uniform_value + 1))
            else hist))
      (0, replicate (Z.to_nat MAX_SYMS) 0)
  with
  | Some (_, hist) => Some hist
  | None => None
  end.

(** The loop over the histogram bins: [_sympal] and [sympal_count]. *)
Definition select_sympal (hist : list Z) (sympal_thresh num_syms : Z) (sympal : list Z)
    : list Z * Z :=
  for_range_break 0 num_syms
    (fun sym '(sympal, sympal_count) =>
       let coverage := rd hist sym in
       if coverage >? sympal_thresh then
         let sympal := wr sympal sympal_count (u8 sym) in
         let sympal_count := sympal_count + 1 in
         ((sympal, sympal_count), negb (sympal_count >=? MAX_PALETTE))
       else ((sympal, sympal_count), true))
    (sympal, 0).

Definition designPaletteFilters (fuel : nat) st : option MonoWriter :=
  hist ← uniform_histogram fuel st;
  let sympal_thresh := sympal_thresh_tiles (_tiles_count st) in
  let '(sympal, sympal_count) :=
    select_sympal hist sympal_thresh (num_syms (_params st)) (_sympal st) in
  let sympal_filter_map :=
    for_range 0 sympal_count (fun ii m => wr m ii UNUSED_SYMPAL) (_sympal_filter_map st) in
  Some (set_sympal_filter_count sympal_count
          (set_sympal_filter_map sympal_filter_map (set_sympal sympal st))).

(** ** designFilters *)

(** The element loops of one tile, which do not break here: the
    uniformity of the tile and the score of every catalog filter. *)
Definition score_tile st (x y : Z) (scores : FilterScorer)
    : bool * bool * Z * FilterScorer :=
  let size_x := u16 (size_x (_params st)) in
  let num_syms := u16 (num_syms (_params st)) in
  for_tile_cells st x y
    (fun px py '(uniform, seen, uniform_value, scores) =>
       if negb (mask (_params st) px py) then
         let value := rd (data (_params st)) (px + py * size_x) in
         let '(uniform, seen, uniform_value) :=
           if negb seen then (uniform, true, value)
           else if negb (value =? uniform_value) then (false, seen, uniform_value)
                else (uniform, seen, uniform_value) in
         let scores :=
           for_range 0 SF_COUNT
             (fun f scores =>
                let prediction :=
                  u8 (safe (rd_or no_filter MONO_FILTERS f)
                        (data (_params st)) (num_syms - 1) px py size_x) in
                let residual := value + num_syms - prediction in
                let residual :=
                  if residual >=? num_syms then residual - num_syms else residual in
                let score := u8 (ResidualScore residual num_syms) in
                fs_add scores f score)
             scores in
         (uniform, seen, uniform_value, scores)
       else (uniform, seen, uniform_value, scores))
    (true, false, 0, scores).

(** The search for the palette entry of a uniform tile: the award, the
    mark left in the tile and [offset]. *)
Definition award_sympal st (p uniform_value : Z) (awards : FilterScorer) (tiles : list Z)
    : Z * FilterScorer * list Z :=
  for_range_break 0 (_sympal_filter_count st)
    (fun f '(offset, awards, tiles) =>
       if rd (_sympal st) f =? uniform_value then
         ((1, fs_add awards (SF_COUNT + f) (rd AWARDS 0), wr tiles p (u8 (SF_COUNT + f))),
          false)
       else ((offset, awards, tiles), true))
    (0, awards, tiles).

(** One tile of the first loops; the state is the tile pointer, the
    tile map and the two scorers. *)
Definition designFilters_tile st (x y : Z) (s : Z * list Z * FilterScorer * FilterScorer)
    : Z * list Z * FilterScorer * FilterScorer :=
  let '(p, tiles, scores, awards) := s in
  if rd tiles p =? MASK_TILE then (p + 1, tiles, scores, awards)
  else
    let '(uniform, _, uniform_value, scores) := score_tile st x y (fs_reset scores) in
    let '(offset, awards, tiles) :=
      if uniform then award_sympal st p uniform_value awards tiles
      else (0, awards, tiles) in
    let top := fs_getTop scores award_count in
    let awards :=
      for_range offset award_count
        (fun ii awards => fs_add awards (fst (rd_or (0, 0) top (ii - offset))) (rd AWARDS ii))
        awards in
    (p + 1, tiles, scores, awards).

(** The state of the loop that chooses the filters. *)
Record FilterSelection : Type := {
  fsel_map : list Z;                    (* _sympal_filter_map *)
  fsel_palette : list Z;                (* u8 palette[MAX_PALETTE] *)
  fsel_filters : list MonoFilterFuncs;  (* _filters *)
  fsel_indices : list Z;                (* _filter_indices *)
  fsel_coverage : Z;
  fsel_sympal_f : Z;
  fsel_normal_f : Z;
  fsel_filters_set : Z
}.

(** One of the sorted filter scores. *)
Definition choose_filter (top : list (Z * Z)) (coverage_thresh ii : Z)
    (s : FilterSelection) : FilterSelection * bool :=
  let index := fst (rd_or (0, 0) top ii) in
  let score := snd (rd_or (0, 0) top ii) in
  let covered := Z.quot score (rd AWARDS 0) in
  let coverage := fsel_coverage s + covered in
  if index >=? SF_FIXED then
    let s1 :=
      if index >=? SF_COUNT then
        {| fsel_map := wr (fsel_map s) (index - SF_COUNT) (u8 (fsel_sympal_f s));
           fsel_palette := wr (fsel_palette s) (fsel_sympal_f s) (u8 index);
           fsel_filters := fsel_filters s;
           fsel_indices := fsel_indices s;
           fsel_coverage := coverage;
           fsel_sympal_f := fsel_sympal_f s + 1;
           fsel_normal_f := fsel_normal_f s;
           fsel_filters_set := fsel_filters_set s + 1 |}
      else
        {| fsel_map := fsel_map s;
           fsel_palette := fsel_palette s;
           fsel_filters :=
             wr (fsel_filters s) (fsel_normal_f s) (rd_or no_filter MONO_FILTERS index);
           fsel_indices := wr (fsel_indices s) (fsel_normal_f s) index;
           fsel_coverage := coverage;
           fsel_sympal_f := fsel_sympal_f s;
           fsel_normal_f := fsel_normal_f s + 1;
           fsel_filters_set := fsel_filters_set s + 1 |} in
    if fsel_filters_set s1 >=? MAX_FILTERS then (s1, false)
    else (s1, negb (coverage >=? coverage_thresh))
  else
    ({| fsel_map := fsel_map s;
        fsel_palette := fsel_palette s;
        fsel_filters := fsel_filters s;
        fsel_indices := fsel_indices s;
        fsel_coverage := coverage;
        fsel_sympal_f := fsel_sympal_f s;
        fsel_normal_f := fsel_normal_f s;
        fsel_filters_set := fsel_filters_set s |},
     negb (coverage >=? coverage_thresh)).

(** From "Copy the first SF_FIXED filters" to the loop over the sorted
    scores, [top] being [awards.getTop(count, true)]. *)
Definition choose_filters st (top : list (Z * Z)) (count : Z) : FilterSelection :=
  let '(filters, filter_indices) :=
    for_range 0 SF_FIXED
      (fun f '(filters, filter_indices) =>
         (wr filters f (rd_or no_filter MONO_FILTERS f), wr filter_indices f f))
      (_filters st, _filter_indices st) in
  let coverage_thresh := filter_thresh_tiles (_tiles_count st) in
  for_range_break 0 count (choose_filter top coverage_thresh)
    {| fsel_map := _sympal_filter_map st;
       fsel_palette := replicate (Z.to_nat MAX_PALETTE) 0;
       fsel_filters := filters;
       fsel_indices := filter_indices;
       fsel_coverage := 0;
       fsel_sympal_f := 0;
       fsel_normal_f := SF_FIXED;
       fsel_filters_set := SF_FIXED |}.

Definition designFilters (fuel : nat) st : option MonoWriter :=
  let scores := fs_init (SF_COUNT + _sympal_filter_count st) in
  let awards := fs_reset (fs_init (SF_COUNT + _sympal_filter_count st)) in
  match for_tiles fuel st (designFilters_tile st) (0, _tiles st, scores, awards) with
  | None => None
  | Some (_, tiles, _, awards) =>
      let count := max_filters + SF_FIXED in
      let count := if count >? SF_COUNT then SF_COUNT else count in
      let s := choose_filters st (fs_getTop awards count) count in
      (* Insert filter indices at the end *)
      let filter_indices :=
        for_range 0 (fsel_sympal_f s)
          (fun ii fi => wr fi (ii + fsel_normal_f s) (rd (fsel_palette s) ii))
          (fsel_indices s) in
      Some (set_filter_count (fsel_filters_set s)
              (set_sympal_filter_count (fsel_sympal_f s)
                 (set_normal_filter_count (fsel_normal_f s)
                    (set_sympal_filter_map (fsel_map s)
                       (set_filter_indices filter_indices
                          (set_filters (fsel_filters s) (set_tiles tiles st)))))))
  end.

(** ** designTiles *)

(** The state of the loops: the tile pointer, the tile map, the code
    workspace, the estimator, [revisitCount], and whether the [return]
    inside the loops was taken, which ends them. *)
Record TileDesign : Type := {
  td_p : Z;
  td_tiles : list Z;
  td_codes : list Z;
  td_ee : EntropyEstimator;
  td_revisitCount : Z;
  td_returned : bool
}.

(** The codes of the tile under [old_filter], one per unmasked element. *)
Definition codes_of_old_filter st (x y old_filter : Z) (codes : list Z) : Z * list Z :=
  for_tile_cells st x y
    (fun px py '(code_count, codes) =>
       if negb (mask (_params st) px py)
       then (code_count + 1, wr codes code_count (u8 (residual_of st old_filter px py)))
       else (code_count, codes))
    (0, codes).

(** The codes of the tile under every filter, filter [f] at offset
    [f * code_stride]. *)
Definition codes_of_all_filters st (x y code_stride : Z) (codes : list Z) : Z * list Z :=
  for_tile_cells st x y
    (fun px py '(code_count, codes) =>
       if negb (mask (_params st) px py) then
         (code_count + 1,
          for_range 0 (_filter_count st)
            (fun f codes =>
               wr codes (code_count + f * code_stride) (u8 (residual_of st f px py)))
            codes)
       else (code_count, codes))
    (0, codes).

(** The filter of lowest entropy, neighbours rewarded. *)
Definition best_filter st (ee : EntropyEstimator) (codes : list Z)
    (code_stride code_count a b c d : Z) : Z * Z :=
  for_range 0 (_filter_count st)
    (fun f '(lowest_entropy, bestFilterIndex) =>
       let entropy := ee_entropy ee (slice codes (f * code_stride) code_count) in
       let entropy := if entropy =? 0 then entropy - 1 else entropy in
       let entropy := if f =? a then entropy - 1 else entropy in
       let entropy := if f =? b then entropy - 1 else entropy in
       let entropy := if f =? c then entropy - 1 else entropy in
       let entropy := if f =? d then entropy - 1 else entropy in
       if lowest_entropy >? entropy then (entropy, f)
       else (lowest_entropy, bestFilterIndex))
    (2147483647, 0).

(** One tile of the loops, [tx] and [ty] being its coordinates in the
    tile map. *)
Definition designTiles_tile st (passes x y tx ty : Z) (s : TileDesign) : TileDesign :=
  let code_stride := u32 (_tile_size_x st * _tile_size_y st) in
  let next p tiles codes ee revisitCount returned :=
    {| td_p := p; td_tiles := tiles; td_codes := codes; td_ee := ee;
       td_revisitCount := revisitCount; td_returned := returned |} in
  if td_returned s then s
  else
    let p := td_p s in
    if rd (td_tiles s) p >=? _normal_filter_count st then
      next (p + 1) (td_tiles s) (td_codes s) (td_ee s) (td_revisitCount s) false
    else
      let revisitCount :=
        if passes >? 0 then td_revisitCount s - 1 else td_revisitCount s in
      if (passes >? 0) && (revisitCount <? 0) then
        next p (td_tiles s) (td_codes s) (td_ee s) revisitCount true
      else
        let '(codes, ee) :=
          if passes >? 0 then
            let old_filter := rd (td_tiles s) p in
            if rd (_filter_indices st) old_filter <? SF_COUNT then
              let '(code_count, codes) := codes_of_old_filter st x y old_filter (td_codes s) in
              (codes, ee_subtract (td_ee s) (slice codes 0 code_count))
            else (td_codes s, td_ee s)
          else (td_codes s, td_ee s) in
        let '(code_count, codes) := codes_of_all_filters st x y code_stride codes in
        let tiles := td_tiles s in
        let b := if ty >? 0 then rd tiles (p - _tiles_x st) else MASK_TILE in
        let c :=
          if (ty >? 0) && (tx >? 0) then rd tiles (p - _tiles_x st - 1) else MASK_TILE in
        let d :=
          if (ty >? 0) && (tx <? _tiles_x st - 1)
          then rd tiles (p - _tiles_x st + 1) else MASK_TILE in
        let a := if tx >? 0 then rd tiles (p - 1) else MASK_TILE in
        let '(_, bestFilterIndex) := best_filter st ee codes code_stride code_count a b c d in
        next (p + 1) (wr tiles p (u8 bestFilterIndex)) codes ee revisitCount false.

(** The two tile loops, which count [ty] and [tx] beside [y] and [x]. *)
Definition designTiles_sweep (fuel : nat) st (passes : Z) (s : TileDesign)
    : option TileDesign :=
  match
    for_u16 fuel 0 (u16 (size_y (_params st))) (_tile_size_y st)
      (fun y '(ty, s1) =>
         match
           for_u16 fuel 0 (u16 (size_x (_params st))) (_tile_size_x st)
             (fun x '(tx, s2) => Some (tx + 1, designTiles_tile st passes x y tx ty s2))
             (0, s1)
         with
         | Some (_, s3) => Some (ty + 1, s3)
         | None => None
         end)
      (0, s)
  with
  | Some (_, s') => Some s'
  | None => None
  end.

(** [while (passes < MAX_PASSES)]: no statement of the loop assigns
    [passes]; the loop is left through the [return] only.  [fuel]
    bounds the number of sweeps and [None] means it ran out. *)
Fixpoint designTiles_passes (fuel : nat) st (passes : Z) (s : TileDesign)
    : option TileDesign :=
  match fuel with
  | O => None
  | Datatypes.S k =>
      if passes <? MAX_PASSES then
        match designTiles_sweep k st passes s with
        | None => None
        | Some s' =>
            if td_returned s' then Some s' else designTiles_passes k st passes s'
        end
      else Some s
  end.

Definition designTiles (fuel : nat) st : option MonoWriter :=
  let code_stride := u32 (_tile_size_x st * _tile_size_y st) in
  let codes_size := u32 (code_stride * _filter_count st) in
  let codes := resize 0 (_ecodes st) codes_size in
  match
    designTiles_passes fuel st 0
      {| td_p := 0; td_tiles := _tiles st; td_codes := codes; td_ee := ee_init;
         td_revisitCount := mono_revisitCount; td_returned := false |}
  with
  | Some s => Some (set_ecodes (td_codes s) (set_tiles (td_tiles s) st))
  | None => None
  end.

End Stages.
End Planning.

Section Coder.
Context `{Prim : Primitives} `{Plan : !Planner} `{Tune : Tuning}.

Implicit Types (st : MonoWriter) (params : Parameters).

(** ** process *)

Definition cleanup st : MonoWriter :=
  set_best_writer None (set_filter_encoder None st).

(** The body of the tile-size loop up to and including
    initializeEncoders. *)
Definition process_body
    (rec : MonoWriter -> Parameters -> option (MonoWriter * Z))
    (fuel : nat) (bits : Z) st : option MonoWriter :=
  let tile_size := u16 (Z.shiftl 1 bits) in
  let tiles_x := u16 (Z.shiftr (size_x (_params st) + tile_size - 1) bits) in
  let tiles_y := u16 (Z.shiftr (size_y (_params st) + tile_size - 1) bits) in
  let tiles_count := tiles_x * tiles_y in
  let st :=
    set_tiles_y tiles_y
      (set_tiles_x tiles_x
         (set_tile_size_y tile_size
            (set_tile_size_x tile_size
               (set_tile_bits_y (u16 bits) (set_tile_bits_x (u16 bits) st))))) in
  let st :=
    set_tile_row_filters (resize 0 (_tile_row_filters st) tiles_y)
      (set_tiles (resize 0 (_tiles st) tiles_count) (set_tiles_count tiles_count st)) in
  let st :=
    set_residuals
      (resize 0 (_residuals st) (u32 (size_x (_params st) * size_y (_params st)))) st in
  st ← maskTiles fuel st;
  let st := designFilters (designPaletteFilters st) in
  st ← designPaletteTiles fuel st;
  st ← Planning.designTiles fuel st;
  st ← computeResiduals fuel st;
  st ← recurseCompress rec (designRowFilters st);
  Some (initializeEncoders (designChaos st)).

(** [if (!_best_writer) _best_writer = new MonoWriter;] followed by the
    comment "TODO: Store off the best option": nothing is stored. *)
Definition allocate_best_writer st : MonoWriter :=
  match _best_writer st with
  | Some _ => st
  | None => set_best_writer (Some MonoWriter_new) st
  end.

(** The [for (bits = min_bits; bits <= max_bits; ++bits)] loop with [n]
    iterations to go; the result carries [best_entropy] and
    [best_bits]. *)
Fixpoint process_loop
    (rec : MonoWriter -> Parameters -> option (MonoWriter * Z))
    (fuel n : nat) (bits : Z) st (best_entropy best_bits : Z)
    : option (MonoWriter * Z * Z) :=
  match n with
  | O => Some (st, best_entropy, best_bits)
  | Datatypes.S n' =>
      match process_body rec fuel bits st with
      | None => None
      | Some st1 =>
          let '(st2, entropy) := simulate st1 in
          if best_entropy >? entropy then
            process_loop rec fuel n' (bits + 1) (allocate_best_writer st2) entropy bits
          else Some (st2, best_entropy, best_bits)
      end
  end.

Definition process_start st params : MonoWriter :=
  let st := set_filter_encoder None (set_params params (cleanup st)) in
  let range := u32 (max_bits params - min_bits params) in
  let bits_bc := if range >? 0 then BSR32 range + 1 else 0 in
  set_tile_bits_field_bc bits_bc st.

Definition process_search
    (rec : MonoWriter -> Parameters -> option (MonoWriter * Z))
    (fuel : nat) st params : option (MonoWriter * Z * Z) :=
  process_loop rec fuel (Z.to_nat (max_bits params - min_bits params + 1))
    (min_bits params) (process_start st params) 2147483647 (max_bits params).

(** [fuel] bounds the depth of the recursion through recurseCompress and
    the iterations of every tile loop; [None] means it ran out. *)
Fixpoint process (fuel : nat) st params : option (MonoWriter * Z) :=
  match fuel with
  | O => None
  | Datatypes.S fuel' =>
      match process_search (process fuel') fuel' st params with
      | Some (st', best_entropy, _) => Some (st', best_entropy)
      | None => None
      end
  end.

Definition init (fuel : nat) st params : option (MonoWriter * bool) :=
  match process fuel st params with
  | Some (st', _) => Some (st', true)
  | None => None
  end.

(** ** writeTables and initializeWriter *)

Definition initializeWriter st : MonoWriter :=
  let st1 :=
    set_chaos (chaos_start (_chaos st))
      (set_tile_seen (resize false (_tile_seen st) (_tiles_x st)) st) in
  let st2 :=
    match _filter_encoder st with
    | Some _ => st1
    | None => set_row_filter_encoder (enc_reset (_row_filter_encoder st)) st1
    end in
  set_encoder
    (for_range 0 (chaos_getBinCount (_chaos st2))
       (fun ii enc => wr enc ii (enc_reset (rd_or enc_new enc ii))) (_encoder st2))
    st2.

(** The header fields in front of the recurse bit, in emission order,
    with the running value of [Stats.basic_overhead_bits]. *)
Definition tables_tile_size st : Z * list Emit :=
  if _tile_bits_field_bc st >? 0 then
    (_tile_bits_field_bc st,
     [WriteBits (u32 (_tile_bits_x st - min_bits (_params st))) (_tile_bits_field_bc st)])
  else (0, []).

Definition tables_sympal st : Z * list Emit :=
  for_range 0 (_sympal_filter_count st)
    (fun f '(basic, tr) => (basic + 8, tr ++ [WriteBits (rd (_sympal st) f) 8]))
    (0, [WriteBits (u32 (_sympal_filter_count st - 1)) 4]).

Definition tables_normal st : Z * list Emit :=
  for_range SF_FIXED (_normal_filter_count st)
    (fun f '(basic, tr) => (basic + 7, tr ++ [WriteBits (rd (_filter_indices st) f) 7]))
    (0, [WriteBits (u32 (_normal_filter_count st - SF_FIXED)) 5]).

Definition tables_chaos st : Z * list Emit :=
  (4, [WriteBits (u32 (chaos_getBinCount (_chaos st) - 1)) 4]).

Definition tables_encoders st : Z * list Emit :=
  for_range 0 (chaos_getBinCount (_chaos st))
    (fun ii '(overhead, tr) =>
       let bits := enc_writeTables (rd_or enc_new (_encoder st) ii) in
       (overhead + bits, tr ++ [CoderTables (ChaosBin ii) bits]))
    (0, []).

(** The result is the returned bit count (the sum of the three [Stats]
    counters) and the calls made on the writer. *)
Fixpoint writeTables st : MonoWriter * Z * list Emit :=
  let '(b_size, tr_size) := tables_tile_size st in
  let '(b_sympal, tr_sympal) := tables_sympal st in
  let '(b_normal, tr_normal) := tables_normal st in
  let '(b_chaos, tr_chaos) := tables_chaos st in
  let '(encoder_overhead_bits, tr_encoders) := tables_encoders st in
  let basic_overhead_bits := b_size + b_sympal + b_normal + b_chaos in
  let '(inner, filter_overhead_bits, tr_filter) :=
    match _filter_encoder st with
    | Some inner =>
        let '(inner', bits, tr) := writeTables inner in
        (Some inner', 1 + bits, WriteBit 1 :: tr)
    | None =>
        let bits := enc_writeTables (_row_filter_encoder st) in
        (None, 1 + bits, [WriteBit 0; CoderTables RowFilterCoder bits])
    end in
  (initializeWriter (set_filter_encoder inner st),
   encoder_overhead_bits + basic_overhead_bits + filter_overhead_bits,
   tr_size ++ tr_sympal ++ tr_normal ++ tr_chaos ++ tr_encoders ++ tr_filter).

(** ** writeRowHeader *)

Fixpoint writeRowHeader st (y : Z) : MonoWriter * Z * list Emit :=
  let st1 := set_chaos (chaos_startRow (_chaos st)) st in
  if Z.land y (_tile_size_y st - 1) =? 0 then
    let st2 := set_tile_seen (map (fun _ => false) (_tile_seen st)) st1 in
    let ty := u16 (Z.shiftr y (_tile_bits_y st)) in
    match _filter_encoder st with
    | Some inner =>
        let '(inner', bits, tr) := writeRowHeader inner ty in
        (set_filter_encoder (Some inner') st2, bits, tr)
    | None =>
        (set_prev_filter 0 st2, 1, [WriteBit (rd (_tile_row_filters st) ty)])
    end
  else (st1, 0, []).

(** ** write *)

Fixpoint write st (x y : Z) : MonoWriter * Z * list Emit :=
  (* If this pixel is masked *)
  let st1 :=
    if mask (_params st) x y then set_chaos (chaos_zero (_chaos st)) st else st in
  let tx := u16 (Z.shiftr x (_tile_bits_x st)) in
  (* If tile not seen yet *)
  let '(st2, overhead_bits, tr_filter) :=
    if negb (rd_or false (_tile_seen st) tx) then
      let ty := u16 (Z.shiftr y (_tile_bits_y st)) in
      let f := rd (_tiles st) (tx + ty * _tiles_x st) in
      let st_seen := set_write_filter f (set_tile_seen (wr (_tile_seen st) tx true) st1) in
      if negb (f =? MASK_TILE) then
        match _filter_encoder st with
        | Some inner =>
            let '(inner', bits, tr) := write inner tx ty in
            (set_filter_encoder (Some inner') st_seen, bits, tr)
        | None =>
            let '(rf, prev') :=
              row_filter_symbol (_filter_count st) (rd (_tile_row_filters st) ty)
                f (_prev_filter st) in
            let bits := enc_write (_row_filter_encoder st) rf in
            (set_prev_filter prev' st_seen, bits, [CoderSymbol RowFilterCoder rf bits])
        end
      else (st_seen, 0, [])
    else (st1, 0, []) in
  (* If filter is masked *)
  let f := _write_filter st2 in
  if f >=? _normal_filter_count st then
    (set_chaos (chaos_zero (_chaos st2)) st2, overhead_bits + 0, tr_filter)
  else
    let residual := rd (_residuals st) (x + y * size_x (_params st)) in
    let chaos := chaos_get (_chaos st2) in
    let data_bits := enc_write (rd_or enc_new (_encoder st) chaos) residual in
    (set_chaos (chaos_store (_chaos st2) residual (num_syms (_params st))) st2,
     overhead_bits + data_bits,
     tr_filter ++ [CoderSymbol (ChaosBin chaos) residual data_bits]).

(** ** The write pass

    The caller's protocol: the tables, then for every row its header and
    its elements from left to right. *)
Definition write_row st (y : Z) : MonoWriter * list Emit :=
  let '(st1, _, tr0) := writeRowHeader st y in
  for_range 0 (size_x (_params st))
    (fun x '(s, tr) => let '(s', _, t) := write s x y in (s', tr ++ t))
    (st1, tr0).

Definition write_rows st : MonoWriter * list Emit :=
  for_range 0 (size_y (_params st))
    (fun y '(s, tr) => let '(s', t) := write_row s y in (s', tr ++ t))
    (st, []).

Definition write_image st : MonoWriter * list Emit :=
  let '(st1, _, tr0) := writeTables st in
  let '(st2, tr1) := write_rows st1 in
  (st2, tr0 ++ tr1).

End Coder.

(** ** Contracts of the parameters that some statements assume *)

Section Contracts.
Context `{Prim : Primitives}.

(** The chaos object reports the bin count [init] was given, and the
    operations of a pass leave it alone. *)
Definition chaos_bins_kept : Prop :=
  (forall c n sx, chaos_getBinCount (chaos_init c n sx) = n) /\
  (forall c, chaos_getBinCount (chaos_start c) = chaos_getBinCount c) /\
  (forall c, chaos_getBinCount (chaos_startRow c) = chaos_getBinCount c) /\
  (forall c, chaos_getBinCount (chaos_zero c) = chaos_getBinCount c) /\
  (forall c r n, chaos_getBinCount (chaos_store c r n) = chaos_getBinCount c).

End Contracts.

(** The calls on the writer that write a single bit. *)
Definition is_write_bit (e : Emit) : bool :=
  match e with WriteBit _ => true | _ => false end.

Section Frames.
Context `{Prim : Primitives}.

(** What process sets before the stages run, which no stage assigns. *)
Definition config_of (st : MonoWriter) : Parameters * Z * (Z * Z) * (Z * Z) * (Z * Z * Z) :=
  (_params st, _tile_bits_field_bc st, (_tile_bits_x st, _tile_bits_y st),
   (_tile_size_x st, _tile_size_y st), (_tiles_x st, _tiles_y st, _tiles_count st)).

(** The recurse bit of the header of [st]. *)
Definition recurse_bit (st : MonoWriter) : Z :=
  match _filter_encoder st with Some _ => 1 | None => 0 end.

End Frames.

Section ResidualsReady.
Context `{Prim : Primitives}.

(** The residual computeResiduals computes for the element at [(x, y)],
    as stored in a byte. *)
Definition cell_residual (st : MonoWriter) (x y : Z) : Z :=
  u8 (residual_of st (getTile st x y) x y).

(** The state process() hands to the stages for the tile-size exponent
    [b], with 16-bit counters that do not wrap. *)
Definition tiled (st : MonoWriter) (b : Z) : Prop :=
  0 <= b <= 15 /\
  _tile_bits_x st = b /\ _tile_bits_y st = b /\
  _tile_size_x st = 2 ^ b /\ _tile_size_y st = 2 ^ b /\
  0 <= size_x (_params st) /\ size_x (_params st) + 2 ^ b <= 65536 /\
  0 <= size_y (_params st) /\ size_y (_params st) + 2 ^ b <= 65536 /\
  _tiles_x st = (size_x (_params st) + 2 ^ b - 1) / 2 ^ b /\
  _tiles_y st = (size_y (_params st) + 2 ^ b - 1) / 2 ^ b.

Definition in_matrix (st : MonoWriter) (x y : Z) : Prop :=
  0 <= x < size_x (_params st) /\ 0 <= y < size_y (_params st).

(** The prediction of the filter of the tile that holds [(x, y)]. *)
Definition predict (st : MonoWriter) (x y : Z) : Z :=
  safe (rd_or no_filter (_filters st) (getTile st x y))
    (data (_params st)) (num_syms (_params st) - 1) x y (size_x (_params st)).

(** [Good st R x y]: the cell of [(x, y)] in [R] holds its residual. *)
Definition Good (st : MonoWriter) (R : list Z) (x y : Z) : Prop :=
  rd R (x + y * size_x (_params st)) = cell_residual st x y.

(** The element loops of computeResiduals on the tile [(kx, ky)]. *)
Definition store_tile (st : MonoWriter) (b kx ky : Z) (R : list Z) : list Z :=
  let TX := (size_x (_params st) + 2 ^ b - 1) / 2 ^ b in
  for_tile_cells st (kx * 2 ^ b) (ky * 2 ^ b)
    (fun px py res =>
       if negb (mask (_params st) px py)
       then wr res (px + py * u16 (size_x (_params st)))
              (u8 (residual_of st (rd (_tiles st) (kx + ky * TX)) px py))
       else res)
    R.

End ResidualsReady.

(** ** The write pass as a machine on the fields it assigns

    In row-filter mode [write] and [writeRowHeader] assign four fields:
    the chaos object, the tile-seen vector, the previous filter and the
    write filter.  The steps below are their effect on these four on an
    element that is not masked; [write_step_ok] and
    [writeRowHeader_step_ok] relate them to the functions. *)
Section WriteMachine.
Context `{Prim : Primitives}.

Record WriteState : Type := {
  w_chaos : MonoChaos;
  w_seen : list bool;
  w_prev : Z;
  w_filter : Z
}.

Definition with_write_state (st : MonoWriter) (w : WriteState) : MonoWriter :=
  set_chaos (w_chaos w)
    (set_tile_seen (w_seen w)
       (set_prev_filter (w_prev w) (set_write_filter (w_filter w) st))).

Definition write_state_of (st : MonoWriter) : WriteState :=
  {| w_chaos := _chaos st; w_seen := _tile_seen st;
     w_prev := _prev_filter st; w_filter := _write_filter st |}.

Definition row_header_step (st : MonoWriter) (y : Z) (w : WriteState)
    : WriteState * list Emit :=
  if Z.land y (_tile_size_y st - 1) =? 0 then
    ({| w_chaos := chaos_startRow (w_chaos w);
        w_seen := map (fun _ => false) (w_seen w);
        w_prev := 0;
        w_filter := w_filter w |},
     [WriteBit (rd (_tile_row_filters st) (u16 (Z.shiftr y (_tile_bits_y st))))])
  else
    ({| w_chaos := chaos_startRow (w_chaos w); w_seen := w_seen w;
        w_prev := w_prev w; w_filter := w_filter w |}, []).

(** The tile part of [write]: the filter of a tile met for the first
    time. *)
Definition tile_step (st : MonoWriter) (x y : Z) (w : WriteState)
    : list bool * Z * Z * list Emit :=
  let tx := u16 (Z.shiftr x (_tile_bits_x st)) in
  if negb (rd_or false (w_seen w) tx) then
    let ty := u16 (Z.shiftr y (_tile_bits_y st)) in
    let f := rd (_tiles st) (tx + ty * _tiles_x st) in
    if negb (f =? MASK_TILE) then
      let '(rf, prev') :=
        row_filter_symbol (_filter_count st) (rd (_tile_row_filters st) ty) f (w_prev w) in
      (wr (w_seen w) tx true, prev', f,
       [CoderSymbol RowFilterCoder rf (enc_write (_row_filter_encoder st) rf)])
    else (wr (w_seen w) tx true, w_prev w, f, [])
  else (w_seen w, w_prev w, w_filter w, []).

Definition write_step (st : MonoWriter) (x y : Z) (w : WriteState)
    : WriteState * list Emit :=
  let '(seen, prev, f, tr_filter) := tile_step st x y w in
  if f >=? _normal_filter_count st then
    ({| w_chaos := chaos_zero (w_chaos w); w_seen := seen; w_prev := prev;
        w_filter := f |}, tr_filter)
  else
    let residual := rd (_residuals st) (x + y * size_x (_params st)) in
    let chaos := chaos_get (w_chaos w) in
    ({| w_chaos := chaos_store (w_chaos w) residual (num_syms (_params st));
        w_seen := seen; w_prev := prev; w_filter := f |},
     tr_filter
     ++ [CoderSymbol (ChaosBin chaos) residual
           (enc_write (rd_or enc_new (_encoder st) chaos) residual)]).

Definition row_steps (st : MonoWriter) (y : Z) (w : WriteState)
    : WriteState * list Emit :=
  for_range 0 (size_x (_params st))
    (fun x '(w1, tr) => let '(w2, t) := write_step st x y w1 in (w2, tr ++ t))
    (row_header_step st y w).

Definition rows_steps (st : MonoWriter) (w : WriteState) : WriteState * list Emit :=
  for_range 0 (size_y (_params st))
    (fun y '(w1, tr) => let '(w2, t) := row_steps st y w1 in (w2, tr ++ t))
    (w, []).

(** ** The terms of the estimate *)

(** What simulate() counts for the residuals and for the filters of the
    tiles, with the bits write() emits per symbol. *)
Definition residual_cost (st : MonoWriter) (cs : MonoChaos * Z) : MonoChaos * Z :=
  raster st
    (fun bin residual bits => bits + enc_write (rd_or enc_new (_encoder st) bin) residual)
    cs.

Definition row_filter_cost (st : MonoWriter) : Z :=
  for_row_filter_symbols st
    (fun rf bits => bits + enc_write (_row_filter_encoder st) rf) 0.

(** [write] tests the filter of the element's own tile: in the rows
    below the first of a tile row, where the write filter is the one of
    the last tile of the row, every tile of the row is on the same side
    of [_normal_filter_count] as the last. *)
Definition write_filter_current (st : MonoWriter) : Prop :=
  forall x y,
    in_matrix st x y -> Z.land y (_tile_size_y st - 1) <> 0 ->
    (getTile st x y >=? _normal_filter_count st)
    = (getTile st (size_x (_params st) - 1) y >=? _normal_filter_count st).

(** The gap between the estimate and the bits written: simulate()
    counts 7 bits for each of the [SF_FIXED] filters that are not sent
    and [5 * num_syms] bits per chaos bin in place of the tables of the
    coders, and counts neither the table of the row-filter coder nor the
    selector bit of each tile row. *)
Definition estimate_gap (st : MonoWriter) : Z :=
  7 * SF_FIXED + chaos_getBinCount (_chaos st) * 5 * num_syms (_params st)
  - fst (tables_encoders st) - enc_writeTables (_row_filter_encoder st) - _tiles_y st.

End WriteMachine.

(** ** The loops of the estimate, level by level *)
Section EstimateLoops.
Context `{Prim : Primitives}.

(** The element step and the row step of [raster]. *)
Definition raster_cell {S : Type} (st : MonoWriter) (use : Z -> Z -> S -> S) (y x : Z)
    (cs : MonoChaos * S) : MonoChaos * S :=
  let '(c, s) := cs in
  if skipped st x y then (chaos_zero c, s)
  else
    let residual := rd (_residuals st) (x + y * size_x (_params st)) in
    let chaos := chaos_get c in
    (chaos_store c residual (num_syms (_params st)), use chaos residual s).

Definition raster_row {S : Type} (st : MonoWriter) (use : Z -> Z -> S -> S) (y : Z)
    (cs : MonoChaos * S) : MonoChaos * S :=
  let '(c, s) := cs in
  for_range 0 (size_x (_params st)) (raster_cell st use y) (chaos_startRow c, s).

(** The tile step and the tile-row step of [for_row_filter_symbols]. *)
Definition rf_tile {S : Type} (st : MonoWriter) (use : Z -> S -> S) (tile_row_filter : Z)
    (tx : Z) (ts : Z * Z * S) : Z * Z * S :=
  let '(tile, prev, s) := ts in
  let f := rd (_tiles st) tile in
  if negb (f =? MASK_TILE) then
    let '(rf, prev') := row_filter_symbol (_filter_count st) tile_row_filter f prev in
    (tile + 1, prev', use rf s)
  else (tile + 1, prev, s).

Definition rf_row {S : Type} (st : MonoWriter) (use : Z -> S -> S) (ty : Z)
    (ts : Z * S) : Z * S :=
  let '(tile, s) := ts in
  let tile_row_filter := rd (_tile_row_filters st) ty in
  let '(tile, _, s) :=
    for_range 0 (_tiles_x st) (rf_tile st use tile_row_filter) (tile, 0, s) in
  (tile, s).

(** The cost functions of the write pass. *)
Definition residual_use (st : MonoWriter) (bin residual bits : Z) : Z :=
  bits + enc_write (rd_or enc_new (_encoder st) bin) residual.

Definition row_filter_use (st : MonoWriter) (rf bits : Z) : Z :=
  bits + enc_write (_row_filter_encoder st) rf.

(** Tiles begun before column (or row) [x]. *)
Definition tiles_begun (b x : Z) : Z := (x + 2 ^ b - 1) / 2 ^ b.

(** Every tile of the row has been met. *)
Definition all_seen (st : MonoWriter) (w : WriteState) : Prop :=
  forall t, 0 <= t < _tiles_x st -> rd_or false (w_seen w) t = true.

End EstimateLoops.

Section EstimateContract.
Context `{Prim : Primitives}.

(** The coder writes a symbol in as many bits as simulate(sym) reports,
    and reset() does not change that. *)
Definition coder_writes_what_it_simulates : Prop :=
  (forall e sym, enc_write e sym = enc_simulate e sym) /\
  (forall e sym, enc_simulate (enc_reset e) sym = enc_simulate e sym).

(** The width of the tile-size field as process() computes it. *)
Definition tile_bits_field_width (params : Parameters) : Z :=
  let range := u32 (max_bits params - min_bits params) in
  if range >? 0 then BSR32 range + 1 else 0.

End EstimateContract.

Section MoreStates.
Context `{Prim : Primitives}.

(** The tile grid of exponent [bits] on a matrix whose sizes do not wrap
    the 16-bit counters. *)
Definition grid_ok (bits : Z) (params : Parameters) : Prop :=
  0 <= bits <= 15 /\
  0 <= size_x params /\ size_x params + 2 ^ bits <= 65536 /\
  0 <= size_y params /\ size_y params + 2 ^ bits <= 65536.

(** The filter [write] tests at [(x, y)]: the one of the tile when the
    tile is met for the first time in its tile row, else the one left by
    the last tile met. *)
Definition filter_in_effect (st : MonoWriter) (x y : Z) : Z :=
  let tx := u16 (Z.shiftr x (_tile_bits_x st)) in
  let ty := u16 (Z.shiftr y (_tile_bits_y st)) in
  if rd_or false (_tile_seen st) tx then _write_filter st
  else rd (_tiles st) (tx + ty * _tiles_x st).

(** The fields writeTables leaves for the write pass in row-filter mode:
    the coders reset. *)
Definition tables_written (st : MonoWriter) : MonoWriter :=
  set_encoder
    (for_range 0 (chaos_getBinCount (chaos_start (_chaos st)))
       (fun ii enc => wr enc ii (enc_reset (rd_or enc_new enc ii))) (_encoder st))
    (set_row_filter_encoder (enc_reset (_row_filter_encoder st)) st).

End MoreStates.

(** ** The specification's reading of the claims *)

(** The RF_PREV codes of one tile row as the specification states them:
    [(f + F - prev_f) mod F], [prev_f] being the filter of the most
    recent unmasked tile of the row, 0 at its start; masked tiles yield
    no code and leave [prev_f] alone. *)
Fixpoint spec_rf_prev_codes (F prev : Z) (row : list Z) : list (option Z) :=
  match row with
  | [] => []
  | f :: rest =>
      if f =? MASK_TILE then None :: spec_rf_prev_codes F prev rest
      else Some ((f + F - prev) mod F) :: spec_rf_prev_codes F f rest
  end.

(** The RF_PREV half of the code buffer after the source's inner loop,
    one entry per tile of the row, [None] where the loop wrote nothing. *)
Definition code_rf_prev_codes (num_filters : Z) (row : list Z) : list (option Z) :=
  let tiles_x := Z.of_nat (length row) in
  let codes :=
    snd (row_filter_codes row tiles_x num_filters (0, replicate (2 * length row) (-1))) in
  map (fun tx => let c := rd codes (tx + tiles_x) in if c =? -1 then None else Some c)
      (seqZ 0 tiles_x).

(** ** An instance of the parameters

    Used to run the model on concrete inputs.  The chaos model follows
    the specification; the estimator and the coder are flat. *)

(** Modelled from the spec: [MonoChaos] (section 4.3): one score per
    column, a score for the previous element of the row, and
    [bin = min (bins - 1) (ceil (log2 (sum + 1)))]. *)
Record SpecChaos : Type := {
  sc_bins : Z;
  sc_row : list Z;
  sc_x : Z;
  sc_prev : Z
}.

Definition sc_score (v : Z) : Z := Z.min v (256 - v).

Definition sc_init (c : SpecChaos) (levels size_x : Z) : SpecChaos :=
  {| sc_bins := levels; sc_row := replicate (Z.to_nat size_x) 0; sc_x := 0; sc_prev := 0 |}.

Definition sc_start (c : SpecChaos) : SpecChaos :=
  {| sc_bins := sc_bins c; sc_row := map (fun _ => 0) (sc_row c); sc_x := 0; sc_prev := 0 |}.

Definition sc_startRow (c : SpecChaos) : SpecChaos :=
  {| sc_bins := sc_bins c; sc_row := sc_row c; sc_x := 0; sc_prev := 0 |}.

Definition sc_put (c : SpecChaos) (score : Z) : SpecChaos :=
  {| sc_bins := sc_bins c; sc_row := wr (sc_row c) (sc_x c) score;
     sc_x := sc_x c + 1; sc_prev := score |}.

Definition sc_get (c : SpecChaos) : Z :=
  Z.min (sc_bins c - 1) (Z.log2_up (sc_prev c + rd (sc_row c) (sc_x c) + 1)).

#[export] Instance reference_primitives : Primitives := {|
  MAX_CHAOS_LEVELS := 8;
  SF_FIXED := 4;
  RECURSE_THRESH_COUNT := 256;
  MAX_ROW_PASSES := 1;
  SF_COUNT := 32;
  UNUSED_SYMPAL := 255;
  MonoChaos := SpecChaos;
  chaos_new := {| sc_bins := 0; sc_row := []; sc_x := 0; sc_prev := 0 |};
  chaos_init := sc_init;
  chaos_start := sc_start;
  chaos_startRow := sc_startRow;
  chaos_zero := fun c => sc_put c 0;
  chaos_get := sc_get;
  chaos_store := fun c residual _ => sc_put c (sc_score residual);
  chaos_getBinCount := sc_bins;
  EntropyEstimator := list Z;
  ee_init := [];
  ee_add := fun e codes => codes ++ e;
  ee_subtract := fun e codes => drop (length codes) e;
  ee_entropy := fun _ codes => 8 * Z.of_nat (length (filter (fun c => negb (c =? 0)) codes));
  ee_addSingle := fun e sym => sym :: e;
  ee_entropyOverall := fun e => 8 * Z.of_nat (length (filter (fun c => negb (c =? 0)) e));
  EntropyEncoder := list Z;
  enc_new := [];
  enc_add := fun e sym => sym :: e;
  enc_finalize := fun e => e;
  enc_simulate := fun _ _ => 8;
  enc_writeTables := fun _ => 0;
  enc_write := fun _ _ => 8;
  enc_reset := fun e => e
|}.

Definition predict_zero : MonoFilterFuncs := {| safe := fun _ _ _ _ _ => 0 |}.
Definition predict_left : MonoFilterFuncs :=
  {| safe := fun d _ x y sx => if x >? 0 then rd d (x - 1 + y * sx) else 0 |}.
Definition predict_up : MonoFilterFuncs :=
  {| safe := fun d _ x y sx => if y >? 0 then rd d (x + (y - 1) * sx) else 0 |}.
Definition predict_up_left : MonoFilterFuncs :=
  {| safe := fun d _ x y sx =>
               if (x >? 0) && (y >? 0) then rd d (x - 1 + (y - 1) * sx) else 0 |}.

(** A planner that selects no palette symbol and keeps the fixed
    filters. *)
#[export] Instance reference_planner : @Planner reference_primitives := {|
  plan_designPaletteFilters := fun _ => ([], [], 0);
  plan_designFilters := fun st =>
    {| fc_tiles := _tiles st;
       fc_filters := [predict_zero; predict_left; predict_up; predict_up_left];
       fc_filter_indices := [0; 1; 2; 3];
       fc_sympal_filter_map := [];
       fc_normal_filter_count := 4;
       fc_sympal_filter_count := 0;
       fc_filter_count := 4 |}
|}.

(** ** An instance of the tuning parameters *)

(** A scorer that keeps one score per filter and ranks by lowest
    score, the lower index first among equals. *)
Fixpoint insert_score (e : Z * Z) (l : list (Z * Z)) : list (Z * Z) :=
  match l with
  | [] => [e]
  | h :: t => if snd e <=? snd h then e :: l else h :: insert_score e t
  end.

Definition lowest_scores (scores : list Z) (k : Z) : list (Z * Z) :=
  take (Z.to_nat k)
    (fold_right insert_score []
       (map (fun i => (i, rd scores i)) (seqZ 0 (Z.of_nat (length scores))))).

Definition tuning_with_passes (passes : Z) : Tuning := {|
  MAX_SYMS := 256;
  MAX_PALETTE := 16;
  MAX_FILTERS := 32;
  MAX_PASSES := passes;
  sympal_thresh_tiles := fun n => n / 4;
  filter_thresh_tiles := fun n => n;
  AWARDS := [5; 3; 1; 1];
  award_count := 4;
  max_filters := 32;
  mono_revisitCount := 4096;
  MONO_FILTERS := [predict_zero; predict_left; predict_up; predict_up_left];
  ResidualScore := fun residual num_syms => Z.min residual (num_syms - residual);
  FilterScorer := list Z;
  fs_init := fun n => replicate (Z.to_nat n) 0;
  fs_reset := map (fun _ => 0);
  fs_add := fun s index score => wr s index (rd s index + score);
  fs_getTop := lowest_scores
|}.

(** designTiles returns only when MAX_PASSES is not positive: the
    inputs below are run with no pass, so that process() returns on
    them.  The value of the header of the RGBA writer, 4, is kept for
    designTiles alone. *)
#[export] Instance reference_tuning : Tuning := tuning_with_passes 0.

Definition four_pass_tuning : Tuning := tuning_with_passes 4.

(** Concrete inputs. *)

Definition no_mask : Z -> Z -> bool := fun _ _ => false.

(** A 2x2 matrix coded with 2x2 tiles. *)
Definition params_2x2 : Parameters :=
  {| data := [1; 2; 3; 0]; mask := no_mask; num_syms := 4;
     size_x := 2; size_y := 2; min_bits := 1; max_bits := 1 |}.

(** A 2x1 matrix whose left element is masked. *)
Definition params_left_masked : Parameters :=
  {| data := [0; 3]; mask := fun x y => (x =? 0) && (y =? 0); num_syms := 4;
     size_x := 2; size_y := 1; min_bits := 1; max_bits := 1 |}.

(** A single element, tile sizes 2 and 4 to try. *)
Definition params_1x1 : Parameters :=
  {| data := [1]; mask := no_mask; num_syms := 4;
     size_x := 1; size_y := 1; min_bits := 1; max_bits := 2 |}.

(** [max_bits < min_bits]. *)
Definition params_bad_bits : Parameters :=
  {| data := [1]; mask := no_mask; num_syms := 4;
     size_x := 1; size_y := 1; min_bits := 3; max_bits := 2 |}.

(** A 16x16 matrix of zeros coded with 1x1 tiles. *)
Definition params_16x16 : Parameters :=
  {| data := replicate 256 0; mask := no_mask; num_syms := 4;
     size_x := 16; size_y := 16; min_bits := 0; max_bits := 0 |}.

(** A 32x32 matrix of zeros coded with 2x2 tiles: 256 tiles. *)
Definition params_32x32 : Parameters :=
  {| data := replicate 1024 0; mask := no_mask; num_syms := 4;
     size_x := 32; size_y := 32; min_bits := 1; max_bits := 1 |}.

Definition processed (fuel : nat) (params : Parameters) : MonoWriter :=
  match process fuel MonoWriter_new params with
  | Some (st, _) => st
  | None => MonoWriter_new
  end.

(** ** Vocabulary of the further properties *)

Section TileVocabulary.
Context `{Prim : Primitives}.

(** The elements of the tile [(kx, ky)] that lie in the matrix, in the
    order the element loops visit them. *)
Definition tile_span (b size k : Z) : list Z :=
  seqZ (k * 2 ^ b) (Z.min (2 ^ b) (size - k * 2 ^ b)).

Definition tile_cells (st : MonoWriter) (b kx ky : Z) : list (Z * Z) :=
  flat_map
    (fun py => map (fun px => (px, py)) (tile_span b (size_x (_params st)) kx))
    (tile_span b (size_y (_params st)) ky).

(** The element [(x, y)] lies in the tile [(kx, ky)]. *)
Definition in_tile (b kx ky x y : Z) : Prop :=
  x / 2 ^ b = kx /\ y / 2 ^ b = ky.

(** The number of coders on the chain from [st] through the inner
    coders. *)
Fixpoint coder_levels (st : MonoWriter) : Z :=
  match _filter_encoder st with
  | Some inner => 1 + coder_levels inner
  | None => 1
  end.

(** The inner coder and the tile count, which only recurseCompress and
    process() assign. *)
Definition recursion_fields (st : MonoWriter) : option MonoWriter * Z :=
  (_filter_encoder st, _tiles_count st).

End TileVocabulary.

Section IterationVocabulary.
Context `{Prim : Primitives} `{Plan : !Planner} `{Tune : Tuning}.

(** The object as the tile-size loop of process() hands it to the
    stages for the exponent [bits]: tile sizes, tile counts and buffers
    set, no stage run yet. *)
Definition process_grid (bits : Z) (st : MonoWriter) : MonoWriter :=
  let tile_size := u16 (Z.shiftl 1 bits) in
  let tiles_x := u16 (Z.shiftr (size_x (_params st) + tile_size - 1) bits) in
  let tiles_y := u16 (Z.shiftr (size_y (_params st) + tile_size - 1) bits) in
  let tiles_count := tiles_x * tiles_y in
  let st :=
    set_tiles_y tiles_y
      (set_tiles_x tiles_x
         (set_tile_size_y tile_size
            (set_tile_size_x tile_size
               (set_tile_bits_y (u16 bits) (set_tile_bits_x (u16 bits) st))))) in
  let st :=
    set_tile_row_filters (resize 0 (_tile_row_filters st) tiles_y)
      (set_tiles (resize 0 (_tiles st) tiles_count) (set_tiles_count tiles_count st)) in
  set_residuals
    (resize 0 (_residuals st) (u32 (size_x (_params st) * size_y (_params st)))) st.

(** The stages of one iteration, up to and including
    initializeEncoders. *)
Definition process_stages
    (rec : MonoWriter -> Parameters -> option (MonoWriter * Z))
    (fuel : nat) (st : MonoWriter) : option MonoWriter :=
  st ← maskTiles fuel st;
  let st := designFilters (designPaletteFilters st) in
  st ← designPaletteTiles fuel st;
  st ← Planning.designTiles fuel st;
  st ← computeResiduals fuel st;
  st ← recurseCompress rec (designRowFilters st);
  Some (initializeEncoders (designChaos st)).

End IterationVocabulary.

(** ** Further concrete inputs *)

(** A 2x1 matrix coded with 1x1 tiles, the left element masked. *)
Definition params_2x1_unit : Parameters :=
  {| data := [0; 3]; mask := fun x y => (x =? 0) && (y =? 0); num_syms := 4;
     size_x := 2; size_y := 1; min_bits := 0; max_bits := 0 |}.

(** The state process() leaves for the 2x1 input, two of its tiles
    marked with palette entries 0 and 1, entry 1 not chosen. *)
Definition st_palette_marks : MonoWriter :=
  set_sympal_filter_count 2
    (set_sympal_filter_map [1; 255]
       (set_tiles [32; 33] (processed 10 params_2x1_unit))).

(** A 4x1 matrix coded with 1x1 tiles, every tile on filter 3. *)
Definition params_4x1_unit : Parameters :=
  {| data := [0; 0; 0; 0]; mask := no_mask; num_syms := 4;
     size_x := 4; size_y := 1; min_bits := 0; max_bits := 0 |}.

Definition st_row_of_threes : MonoWriter :=
  set_tiles [3; 3; 3; 3] (processed 10 params_4x1_unit).

(** The start of a tile-size iteration on the 2x2 input, an inner coder
    attached as an earlier iteration may leave it. *)
Definition st_inner_attached : MonoWriter :=
  set_filter_encoder (Some MonoWriter_new) (process_start MonoWriter_new params_2x2).


(** ** Vocabulary of the planning stages *)

Section PlanningVocabulary.
Context `{Prim : Primitives}.

(** The value of the element at [(x, y)]. *)
Definition cell_value (st : MonoWriter) (x y : Z) : Z :=
  rd (data (_params st)) (x + y * size_x (_params st)).

(** The elements of the tile [(kx, ky)] that are not masked. *)
Definition unmasked_cells (st : MonoWriter) (b kx ky : Z) : list (Z * Z) :=
  List.filter (fun c => negb (mask (_params st) (fst c) (snd c))) (tile_cells st b kx ky).

(** Every unmasked element of the tile holds [v]. *)
Definition tile_holds (st : MonoWriter) (b kx ky v : Z) : bool :=
  forallb (fun c => cell_value st (fst c) (snd c) =? v) (unmasked_cells st b kx ky).

(** The unmasked elements of the tile hold one value (0 standing for it
    when the tile has none).  *)
Definition tile_uniform_value (st : MonoWriter) (b kx ky : Z) : option Z :=
  match unmasked_cells st b kx ky with
  | [] => Some 0
  | c :: _ =>
      let v := cell_value st (fst c) (snd c) in
      if tile_holds st b kx ky v then Some v else None
  end.

(** Tile [i] of the map, in row-major order, is counted for value [v]
    by designPaletteFilters. *)
Definition counted_for (st : MonoWriter) (b v i : Z) : bool :=
  negb (rd (_tiles st) i =? MASK_TILE)
  && match tile_uniform_value st b (i mod _tiles_x st) (i / _tiles_x st) with
     | Some u => u =? v
     | None => false
     end.

End PlanningVocabulary.

Section ScanVocabulary.
Context `{Prim : Primitives}.

(** A loop over a list whose body may [break]. *)
Fixpoint break_fold {A S : Type} (body : A -> S -> S * bool) (l : list A) (s : S) : S :=
  match l with
  | [] => s
  | a :: l' =>
      let '(s', go) := body a s in
      if go then break_fold body l' s' else s'
  end.

(** The step of the uniformity scan of designPaletteFilters at one
    element. *)
Definition scan_cell (st : MonoWriter) (c : Z * Z) (s : bool * bool * Z)
    : bool * bool * Z * bool :=
  let '(uniform, seen, uniform_value) := s in
  if negb (mask (_params st) (fst c) (snd c)) then
    let value := cell_value st (fst c) (snd c) in
    if negb seen then ((uniform, true, value), true)
    else if negb (value =? uniform_value)
         then ((false, seen, uniform_value), false)
         else ((uniform, seen, uniform_value), true)
  else ((uniform, seen, uniform_value), true).

(** The number of tiles counted for [v]. *)
Definition tiles_counted_for (st : MonoWriter) (b v : Z) : Z :=
  Z.of_nat (length (List.filter (counted_for st b v) (seqZ 0 (_tiles_x st * _tiles_y st)))).

End ScanVocabulary.

Section FilterVocabulary.
Context `{Prim : Primitives}.

(** The first palette entry that holds [v]. *)
Definition first_sympal (st : MonoWriter) (v : Z) : option Z :=
  find (fun f => rd (_sympal st) f =? v) (seqZ 0 (_sympal_filter_count st)).

(** The step of the uniformity test of designFilters at one element,
    which does not break. *)
Definition note_cell (st : MonoWriter) (c : Z * Z) (s : bool * bool * Z) : bool * bool * Z :=
  let '(uniform, seen, uniform_value) := s in
  if negb (mask (_params st) (fst c) (snd c)) then
    let value := cell_value st (fst c) (snd c) in
    if negb seen then (uniform, true, value)
    else if negb (value =? uniform_value) then (false, seen, uniform_value)
         else (uniform, seen, uniform_value)
  else (uniform, seen, uniform_value).

(** A tile value after the palette stages: masked, open, or a palette
    filter of the chosen set. *)
Definition palette_stage_tile (st : MonoWriter) (t : Z) : Prop :=
  t = MASK_TILE \/ t = TODO_TILE \/ _normal_filter_count st <= t < _filter_count st.

End FilterVocabulary.

Section SelectionVocabulary.
Context `{Prim : Primitives} `{Tune : Tuning}.

(** What the loop over the sorted scores keeps. *)
Definition selection_ok (count0 : Z) (s : Planning.FilterSelection) : Prop :=
  Planning.fsel_filters_set s = Planning.fsel_normal_f s + Planning.fsel_sympal_f s /\
  SF_FIXED <= Planning.fsel_normal_f s /\ 0 <= Planning.fsel_sympal_f s /\
  forall k, 0 <= k < count0 ->
    rd (Planning.fsel_map s) k = UNUSED_SYMPAL \/
    exists r, 0 <= r < Planning.fsel_sympal_f s /\ rd (Planning.fsel_map s) k = u8 r.

End SelectionVocabulary.

(** A 4x1 matrix coded with 1x1 tiles: three elements hold 3, one
    holds 1. *)
Definition params_4x1_mixed : Parameters :=
  {| data := [3; 3; 3; 1]; mask := no_mask; num_syms := 4;
     size_x := 4; size_y := 1; min_bits := 0; max_bits := 0 |}.

(** The state maskTiles leaves for it, the arrays of the palette at
    their size. *)
Definition st_palette_input : MonoWriter :=
  set_sympal (replicate 16 0)
    (set_sympal_filter_map (replicate 16 0)
       (set_filter_indices (replicate 32 0)
          (set_filters (replicate 32 no_filter)
             (set_tiles [0; 0; 0; 0] (processed 10 params_4x1_mixed))))).

Section MarkVocabulary.
Context `{Prim : Primitives}.

(** The value designFilters leaves in tile [q] of the map: the mark of
    the first palette entry that every unmasked element of the tile
    holds, if there is one. *)
Definition palette_mark (st : MonoWriter) (b q : Z) : Z :=
  let t := rd (_tiles st) q in
  if t =? MASK_TILE then t
  else
    match tile_uniform_value st b (q mod _tiles_x st) (q / _tiles_x st) with
    | Some v =>
        match first_sympal st v with
        | Some f => u8 (SF_COUNT + f)
        | None => t
        end
    | None => t
    end.

End MarkVocabulary.

(** The state designPaletteFilters leaves for it: the palette is [3]. *)
Definition st_palette_selected : MonoWriter :=
  match Planning.designPaletteFilters 10 st_palette_input with
  | Some st => st
  | None => st_palette_input
  end.

(** The state of the loops of designTiles when they start on it. *)
Definition td_start : Planning.TileDesign :=
  {| Planning.td_p := 0;
     Planning.td_tiles := _tiles st_palette_input;
     Planning.td_codes := replicate 4 0;
     Planning.td_ee := ee_init;
     Planning.td_revisitCount := mono_revisitCount;
     Planning.td_returned := false |}.

(** A 4x2 matrix coded with 2x2 tiles: two tiles in one tile row, the
    first on filter 1 and the second on filter 2. *)
Definition params_4x2 : Parameters :=
  {| data := replicate 8 0; mask := no_mask; num_syms := 4;
     size_x := 4; size_y := 2; min_bits := 1; max_bits := 1 |}.

Definition st_two_tiles : MonoWriter :=
  set_tile_seen [false; false] (set_tiles [1; 2] (processed 10 params_4x2)).

(** * The palette writer

    [encoder/ImagePaletteWriter.cpp]: the image becomes a palette and a
    raster of palette indices when it has few enough colours.  The header
    [ImagePaletteWriter.hpp], the mask and LZ writers it asks, the bit
    writer, the colour filters and the byte-order helpers are not among
    the sources; what the code uses of them is a parameter.  The
    comparison [compareColors] computes a luminance in floating point:
    the arithmetic is a parameter ([luma_less]), the comparison around
    it is modelled. *)
Class PaletteTools : Type := {
  PALETTE_MAX : Z;
  CF_COUNT : Z;
  (* RGB2YUV_FILTERS[cf](rgb, yuv): the bytes written to yuv *)
  RGB2YUV_FILTERS : Z -> list Z -> list Z;
  getLE : Z -> Z;
  swapLE : Z -> Z;
  (* y_a < y_b for the luminances of (r, g, b) of a and of b *)
  luma_less : Z * Z * Z -> Z * Z * Z -> bool;
  (* std::sort(begin, end, comp) *)
  std_sort : (Z -> Z -> bool) -> list Z -> list Z
}.

Module Palette.

(** What the writer asks of [ImageMaskWriter] and [ImageLZWriter]. *)
Record ImageMaskWriter : Type := {
  masked : Z -> Z -> bool;
  enabled : bool;
  getColor : Z
}.

Record ImageLZWriter : Type := {
  visited : Z -> Z -> bool
}.

(** The fields of [ImagePaletteWriter].  [_rgba] is read through a
    [const u32 *]: it is the list of the pixels as 32-bit words.  [_map]
    is the [std::map] from colour to palette index; [_image] is [None]
    for the null pointer. *)
Record ImagePaletteWriter : Type := {
  _rgba : list Z;
  _width : Z;
  _height : Z;
  _mask : ImageMaskWriter;
  _lz : ImageLZWriter;
  _map : gmap Z Z;
  _palette : list Z;
  _enabled : bool;
  _image : option (list Z);
  _image_alloc : Z;
  _masked_palette : Z
}.

Definition set_source (rgba : list Z) (width height : Z)
    (mask : ImageMaskWriter) (lz : ImageLZWriter)
    (w : ImagePaletteWriter) : ImagePaletteWriter :=
  {| _rgba := rgba; _width := width; _height := height;
     _mask := mask; _lz := lz;
     _map := _map w; _palette := _palette w; _enabled := _enabled w;
     _image := _image w; _image_alloc := _image_alloc w;
     _masked_palette := _masked_palette w |}.

Definition set_palette (map : gmap Z Z) (palette : list Z) (en : bool)
    (w : ImagePaletteWriter) : ImagePaletteWriter :=
  {| _rgba := _rgba w; _width := _width w; _height := _height w;
     _mask := _mask w; _lz := _lz w;
     _map := map; _palette := palette; _enabled := en;
     _image := _image w; _image_alloc := _image_alloc w;
     _masked_palette := _masked_palette w |}.

Definition set_image (map : gmap Z Z) (image : list Z) (alloc : Z)
    (masked_palette : Z) (w : ImagePaletteWriter) : ImagePaletteWriter :=
  {| _rgba := _rgba w; _width := _width w; _height := _height w;
     _mask := _mask w; _lz := _lz w;
     _map := map; _palette := _palette w; _enabled := _enabled w;
     _image := Some image; _image_alloc := alloc;
     _masked_palette := masked_palette |}.

(** What the writer passes to [ImageWriter] and to the entropy coder of
    the palette. *)
Inductive WriterCall : Type :=
  | writeBit (bit : Z)
  | writeBits (code len : Z)
  | writeWord (word : Z)
  | coderTables (bits : Z)
  | coderSymbol (sym bits : Z).

(** The bits a call puts on the stream. *)
Definition call_bits (c : WriterCall) : Z :=
  match c with
  | writeBit _ => 1
  | writeBits _ len => len
  | writeWord _ => 32
  | coderTables bits => bits
  | coderSymbol _ bits => bits
  end.

Definition calls_bits (tr : list WriterCall) : Z :=
  fold_right (fun c acc => call_bits c + acc) 0 tr.

Section Writer.
Context `{Prim : Primitives} `{Tools : PaletteTools}.

(** [clear] *)
Definition clear (w : ImagePaletteWriter) : ImagePaletteWriter :=
  match _image w with
  | Some _ =>
      {| _rgba := _rgba w; _width := _width w; _height := _height w;
         _mask := _mask w; _lz := _lz w;
         _map := _map w; _palette := _palette w; _enabled := _enabled w;
         _image := None; _image_alloc := _image_alloc w;
         _masked_palette := _masked_palette w |}
  | None => w
  end.

(** The locals of the loops of generatePalette; [gp_full] says that the
    loops were left by the [return false] inside. *)
Record PaletteScan : Type := {
  gp_color : Z;
  gp_colorIndex : Z;
  gp_map : gmap Z Z;
  gp_palette : list Z;
  gp_full : bool
}.

Definition generatePalette_pixel (w : ImagePaletteWriter) (y x : Z)
    (s : PaletteScan) : PaletteScan * bool :=
  let c := rd (_rgba w) (gp_color s) in
  let next :=
    {| gp_color := gp_color s + 1; gp_colorIndex := gp_colorIndex s;
       gp_map := gp_map s; gp_palette := gp_palette s;
       gp_full := gp_full s |} in
  if masked (_mask w) x y || visited (_lz w) x y then (next, true)
  else
    match gp_map s !! c with
    | None =>
        if gp_colorIndex s >=? PALETTE_MAX then
          ({| gp_color := gp_color s + 1; gp_colorIndex := gp_colorIndex s;
              gp_map := gp_map s; gp_palette := gp_palette s;
              gp_full := true |}, false)
        else
          ({| gp_color := gp_color s + 1;
              gp_colorIndex := gp_colorIndex s + 1;
              gp_map := <[c := gp_colorIndex s]> (gp_map s);
              gp_palette := gp_palette s ++ [c];
              gp_full := gp_full s |}, true)
    | Some _ => (next, true)
    end.

Definition generatePalette_scan (w : ImagePaletteWriter) : PaletteScan :=
  for_range_break 0 (_height w)
    (fun y s =>
       let s' := for_range_break 0 (_width w) (generatePalette_pixel w y) s in
       (s', negb (gp_full s')))
    {| gp_color := 0; gp_colorIndex := 0; gp_map := _map w;
       gp_palette := _palette w; gp_full := false |}.

Definition generatePalette (w : ImagePaletteWriter)
    : ImagePaletteWriter * bool :=
  let s := generatePalette_scan w in
  if gp_full s then (set_palette (gp_map s) (gp_palette s) false w, false)
  else if gp_colorIndex s =? 0 then
    (set_palette (gp_map s) (gp_palette s) false w, false)
  else (set_palette (gp_map s) (gp_palette s) true w, true).

(** [compareColors] *)
Definition compareColors (a b : Z) : bool :=
  let a := swapLE a in
  let b := swapLE b in
  let a_a := u8 (Z.shiftr a 24) in
  let b_a := u8 (Z.shiftr b 24) in
  if a_a <? b_a then true
  else
    let a_r := u8 a in
    let a_g := u8 (Z.shiftr a 8) in
    let a_b := u8 (Z.shiftr a 16) in
    let b_r := u8 b in
    let b_g := u8 (Z.shiftr b 8) in
    let b_b := u8 (Z.shiftr b 16) in
    if luma_less (a_r, a_g, a_b) (b_r, b_g, b_b) then true else false.

Definition sortPalette (w : ImagePaletteWriter) : ImagePaletteWriter :=
  let palette := std_sort compareColors (_palette w) in
  let map :=
    for_range 0 (Z.of_nat (length palette))
      (fun ii (m : gmap Z Z) => <[rd palette ii := u8 ii]> m) ∅ in
  set_palette map palette (_enabled w) w.

(** The locals of the loops of generateImage: the two pointers, as
    offsets, with the raster and the map they go through ([_map[c]]
    inserts the colour it does not find, with the index 0). *)
Record ImageScan : Type := {
  gi_color : Z;
  gi_image : Z;
  gi_raster : list Z;
  gi_map : gmap Z Z
}.

Definition generateImage_pixel (w : ImagePaletteWriter) (masked_palette : Z)
    (y x : Z) (s : ImageScan) : ImageScan :=
  let c := rd (_rgba w) (gi_color s) in
  if masked (_mask w) x y then
    {| gi_color := gi_color s + 1; gi_image := gi_image s + 1;
       gi_raster := wr (gi_raster s) (gi_image s) (u8 masked_palette);
       gi_map := gi_map s |}
  else
    match gi_map s !! c with
    | Some i =>
        {| gi_color := gi_color s + 1; gi_image := gi_image s + 1;
           gi_raster := wr (gi_raster s) (gi_image s) (u8 i);
           gi_map := gi_map s |}
    | None =>
        {| gi_color := gi_color s + 1; gi_image := gi_image s + 1;
           gi_raster := wr (gi_raster s) (gi_image s) (u8 0);
           gi_map := <[c := 0]> (gi_map s) |}
    end.

(** The buffer generateImage writes to: a new one of [image_size] bytes
    unless the old one is large enough. *)
Definition image_buffer (w : ImagePaletteWriter) (image_size : Z)
    : list Z * Z :=
  match _image w with
  | Some image =>
      if _image_alloc w <? image_size
      then (replicate (Z.to_nat image_size) 0, image_size)
      else (image, _image_alloc w)
  | None => (replicate (Z.to_nat image_size) 0, image_size)
  end.

(** The palette index of masked pixels. *)
Definition mask_index (w : ImagePaletteWriter) : Z :=
  if enabled (_mask w) then
    match _map w !! getColor (_mask w) with
    | Some i => u16 i
    | None => 0
    end
  else 0.

Definition generateImage (w : ImagePaletteWriter) : ImagePaletteWriter :=
  let image_size := _width w * _height w in
  let '(image, alloc) := image_buffer w image_size in
  let masked_palette := mask_index w in
  let s :=
    for_range 0 (_height w)
      (fun y s =>
         for_range 0 (_width w) (generateImage_pixel w masked_palette y) s)
      {| gi_color := 0; gi_image := 0; gi_raster := image;
         gi_map := _map w |} in
  set_image (gi_map s) (gi_raster s) alloc masked_palette w.

(** [initFromRGBA]; the value returned is GCIF_WE_OK whatever happens,
    the model returns the writer. *)
Definition initFromRGBA (w : ImagePaletteWriter) (rgba : list Z)
    (width height : Z) (mask : ImageMaskWriter) (lz : ImageLZWriter)
    : ImagePaletteWriter :=
  let w := set_source rgba width height mask lz w in
  let '(w, generated) := generatePalette w in
  if generated then generateImage (sortPalette w) else w.

(** The four bytes the coder of a large palette sees of one colour. *)
Definition yuva_of (cf : Z) (color : Z) : list Z :=
  let rgb := [u8 color; u8 (Z.shiftr color 8); u8 (Z.shiftr color 16)] in
  let yuv := RGB2YUV_FILTERS cf rgb in
  [rd yuv 0; rd yuv 1; rd yuv 2; u8 (Z.shiftr color 24)].

(** The colour filter write chooses for a large palette. *)
Definition best_color_filter (palette : list Z) : Z :=
  let palette_size := Z.of_nat (length palette) in
  fst (for_range 0 CF_COUNT
    (fun cf '(bestCF, bestScore) =>
       let ee :=
         for_range 0 palette_size
           (fun ii ee => ee_add ee (yuva_of cf (getLE (rd palette ii))))
           ee_init in
       let entropy :=
         for_range 0 palette_size
           (fun ii entropy =>
              entropy + ee_entropy ee (yuva_of cf (getLE (rd palette ii))))
           0 in
       if u32 entropy <? bestScore then (cf, u32 entropy)
       else (bestCF, bestScore))
    (0, 2147483647)).

(** [write]: the calls on the bit writer, and the count the function
    keeps in [bits] (it goes to [Stats.overhead_bits]). *)
Definition write (w : ImagePaletteWriter) : list WriterCall * Z :=
  let tr := [writeBit (if _enabled w then 1 else 0)] in
  let bits := 1 in
  if _enabled w then
    let palette_size := Z.of_nat (length (_palette w)) in
    let tr := tr ++ [writeBits (palette_size - 1) 8] in
    let bits := bits + 8 in
    let tr := tr ++ [writeBits (_masked_palette w) 8] in
    let bits := bits + 8 in
    if palette_size <? 40 then
      let tr := tr ++ [writeBit 0] in
      let bits := bits + 1 in
      for_range 0 palette_size
        (fun ii '(tr, bits) =>
           let color := getLE (rd (_palette w) ii) in
           (tr ++ [writeWord color], bits + 32))
        (tr, bits)
    else
      let tr := tr ++ [writeBit 1] in
      let bits := bits + 1 in
      let bestCF := best_color_filter (_palette w) in
      let tr := tr ++ [writeBits bestCF 4] in
      let bits := bits + 4 in
      let encoder :=
        for_range 0 palette_size
          (fun ii encoder =>
             let yuva := yuva_of bestCF (getLE (rd (_palette w) ii)) in
             enc_add (enc_add (enc_add (enc_add encoder
               (rd yuva 0)) (rd yuva 1)) (rd yuva 2)) (rd yuva 3))
          enc_new in
      let encoder := enc_finalize encoder in
      let tr := tr ++ [coderTables (enc_writeTables encoder)] in
      let bits := bits + enc_writeTables encoder in
      for_range 0 palette_size
        (fun ii '(tr, bits) =>
           let yuva := yuva_of bestCF (getLE (rd (_palette w) ii)) in
           (tr ++ map (fun sym => coderSymbol sym (enc_write encoder sym)) yuva,
            bits + enc_write encoder (rd yuva 0)
                 + enc_write encoder (rd yuva 1)
                 + enc_write encoder (rd yuva 2)
                 + enc_write encoder (rd yuva 3)))
        (tr, bits)
  else (tr, bits).

End Writer.

Section PaletteVocabulary.
Context `{Tools : PaletteTools}.

(** The position of pixel [(x, y)] in the raster. *)
Definition pixel_offset (w : ImagePaletteWriter) (x y : Z) : Z :=
  x + y * _width w.

Definition in_image (w : ImagePaletteWriter) (x y : Z) : Prop :=
  0 <= x < _width w /\ 0 <= y < _height w.

(** The pixels generatePalette looks at: neither masked nor visited by
    the LZ stage; as offsets, in raster order, and their colours. *)
Definition open_pixel (w : ImagePaletteWriter) (k : Z) : bool :=
  negb (masked (_mask w) (k mod _width w) (k / _width w)
        || visited (_lz w) (k mod _width w) (k / _width w)).

Definition open_colors_before (w : ImagePaletteWriter) (k : Z) : list Z :=
  map (rd (_rgba w)) (List.filter (open_pixel w) (seqZ 0 k)).

Definition open_colors (w : ImagePaletteWriter) : list Z :=
  open_colors_before w (_width w * _height w).

(** The palette and the map agree: the map sends a colour to the place
    it has in the palette and knows no other colour. *)
Definition map_indexes (m : gmap Z Z) (palette : list Z) : Prop :=
  forall c i, m !! c = Some i <-> 0 <= i /\ palette !! Z.to_nat i = Some c.

(** What the raster holds for a pixel after generateImage: the low byte
    of the index of the mask for a masked pixel, of the index the map
    has for the colour otherwise, 0 for a colour the map does not
    have. *)
Definition pixel_index (w : ImagePaletteWriter) (x y : Z) : Z :=
  if masked (_mask w) x y then u8 (mask_index w)
  else u8 (default 0 (_map w !! rd (_rgba w) (pixel_offset w x y))).

(** What compareColors compares: the alpha byte, and the three colour
    bytes the luminance is computed from. *)
Definition alpha_of (c : Z) : Z := u8 (Z.shiftr (swapLE c) 24).

Definition rgb_of (c : Z) : Z * Z * Z :=
  (u8 (swapLE c), u8 (Z.shiftr (swapLE c) 8), u8 (Z.shiftr (swapLE c) 16)).

(** A writer nothing was generated on. *)
Definition fresh (w : ImagePaletteWriter) : Prop :=
  _map w = ∅ /\ _palette w = [].

(** The buffer has the size the writer remembers. *)
Definition buffer_sized (w : ImagePaletteWriter) : Prop :=
  forall image, _image w = Some image ->
    Z.of_nat (length image) = _image_alloc w.

(** What holds of the locals of generatePalette before the pixel at
    offset [k], and after the [return false] in the loops. *)
Definition scan_invariant (w : ImagePaletteWriter) (k : Z)
    (s : PaletteScan) : Prop :=
  gp_full s = false /\ gp_color s = k /\
  gp_colorIndex s = Z.of_nat (length (gp_palette s)) /\
  NoDup (gp_palette s) /\
  (forall c, c ∈ gp_palette s <-> c ∈ open_colors_before w k) /\
  map_indexes (gp_map s) (gp_palette s) /\
  (gp_palette s = [] \/ Z.of_nat (length (gp_palette s)) <= PALETTE_MAX).

Definition scan_overflow (w : ImagePaletteWriter) (s : PaletteScan) : Prop :=
  gp_full s = true /\
  exists l, NoDup l /\ (forall c, c ∈ l -> c ∈ open_colors w) /\
            PALETTE_MAX < Z.of_nat (length l).

(** The raster of a writer. *)
Definition raster (w : ImagePaletteWriter) : list Z :=
  match _image w with
  | Some image => image
  | None => []
  end.

End PaletteVocabulary.

End Palette.

(** An instance to run the palette writer on: 256 colours at most, the
    byte order of a little-endian machine, an insertion sort for
    [std::sort], and the luminance in exact arithmetic, scaled by
    10000. *)
Fixpoint insert_sorted (lt : Z -> Z -> bool) (c : Z) (l : list Z) : list Z :=
  match l with
  | [] => [c]
  | d :: l' => if lt d c then d :: insert_sorted lt c l' else c :: l
  end.

#[export] Instance reference_palette_tools : PaletteTools := {|
  PALETTE_MAX := 256;
  CF_COUNT := 1;
  RGB2YUV_FILTERS := fun _ rgb => rgb;
  getLE := fun c => c;
  swapLE := fun c => c;
  luma_less := fun '(a_r, a_g, a_b) '(b_r, b_g, b_b) =>
    2126 * a_r + 7152 * a_g + 722 * a_b
    <? 2126 * b_r + 7152 * b_g + 722 * b_b;
  std_sort := fun lt l => fold_right (insert_sorted lt) [] l
|}.

(** A 3x2 image of three colours; the pixel (2, 0) is masked and the
    pixel (0, 1) was visited by the LZ stage. *)
Definition palette_input_mask : Palette.ImageMaskWriter :=
  {| Palette.masked := fun x y => (x =? 2) && (y =? 0);
     Palette.enabled := true;
     Palette.getColor := 7 |}.

Definition palette_input_lz : Palette.ImageLZWriter :=
  {| Palette.visited := fun x y => (x =? 0) && (y =? 1) |}.

Definition palette_writer_new : Palette.ImagePaletteWriter :=
  {| Palette._rgba := []; Palette._width := 0; Palette._height := 0;
     Palette._mask := palette_input_mask; Palette._lz := palette_input_lz;
     Palette._map := ∅; Palette._palette := []; Palette._enabled := false;
     Palette._image := None; Palette._image_alloc := 0;
     Palette._masked_palette := 0 |}.

Definition palette_input_rgba : list Z :=
  [4278190335; 16711680; 7; 9; 16711680; 4278190335].

Definition palette_writer_input : Palette.ImagePaletteWriter :=
  Palette.set_source palette_input_rgba 3 2
    palette_input_mask palette_input_lz palette_writer_new.

(** * A helper of the context-modelling writer

    [wrapNeg] of ImageCMWriter.cpp (the third source file): a byte,
    read as a signed residual, becomes its magnitude doubled, odd for
    the positive ones. *)
Definition wrapNeg (p : Z) : Z :=
  if p =? 0 then 0
  else if p <? 128 then Z.lor (Z.shiftl (p - 1) 1) 1
  else Z.shiftl (256 - p) 1.

(** The byte as the signed value it stands for. *)
Definition signed_byte (p : Z) : Z := if p <? 128 then p else p - 256.

(** A row of 42 pixels of different colours, one of them masked. *)
Definition palette_writer_large : Palette.ImagePaletteWriter :=
  Palette.initFromRGBA palette_writer_new (seqZ 1000 42) 42 1
    palette_input_mask palette_input_lz.

(** * Properties *)

Section Proofs.
Context `{Prim : Primitives} `{Plan : !Planner} `{Tune : Tuning}.
Implicit Types (st : MonoWriter) (params : Parameters).

(** ** Counted loops *)

Lemma for_range_nil {T} lo hi (body : Z -> T -> T) s :
  hi <= lo -> for_range lo hi body s = s.
Proof. intros. unfold for_range. rewrite seqZ_nil by lia. reflexivity. Qed.

Lemma for_range_first {T} lo hi (body : Z -> T -> T) s :
  lo < hi -> for_range lo hi body s = for_range (lo + 1) hi body (body lo s).
Proof.
  intros. unfold for_range. rewrite seqZ_cons by lia. simpl.
  replace (Z.succ lo) with (lo + 1) by lia.
  replace (Z.pred (hi - lo)) with (hi - (lo + 1)) by lia.
  reflexivity.
Qed.

Lemma for_range_last {T} lo hi (body : Z -> T -> T) s :
  lo < hi -> for_range lo hi body s = body (hi - 1) (for_range lo (hi - 1) body s).
Proof.
  intros. unfold for_range.
  replace (hi - lo) with ((hi - 1 - lo) + 1) by lia.
  rewrite seqZ_app by lia. rewrite fold_left_app. simpl.
  f_equal. lia.
Qed.

(** An invariant carried through a counted loop. *)
Lemma for_range_ind {T} (P : Z -> T -> Prop) lo hi (body : Z -> T -> T) s :
  lo <= hi -> P lo s ->
  (forall i acc, lo <= i < hi -> P i acc -> P (i + 1) (body i acc)) ->
  P hi (for_range lo hi body s).
Proof.
  intros Hle H0 Hstep.
  assert (forall n : nat, lo + Z.of_nat n <= hi ->
            P (lo + Z.of_nat n) (for_range lo (lo + Z.of_nat n) body s)) as Hn.
  { induction n as [|n IH]; intros Hb.
    - rewrite Z.add_0_r. rewrite for_range_nil by lia. exact H0.
    - rewrite for_range_last by lia.
      replace (lo + Z.of_nat (S n) - 1) with (lo + Z.of_nat n) by lia.
      replace (lo + Z.of_nat (S n)) with (lo + Z.of_nat n + 1) by lia.
      apply Hstep; [lia|]. apply IH. lia. }
  specialize (Hn (Z.to_nat (hi - lo))).
  replace (lo + Z.of_nat (Z.to_nat (hi - lo))) with hi in Hn by lia.
  apply Hn. lia.
Qed.

(** A property every iteration keeps. *)
Lemma for_range_keeps {T} (P : T -> Prop) lo hi (body : Z -> T -> T) s :
  P s -> (forall i acc, lo <= i < hi -> P acc -> P (body i acc)) ->
  P (for_range lo hi body s).
Proof.
  intros H0 Hstep. destruct (Z_le_gt_dec lo hi) as [Hle|Hgt].
  - apply (for_range_ind (fun _ acc => P acc)); auto.
  - rewrite for_range_nil by lia. exact H0.
Qed.

(** ** The raster pass and the chaos bin count *)

Lemma raster_bins {T} st (use : Z -> Z -> T -> T) c s :
  chaos_bins_kept ->
  chaos_getBinCount (fst (raster st use (c, s))) = chaos_getBinCount c.
Proof.
  intros (_ & _ & Hrow & Hzero & Hstore). unfold raster.
  apply (for_range_keeps (fun cs => chaos_getBinCount (fst cs) = chaos_getBinCount c));
    [reflexivity|].
  intros y [c1 s1] _ Hc1. simpl in Hc1.
  apply (for_range_keeps (fun cs => chaos_getBinCount (fst cs) = chaos_getBinCount c)).
  - simpl. rewrite Hrow. exact Hc1.
  - intros x [c2 s2] _ Hc2. simpl in Hc2.
    destruct (skipped st x y); simpl.
    + rewrite Hzero. exact Hc2.
    + rewrite Hstore. exact Hc2.
Qed.

Lemma initializeEncoders_bins st :
  chaos_bins_kept ->
  chaos_getBinCount (_chaos (initializeEncoders st)) = chaos_getBinCount (_chaos st).
Proof.
  intros Hk. unfold initializeEncoders.
  pose proof (raster_bins st
    (fun bin residual enc => wr enc bin (enc_add (rd_or enc_new enc bin) residual))
    (chaos_start (_chaos st)) (_encoder st) Hk) as Hr.
  destruct (raster st _ _) as [chaos encoder]. simpl in Hr.
  destruct Hk as (_ & Hstart & _).
  destruct (_filter_encoder st); simpl; rewrite Hr; apply Hstart.
Qed.

Lemma simulate_chaos st :
  _chaos (fst (simulate st)) = fst (simulate_residuals st).
Proof.
  destruct st; simpl.
  match goal with |- context [match ?o with Some _ => _ | None => _ end] => destruct o end.
  - match goal with |- context [simulate ?m] => destruct (simulate m) end.
    match goal with |- context [simulate_residuals ?m] => destruct (simulate_residuals m) end.
    reflexivity.
  - match goal with |- context [simulate_residuals ?m] => destruct (simulate_residuals m) end.
    reflexivity.
Qed.

Lemma simulate_bins st :
  chaos_bins_kept ->
  chaos_getBinCount (_chaos (fst (simulate st))) = chaos_getBinCount (_chaos st).
Proof.
  intros Hk. rewrite simulate_chaos. unfold simulate_residuals.
  rewrite raster_bins by exact Hk. destruct Hk as (_ & Hstart & _). apply Hstart.
Qed.

(** ** The chaos sweep *)

Lemma designChaos_sweep_best st :
  1 < MAX_CHAOS_LEVELS ->
  1 <= snd (designChaos_sweep st) <= MAX_CHAOS_LEVELS - 1.
Proof.
  intros Hmax. unfold designChaos_sweep.
  pose (P := fun (i : Z) (s : MonoChaos * list EntropyEstimator * Z * Z) =>
               1 <= snd s <= Z.max 1 (i - 1)).
  assert (P MAX_CHAOS_LEVELS
            (for_range 1 MAX_CHAOS_LEVELS (designChaos_level st)
               (_chaos st, replicate (Z.to_nat MAX_CHAOS_LEVELS) ee_init, 2147483647, 1))) as HP.
  { apply for_range_ind; [lia| unfold P; simpl; lia |].
    intros i [[[c ee] be] b] Hi HPi. unfold P in *. simpl in HPi.
    unfold designChaos_level.
    destruct (raster st _ _) as [c' ee'].
    match goal with |- context [if ?t then _ else _] => destruct t end; simpl; lia. }
  unfold P in HP. lia.
Qed.

Lemma designChaos_chaos st :
  exists c, _chaos (designChaos st)
            = chaos_init c (snd (designChaos_sweep st)) (size_x (_params st)).
Proof.
  unfold designChaos. destruct (designChaos_sweep st) as [[[c ee] be] b].
  exists c. reflexivity.
Qed.

(** C10.  The number of chaos bins designChaos selects lies between 1
    and [MAX_CHAOS_LEVELS - 1]; the encoders built from it and the
    scoring keep it, so the 4-bit chaos field of the header, which
    carries the bin count minus 1, never carries
    [MAX_CHAOS_LEVELS - 1]. *)
Theorem designChaos_bin_count_below_max st :
  1 < MAX_CHAOS_LEVELS -> MAX_CHAOS_LEVELS <= 16 -> chaos_bins_kept ->
  let st1 := designChaos st in
  let st2 := fst (simulate (initializeEncoders st1)) in
  let bins := chaos_getBinCount (_chaos st1) in
  bins = snd (designChaos_sweep st) /\
  1 <= bins <= MAX_CHAOS_LEVELS - 1 /\
  chaos_getBinCount (_chaos st2) = bins /\
  snd (tables_chaos st2) = [WriteBits (bins - 1) 4] /\
  bins - 1 <> MAX_CHAOS_LEVELS - 1.
Proof.
  intros Hmax Hmax16 Hk st1 st2 bins.
  pose proof (designChaos_sweep_best st Hmax) as Hbest.
  destruct (designChaos_chaos st) as [c Hc].
  assert (bins = snd (designChaos_sweep st)) as Hbins.
  { unfold bins, st1. rewrite Hc. destruct Hk as (Hinit & _). apply Hinit. }
  assert (chaos_getBinCount (_chaos st2) = bins) as Hst2.
  { unfold st2. rewrite simulate_bins, initializeEncoders_bins by exact Hk. reflexivity. }
  repeat split; try lia; try exact Hst2.
  unfold tables_chaos. simpl. rewrite Hst2. unfold u32.
  rewrite Z.mod_small by lia. reflexivity.
Qed.

End Proofs.

(** C10 at the 2x2 input. *)
Lemma designChaos_bin_count_below_max_witness :
  let st := processed 10 params_2x2 in
  chaos_getBinCount (_chaos (designChaos st)) = 1 /\
  snd (tables_chaos (fst (simulate (initializeEncoders (designChaos st)))))
  = [WriteBits 0 4].
Proof.
  intros st.
  assert (@chaos_bins_kept reference_primitives) as Hk.
  { repeat split; reflexivity. }
  assert (1 < @MAX_CHAOS_LEVELS reference_primitives) as H1 by (simpl; lia).
  assert (@MAX_CHAOS_LEVELS reference_primitives <= 16) as H2 by (simpl; lia).
  destruct (designChaos_bin_count_below_max st H1 H2 Hk) as (Hb & _ & _ & Ht & _).
  assert (chaos_getBinCount (_chaos (designChaos st)) = 1) as E by (vm_compute; reflexivity).
  split; [exact E|]. rewrite Ht, E. reflexivity.
Defined.

Section Frame.
Context `{Prim : Primitives} `{Plan : !Planner} `{Tune : Tuning}.
Implicit Types (st : MonoWriter) (params : Parameters).

(** ** What the stages leave alone *)

Lemma maskTiles_config fuel st st' :
  maskTiles fuel st = Some st' -> config_of st' = config_of st.
Proof.
  unfold maskTiles. destruct (for_tiles fuel st _ _) as [[p t]|]; [|discriminate].
  intros [= <-]. reflexivity.
Qed.

Lemma designPaletteFilters_config st : config_of (designPaletteFilters st) = config_of st.
Proof.
  unfold designPaletteFilters. destruct (plan_designPaletteFilters st) as [[a b] c].
  reflexivity.
Qed.

Lemma designFilters_config st : config_of (designFilters st) = config_of st.
Proof. reflexivity. Qed.

Lemma designPaletteTiles_config fuel st st' :
  designPaletteTiles fuel st = Some st' -> config_of st' = config_of st.
Proof.
  unfold designPaletteTiles. destruct (_ <? 0); [intros [= <-]; reflexivity|].
  destruct (for_tiles fuel st _ _) as [[p t]|]; [|discriminate].
  intros [= <-]. reflexivity.
Qed.

Lemma designTiles_config fuel st st' :
  Planning.designTiles fuel st = Some st' -> config_of st' = config_of st.
Proof.
  unfold Planning.designTiles. cbv zeta.
  destruct (Planning.designTiles_passes fuel st 0 _) as [s|]; [|discriminate].
  intros [= <-]. reflexivity.
Qed.

Lemma computeResiduals_config fuel st st' :
  computeResiduals fuel st = Some st' -> config_of st' = config_of st.
Proof.
  unfold computeResiduals. destruct (for_tiles fuel st _ _) as [[p t]|]; [|discriminate].
  intros [= <-]. reflexivity.
Qed.

Lemma designRowFilters_config st : config_of (designRowFilters st) = config_of st.
Proof. reflexivity. Qed.

Lemma recurseCompress_config rec st st' :
  recurseCompress rec st = Some st' -> config_of st' = config_of st.
Proof.
  unfold recurseCompress. destruct (_ <? _); [intros [= <-]; reflexivity|].
  destruct (rec _ _) as [[inner e]|]; [|discriminate].
  destruct (_ >? _); intros [= <-]; reflexivity.
Qed.

Lemma designChaos_config st : config_of (designChaos st) = config_of st.
Proof.
  unfold designChaos. destruct (designChaos_sweep st) as [[[c ee] be] b]. reflexivity.
Qed.

Lemma initializeEncoders_config st : config_of (initializeEncoders st) = config_of st.
Proof.
  unfold initializeEncoders. destruct (raster st _ _) as [c e].
  destruct (_filter_encoder st); reflexivity.
Qed.

Lemma simulate_unfold st :
  simulate st =
  (let '(inner, filter_bits) :=
     match _filter_encoder st with
     | Some inner => let '(inner', b) := simulate inner in (Some inner', b)
     | None =>
         (None,
          for_row_filter_symbols st
            (fun rf bits => bits + enc_simulate (_row_filter_encoder st) rf) 0)
     end in
   let '(chaos, residual_bits) := simulate_residuals st in
   (set_chaos chaos (set_filter_encoder inner st),
    u32 (simulate_header st + filter_bits + residual_bits))).
Proof. destruct st; reflexivity. Qed.

Lemma simulate_config st : config_of (fst (simulate st)) = config_of st.
Proof.
  rewrite simulate_unfold.
  destruct (_filter_encoder st) as [inner|].
  - destruct (simulate inner). destruct (simulate_residuals st). reflexivity.
  - destruct (simulate_residuals st). reflexivity.
Qed.

Lemma designChaos_filter_encoder st :
  _filter_encoder (designChaos st) = _filter_encoder st.
Proof.
  unfold designChaos. destruct (designChaos_sweep st) as [[[c ee] be] b]. reflexivity.
Qed.

Lemma initializeEncoders_filter_encoder st :
  _filter_encoder (initializeEncoders st) = _filter_encoder st.
Proof.
  unfold initializeEncoders. destruct (raster st _ _) as [c e].
  destruct (_filter_encoder st) eqn:E; simpl; rewrite E; reflexivity.
Qed.

Lemma simulate_recurse_bit st : recurse_bit (fst (simulate st)) = recurse_bit st.
Proof.
  rewrite simulate_unfold. unfold recurse_bit.
  destruct (_filter_encoder st) as [inner|].
  - destruct (simulate inner). destruct (simulate_residuals st). reflexivity.
  - destruct (simulate_residuals st). reflexivity.
Qed.

(** ** The header *)

Lemma writeTables_unfold st :
  writeTables st =
  (let '(b_size, tr_size) := tables_tile_size st in
   let '(b_sympal, tr_sympal) := tables_sympal st in
   let '(b_normal, tr_normal) := tables_normal st in
   let '(b_chaos, tr_chaos) := tables_chaos st in
   let '(encoder_overhead_bits, tr_encoders) := tables_encoders st in
   let basic_overhead_bits := b_size + b_sympal + b_normal + b_chaos in
   let '(inner, filter_overhead_bits, tr_filter) :=
     match _filter_encoder st with
     | Some inner =>
         let '(inner', bits, tr) := writeTables inner in
         (Some inner', 1 + bits, WriteBit 1 :: tr)
     | None =>
         let bits := enc_writeTables (_row_filter_encoder st) in
         (None, 1 + bits, [WriteBit 0; CoderTables RowFilterCoder bits])
     end in
   (initializeWriter (set_filter_encoder inner st),
    encoder_overhead_bits + basic_overhead_bits + filter_overhead_bits,
    tr_size ++ tr_sympal ++ tr_normal ++ tr_chaos ++ tr_encoders ++ tr_filter)).
Proof. destruct st; reflexivity. Qed.

Lemma writeTables_trace st :
  snd (writeTables st) =
  snd (tables_tile_size st) ++ snd (tables_sympal st) ++ snd (tables_normal st)
  ++ snd (tables_chaos st) ++ snd (tables_encoders st)
  ++ match _filter_encoder st with
     | Some inner => WriteBit 1 :: snd (writeTables inner)
     | None => [WriteBit 0;
                CoderTables RowFilterCoder (enc_writeTables (_row_filter_encoder st))]
     end.
Proof.
  rewrite writeTables_unfold.
  destruct (tables_tile_size st), (tables_sympal st), (tables_normal st),
    (tables_chaos st), (tables_encoders st).
  destruct (_filter_encoder st) as [inner|].
  - destruct (writeTables inner) as [[? ?] ?]. reflexivity.
  - reflexivity.
Qed.

(** A loop that appends one call per iteration emits the calls of its
    range in order. *)
Lemma for_range_emit (k : Z) (g : Z -> Emit) lo hi b0 tr0 :
  for_range lo hi (fun f '(basic, tr) => (basic + k, tr ++ [g f])) (b0, tr0)
  = (b0 + k * Z.of_nat (length (seqZ lo (hi - lo))), tr0 ++ map g (seqZ lo (hi - lo))).
Proof.
  unfold for_range. generalize (seqZ lo (hi - lo)) as l. intros l.
  revert b0 tr0. induction l as [|a l IH]; intros b0 tr0; simpl.
  - f_equal; [lia| rewrite app_nil_r; reflexivity].
  - rewrite IH. f_equal; [lia|]. rewrite <- app_assoc. reflexivity.
Qed.

Lemma tables_sympal_trace st :
  snd (tables_sympal st)
  = WriteBits (u32 (_sympal_filter_count st - 1)) 4
    :: map (fun f => WriteBits (rd (_sympal st) f) 8) (seqZ 0 (_sympal_filter_count st)).
Proof.
  unfold tables_sympal. rewrite for_range_emit. simpl.
  rewrite Z.sub_0_r. reflexivity.
Qed.

Lemma tables_normal_trace st :
  snd (tables_normal st)
  = WriteBits (u32 (_normal_filter_count st - SF_FIXED)) 5
    :: map (fun f => WriteBits (rd (_filter_indices st) f) 7)
         (seqZ SF_FIXED (_normal_filter_count st - SF_FIXED)).
Proof. unfold tables_normal. rewrite for_range_emit. reflexivity. Qed.

Lemma tables_encoders_trace st :
  snd (tables_encoders st)
  = map (fun ii => CoderTables (ChaosBin ii)
                     (enc_writeTables (rd_or enc_new (_encoder st) ii)))
      (seqZ 0 (chaos_getBinCount (_chaos st))).
Proof.
  unfold tables_encoders, for_range. rewrite Z.sub_0_r.
  generalize (seqZ 0 (chaos_getBinCount (_chaos st))) as l.
  assert (forall l b tr,
    snd (fold_left
      (fun acc i => let '(overhead, tr) := acc in
         (overhead + enc_writeTables (rd_or enc_new (_encoder st) i),
          tr ++ [CoderTables (ChaosBin i) (enc_writeTables (rd_or enc_new (_encoder st) i))]))
      l (b, tr))
    = tr ++ map (fun ii => CoderTables (ChaosBin ii)
                   (enc_writeTables (rd_or enc_new (_encoder st) ii))) l) as H.
  { induction l as [|a l IH]; intros b tr; simpl.
    - rewrite app_nil_r. reflexivity.
    - rewrite IH. rewrite <- app_assoc. reflexivity. }
  intros l. rewrite H. reflexivity.
Qed.

Lemma header_fields_no_write_bit st :
  Forall (fun e => is_write_bit e = false)
    (snd (tables_tile_size st) ++ snd (tables_sympal st) ++ snd (tables_normal st)
     ++ snd (tables_chaos st) ++ snd (tables_encoders st)).
Proof.
  rewrite tables_sympal_trace, tables_normal_trace, tables_encoders_trace.
  repeat (apply Forall_app; split).
  - unfold tables_tile_size. destruct (_ >? 0); simpl; repeat constructor.
  - constructor; [reflexivity|]. apply Forall_forall. intros e He.
    apply list_elem_of_In, in_map_iff in He. destruct He as (f & <- & _). reflexivity.
  - constructor; [reflexivity|]. apply Forall_forall. intros e He.
    apply list_elem_of_In, in_map_iff in He. destruct He as (f & <- & _). reflexivity.
  - simpl. repeat constructor.
  - apply Forall_forall. intros e He.
    apply list_elem_of_In, in_map_iff in He. destruct He as (f & <- & _). reflexivity.
Qed.

(** The first single-bit call of the header is the recurse bit. *)
Lemma writeTables_recurse_bit st :
  exists pre post,
    snd (writeTables st) = pre ++ WriteBit (recurse_bit st) :: post /\
    Forall (fun e => is_write_bit e = false) pre /\
    post = match _filter_encoder st with
           | Some inner => snd (writeTables inner)
           | None => [CoderTables RowFilterCoder (enc_writeTables (_row_filter_encoder st))]
           end.
Proof.
  eexists _, _. split; [|split; [apply (header_fields_no_write_bit st)|reflexivity]].
  rewrite writeTables_trace. rewrite !app_assoc. unfold recurse_bit.
  destruct (_filter_encoder st); reflexivity.
Qed.

End Frame.

Section Process.
Context `{Prim : Primitives} `{Plan : !Planner} `{Tune : Tuning}.
Implicit Types (st : MonoWriter) (params : Parameters).

(** ** The tile-size loop *)

Lemma process_body_config rec fuel bits st st' :
  process_body rec fuel bits st = Some st' ->
  let tile_size := u16 (Z.shiftl 1 bits) in
  let tiles_x := u16 (Z.shiftr (size_x (_params st) + tile_size - 1) bits) in
  let tiles_y := u16 (Z.shiftr (size_y (_params st) + tile_size - 1) bits) in
  config_of st' =
  (_params st, _tile_bits_field_bc st, (u16 bits, u16 bits), (tile_size, tile_size),
   (tiles_x, tiles_y, tiles_x * tiles_y)).
Proof.
  unfold process_body. intros H. cbv zeta in H.
  match type of H with context [maskTiles fuel ?s] => set (st0 := s) in * end.
  destruct (maskTiles fuel st0) as [sa|] eqn:Ea; simpl in H; [|discriminate].
  destruct (designPaletteTiles fuel (designFilters (designPaletteFilters sa)))
    as [sb|] eqn:Eb; simpl in H; [|discriminate].
  destruct (Planning.designTiles fuel sb) as [sb'|] eqn:Et; simpl in H;
    [|discriminate].
  destruct (computeResiduals fuel sb') as [sc|] eqn:Ec; simpl in H;
    [|discriminate].
  destruct (recurseCompress rec (designRowFilters sc)) as [sd|] eqn:Ed; simpl in H;
    [|discriminate].
  injection H as <-.
  rewrite initializeEncoders_config, designChaos_config.
  rewrite (recurseCompress_config _ _ _ Ed), designRowFilters_config.
  rewrite (computeResiduals_config _ _ _ Ec), (designTiles_config _ _ _ Et).
  rewrite (designPaletteTiles_config _ _ _ Eb), designFilters_config,
    designPaletteFilters_config.
  rewrite (maskTiles_config _ _ _ Ea).
  reflexivity.
Qed.

Lemma allocate_best_writer_config st :
  config_of (allocate_best_writer st) = config_of st.
Proof. unfold allocate_best_writer. destruct (_best_writer st); reflexivity. Qed.

Lemma config_params st st' : config_of st' = config_of st -> _params st' = _params st.
Proof. unfold config_of. congruence. Qed.

Lemma process_loop_params rec fuel n : forall bits st be bb st' e b,
  process_loop rec fuel n bits st be bb = Some (st', e, b) ->
  _params st' = _params st /\ _tile_bits_field_bc st' = _tile_bits_field_bc st.
Proof.
  induction n as [|n IH]; intros bits st be bb st' e b H; simpl in H.
  - injection H as <- <- <-. split; reflexivity.
  - destruct (process_body rec fuel bits st) as [st1|] eqn:E1; [|discriminate].
    pose proof (process_body_config _ _ _ _ _ E1) as C1. cbv zeta in C1.
    pose proof (simulate_config st1) as C2.
    destruct (simulate st1) as [st2 entropy]. simpl in C2.
    assert (_params st2 = _params st /\ _tile_bits_field_bc st2 = _tile_bits_field_bc st)
      as [Hp Hb].
    { unfold config_of in *. split; congruence. }
    destruct (be >? entropy).
    + apply IH in H. destruct H as [H1 H2].
      pose proof (allocate_best_writer_config st2) as C3.
      unfold config_of in C3. split; congruence.
    + injection H as <- <- <-. split; assumption.
Qed.

Lemma process_start_params st params : _params (process_start st params) = params.
Proof. reflexivity. Qed.

Lemma process_params fuel st params st' e :
  process fuel st params = Some (st', e) -> _params st' = params.
Proof.
  destruct fuel as [|fuel]; simpl; [discriminate|].
  destruct (process_search (process fuel) fuel st params) as [[[s e'] b]|] eqn:E;
    [|discriminate].
  intros [= <- <-]. unfold process_search in E.
  apply process_loop_params in E. destruct E as [E _].
  rewrite E. apply process_start_params.
Qed.

(** C6.  When the tile map is large enough for the recursive compressor
    to be tried, the inner writer is kept exactly when the cost its
    process() returned is at most the row-filter cost, and the recurse
    bit of the header written from the state the iteration ends in, the
    first single-bit call of the header, is 1 exactly in that case;
    otherwise it is 0 and the table of the row-filter coder follows. *)
Theorem recurseCompress_keeps_inner_iff_not_worse fuel st inner recurse_entropy :
  RECURSE_THRESH_COUNT <= _tiles_count st ->
  process fuel MonoWriter_new (recurse_params st) = Some (inner, recurse_entropy) ->
  exists st',
    recurseCompress (process fuel) st = Some st' /\
    (_filter_encoder st' = Some inner <-> recurse_entropy <= _row_filter_entropy st) /\
    (_filter_encoder st' = None <-> _row_filter_entropy st < recurse_entropy) /\
    let st_end := fst (simulate (initializeEncoders (designChaos st'))) in
    exists pre bit post,
      snd (writeTables st_end) = pre ++ WriteBit bit :: post /\
      Forall (fun e => is_write_bit e = false) pre /\
      (bit = 1 <-> recurse_entropy <= _row_filter_entropy st) /\
      (bit = 0 <-> _row_filter_entropy st < recurse_entropy) /\
      (bit = 0 ->
       post = [CoderTables RowFilterCoder (enc_writeTables (_row_filter_encoder st_end))]).
Proof.
  intros Hthresh Hrec. unfold recurseCompress.
  destruct (_tiles_count st <? RECURSE_THRESH_COUNT) eqn:Ht; [lia|]. clear Ht.
  rewrite Hrec.
  destruct (recurse_entropy >? _row_filter_entropy st) eqn:Hcmp.
  - eexists. split; [reflexivity|]. simpl.
    split; [split; [discriminate|lia]|]. split; [split; [lia|reflexivity]|].
    destruct (writeTables_recurse_bit
                (fst (simulate (initializeEncoders (designChaos (set_filter_encoder None st))))))
      as (pre & post & Htr & Hpre & Hpost).
    rewrite simulate_recurse_bit in Htr. unfold recurse_bit in Htr.
    rewrite initializeEncoders_filter_encoder, designChaos_filter_encoder in Htr.
    simpl in Htr.
    exists pre, 0, post. split; [exact Htr|]. split; [exact Hpre|].
    split; [split; lia|]. split; [split; [lia|reflexivity]|].
    intros _. rewrite Hpost.
    assert (recurse_bit (fst (simulate (initializeEncoders (designChaos (set_filter_encoder None st))))) = 0) as Hb.
    { rewrite simulate_recurse_bit. unfold recurse_bit.
      rewrite initializeEncoders_filter_encoder, designChaos_filter_encoder. reflexivity. }
    unfold recurse_bit in Hb.
    destruct (_filter_encoder _); [discriminate|reflexivity].
  - eexists. split; [reflexivity|]. simpl.
    split; [split; [lia|reflexivity]|]. split; [split; [discriminate|lia]|].
    destruct (writeTables_recurse_bit
                (fst (simulate (initializeEncoders (designChaos (set_filter_encoder (Some inner) st))))))
      as (pre & post & Htr & Hpre & Hpost).
    rewrite simulate_recurse_bit in Htr. unfold recurse_bit in Htr.
    rewrite initializeEncoders_filter_encoder, designChaos_filter_encoder in Htr.
    simpl in Htr.
    exists pre, 1, post. split; [exact Htr|]. split; [exact Hpre|].
    split; [split; [lia|reflexivity]|]. split; [split; lia|]. lia.
Qed.


(** C9 (amended).  process() checks no parameter and has no failure
    path: whenever it returns, init() reports success and the
    parameters are committed to the object; when [max_bits < min_bits]
    no tile size is tried and the cost returned is the initial
    [0x7fffffff]. *)
Theorem process_validates_nothing fuel st params :
  (forall st' ok, init fuel st params = Some (st', ok) ->
                  ok = true /\ _params st' = params) /\
  (max_bits params < min_bits params ->
   process (S fuel) st params = Some (process_start st params, 2147483647) /\
   init (S fuel) st params = Some (process_start st params, true)).
Proof.
  split.
  - intros st' ok. unfold init.
    destruct (process fuel st params) as [[s e]|] eqn:E; [|discriminate].
    intros [= <- <-]. split; [reflexivity|]. eapply process_params; eauto.
  - intros Hbad.
    assert (process (S fuel) st params = Some (process_start st params, 2147483647)) as Hp.
    { simpl. unfold process_search.
      replace (Z.to_nat (max_bits params - min_bits params + 1)) with O by lia.
      reflexivity. }
    split; [exact Hp|]. unfold init. rewrite Hp. reflexivity.
Qed.

(** C3.  When the second tile size tried does not improve on the first,
    process() returns the cost of the first and leaves the object in the
    state of the second: the tile-size exponent it holds is
    [min_bits + 1] while the best one is [min_bits]. *)
Theorem process_leaves_last_tried_tile_size rec fuel st params st1 e1 st2 e2 :
  0 <= min_bits params -> min_bits params < max_bits params ->
  max_bits params < 65536 ->
  process_body rec fuel (min_bits params) (process_start st params) = Some st1 ->
  snd (simulate st1) = e1 -> e1 < 2147483647 ->
  process_body rec fuel (min_bits params + 1) (allocate_best_writer (fst (simulate st1)))
  = Some st2 ->
  snd (simulate st2) = e2 -> e1 <= e2 ->
  process_search rec fuel st params = Some (fst (simulate st2), e1, min_bits params) /\
  _tile_bits_x (fst (simulate st2)) = min_bits params + 1.
Proof.
  intros Hmin Hlt Hmax Hb1 He1 Hbest Hb2 He2 Hworse.
  split.
  - unfold process_search.
    replace (Z.to_nat (max_bits params - min_bits params + 1))
      with (S (S (Z.to_nat (max_bits params - min_bits params - 1)))) by lia.
    simpl. rewrite Hb1.
    destruct (simulate st1) as [st1' x1] eqn:Es1. simpl in He1, Hb2. subst x1.
    destruct (2147483647 >? e1) eqn:Hc1; [|lia].
    rewrite Hb2.
    destruct (simulate st2) as [st2' x2] eqn:Es2. simpl in He2. subst x2.
    destruct (e1 >? e2) eqn:Hc2; [lia|]. reflexivity.
  - pose proof (process_body_config _ _ _ _ _ Hb2) as C. cbv zeta in C.
    pose proof (simulate_config st2) as C2. rewrite C in C2.
    unfold config_of in C2.
    assert (_tile_bits_x (fst (simulate st2)) = u16 (min_bits params + 1)) as -> by congruence.
    unfold u16. apply Z.mod_small. lia.
Qed.

End Process.

(** C6 at the 32x32 input: 256 tiles, the inner writer costs 2622 bits
    against 16 for the row filters and is dropped. *)
Lemma recurseCompress_keeps_inner_iff_not_worse_witness :
  let st := processed 20 params_32x32 in
  exists st',
    recurseCompress (process 19) st = Some st' /\ _filter_encoder st' = None.
Proof.
  intros st.
  assert (process 19 MonoWriter_new (recurse_params st)
          = Some (processed 19 (recurse_params st), 2622)) as E
    by (vm_compute; reflexivity).
  assert (@RECURSE_THRESH_COUNT reference_primitives <= _tiles_count st) as Ht
    by (vm_compute; discriminate).
  destruct (recurseCompress_keeps_inner_iff_not_worse 19 st _ 2622 Ht E)
    as (st' & Hrun & _ & Hdrop & _).
  exists st'. split; [exact Hrun|]. apply Hdrop. vm_compute. reflexivity.
Defined.


(** C9, counterexample: with [max_bits = 2 < min_bits = 3], init()
    reports success, and the object, which was fresh, now holds the
    parameters and a 32-bit tile-size field width. *)
Lemma process_accepts_max_bits_below_min_bits :
  let st' := process_start MonoWriter_new params_bad_bits in
  init 1 MonoWriter_new params_bad_bits = Some (st', true) /\
  _params st' = params_bad_bits /\
  _tile_bits_field_bc st' = 32 /\
  _tile_bits_field_bc MonoWriter_new = 0.
Proof. repeat split; vm_compute; reflexivity. Qed.

(** C9 (amended) at the same input. *)
Lemma process_validates_nothing_witness :
  max_bits params_bad_bits < min_bits params_bad_bits /\
  process 1 MonoWriter_new params_bad_bits
  = Some (process_start MonoWriter_new params_bad_bits, 2147483647).
Proof.
  assert (max_bits params_bad_bits < min_bits params_bad_bits) as H by (simpl; lia).
  split; [exact H|].
  exact (proj1 (proj2 (process_validates_nothing 0 MonoWriter_new params_bad_bits) H)).
Defined.

(** C3 at the 1x1 input: tile sizes 2 and 4 both cost 79 bits, the
    search stops at the second, returns 79 with best exponent 1 and
    leaves the object with exponent 2. *)
Lemma process_leaves_last_tried_tile_size_witness :
  exists st,
    process_search (process 9) 9 MonoWriter_new params_1x1 = Some (st, 79, 1) /\
    _tile_bits_x st = 2.
Proof.
  assert (0 <= min_bits params_1x1) as H0 by (simpl; lia).
  assert (min_bits params_1x1 < max_bits params_1x1) as H1 by (simpl; lia).
  assert (max_bits params_1x1 < 65536) as H2 by (simpl; lia).
  assert (79 < 2147483647) as H3 by lia.
  assert (79 <= 79) as H4 by lia.
  pose (st1 := default MonoWriter_new
                 (process_body (process 9) 9 1 (process_start MonoWriter_new params_1x1))).
  pose (st2 := default MonoWriter_new
                 (process_body (process 9) 9 2 (allocate_best_writer (fst (simulate st1))))).
  exists (fst (simulate st2)).
  refine (process_leaves_last_tried_tile_size (process 9) 9 MonoWriter_new params_1x1
            st1 79 st2 79 H0 H1 H2 _ _ H3 _ _ H4);
    vm_compute; reflexivity.
Defined.

Section Recursion.
Context `{Prim : Primitives} `{Plan : !Planner} `{Tune : Tuning}.
Implicit Types (st : MonoWriter) (params : Parameters).

(** ** Termination of the tile loops *)

Lemma for_u16_total {T} fuel : forall x (s : T) bound step body,
  0 < step -> 0 <= x -> bound + step <= 65536 ->
  Z.max 0 (bound - x) + step <= Z.of_nat fuel * step ->
  (forall x' s', is_Some (body x' s')) ->
  is_Some (for_u16 fuel x bound step body s).
Proof.
  induction fuel as [|fuel IH]; intros x s bound step body Hstep Hx Hwrap Hfuel Hbody.
  - simpl in Hfuel. lia.
  - simpl. destruct (x <? bound) eqn:Hlt; [|eexists; reflexivity].
    apply Z.ltb_lt in Hlt.
    destruct (Hbody x s) as [s' ->].
    unfold u16. rewrite Z.mod_small by lia.
    apply IH; try lia; [|exact Hbody].
    rewrite Nat2Z.inj_succ in Hfuel.
    assert (1 <= Z.of_nat fuel) as Hf1.
    { destruct fuel; [simpl in Hfuel; lia|lia]. }
    destruct (Z_le_gt_dec (bound - (x + step)) 0) as [Hle|Hgt].
    + rewrite Z.max_l by lia. nia.
    + rewrite Z.max_r by lia. rewrite Z.max_r in Hfuel by lia. nia.
Qed.

Lemma for_tiles_total {T} fuel st (body : Z -> Z -> T -> T) s :
  0 < _tile_size_x st -> 0 < _tile_size_y st ->
  u16 (size_x (_params st)) + _tile_size_x st <= 65536 ->
  u16 (size_y (_params st)) + _tile_size_y st <= 65536 ->
  u16 (size_x (_params st)) < Z.of_nat fuel ->
  u16 (size_y (_params st)) < Z.of_nat fuel ->
  is_Some (for_tiles fuel st body s).
Proof.
  intros Hx Hy Hwx Hwy Hfx Hfy. unfold for_tiles.
  assert (0 <= u16 (size_x (_params st))) by (unfold u16; apply Z.mod_pos_bound; lia).
  assert (0 <= u16 (size_y (_params st))) by (unfold u16; apply Z.mod_pos_bound; lia).
  apply for_u16_total; try lia; [nia|].
  intros y s1. apply for_u16_total; try lia; [nia|].
  intros x s2. eexists; reflexivity.
Qed.

(** ** The tile grid of one iteration *)

Lemma pow2_bits bits : 0 <= bits <= 15 -> 1 <= 2 ^ bits <= 32768.
Proof.
  intros H. split.
  - pose proof (Z.pow_pos_nonneg 2 bits). lia.
  - change 32768 with (2 ^ 15). apply Z.pow_le_mono_r; lia.
Qed.

Lemma tile_size_pow2 bits : 0 <= bits <= 15 -> u16 (Z.shiftl 1 bits) = 2 ^ bits.
Proof.
  intros H. rewrite Z.shiftl_mul_pow2 by lia. rewrite Z.mul_1_l.
  pose proof (pow2_bits bits H). unfold u16. apply Z.mod_small. lia.
Qed.

Lemma tiles_along bits size :
  0 <= bits <= 15 -> 0 <= size -> size + 2 ^ bits <= 65536 ->
  u16 (Z.shiftr (size + 2 ^ bits - 1) bits) = (size + 2 ^ bits - 1) / 2 ^ bits /\
  0 <= (size + 2 ^ bits - 1) / 2 ^ bits <= size.
Proof.
  intros Hb Hs Hw. pose proof (pow2_bits bits Hb) as Hp.
  rewrite Z.shiftr_div_pow2 by lia.
  assert (0 <= (size + 2 ^ bits - 1) / 2 ^ bits <= size) as Hr.
  { split; [apply Z.div_pos; lia|].
    destruct (Z.eq_dec size 0) as [->|Hne].
    - rewrite Z.div_small by lia. lia.
    - assert ((size + 2 ^ bits - 1) / 2 ^ bits < size + 1); [|lia].
      apply Z.div_lt_upper_bound; nia. }
  split; [|exact Hr]. unfold u16. apply Z.mod_small. lia.
Qed.

(** ** The stages return *)

Lemma maskTiles_total fuel st :
  0 < _tile_size_x st -> 0 < _tile_size_y st ->
  u16 (size_x (_params st)) + _tile_size_x st <= 65536 ->
  u16 (size_y (_params st)) + _tile_size_y st <= 65536 ->
  u16 (size_x (_params st)) < Z.of_nat fuel ->
  u16 (size_y (_params st)) < Z.of_nat fuel ->
  is_Some (maskTiles fuel st).
Proof.
  intros H1 H2 H3 H4 H5 H6. unfold maskTiles.
  match goal with |- context [for_tiles fuel st ?b ?s] =>
    destruct (for_tiles_total fuel st b s H1 H2 H3 H4 H5 H6) as [[p t] ->] end.
  eexists; reflexivity.
Qed.

Lemma designPaletteTiles_total fuel st :
  0 < _tile_size_x st -> 0 < _tile_size_y st ->
  u16 (size_x (_params st)) + _tile_size_x st <= 65536 ->
  u16 (size_y (_params st)) + _tile_size_y st <= 65536 ->
  u16 (size_x (_params st)) < Z.of_nat fuel ->
  u16 (size_y (_params st)) < Z.of_nat fuel ->
  is_Some (designPaletteTiles fuel st).
Proof.
  intros H1 H2 H3 H4 H5 H6. unfold designPaletteTiles.
  destruct (_ <? 0); [eexists; reflexivity|].
  match goal with |- context [for_tiles fuel st ?b ?s] =>
    destruct (for_tiles_total fuel st b s H1 H2 H3 H4 H5 H6) as [[p t] ->] end.
  eexists; reflexivity.
Qed.

Lemma computeResiduals_total fuel st :
  0 < _tile_size_x st -> 0 < _tile_size_y st ->
  u16 (size_x (_params st)) + _tile_size_x st <= 65536 ->
  u16 (size_y (_params st)) + _tile_size_y st <= 65536 ->
  u16 (size_x (_params st)) < Z.of_nat fuel ->
  u16 (size_y (_params st)) < Z.of_nat fuel ->
  is_Some (computeResiduals fuel st).
Proof.
  intros H1 H2 H3 H4 H5 H6. unfold computeResiduals.
  match goal with |- context [for_tiles fuel st ?b ?s] =>
    destruct (for_tiles_total fuel st b s H1 H2 H3 H4 H5 H6) as [[p t] ->] end.
  eexists; reflexivity.
Qed.

Lemma recurseCompress_below_threshold rec st :
  _tiles_count st < RECURSE_THRESH_COUNT -> recurseCompress rec st = Some st.
Proof.
  intros H. unfold recurseCompress.
  destruct (_tiles_count st <? RECURSE_THRESH_COUNT) eqn:E; [reflexivity|lia].
Qed.

(** ** The chain of recursive invocations *)

(** With 1x1 tiles the tile map has the size of the matrix: an iteration
    of the tile-size loop on a matrix that holds [RECURSE_THRESH_COUNT]
    elements or more ends only after the inner writer has ended on a
    matrix of the same size, with the same [min_bits] and [max_bits]. *)
Lemma unit_tile_iteration_waits rec fuel st st' :
  0 <= size_x (_params st) < 65536 -> 0 <= size_y (_params st) < 65536 ->
  RECURSE_THRESH_COUNT <= size_x (_params st) * size_y (_params st) ->
  process_body rec fuel 0 st = Some st' ->
  exists parent inner e,
    rec MonoWriter_new (recurse_params parent) = Some (inner, e) /\
    size_x (recurse_params parent) = size_x (_params st) /\
    size_y (recurse_params parent) = size_y (_params st) /\
    min_bits (recurse_params parent) = min_bits (_params st) /\
    max_bits (recurse_params parent) = max_bits (_params st).
Proof.
  intros Hsx Hsy Hth. unfold process_body. cbv zeta.
  match goal with |- context [maskTiles fuel ?s] => set (st0 := s) end.
  assert (config_of st0 =
          (_params st, _tile_bits_field_bc st, (0, 0), (1, 1),
           (size_x (_params st), size_y (_params st),
            size_x (_params st) * size_y (_params st)))) as C0.
  { unfold st0, config_of. simpl.
    change (u16 (Z.shiftl 1 0)) with 1. rewrite !Z.shiftr_0_r.
    replace (size_x (_params st) + 1 - 1) with (size_x (_params st)) by lia.
    replace (size_y (_params st) + 1 - 1) with (size_y (_params st)) by lia.
    unfold u16. rewrite !(Z.mod_small (size_x (_params st))) by lia.
    rewrite !(Z.mod_small (size_y (_params st))) by lia. reflexivity. }
  destruct (maskTiles fuel st0) as [sa|] eqn:Ea; simpl; [|discriminate].
  destruct (designPaletteTiles fuel (designFilters (designPaletteFilters sa)))
    as [sb|] eqn:Eb; simpl; [|discriminate].
  destruct (Planning.designTiles fuel sb) as [sb'|] eqn:Et; simpl; [|discriminate].
  destruct (computeResiduals fuel sb') as [sc|] eqn:Ec; simpl; [|discriminate].
  assert (config_of (designRowFilters sc) = config_of st0) as Cc.
  { rewrite designRowFilters_config, (computeResiduals_config _ _ _ Ec),
      (designTiles_config _ _ _ Et), (designPaletteTiles_config _ _ _ Eb),
      designFilters_config, designPaletteFilters_config,
      (maskTiles_config _ _ _ Ea). reflexivity. }
  rewrite C0 in Cc. unfold config_of in Cc. injection Cc as Q1 _ _ _ _ _ Q2 Q3 Q4.
  unfold recurseCompress.
  destruct (_tiles_count (designRowFilters sc) <? RECURSE_THRESH_COUNT) eqn:Eth.
  { apply Z.ltb_lt in Eth. simpl in Eth, Q4. lia. }
  destruct (rec MonoWriter_new (recurse_params (designRowFilters sc)))
    as [[inner e]|] eqn:Er; simpl; [|discriminate].
  intros _. exists (designRowFilters sc), inner, e.
  split; [exact Er|]. simpl in Q1, Q2, Q3. simpl. rewrite Q1, Q2, Q3.
  repeat split.
Qed.

Lemma process_unit_tiles_none fuel : forall st params,
  min_bits params = 0 -> 0 <= max_bits params ->
  0 <= size_x params < 65536 -> 0 <= size_y params < 65536 ->
  RECURSE_THRESH_COUNT <= size_x params * size_y params ->
  process fuel st params = None.
Proof.
  induction fuel as [|fuel IH]; intros st params Hmin Hmax Hsx Hsy Hth;
    [reflexivity|].
  simpl. unfold process_search.
  replace (Z.to_nat (max_bits params - min_bits params + 1))
    with (S (Z.to_nat (max_bits params))) by lia.
  simpl. rewrite Hmin.
  destruct (process_body (process fuel) fuel 0 (process_start st params))
    as [st'|] eqn:E; [exfalso|reflexivity].
  destruct (unit_tile_iteration_waits (process fuel) fuel
              (process_start st params) st' Hsx Hsy Hth E)
    as (parent & inner & e & Hrec & Px & Py & Pmin & Pmax).
  rewrite process_start_params in Px, Py, Pmin, Pmax.
  rewrite IH in Hrec; [discriminate Hrec| | | | |].
  - rewrite Pmin. exact Hmin.
  - rewrite Pmax. exact Hmax.
  - rewrite Px. exact Hsx.
  - rewrite Py. exact Hsy.
  - rewrite Px, Py. exact Hth.
Qed.

(** C8.  The chain of recursive invocations need not be finite.  With
    [min_bits = 0] the first tile size tried is 1 and the tile map has
    the size of the matrix; once the matrix holds
    [RECURSE_THRESH_COUNT] elements, an iteration of the tile-size loop
    ends only after the inner writer has ended on a matrix of the same
    size with the same [min_bits] and [max_bits], which waits for its
    own inner writer in turn: process() returns for no amount of fuel,
    whatever the planning stages and MAX_PASSES are. *)
Theorem process_diverges_on_unit_tiles params :
  min_bits params = 0 -> 0 <= max_bits params ->
  0 <= size_x params < 65536 -> 0 <= size_y params < 65536 ->
  RECURSE_THRESH_COUNT <= size_x params * size_y params ->
  (forall rec fuel st st',
     process_body rec fuel 0 (process_start st params) = Some st' ->
     exists parent inner e,
       rec MonoWriter_new (recurse_params parent) = Some (inner, e) /\
       size_x (recurse_params parent) = size_x params /\
       size_y (recurse_params parent) = size_y params /\
       min_bits (recurse_params parent) = 0 /\
       max_bits (recurse_params parent) = max_bits params) /\
  (forall fuel st, process fuel st params = None).
Proof.
  intros Hmin Hmax Hsx Hsy Hth. split.
  - intros rec fuel st st' Hrun.
    destruct (unit_tile_iteration_waits rec fuel (process_start st params) st'
                Hsx Hsy Hth Hrun)
      as (parent & inner & e & Hrec & Px & Py & Pmin & Pmax).
    rewrite process_start_params in Px, Py, Pmin, Pmax.
    exists parent, inner, e. rewrite Px, Py, Pmin, Pmax, Hmin.
    split; [exact Hrec|]. repeat split.
  - intros fuel st. apply process_unit_tiles_none; assumption.
Qed.

End Recursion.

(** C8 on a 16x16 matrix coded with 1x1 tiles: the tile map is 16x16,
    256 tiles, which is the threshold of the instance; no amount of
    fuel lets process() return. *)
Lemma process_never_returns_on_16x16_unit_tiles :
  ~ exists fuel, process fuel MonoWriter_new params_16x16 <> None.
Proof.
  intros [fuel H]. apply H.
  apply (process_diverges_on_unit_tiles params_16x16); simpl; lia.
Defined.

Section Arrays.

(** ** Reading and writing arrays *)

Lemma length_wr {A} (a : list A) i v : length (wr a i v) = length a.
Proof. unfold wr. destruct (0 <=? i); [apply length_insert|reflexivity]. Qed.

Lemma rd_wr_eq (a : list Z) i v :
  0 <= i < Z.of_nat (length a) -> rd (wr a i v) i = v.
Proof.
  intros H. unfold rd, wr. destruct (0 <=? i) eqn:E; [|lia].
  rewrite nth_lookup, list_lookup_insert_eq by lia. reflexivity.
Qed.

Lemma rd_wr_ne (a : list Z) i j v : i <> j -> rd (wr a i v) j = rd a j.
Proof.
  intros H. unfold rd, wr. destruct (0 <=? j) eqn:Ej; [|reflexivity].
  destruct (0 <=? i) eqn:Ei; [|reflexivity].
  rewrite !nth_lookup, list_lookup_insert_ne by lia. reflexivity.
Qed.

Lemma rd_or_wr_eq {A} (d : A) (a : list A) i v :
  0 <= i < Z.of_nat (length a) -> rd_or d (wr a i v) i = v.
Proof.
  intros H. unfold rd_or, wr. destruct (0 <=? i) eqn:E; [|lia].
  rewrite nth_lookup, list_lookup_insert_eq by lia. reflexivity.
Qed.

Lemma rd_or_wr_ne {A} (d : A) (a : list A) i j v :
  i <> j -> rd_or d (wr a i v) j = rd_or d a j.
Proof.
  intros H. unfold rd_or, wr. destruct (0 <=? j) eqn:Ej; [|reflexivity].
  destruct (0 <=? i) eqn:Ei; [|reflexivity].
  rewrite !nth_lookup, list_lookup_insert_ne by lia. reflexivity.
Qed.

End Arrays.

Section RowFilters.
Context `{Prim : Primitives} `{Plan : !Planner} `{Tune : Tuning}.
Implicit Types (st : MonoWriter) (params : Parameters).

(** ** The candidate codes of designRowFilters *)

(** C5.  In the inner loop of designRowFilters the RF_NOOP code of an
    unmasked tile is its filter [f], and so is the RF_PREV code: [prev]
    stays 0 for the whole row, so [(f + F - prev) mod F] is [f] and not
    the difference from the preceding unmasked tile. *)
Theorem designRowFilters_prev_code_is_filter tiles tiles_x num_filters p codes tx :
  0 <= tx < tiles_x -> 2 * tiles_x <= Z.of_nat (length codes) ->
  num_filters <= 128 ->
  rd tiles (p + tx) <> MASK_TILE -> 0 <= rd tiles (p + tx) < num_filters ->
  let codes' := snd (row_filter_codes tiles tiles_x num_filters (p, codes)) in
  rd codes' tx = rd tiles (p + tx) /\
  rd codes' (tx + tiles_x) = rd tiles (p + tx).
Proof.
  intros Htx Hlen Hnf Hmask Hf codes'. unfold codes', row_filter_codes.
  pose (P := fun (i : Z) (pc : Z * list Z) =>
               fst pc = p + i /\ length (snd pc) = length codes /\
               (tx < i -> rd (snd pc) tx = rd tiles (p + tx) /\
                          rd (snd pc) (tx + tiles_x) = rd tiles (p + tx))).
  assert (P tiles_x
            (for_range 0 tiles_x
               (fun tx0 '(p0, codes0) =>
                  let f := rd tiles p0 in
                  let codes1 :=
                    if negb (f =? MASK_TILE) then
                      let codes2 := wr codes0 tx0 f in
                      let fprev := u8 (f + num_filters - 0) in
                      let fprev :=
                        if fprev >=? num_filters then u8 (fprev - num_filters) else fprev in
                      wr codes2 (tx0 + tiles_x) fprev
                    else codes0 in
                  (p0 + 1, codes1))
               (p, codes))) as HP.
  { apply for_range_ind; [lia| |].
    - unfold P. simpl. repeat split; lia.
    - intros i [p0 c0] Hi (Hp0 & Hl0 & Hdone). simpl in Hp0, Hl0, Hdone. subst p0.
      unfold P. simpl. split; [lia|].
      destruct (rd tiles (p + i) =? MASK_TILE) eqn:Em; simpl.
      + split; [exact Hl0|]. intros Hlt.
        destruct (Z.eq_dec tx i) as [->|Hne]; [apply Z.eqb_eq in Em; contradiction|].
        apply Hdone. lia.
      + rewrite !length_wr. split; [exact Hl0|]. intros Hlt.
        destruct (Z.eq_dec tx i) as [->|Hne].
        * rewrite rd_wr_ne by lia. rewrite rd_wr_eq by lia.
          rewrite rd_wr_eq by (rewrite length_wr; lia).
          split; [reflexivity|].
          rewrite Z.sub_0_r. unfold u8.
          rewrite (Z.mod_small (rd tiles (p + i) + num_filters)) by lia.
          destruct (_ >=? num_filters) eqn:Eg; [|lia].
          rewrite Z.mod_small by lia. lia.
        * rewrite !rd_wr_ne by lia. apply Hdone. lia. }
  destruct HP as (_ & _ & HP). apply HP. lia.
Qed.

(** ** write on a masked element *)

Lemma write_unfold st x y :
  write st x y =
  (let st1 :=
     if mask (_params st) x y then set_chaos (chaos_zero (_chaos st)) st else st in
   let tx := u16 (Z.shiftr x (_tile_bits_x st)) in
   let '(st2, overhead_bits, tr_filter) :=
     if negb (rd_or false (_tile_seen st) tx) then
       let ty := u16 (Z.shiftr y (_tile_bits_y st)) in
       let f := rd (_tiles st) (tx + ty * _tiles_x st) in
       let st_seen := set_write_filter f (set_tile_seen (wr (_tile_seen st) tx true) st1) in
       if negb (f =? MASK_TILE) then
         match _filter_encoder st with
         | Some inner =>
             let '(inner', bits, tr) := write inner tx ty in
             (set_filter_encoder (Some inner') st_seen, bits, tr)
         | None =>
             let '(rf, prev') :=
               row_filter_symbol (_filter_count st) (rd (_tile_row_filters st) ty)
                 f (_prev_filter st) in
             let bits := enc_write (_row_filter_encoder st) rf in
             (set_prev_filter prev' st_seen, bits, [CoderSymbol RowFilterCoder rf bits])
         end
       else (st_seen, 0, [])
     else (st1, 0, []) in
   let f := _write_filter st2 in
   if f >=? _normal_filter_count st then
     (set_chaos (chaos_zero (_chaos st2)) st2, overhead_bits + 0, tr_filter)
   else
     let residual := rd (_residuals st) (x + y * size_x (_params st)) in
     let chaos := chaos_get (_chaos st2) in
     let data_bits := enc_write (rd_or enc_new (_encoder st) chaos) residual in
     (set_chaos (chaos_store (_chaos st2) residual (num_syms (_params st))) st2,
      overhead_bits + data_bits,
      tr_filter ++ [CoderSymbol (ChaosBin chaos) residual data_bits])).
Proof. destruct st; reflexivity. Qed.

(** C2.  write() on a masked element calls chaos.zero() and carries on:
    when the filter in effect is a normal filter, it then reads the
    residual cell of the element, stores it in the chaos model and
    writes it through the coder of the chaos bin. *)
Theorem write_masked_element_emits_residual st x y :
  mask (_params st) x y = true ->
  filter_in_effect st x y < _normal_filter_count st ->
  let residual := rd (_residuals st) (x + y * size_x (_params st)) in
  let c := chaos_zero (_chaos st) in
  exists pre,
    snd (write st x y)
    = pre ++ [CoderSymbol (ChaosBin (chaos_get c)) residual
                (enc_write (rd_or enc_new (_encoder st) (chaos_get c)) residual)] /\
    _chaos (fst (fst (write st x y))) = chaos_store c residual (num_syms (_params st)).
Proof.
  intros Hmask Hf residual c. unfold filter_in_effect in Hf.
  rewrite write_unfold. cbv zeta. rewrite Hmask.
  destruct (rd_or false (_tile_seen st) (u16 (Z.shiftr x (_tile_bits_x st)))) eqn:Eseen;
    simpl negb; cbv iota.
  - simpl.
    destruct (_write_filter st >=? _normal_filter_count st) eqn:Eg; [lia|].
    exists []. split; reflexivity.
  - set (f := rd (_tiles st) _) in *.
    destruct (negb (f =? MASK_TILE)).
    + destruct (_filter_encoder st) as [inner|].
      * destruct (write inner _ _) as [[inner' bits] tr]. simpl.
        destruct (f >=? _normal_filter_count st) eqn:Eg; [lia|].
        exists tr. split; reflexivity.
      * destruct (row_filter_symbol _ _ _ _) as [rf prev']. simpl.
        destruct (f >=? _normal_filter_count st) eqn:Eg; [lia|].
        exists [CoderSymbol RowFilterCoder rf (enc_write (_row_filter_encoder st) rf)].
        split; reflexivity.
    + simpl. destruct (f >=? _normal_filter_count st) eqn:Eg; [lia|].
      exists []. split; reflexivity.
Qed.

End RowFilters.

(** C5 at the row of tiles [1; 2] with four filters: the RF_PREV codes
    the loop leaves are [1; 2], the specification's are [1; 1]. *)
Lemma designRowFilters_prev_code_is_filter_witness :
  rd (snd (row_filter_codes [1; 2] 2 4 (0, [0; 0; 0; 0]))) (1 + 2) = 2 /\
  code_rf_prev_codes 4 [1; 2] = [Some 1; Some 2] /\
  spec_rf_prev_codes 4 0 [1; 2] = [Some 1; Some 1].
Proof.
  split; [|split; reflexivity].
  assert (0 <= 1 < 2) as H1 by lia.
  assert (2 * 2 <= Z.of_nat (length [0; 0; 0; 0])) as H2 by (simpl; lia).
  assert (4 <= 128) as H3 by lia.
  assert (rd [1; 2] (0 + 1) <> MASK_TILE) as H4
    by (change (rd [1; 2] (0 + 1)) with 2; unfold MASK_TILE; lia).
  assert (0 <= rd [1; 2] (0 + 1) < 4) as H5
    by (change (rd [1; 2] (0 + 1)) with 2; lia).
  exact (proj2 (designRowFilters_prev_code_is_filter [1; 2] 2 4 0 [0; 0; 0; 0] 1
                  H1 H2 H3 H4 H5)).
Defined.

(** C2 at the 2x1 input whose left element is masked: after the tables
    and the row header, write(0, 0) emits the filter of the tile and a
    residual through the coder of chaos bin 0. *)
Lemma write_masked_element_emits_residual_witness :
  let st := fst (fst (writeRowHeader (fst (fst (writeTables (processed 10 params_left_masked)))) 0)) in
  mask (_params st) 0 0 = true /\
  exists pre, snd (write st 0 0) = pre ++ [CoderSymbol (ChaosBin 0) 0 8].
Proof.
  intros st.
  assert (mask (_params st) 0 0 = true) as Hm by (vm_compute; reflexivity).
  assert (filter_in_effect st 0 0 < _normal_filter_count st) as Hf
    by (vm_compute; reflexivity).
  split; [exact Hm|].
  destruct (write_masked_element_emits_residual st 0 0 Hm Hf) as (pre & Htr & _).
  exists pre. rewrite Htr. f_equal.
Defined.

Section TileLoops.

(** ** Loops over tiles and elements *)

(** Without wrap-around the 16-bit loop visits the multiples of [step]
    below [bound]; an invariant indexed by the number of iterations. *)
Lemma for_u16_steps {T} (P : Z -> T -> Prop) bound step (body : Z -> T -> option T) :
  0 < step -> 0 <= bound -> bound + step <= 65536 ->
  (forall k acc acc', 0 <= k -> k * step < bound -> P k acc ->
                      body (k * step) acc = Some acc' -> P (k + 1) acc') ->
  forall fuel k s r,
    0 <= k -> k * step < bound + step ->
    for_u16 fuel (k * step) bound step body s = Some r ->
    P k s -> P ((bound + step - 1) / step) r.
Proof.
  intros Hstep Hbound Hwrap Hbody.
  induction fuel as [|fuel IH]; intros k s r Hk Hkx Hrun HP; simpl in Hrun;
    [discriminate|].
  destruct (k * step <? bound) eqn:Hlt.
  - apply Z.ltb_lt in Hlt.
    destruct (body (k * step) s) as [s'|] eqn:Eb; [|discriminate].
    unfold u16 in Hrun. rewrite Z.mod_small in Hrun by lia.
    replace (k * step + step) with ((k + 1) * step) in Hrun by lia.
    apply (IH (k + 1) s' r); try lia; [exact Hrun|].
    apply (Hbody k s s'); auto.
  - apply Z.ltb_ge in Hlt. injection Hrun as <-.
    replace ((bound + step - 1) / step) with k; [exact HP|].
    apply (Z.div_unique_pos _ _ k (bound + step - 1 - k * step)); lia.
Qed.

(** The element loop runs from [p] to the border or to the end of the
    tile, whichever comes first. *)
Lemma while_count_ind {T} (P : Z -> T -> Prop) (body : Z -> T -> T) bound :
  forall (c : nat) p s,
    P p s ->
    (forall q acc, p <= q -> q < p + Z.of_nat c -> q < bound -> P q acc ->
                   P (q + 1) (body q acc)) ->
    P (Z.max p (Z.min (p + Z.of_nat c) bound)) (while_count c p bound body s).
Proof.
  induction c as [|c IH]; intros p s HP Hstep; simpl while_count.
  - match goal with |- P ?e _ => replace e with p by lia end. exact HP.
  - destruct (p <? bound) eqn:Hlt.
    + apply Z.ltb_lt in Hlt.
      match goal with |- P ?e _ =>
        replace e with (Z.max (p + 1) (Z.min (p + 1 + Z.of_nat c) bound)) by lia end.
      apply IH.
      * apply Hstep; try lia. exact HP.
      * intros q acc H1 H2 H3 H4. apply Hstep; try lia. exact H4.
    + apply Z.ltb_ge in Hlt.
      match goal with |- P ?e _ => replace e with p by lia end.
      exact HP.
Qed.

Lemma div_tile k ts q : 0 < ts -> k * ts <= q < k * ts + ts -> q / ts = k.
Proof.
  intros Hts Hq. symmetry. apply (Z.div_unique_pos _ _ k (q - k * ts)); lia.
Qed.

Lemma div_below_tiles ts size x :
  0 < ts -> 0 <= x < size -> 0 <= x / ts < (size + ts - 1) / ts.
Proof.
  intros Hts Hx. split; [apply Z.div_pos; lia|].
  assert (x / ts <= (size - 1) / ts) by (apply Z.div_le_mono; lia).
  replace (size + ts - 1) with (size - 1 + 1 * ts) by lia.
  rewrite Z.div_add by lia. lia.
Qed.

Lemma cell_index_inj sx x y x' y' :
  0 <= x < sx -> 0 <= x' < sx -> x + y * sx = x' + y' * sx -> x = x' /\ y = y'.
Proof.
  intros Hx Hx' Heq.
  assert (y = y') as ->; [|lia].
  destruct (Z_lt_dec y y'); [nia|]. destruct (Z_lt_dec y' y); [nia|]. lia.
Qed.

Lemma cell_index_range sx sy x y :
  0 <= x < sx -> 0 <= y < sy -> 0 <= x + y * sx < sx * sy.
Proof. intros. nia. Qed.

End TileLoops.

Section Residuals.
Context `{Prim : Primitives} `{Plan : !Planner} `{Tune : Tuning}.
Variable st : MonoWriter.
Variable b : Z.
Hypothesis Htiled : tiled st b.
Hypothesis Hsyms : 0 < num_syms (_params st) <= 256.

Local Abbreviation sx := (size_x (_params st)).
Local Abbreviation sy := (size_y (_params st)).
Local Abbreviation ts := (2 ^ b).
Local Abbreviation TX := ((size_x (_params st) + 2 ^ b - 1) / 2 ^ b).

Lemma ts_pos : 1 <= ts <= 32768.
Proof. destruct Htiled as (Hb & _). apply pow2_bits. exact Hb. Qed.

Lemma u16_sx : u16 sx = sx.
Proof.
  destruct Htiled as (_ & _ & _ & _ & _ & H1 & H2 & _). pose proof ts_pos.
  unfold u16. apply Z.mod_small. lia.
Qed.

Lemma u16_sy : u16 sy = sy.
Proof.
  destruct Htiled as (_ & _ & _ & _ & _ & _ & _ & H1 & H2 & _). pose proof ts_pos.
  unfold u16. apply Z.mod_small. lia.
Qed.

Lemma getTile_div x y :
  getTile st x y = rd (_tiles st) (x / ts + y / ts * TX).
Proof.
  destruct Htiled as (Hb & Hbx & Hby & _ & _ & _ & _ & _ & _ & Htx & _).
  unfold getTile. rewrite Hbx, Hby, Htx, !Z.shiftr_div_pow2 by lia. reflexivity.
Qed.

(** One store of the element loop. *)
Lemma store_good R kx ky q py :
  Z.of_nat (length R) = sx * sy ->
  in_matrix st q py -> q / ts = kx -> py / ts = ky ->
  forall x y, in_matrix st x y ->
    Good st R x y \/ (x = q /\ y = py) ->
    Good st (wr R (q + py * sx)
            (u8 (residual_of st (rd (_tiles st) (kx + ky * TX)) q py))) x y.
Proof.
  intros Hlen [Hq Hpy] Hkx Hky x y [Hx Hy] Hcase. unfold Good.
  destruct (Z.eq_dec (q + py * sx) (x + y * sx)) as [Heq|Hne].
  - destruct (cell_index_inj sx q py x y Hq Hx Heq) as [-> ->].
    rewrite rd_wr_eq by (rewrite Hlen; apply cell_index_range; assumption).
    unfold cell_residual. rewrite getTile_div, Hkx, Hky. reflexivity.
  - rewrite rd_wr_ne by exact Hne.
    destruct Hcase as [Hg|[-> ->]]; [exact Hg|contradiction].
Qed.

Lemma store_tile_good R kx ky :
  0 <= kx -> 0 <= ky ->
  Z.of_nat (length R) = sx * sy ->
  Z.of_nat (length (store_tile st b kx ky R)) = sx * sy /\
  (forall x y, in_matrix st x y -> Good st R x y -> Good st (store_tile st b kx ky R) x y) /\
  (forall x y, in_matrix st x y -> x / ts = kx -> y / ts = ky ->
               mask (_params st) x y = false -> Good st (store_tile st b kx ky R) x y).
Proof.
  intros Hkx Hky Hlen.
  destruct Htiled as (Hb & _ & _ & Hsx & Hsy & Hx0 & Hxw & Hy0 & Hyw & _).
  pose proof ts_pos as Hts.
  unfold store_tile, for_tile_cells. rewrite Hsx, Hsy, u16_sx, u16_sy.
  (* rows of the tile *)
  pose (Prow := fun (qy : Z) (acc : list Z) =>
     Z.of_nat (length acc) = sx * sy /\
     (forall x y, in_matrix st x y -> Good st R x y -> Good st acc x y) /\
     (forall x y, in_matrix st x y -> x / ts = kx -> y / ts = ky ->
                  mask (_params st) x y = false -> y < qy -> Good st acc x y)).
  match goal with |- context [while_count ?c ?p ?bd ?body R] =>
    assert (Prow (Z.max p (Z.min (p + Z.of_nat c) bd)) (while_count c p bd body R)) as HP
  end.
  { apply while_count_ind.
    - unfold Prow. split; [exact Hlen|]. split; [auto|].
      intros x y [_ Hy] _ Hyk _ Hlt. exfalso.
      assert (ky * ts <= y); [|lia].
      rewrite <- Hyk. pose proof (Z.mul_div_le y ts ltac:(lia)). lia.
    - intros py acc Hp1 Hp2 Hp3 (Hl & Hkeep & Hdone). rewrite Z2Nat.id in Hp2 by lia.
      (* elements of the row *)
      pose (Pcol := fun (qx : Z) (acc' : list Z) =>
         Z.of_nat (length acc') = sx * sy /\
         (forall x y, in_matrix st x y -> Good st R x y -> Good st acc' x y) /\
         (forall x y, in_matrix st x y -> x / ts = kx -> y / ts = ky ->
                      mask (_params st) x y = false ->
                      y < py \/ (y = py /\ x < qx) -> Good st acc' x y)).
      match goal with |- Prow _ (while_count ?c ?p ?bd ?body acc) =>
        assert (Pcol (Z.max p (Z.min (p + Z.of_nat c) bd)) (while_count c p bd body acc))
          as HPc
      end.
      { apply while_count_ind.
        - unfold Pcol. split; [exact Hl|]. split; [exact Hkeep|].
          intros x y Hin Hxk Hyk Hm [Hlt|[-> Hlt]]; [apply Hdone; auto|].
          exfalso. assert (kx * ts <= x); [|lia].
          rewrite <- Hxk. pose proof (Z.mul_div_le x ts ltac:(lia)). lia.
        - intros px acc' Hq1 Hq2 Hq3 (Hl' & Hkeep' & Hdone').
          rewrite Z2Nat.id in Hq2 by lia.
          assert (in_matrix st px py) as Hin by (unfold in_matrix; lia).
          assert (px / ts = kx) as Hpxk by (apply div_tile; lia).
          assert (py / ts = ky) as Hpyk by (apply div_tile; lia).
          unfold Pcol.
          destruct (mask (_params st) px py) eqn:Hm; simpl.
          + split; [exact Hl'|]. split; [exact Hkeep'|].
            intros x y Hxy Hxk Hyk Hmxy [Hlt|[-> Hlt]]; [apply Hdone'; auto|].
            destruct (Z.eq_dec x px) as [->|Hne]; [congruence|].
            apply Hdone'; auto. right. split; [reflexivity|lia].
          + rewrite length_wr. split; [exact Hl'|].
            split.
            * intros x y Hxy Hg. apply store_good; auto.
            * intros x y Hxy Hxk Hyk Hmxy Hcase.
              apply store_good; auto.
              destruct Hcase as [Hlt|[-> Hlt]]; [left; apply Hdone'; auto|].
              destruct (Z.eq_dec x px) as [->|Hne]; [right; auto|].
              left. apply Hdone'; auto. right. split; [reflexivity|lia]. }
      destruct HPc as (Hl2 & Hkeep2 & Hdone2).
      unfold Prow. split; [exact Hl2|]. split; [exact Hkeep2|].
      intros x y Hxy Hxk Hyk Hmxy Hlt. apply Hdone2; auto.
      destruct (Z.eq_dec y py) as [->|Hne]; [|left; lia].
      right. split; [reflexivity|].
      destruct Hxy as [Hx _].
      assert (x < kx * ts + ts).
      { rewrite <- Hxk. pose proof (Z.mul_div_le x ts ltac:(lia)).
        pose proof (Z.mod_pos_bound x ts ltac:(lia)).
        pose proof (Z.div_mod x ts ltac:(lia)). lia. }
      lia. }
  destruct HP as (Hl & Hkeep & Hdone).
  split; [exact Hl|]. split; [exact Hkeep|].
  intros x y Hxy Hxk Hyk Hm. apply Hdone; auto.
  destruct Hxy as [_ Hy].
  assert (y < ky * ts + ts).
  { rewrite <- Hyk. pose proof (Z.mul_div_le y ts ltac:(lia)).
    pose proof (Z.mod_pos_bound y ts ltac:(lia)).
    pose proof (Z.div_mod y ts ltac:(lia)). lia. }
  lia.
Qed.


(** The tile loops of computeResiduals. *)
Lemma computeResiduals_loops fuel p R :
  Z.of_nat (length (_residuals st)) = sx * sy ->
  for_tiles fuel st
    (fun x y '(p, residuals) =>
       let f := rd (_tiles st) p in
       let residuals' :=
         if f >=? _normal_filter_count st then residuals
         else
           for_tile_cells st x y
             (fun px py res =>
                if negb (mask (_params st) px py)
                then wr res (px + py * u16 sx) (u8 (residual_of st f px py))
                else res)
             residuals in
       (p + 1, residuals'))
    (0, _residuals st) = Some (p, R) ->
  Z.of_nat (length R) = sx * sy /\
  forall x y, in_matrix st x y -> mask (_params st) x y = false ->
              getTile st x y < _normal_filter_count st -> Good st R x y.
Proof.
  intros Hlen Hrun.
  pose proof Htiled as (Hb & _ & _ & Hsx & Hsy & Hx0 & Hxw & Hy0 & Hyw & _).
  pose proof ts_pos as Hts.
  unfold for_tiles in Hrun. rewrite Hsx, Hsy, u16_sx, u16_sy in Hrun.
  pose (Pout := fun (ky : Z) (s : Z * list Z) =>
     fst s = ky * TX /\ Z.of_nat (length (snd s)) = sx * sy /\
     forall x y, in_matrix st x y -> mask (_params st) x y = false ->
                 getTile st x y < _normal_filter_count st ->
                 y / ts < ky -> Good st (snd s) x y).
  assert (Pout ((sy + ts - 1) / ts) (p, R)) as HP.
  { change 0 with (0 * ts) in Hrun at 1.
    refine (for_u16_steps Pout sy ts _ _ _ _ _ fuel 0 _ _ _ _ Hrun _); try lia.
    - (* one row of tiles *)
      intros ky [p0 R0] [p1 R1] Hky Hkyb (Hp0 & Hl0 & Hdone0) Hrow.
      simpl in Hp0, Hl0, Hdone0.
      pose (Pin := fun (kx : Z) (s : Z * list Z) =>
         fst s = kx + ky * TX /\ Z.of_nat (length (snd s)) = sx * sy /\
         forall x y, in_matrix st x y -> mask (_params st) x y = false ->
                     getTile st x y < _normal_filter_count st ->
                     y / ts < ky \/ (y / ts = ky /\ x / ts < kx) -> Good st (snd s) x y).
      assert (Pin TX (p1, R1)) as HPin.
      { change 0 with (0 * ts) in Hrow at 1.
        refine (for_u16_steps Pin sx ts _ _ _ _ _ fuel 0 _ _ _ _ Hrow _); try lia.
        - (* one tile *)
          intros kx [p2 R2] [p3 R3] Hkx Hkxb (Hp2 & Hl2 & Hdone2) Htile.
          simpl in Hp2, Hl2, Hdone2. injection Htile as <- <-. subst p2.
          unfold Pin. simpl fst. simpl snd.
          pose proof (store_tile_good R2 kx ky Hkx Hky Hl2) as (Hl3 & Hkeep3 & Hnew3).
          unfold store_tile in Hl3, Hkeep3, Hnew3.
          rewrite u16_sx in Hl3, Hkeep3, Hnew3.
          split; [lia|].
          destruct (rd (_tiles st) (kx + ky * TX) >=? _normal_filter_count st) eqn:Ef.
          + split; [exact Hl2|].
            intros x y Hin Hm Hf [Hlt|[Hyk Hxk]]; [apply Hdone2; auto|].
            destruct (Z_lt_dec (x / ts) kx) as [Hxlt|Hxge]; [apply Hdone2; auto|].
            exfalso. assert (x / ts = kx) as Hxe by lia.
            rewrite getTile_div, Hxe, Hyk in Hf. lia.
          + split; [exact Hl3|].
            intros x y Hin Hm Hf [Hlt|[Hyk Hxk]]; [apply Hkeep3; auto|].
            destruct (Z_lt_dec (x / ts) kx) as [Hxlt|Hxge]; [apply Hkeep3; auto|].
            apply Hnew3; auto. lia.
        - unfold Pin. simpl. split; [lia|]. split; [exact Hl0|].
          intros x y Hin Hm Hf [Hlt|[Hyk Hxk]]; [apply Hdone0; auto|].
          exfalso. destruct Hin as [Hx _].
          pose proof (Z.div_pos x ts ltac:(lia) ltac:(lia)). lia. }
      destruct HPin as (Hp1 & Hl1 & Hdone1). simpl in Hp1, Hl1, Hdone1.
      unfold Pout. simpl. split; [lia|]. split; [exact Hl1|].
      intros x y Hin Hm Hf Hlt. apply Hdone1; auto.
      destruct (Z_lt_dec (y / ts) ky) as [Hylt|Hyge]; [left; exact Hylt|].
      right. split; [lia|]. destruct Hin as [Hx _].
      apply (div_below_tiles ts sx x); lia.
    - unfold Pout. simpl. split; [lia|]. split; [exact Hlen|].
      intros x y [_ Hy] _ _ Hlt. exfalso.
      pose proof (Z.div_pos y ts ltac:(lia) ltac:(lia)). lia. }
  destruct HP as (_ & Hl & Hdone). simpl in Hl, Hdone.
  split; [exact Hl|].
  intros x y Hin Hm Hf. apply Hdone; auto.
  destruct Hin as [_ Hy]. apply (div_below_tiles ts sy y); lia.
Qed.

Lemma residual_mod value prediction n :
  0 < n <= 256 -> 0 <= value < n -> 0 <= prediction < n ->
  let residual := value + n - prediction in
  let stored := u8 (if residual >=? n then residual - n else residual) in
  stored = (value + n - prediction) mod n /\ 0 <= stored < n.
Proof.
  intros Hn Hv Hp residual stored. unfold stored, residual, u8.
  destruct (value + n - prediction >=? n) eqn:E.
  - rewrite Z.mod_small by lia.
    replace (value + n - prediction) with (value - prediction + 1 * n) at 2 by lia.
    rewrite Z.mod_add by lia. rewrite Z.mod_small by lia. lia.
  - rewrite Z.mod_small by lia. rewrite (Z.mod_small _ n) by lia. lia.
Qed.

Lemma cell_residual_mod x y :
  0 <= rd (data (_params st)) (x + y * sx) < num_syms (_params st) ->
  0 <= predict st x y < num_syms (_params st) ->
  cell_residual st x y
  = (rd (data (_params st)) (x + y * sx) + num_syms (_params st) - predict st x y)
      mod num_syms (_params st) /\
  0 <= cell_residual st x y < num_syms (_params st).
Proof.
  intros Hv Hp. unfold cell_residual, residual_of. cbv zeta.
  rewrite u16_sx.
  assert (u16 (num_syms (_params st)) = num_syms (_params st)) as ->
    by (unfold u16; apply Z.mod_small; lia).
  fold (predict st x y).
  assert (u8 (predict st x y) = predict st x y) as ->
    by (unfold u8; apply Z.mod_small; lia).
  apply residual_mod; assumption.
Qed.

End Residuals.

Section ResidualTheorem.
Context `{Prim : Primitives} `{Plan : !Planner} `{Tune : Tuning}.

(** C7.  After computeResiduals, the residual cell of every unmasked
    element whose tile has a normal filter holds
    [(M(x,y) + num_syms - predict(x,y)) mod num_syms], a value below
    [num_syms], when the matrix values and the predictions are below
    [num_syms] (at most 256, the size of a byte's alphabet). *)
Theorem computeResiduals_stores_residual st b fuel :
  tiled st b ->
  0 < num_syms (_params st) <= 256 ->
  Z.of_nat (length (_residuals st)) = size_x (_params st) * size_y (_params st) ->
  size_x (_params st) < Z.of_nat fuel -> size_y (_params st) < Z.of_nat fuel ->
  (forall x y, in_matrix st x y ->
     0 <= rd (data (_params st)) (x + y * size_x (_params st)) < num_syms (_params st)) ->
  (forall x y, in_matrix st x y -> 0 <= predict st x y < num_syms (_params st)) ->
  exists st',
    computeResiduals fuel st = Some st' /\
    forall x y,
      in_matrix st x y -> mask (_params st) x y = false ->
      getTile st x y < _normal_filter_count st ->
      rd (_residuals st') (x + y * size_x (_params st))
      = (rd (data (_params st)) (x + y * size_x (_params st))
         + num_syms (_params st) - predict st x y) mod num_syms (_params st) /\
      0 <= rd (_residuals st') (x + y * size_x (_params st)) < num_syms (_params st).
Proof.
  intros Ht Hn Hlen Hfx Hfy Hdata Hpred.
  pose proof Ht as (Hb & _ & _ & Hsx & Hsy & Hx0 & Hxw & Hy0 & Hyw & _).
  pose proof (ts_pos st b Ht) as Hts.
  destruct (computeResiduals_total fuel st) as [st' Hrun];
    rewrite ?Hsx, ?Hsy, ?(u16_sx st b Ht), ?(u16_sy st b Ht); try lia.
  exists st'. split; [exact Hrun|].
  unfold computeResiduals in Hrun. cbv zeta in Hrun.
  match type of Hrun with context [for_tiles fuel st ?body ?s] =>
    destruct (for_tiles fuel st body s) as [[p R]|] eqn:Eloops; [|discriminate] end.
  injection Hrun as <-.
  destruct (computeResiduals_loops st b Ht fuel p R Hlen Eloops) as [_ Hgood].
  intros x y Hin Hm Hf. simpl.
  rewrite (Hgood x y Hin Hm Hf).
  apply (cell_residual_mod st b Ht Hn); auto.
Qed.

End ResidualTheorem.

(** C7 at the 2x2 input: the element at (1, 0) holds 2 and filter 0
    predicts 0, so its residual cell holds 2. *)
Lemma computeResiduals_stores_residual_witness :
  exists st',
    computeResiduals 10 (processed 10 params_2x2) = Some st' /\
    rd (_residuals st') (1 + 0 * size_x (_params (processed 10 params_2x2))) = 2.
Proof.
  set (st := processed 10 params_2x2).
  assert (size_x (_params st) = 2) as Esx by (vm_compute; reflexivity).
  assert (size_y (_params st) = 2) as Esy by (vm_compute; reflexivity).
  assert (num_syms (_params st) = 4) as Ens by (vm_compute; reflexivity).
  assert (tiled st 1) as Ht.
  { unfold tiled. rewrite Esx, Esy.
    repeat split; try (vm_compute; reflexivity); vm_compute; intros H; discriminate H. }
  assert (0 < num_syms (_params st) <= 256) as Hn.
  { rewrite Ens. split; vm_compute; [reflexivity|intros H; discriminate H]. }
  assert (Z.of_nat (length (_residuals st)) = size_x (_params st) * size_y (_params st))
    as Hlen by (vm_compute; reflexivity).
  assert (size_x (_params st) < Z.of_nat 10) as Hfx by (vm_compute; reflexivity).
  assert (size_y (_params st) < Z.of_nat 10) as Hfy by (vm_compute; reflexivity).
  assert (forall x y, in_matrix st x y -> (x = 0 \/ x = 1) /\ (y = 0 \/ y = 1)) as Hcells.
  { unfold in_matrix. rewrite Esx, Esy. clearbody st. clear. intros x y. lia. }
  assert (forall x y, in_matrix st x y ->
            0 <= rd (data (_params st)) (x + y * size_x (_params st))
            < num_syms (_params st)) as Hdata.
  { intros x y Hin. destruct (Hcells x y Hin) as [[-> | ->] [-> | ->]];
      split; vm_compute; try reflexivity; intros H; discriminate H. }
  assert (forall x y, in_matrix st x y -> 0 <= predict st x y < num_syms (_params st))
    as Hpred.
  { intros x y Hin. destruct (Hcells x y Hin) as [[-> | ->] [-> | ->]];
      split; vm_compute; try reflexivity; intros H; discriminate H. }
  destruct (computeResiduals_stores_residual st 1 10 Ht Hn Hlen Hfx Hfy Hdata Hpred)
    as (st' & Hrun & Hres).
  exists st'. split; [exact Hrun|].
  assert (in_matrix st 1 0) as Hin.
  { unfold in_matrix. rewrite Esx, Esy. clearbody st. clear. lia. }
  assert (mask (_params st) 1 0 = false) as Hm by (vm_compute; reflexivity).
  assert (getTile st 1 0 < _normal_filter_count st) as Hf by (vm_compute; reflexivity).
  destruct (Hres 1 0 Hin Hm Hf) as [Heq _]. rewrite Heq.
  vm_compute. reflexivity.
Defined.

Section WritePass.
Context `{Prim : Primitives} `{Plan : !Planner} `{Tune : Tuning}.
Implicit Types (st : MonoWriter) (w : WriteState).

(** ** The write machine and the functions *)

Lemma with_write_state_of st : with_write_state st (write_state_of st) = st.
Proof. destruct st; reflexivity. Qed.

Lemma writeRowHeader_unfold st y :
  writeRowHeader st y =
  (let st1 := set_chaos (chaos_startRow (_chaos st)) st in
   if Z.land y (_tile_size_y st - 1) =? 0 then
     let st2 := set_tile_seen (map (fun _ => false) (_tile_seen st)) st1 in
     let ty := u16 (Z.shiftr y (_tile_bits_y st)) in
     match _filter_encoder st with
     | Some inner =>
         let '(inner', bits, tr) := writeRowHeader inner ty in
         (set_filter_encoder (Some inner') st2, bits, tr)
     | None =>
         (set_prev_filter 0 st2, 1, [WriteBit (rd (_tile_row_filters st) ty)])
     end
   else (st1, 0, [])).
Proof. destruct st; reflexivity. Qed.

Lemma writeRowHeader_step_ok st y w :
  _filter_encoder st = None ->
  writeRowHeader (with_write_state st w) y
  = (with_write_state st (fst (row_header_step st y w)),
     emitted_bits (snd (row_header_step st y w)),
     snd (row_header_step st y w)).
Proof.
  intros Hfe. rewrite writeRowHeader_unfold. unfold row_header_step. cbv zeta.
  change (_tile_size_y (with_write_state st w)) with (_tile_size_y st).
  change (_filter_encoder (with_write_state st w)) with (_filter_encoder st).
  rewrite Hfe.
  destruct (Z.land y (_tile_size_y st - 1) =? 0); reflexivity.
Qed.

Lemma write_step_ok st x y w :
  _filter_encoder st = None ->
  mask (_params st) x y = false ->
  fst (write (with_write_state st w) x y)
  = (with_write_state st (fst (write_step st x y w)),
     emitted_bits (snd (write_step st x y w))) /\
  snd (write (with_write_state st w) x y) = snd (write_step st x y w).
Proof.
  intros Hfe Hmask. rewrite write_unfold. unfold write_step, tile_step. cbv zeta.
  change (_params (with_write_state st w)) with (_params st).
  change (_filter_encoder (with_write_state st w)) with (_filter_encoder st).
  change (_tile_seen (with_write_state st w)) with (w_seen w).
  change (_tile_bits_x (with_write_state st w)) with (_tile_bits_x st).
  rewrite Hfe, Hmask.
  destruct (negb (rd_or false (w_seen w) (u16 (Z.shiftr x (_tile_bits_x st))))).
  - change (_tiles (with_write_state st w)) with (_tiles st).
    change (_tile_bits_y (with_write_state st w)) with (_tile_bits_y st).
    change (_tiles_x (with_write_state st w)) with (_tiles_x st).
    set (f := rd (_tiles st) _).
    destruct (negb (f =? MASK_TILE)).
    + change (_filter_count (with_write_state st w)) with (_filter_count st).
      change (_tile_row_filters (with_write_state st w)) with (_tile_row_filters st).
      change (_prev_filter (with_write_state st w)) with (w_prev w).
      destruct (row_filter_symbol _ _ _ _) as [rf prev'].
      cbv beta iota zeta.
      change (_normal_filter_count (with_write_state st w)) with (_normal_filter_count st).
      simpl _write_filter.
      destruct (f >=? _normal_filter_count st); simpl; split; try reflexivity;
        f_equal; lia.
    + cbv beta iota zeta.
      change (_normal_filter_count (with_write_state st w)) with (_normal_filter_count st).
      simpl _write_filter.
      destruct (f >=? _normal_filter_count st); simpl; split; try reflexivity;
        f_equal; lia.
  - cbv beta iota zeta.
    change (_normal_filter_count (with_write_state st w)) with (_normal_filter_count st).
    change (_write_filter (with_write_state st w)) with (w_filter w).
    destruct (w_filter w >=? _normal_filter_count st); simpl; split; try reflexivity;
      f_equal; lia.
Qed.

End WritePass.

Section WritePassLoops.
Context `{Prim : Primitives} `{Plan : !Planner} `{Tune : Tuning}.
Implicit Types (st : MonoWriter) (w : WriteState).

Lemma raster_rows {S} st (use : Z -> Z -> S -> S) cs :
  raster st use cs = for_range 0 (size_y (_params st)) (raster_row st use) cs.
Proof. reflexivity. Qed.

Lemma for_row_filter_symbols_rows {S} st (use : Z -> S -> S) s :
  for_row_filter_symbols st use s
  = snd (for_range 0 (_tiles_y st) (rf_row st use) (0, s)).
Proof. reflexivity. Qed.

Lemma emitted_bits_app tr1 tr2 :
  emitted_bits (tr1 ++ tr2) = emitted_bits tr1 + emitted_bits tr2.
Proof.
  induction tr1 as [|e tr1 IH]; simpl; [reflexivity|].
  unfold emitted_bits in *. simpl. rewrite IH. lia.
Qed.

(** Two loops over the same range whose bodies keep a relation. *)
Lemma for_range_rel {A B} (R : A -> B -> Prop) lo hi
    (f : Z -> A -> A) (g : Z -> B -> B) a b0 :
  R a b0 ->
  (forall i a' b', lo <= i < hi -> R a' b' -> R (f i a') (g i b')) ->
  R (for_range lo hi f a) (for_range lo hi g b0).
Proof.
  intros H0 Hstep.
  destruct (Z_le_gt_dec lo hi) as [Hle|Hgt].
  - apply (for_range_ind (fun i a' => R a' (for_range lo i g b0))); [lia| |].
    + rewrite for_range_nil by lia. exact H0.
    + intros i acc Hi HR. rewrite (for_range_last lo (i + 1)) by lia.
      replace (i + 1 - 1) with i by lia. apply Hstep; auto.
  - rewrite !for_range_nil by lia. exact H0.
Qed.

Lemma write_row_ok st y w :
  _filter_encoder st = None ->
  (forall x, 0 <= x < size_x (_params st) -> mask (_params st) x y = false) ->
  write_row (with_write_state st w) y
  = (with_write_state st (fst (row_steps st y w)), snd (row_steps st y w)).
Proof.
  intros Hfe Hmask. unfold write_row, row_steps.
  rewrite writeRowHeader_step_ok by exact Hfe.
  change (size_x (_params (with_write_state st w))) with (size_x (_params st)).
  pose (R := fun (a : MonoWriter * list Emit) (c : WriteState * list Emit) =>
               a = (with_write_state st (fst c), snd c)).
  match goal with |- ?lhs = _ => change (R lhs (for_range 0 (size_x (_params st))
    (fun x '(w1, tr) => let '(w2, t) := write_step st x y w1 in (w2, tr ++ t))
    (row_header_step st y w))) end.
  apply for_range_rel.
  - unfold R. destruct (row_header_step st y w). reflexivity.
  - intros x [s tr] [w1 tr1] Hx HR. unfold R in *. simpl in HR.
    injection HR as -> ->.
    destruct (write_step_ok st x y w1 Hfe (Hmask x Hx)) as [H1 H2].
    destruct (write (with_write_state st w1) x y) as [[s' bits] t].
    simpl in H1, H2. injection H1 as -> _. subst t.
    destruct (write_step st x y w1) as [w2 t2]. reflexivity.
Qed.

Lemma write_rows_ok st w :
  _filter_encoder st = None ->
  (forall x y, in_matrix st x y -> mask (_params st) x y = false) ->
  write_rows (with_write_state st w)
  = (with_write_state st (fst (rows_steps st w)), snd (rows_steps st w)).
Proof.
  intros Hfe Hmask. unfold write_rows, rows_steps.
  change (size_y (_params (with_write_state st w))) with (size_y (_params st)).
  pose (R := fun (a : MonoWriter * list Emit) (c : WriteState * list Emit) =>
               a = (with_write_state st (fst c), snd c)).
  match goal with |- ?lhs = _ => change (R lhs (for_range 0 (size_y (_params st))
    (fun y '(w1, tr) => let '(w2, t) := row_steps st y w1 in (w2, tr ++ t))
    (w, []))) end.
  apply for_range_rel.
  - reflexivity.
  - intros y [s tr] [w1 tr1] Hy HR. unfold R in *. simpl in HR.
    injection HR as -> ->.
    rewrite write_row_ok; [|exact Hfe|].
    + destruct (row_steps st y w1) as [w2 t2]. reflexivity.
    + intros x Hx. apply Hmask. unfold in_matrix. lia.
Qed.

End WritePassLoops.

Section TileArithmetic.

Lemma land_tile_mask b y : 0 <= b -> Z.land y (2 ^ b - 1) = y mod 2 ^ b.
Proof.
  intros Hb. rewrite <- Z.land_ones by lia. rewrite Z.ones_equiv.
  f_equal.
Qed.

Lemma tiles_begun_0 b : 0 <= b <= 15 -> tiles_begun b 0 = 0.
Proof.
  intros Hb. pose proof (pow2_bits b Hb). unfold tiles_begun.
  apply Z.div_small. lia.
Qed.

(** At the first column of a tile. *)
Lemma tiles_begun_boundary b x :
  0 <= b <= 15 -> 0 <= x -> x mod 2 ^ b = 0 ->
  tiles_begun b x = x / 2 ^ b /\ tiles_begun b (x + 1) = x / 2 ^ b + 1.
Proof.
  intros Hb Hx Hm. pose proof (pow2_bits b Hb) as Hp. unfold tiles_begun.
  pose proof (Z.div_mod x (2 ^ b) ltac:(lia)) as Hdm. rewrite Hm in Hdm.
  split; symmetry.
  - apply (Z.div_unique_pos _ _ _ (2 ^ b - 1)); lia.
  - apply (Z.div_unique_pos _ _ _ 0); lia.
Qed.

(** Inside a tile. *)
Lemma tiles_begun_inside b x :
  0 <= b <= 15 -> 0 <= x -> x mod 2 ^ b <> 0 ->
  tiles_begun b x = x / 2 ^ b + 1 /\ tiles_begun b (x + 1) = x / 2 ^ b + 1 /\
  (x - 1) / 2 ^ b = x / 2 ^ b /\ 0 < x.
Proof.
  intros Hb Hx Hm. pose proof (pow2_bits b Hb) as Hp. unfold tiles_begun.
  pose proof (Z.div_mod x (2 ^ b) ltac:(lia)) as Hdm.
  pose proof (Z.mod_pos_bound x (2 ^ b) ltac:(lia)) as Hr.
  repeat split.
  - symmetry. apply (Z.div_unique_pos _ _ _ (x mod 2 ^ b - 1)); lia.
  - symmetry. apply (Z.div_unique_pos _ _ _ (x mod 2 ^ b)); lia.
  - symmetry. apply (Z.div_unique_pos _ _ _ (x mod 2 ^ b - 1)); lia.
  - destruct (Z.eq_dec x 0) as [->|]; [|lia]. rewrite Z.mod_0_l in Hm by lia. lia.
Qed.

Lemma rd_or_all_false (l : list bool) t : rd_or false (map (fun _ => false) l) t = false.
Proof.
  unfold rd_or. destruct (0 <=? t); [|reflexivity].
  generalize (Z.to_nat t). induction l as [|a l IH]; intros [|n]; simpl; auto.
Qed.

End TileArithmetic.

Section RowsOfTheWritePass.
Context `{Prim : Primitives} `{Plan : !Planner} `{Tune : Tuning}.
Variable st : MonoWriter.
Variable b : Z.
Hypothesis Htiled : tiled st b.
Hypothesis Hmask : forall x y, in_matrix st x y -> mask (_params st) x y = false.
Hypothesis Hnfc : _normal_filter_count st <= MASK_TILE.
Hypothesis Hcur : write_filter_current st.

Local Abbreviation sx := (size_x (_params st)).
Local Abbreviation sy := (size_y (_params st)).
Local Abbreviation ts := (2 ^ b).
Local Abbreviation TX := ((size_x (_params st) + 2 ^ b - 1) / 2 ^ b).

Lemma tile_column x : 0 <= x < sx -> u16 (Z.shiftr x (_tile_bits_x st)) = x / ts.
Proof.
  intros Hx. destruct Htiled as (Hb & Hbx & _ & _ & _ & _ & Hxw & _).
  pose proof (pow2_bits b Hb) as Hp.
  rewrite Hbx, Z.shiftr_div_pow2 by lia. unfold u16. apply Z.mod_small.
  split; [apply Z.div_pos; lia|].
  assert (x / ts <= x) by (apply Z.div_le_upper_bound; nia). lia.
Qed.

Lemma tile_line y : 0 <= y < sy -> u16 (Z.shiftr y (_tile_bits_y st)) = y / ts.
Proof.
  intros Hy. destruct Htiled as (Hb & _ & Hby & _ & _ & _ & _ & _ & Hyw & _).
  pose proof (pow2_bits b Hb) as Hp.
  rewrite Hby, Z.shiftr_div_pow2 by lia. unfold u16. apply Z.mod_small.
  split; [apply Z.div_pos; lia|].
  assert (y / ts <= y) by (apply Z.div_le_upper_bound; nia). lia.
Qed.

Lemma tiles_x_eq : _tiles_x st = TX.
Proof. destruct Htiled as (_ & _ & _ & _ & _ & _ & _ & _ & _ & H & _). exact H. Qed.

Lemma skipped_unmasked x y :
  in_matrix st x y ->
  skipped st x y = (getTile st x y >=? _normal_filter_count st).
Proof.
  intros Hin. unfold skipped. rewrite (Hmask x y Hin). rewrite orb_false_r.
  destruct (getTile st x y =? MASK_TILE) eqn:E; [|reflexivity].
  apply Z.eqb_eq in E. rewrite E. simpl. symmetry. apply Z.geb_le. exact Hnfc.
Qed.

(** The residual part of one step, given the tile part. *)
Lemma write_step_data x y w c d :
  in_matrix st x y ->
  (snd (fst (tile_step st x y w)) >=? _normal_filter_count st) = skipped st x y ->
  w_chaos w = c ->
  let r := write_step st x y w in
  let t := tile_step st x y w in
  w_seen (fst r) = fst (fst (fst t)) /\
  w_prev (fst r) = snd (fst (fst t)) /\
  w_filter (fst r) = snd (fst t) /\
  raster_cell st (residual_use st) y x (c, d)
  = (w_chaos (fst r), d + (emitted_bits (snd r) - emitted_bits (snd t))).
Proof.
  intros Hin Hskip Hc r t. unfold r, t, write_step.
  destruct (tile_step st x y w) as [[[seen prev] f] tr]. simpl in Hskip. simpl fst. simpl snd.
  unfold raster_cell. rewrite <- Hskip. subst c.
  destruct (f >=? _normal_filter_count st); simpl.
  - repeat split. f_equal. lia.
  - repeat split. f_equal. unfold residual_use. rewrite emitted_bits_app.
    unfold emitted_bits at 2. simpl. lia.
Qed.


Lemma tile_step_first x y w :
  in_matrix st x y ->
  rd_or false (w_seen w) (x / ts) = false ->
  tile_step st x y w =
  (let f := getTile st x y in
   if negb (f =? MASK_TILE) then
     let '(rf, prev') :=
       row_filter_symbol (_filter_count st) (rd (_tile_row_filters st) (y / ts))
         f (w_prev w) in
     (wr (w_seen w) (x / ts) true, prev', f,
      [CoderSymbol RowFilterCoder rf (enc_write (_row_filter_encoder st) rf)])
   else (wr (w_seen w) (x / ts) true, w_prev w, f, [])).
Proof.
  intros [Hx Hy] Hseen. unfold tile_step. cbv zeta.
  rewrite (tile_column x Hx), (tile_line y Hy), Hseen. simpl negb. cbv iota.
  rewrite (getTile_div st b Htiled), tiles_x_eq. reflexivity.
Qed.

Lemma tile_step_met x y w :
  in_matrix st x y ->
  rd_or false (w_seen w) (x / ts) = true ->
  tile_step st x y w = (w_seen w, w_prev w, w_filter w, []).
Proof.
  intros [Hx Hy] Hseen. unfold tile_step. cbv zeta.
  rewrite (tile_column x Hx), Hseen. reflexivity.
Qed.

Lemma column_tile_below x : 0 <= x < sx -> 0 <= x / ts < TX.
Proof.
  intros Hx. destruct Htiled as (Hb & _). pose proof (pow2_bits b Hb).
  apply div_below_tiles; lia.
Qed.

(** The first row of a tile row: the selector bit, the filter of every
    tile of the row as it is met, and the residuals of the row. *)
Lemma row_steps_first y w s0 d0 :
  0 <= y < sy -> y mod ts = 0 ->
  Z.of_nat (length (w_seen w)) = TX ->
  let trf := rd (_tile_row_filters st) (y / ts) in
  let r := row_steps st y w in
  let rs := for_range 0 TX (rf_tile st (row_filter_use st) trf) (y / ts * TX, 0, s0) in
  let cd := raster_row st (residual_use st) y (w_chaos w, d0) in
  Z.of_nat (length (w_seen (fst r))) = TX /\
  (0 < sx -> all_seen st (fst r) /\
             w_filter (fst r) = rd (_tiles st) ((sx - 1) / ts + y / ts * TX)) /\
  fst (fst rs) = y / ts * TX + TX /\
  w_chaos (fst r) = fst cd /\
  emitted_bits (snd r) + s0 + d0 = 1 + snd rs + snd cd.
Proof.
  intros Hy Hym Hlen trf r rs cd.
  pose proof Htiled as (Hb & Hbx & Hby & Htsx & Htsy & Hx0 & Hxw & Hy0 & Hyw & Htx & Hty).
  pose proof (pow2_bits b Hb) as Hp.
  pose (RS := fun k => for_range 0 k (rf_tile st (row_filter_use st) trf)
                         (y / ts * TX, 0, s0)).
  pose (CD := fun x => for_range 0 x (raster_cell st (residual_use st) y)
                         (chaos_startRow (w_chaos w), d0)).
  pose (P := fun (x : Z) (a : WriteState * list Emit) =>
     Z.of_nat (length (w_seen (fst a))) = TX /\
     (forall t, 0 <= t < TX -> rd_or false (w_seen (fst a)) t = (t <? tiles_begun b x)) /\
     (0 < x -> w_filter (fst a) = rd (_tiles st) ((x - 1) / ts + y / ts * TX)) /\
     w_prev (fst a) = snd (fst (RS (tiles_begun b x))) /\
     fst (fst (RS (tiles_begun b x))) = y / ts * TX + tiles_begun b x /\
     w_chaos (fst a) = fst (CD x) /\
     emitted_bits (snd a) + s0 + d0 = 1 + snd (RS (tiles_begun b x)) + snd (CD x)).
  assert (P sx r) as HP.
  { unfold r, row_steps. apply for_range_ind; [lia| |].
    - (* the row header *)
      unfold row_header_step. rewrite Htsy, land_tile_mask, Hym by lia. simpl.
      unfold P, RS, CD. simpl. rewrite tiles_begun_0 by exact Hb.
      rewrite !for_range_nil by lia. simpl.
      rewrite length_map. repeat split; try lia; try reflexivity.
      intros t Ht. rewrite rd_or_all_false. symmetry. apply Z.ltb_ge. lia.
    - (* one element *)
      intros x [w1 tr] Hx (Hl1 & Hseen1 & Hf1 & Hprev1 & Htile1 & Hc1 & Hbits1).
      simpl in Hl1, Hseen1, Hf1, Hprev1, Htile1, Hc1, Hbits1.
      assert (in_matrix st x y) as Hin by (unfold in_matrix; lia).
      pose proof (column_tile_below x Hx) as Hcol.
      assert (CD (x + 1) = raster_cell st (residual_use st) y x (CD x)) as HCD.
      { unfold CD. rewrite (for_range_last 0 (x + 1)) by lia.
        replace (x + 1 - 1) with x by lia. reflexivity. }
      destruct (CD x) as [c d] eqn:ECD. simpl in Hc1, Hbits1.
      destruct (Z.eq_dec (x mod ts) 0) as [Hb0|Hin0].
      + (* the first column of a tile *)
        destruct (tiles_begun_boundary b x Hb ltac:(lia) Hb0) as [Hn Hn1].
        assert (rd_or false (w_seen w1) (x / ts) = false) as Hnew.
        { rewrite Hseen1 by exact Hcol. rewrite Hn. apply Z.ltb_irrefl. }
        pose proof (tile_step_first x y w1 Hin Hnew) as Hts1. cbv zeta in Hts1.
        assert (RS (tiles_begun b (x + 1))
                = rf_tile st (row_filter_use st) trf (x / ts) (RS (tiles_begun b x))) as HRS.
        { rewrite Hn1, Hn. unfold RS. rewrite (for_range_last 0 (x / ts + 1)) by lia.
          replace (x / ts + 1 - 1) with (x / ts) by lia. reflexivity. }
        destruct (RS (tiles_begun b x)) as [[tile prev] s] eqn:ERS.
        simpl in Hprev1, Htile1, Hbits1.
        assert (rd (_tiles st) tile = getTile st x y) as Htile.
        { rewrite (getTile_div st b Htiled), Htile1, Hn.
          f_equal. lia. }
        assert ((snd (fst (tile_step st x y w1)) >=? _normal_filter_count st)
                = skipped st x y) as Hskip.
        { rewrite Hts1, skipped_unmasked by exact Hin.
          destruct (negb (getTile st x y =? MASK_TILE));
            [destruct (row_filter_symbol _ _ _ _)|]; reflexivity. }
        destruct (write_step_data x y w1 c d Hin Hskip Hc1) as (Hs2 & Hp2 & Hf2 & Hcell).
        rewrite <- HCD in Hcell.
        destruct (write_step st x y w1) as [w2 t]. simpl in Hs2, Hp2, Hf2, Hcell.
        unfold P. simpl fst. simpl snd. rewrite HRS, Hcell. simpl fst. simpl snd.
        rewrite Hs2, Hp2, Hf2, Hts1.
        unfold rf_tile. rewrite Htile. fold trf. rewrite <- Hprev1.
        rewrite emitted_bits_app.
        replace (x + 1 - 1) with x by lia.
        assert (forall t0, 0 <= t0 < TX ->
                  rd_or false (wr (w_seen w1) (x / ts) true) t0 = (t0 <? x / ts + 1)) as Hseen2.
        { intros t0 Ht0. destruct (Z.eq_dec t0 (x / ts)) as [->|Hne].
          - rewrite rd_or_wr_eq by lia. symmetry. apply Z.ltb_lt. lia.
          - rewrite rd_or_wr_ne by lia. rewrite Hseen1 by exact Ht0. rewrite Hn.
            destruct (Z.ltb_spec t0 (x / ts)); destruct (Z.ltb_spec t0 (x / ts + 1)); lia. }
        destruct (negb (getTile st x y =? MASK_TILE)).
        * destruct (row_filter_symbol (_filter_count st) trf (getTile st x y) (w_prev w1))
            as [rf prev'] eqn:Erf.
          simpl fst. simpl snd. rewrite length_wr, Hn1.
          rewrite (getTile_div st b Htiled).
          repeat split; try lia; try reflexivity; try exact Hseen2.
          rewrite Hts1 in Hcell. simpl in Hcell.
          unfold row_filter_use. unfold emitted_bits in *. simpl. lia.
        * simpl fst. simpl snd. rewrite length_wr, Hn1.
          rewrite (getTile_div st b Htiled).
          repeat split; try lia; try reflexivity; try exact Hseen2.
          change (emitted_bits []) with 0. lia.
      + (* inside a tile *)
        destruct (tiles_begun_inside b x Hb ltac:(lia) Hin0) as (Hn & Hn1 & Hprevx & Hxpos).
        assert (rd_or false (w_seen w1) (x / ts) = true) as Hold.
        { rewrite Hseen1 by exact Hcol. rewrite Hn. apply Z.ltb_lt. lia. }
        pose proof (tile_step_met x y w1 Hin Hold) as Hts1.
        assert ((snd (fst (tile_step st x y w1)) >=? _normal_filter_count st)
                = skipped st x y) as Hskip.
        { rewrite Hts1, skipped_unmasked by exact Hin. simpl.
          rewrite (Hf1 Hxpos), Hprevx, (getTile_div st b Htiled). reflexivity. }
        destruct (write_step_data x y w1 c d Hin Hskip Hc1) as (Hs2 & Hp2 & Hf2 & Hcell).
        rewrite <- HCD in Hcell.
        destruct (write_step st x y w1) as [w2 t]. simpl in Hs2, Hp2, Hf2, Hcell.
        unfold P. simpl fst. simpl snd. rewrite Hn1, <- Hn, Hcell. simpl fst. simpl snd.
        rewrite Hs2, Hp2, Hf2, Hts1. simpl fst. simpl snd.
        rewrite emitted_bits_app. replace (x + 1 - 1) with x by lia.
        rewrite Hts1 in Hcell.
        repeat split; try lia; try assumption.
        * intros _. rewrite (Hf1 Hxpos), Hprevx. reflexivity.
        * change (emitted_bits []) with 0. lia. }
  destruct HP as (Hl & Hseen & Hf & Hprev & Htile & Hc & Hbits).
  assert (tiles_begun b sx = TX) as Hend by reflexivity.
  rewrite Hend in *. fold rs in Hprev, Htile, Hbits.
  assert (CD sx = cd) as HCD by reflexivity. rewrite HCD in *.
  split; [exact Hl|]. split; [|split; [exact Htile|split; [exact Hc|exact Hbits]]].
  intros Hsx. split; [|apply Hf; exact Hsx].
  intros t Ht. rewrite tiles_x_eq in Ht. rewrite Hseen by exact Ht. apply Z.ltb_lt. lia.
Qed.


(** A later row of a tile row: no tile is new, the write filter is the
    one of the last tile of the row, and only residuals are written. *)
Lemma row_steps_next y w d0 :
  0 <= y < sy -> y mod ts <> 0 ->
  (0 < sx -> all_seen st w /\
             w_filter w = rd (_tiles st) ((sx - 1) / ts + y / ts * TX)) ->
  let r := row_steps st y w in
  let cd := raster_row st (residual_use st) y (w_chaos w, d0) in
  w_seen (fst r) = w_seen w /\ w_filter (fst r) = w_filter w /\
  w_chaos (fst r) = fst cd /\
  emitted_bits (snd r) + d0 = snd cd.
Proof.
  intros Hy Hym Hstate r cd.
  pose proof Htiled as (Hb & Hbx & Hby & Htsx & Htsy & Hx0 & Hxw & Hy0 & Hyw & Htx & Hty).
  pose proof (pow2_bits b Hb) as Hp.
  pose (CD := fun x => for_range 0 x (raster_cell st (residual_use st) y)
                         (chaos_startRow (w_chaos w), d0)).
  pose (P := fun (x : Z) (a : WriteState * list Emit) =>
     w_seen (fst a) = w_seen w /\ w_filter (fst a) = w_filter w /\
     w_chaos (fst a) = fst (CD x) /\
     emitted_bits (snd a) + d0 = snd (CD x)).
  assert (P sx r) as HP.
  { unfold r, row_steps. apply for_range_ind; [lia| |].
    - unfold row_header_step. rewrite Htsy, land_tile_mask by lia.
      destruct (y mod ts =? 0) eqn:E; [apply Z.eqb_eq in E; contradiction|].
      unfold P, CD. rewrite for_range_nil by lia. simpl.
      repeat split.
    - intros x [w1 tr] Hx (Hs1 & Hf1 & Hc1 & Hbits1). simpl in Hs1, Hf1, Hc1, Hbits1.
      assert (in_matrix st x y) as Hin by (unfold in_matrix; lia).
      destruct (Hstate ltac:(lia)) as [Hall Hlast].
      pose proof (column_tile_below x Hx) as Hcol.
      assert (CD (x + 1) = raster_cell st (residual_use st) y x (CD x)) as HCD.
      { unfold CD. rewrite (for_range_last 0 (x + 1)) by lia.
        replace (x + 1 - 1) with x by lia. reflexivity. }
      destruct (CD x) as [c d] eqn:ECD. simpl in Hc1, Hbits1.
      assert (rd_or false (w_seen w1) (x / ts) = true) as Hold.
      { rewrite Hs1. apply Hall. rewrite tiles_x_eq. exact Hcol. }
      pose proof (tile_step_met x y w1 Hin Hold) as Hts1.
      assert ((snd (fst (tile_step st x y w1)) >=? _normal_filter_count st)
              = skipped st x y) as Hskip.
      { rewrite Hts1, skipped_unmasked by exact Hin. simpl.
        rewrite Hf1, Hlast. rewrite Hcur; [|exact Hin|].
        - rewrite (getTile_div st b Htiled). reflexivity.
        - rewrite Htsy, land_tile_mask by lia. exact Hym. }
      destruct (write_step_data x y w1 c d Hin Hskip Hc1) as (Hs2 & Hp2 & Hf2 & Hcell).
      rewrite <- HCD in Hcell.
      destruct (write_step st x y w1) as [w2 t]. simpl in Hs2, Hp2, Hf2, Hcell.
      unfold P. simpl fst. simpl snd. rewrite Hcell. simpl fst. simpl snd.
      rewrite Hs2, Hf2, Hts1. simpl fst. simpl snd.
      rewrite emitted_bits_app. rewrite Hts1 in Hcell. simpl in Hcell.
      repeat split; try assumption.
      change (emitted_bits []) with 0. lia. }
  destruct HP as (Hs & Hf & Hc & Hbits).
  assert (CD sx = cd) as HCD by reflexivity. rewrite HCD in *.
  repeat split; assumption.
Qed.

(** The rows of the write pass: one selector bit per tile row, the
    filters of the tiles and the residuals, symbol by symbol as
    [for_row_filter_symbols] and [raster] visit them. *)
Lemma rows_steps_bits w :
  Z.of_nat (length (w_seen w)) = TX ->
  let r := rows_steps st w in
  emitted_bits (snd r)
  = _tiles_y st
    + for_row_filter_symbols st (row_filter_use st) 0
    + snd (raster st (residual_use st) (w_chaos w, 0)).
Proof.
  intros Hlen r.
  pose proof Htiled as (Hb & Hbx & Hby & Htsx & Htsy & Hx0 & Hxw & Hy0 & Hyw & Htx & Hty).
  pose proof (pow2_bits b Hb) as Hp.
  rewrite for_row_filter_symbols_rows, raster_rows.
  pose (OS := fun k => for_range 0 k (rf_row st (row_filter_use st)) (0, 0)).
  pose (CD := fun y => for_range 0 y (raster_row st (residual_use st)) (w_chaos w, 0)).
  pose (Q := fun (y : Z) (a : WriteState * list Emit) =>
     Z.of_nat (length (w_seen (fst a))) = TX /\
     (0 < y -> 0 < sx ->
      all_seen st (fst a) /\
      w_filter (fst a) = rd (_tiles st) ((sx - 1) / ts + (y - 1) / ts * TX)) /\
     fst (OS (tiles_begun b y)) = tiles_begun b y * TX /\
     w_chaos (fst a) = fst (CD y) /\
     emitted_bits (snd a) = tiles_begun b y + snd (OS (tiles_begun b y)) + snd (CD y)).
  assert (Q sy r) as HQ.
  { unfold r, rows_steps. apply for_range_ind; [lia| |].
    - unfold Q, OS, CD. simpl. rewrite tiles_begun_0 by exact Hb.
      rewrite !for_range_nil by lia. simpl.
      repeat split; try lia.
    - intros y [w1 tr] Hy (Hl1 & Hst1 & Htile1 & Hc1 & Hbits1).
      simpl in Hl1, Hst1, Htile1, Hc1, Hbits1.
      assert (CD (y + 1) = raster_row st (residual_use st) y (CD y)) as HCD.
      { unfold CD. rewrite (for_range_last 0 (y + 1)) by lia.
        replace (y + 1 - 1) with y by lia. reflexivity. }
      destruct (CD y) as [c d] eqn:ECD. simpl in Hc1, Hbits1. subst c.
      destruct (Z.eq_dec (y mod ts) 0) as [Hb0|Hin0].
      + (* the first row of a tile row *)
        destruct (tiles_begun_boundary b y Hb ltac:(lia) Hb0) as [Hn Hn1].
        assert (OS (tiles_begun b (y + 1))
                = rf_row st (row_filter_use st) (y / ts) (OS (tiles_begun b y))) as HOS.
        { rewrite Hn1, Hn. unfold OS. rewrite (for_range_last 0 (y / ts + 1)).
          - replace (y / ts + 1 - 1) with (y / ts) by lia. reflexivity.
          - pose proof (Z.div_pos y ts ltac:(lia) ltac:(lia)). lia. }
        destruct (OS (tiles_begun b y)) as [tile s] eqn:EOS.
        simpl in Htile1, Hbits1. rewrite Hn in Htile1. subst tile.
        pose proof (row_steps_first y w1 s d Hy Hb0 Hl1) as Hrow. cbv zeta in Hrow.
        destruct Hrow as (Hl2 & Hst2 & Htile2 & Hc2 & Hbits2).
        unfold rf_row in HOS. rewrite tiles_x_eq in HOS.
        destruct (for_range 0 TX
                    (rf_tile st (row_filter_use st) (rd (_tile_row_filters st) (y / ts)))
                    (y / ts * TX, 0, s)) as [[tile' prev'] s'] eqn:Ers.
        simpl in Htile2, Hbits2.
        destruct (row_steps st y w1) as [w2 t]. cbn [fst snd] in Hl2, Hst2, Hc2, Hbits2.
        unfold Q. simpl fst. simpl snd. rewrite HOS, HCD. simpl fst. simpl snd.
        rewrite emitted_bits_app. replace (y + 1 - 1) with y by lia.
        rewrite Hn1. rewrite Hn in Hbits1.
        split; [exact Hl2|]. split; [intros _; exact Hst2|].
        split; [lia|]. split; [exact Hc2|]. lia.
      + (* a later row of a tile row *)
        destruct (tiles_begun_inside b y Hb ltac:(lia) Hin0) as (Hn & Hn1 & Hprevy & Hypos).
        assert (0 < sx -> all_seen st w1 /\
                          w_filter w1 = rd (_tiles st) ((sx - 1) / ts + y / ts * TX))
          as Hstate.
        { intros Hsx. rewrite <- Hprevy. apply Hst1; assumption. }
        pose proof (row_steps_next y w1 d Hy Hin0 Hstate) as Hrow. cbv zeta in Hrow.
        destruct Hrow as (Hs2 & Hf2 & Hc2 & Hbits2).
        destruct (row_steps st y w1) as [w2 t]. cbn [fst snd] in Hs2, Hf2, Hc2, Hbits2.
        unfold Q. simpl fst. simpl snd. rewrite Hn1, <- Hn, HCD.
        rewrite emitted_bits_app. replace (y + 1 - 1) with y by lia.
        split; [rewrite Hs2; exact Hl1|].
        split.
        { intros _ Hsx. destruct (Hstate Hsx) as [Hall Hlast].
          split; [|rewrite Hf2; exact Hlast].
          intros t0 Ht0. rewrite Hs2. apply Hall. exact Ht0. }
        split; [exact Htile1|]. split; [exact Hc2|]. lia. }
  destruct HQ as (_ & _ & _ & _ & Hbits).
  assert (tiles_begun b sy = _tiles_y st) as Hend by (rewrite Hty; reflexivity).
  rewrite Hend in Hbits. exact Hbits.
Qed.

End RowsOfTheWritePass.

Section Estimate.
Context `{Prim : Primitives} `{Plan : !Planner} `{Tune : Tuning}.
Implicit Types (st : MonoWriter) (w : WriteState).

Lemma for_range_ext {A} lo hi (f g : Z -> A -> A) a :
  (forall i acc, lo <= i < hi -> f i acc = g i acc) ->
  for_range lo hi f a = for_range lo hi g a.
Proof.
  intros H. apply (for_range_rel eq); [reflexivity|].
  intros i a' b' Hi ->. apply H. exact Hi.
Qed.

Lemma for_row_filter_symbols_ext {S} st (use1 use2 : Z -> S -> S) s :
  (forall rf acc, use1 rf acc = use2 rf acc) ->
  for_row_filter_symbols st use1 s = for_row_filter_symbols st use2 s.
Proof.
  intros H. rewrite !for_row_filter_symbols_rows. f_equal.
  apply for_range_ext. intros ty [tile acc] _. unfold rf_row.
  assert (for_range 0 (_tiles_x st) (rf_tile st use1 (rd (_tile_row_filters st) ty))
            (tile, 0, acc)
          = for_range 0 (_tiles_x st) (rf_tile st use2 (rd (_tile_row_filters st) ty))
              (tile, 0, acc)) as ->; [|reflexivity].
  apply for_range_ext. intros tx [[t p] a] _. unfold rf_tile.
  destruct (negb (rd (_tiles st) t =? MASK_TILE)); [|reflexivity].
  destruct (row_filter_symbol _ _ _ _). rewrite H. reflexivity.
Qed.

Lemma raster_ext {S} st (use1 use2 : Z -> Z -> S -> S) cs :
  (forall bin residual acc, use1 bin residual acc = use2 bin residual acc) ->
  raster st use1 cs = raster st use2 cs.
Proof.
  intros H. rewrite !raster_rows. apply for_range_ext.
  intros y [c s] _. unfold raster_row. apply for_range_ext.
  intros x [c1 s1] _. unfold raster_cell.
  destruct (skipped st x y); [reflexivity|]. rewrite H. reflexivity.
Qed.

Lemma wr_out_of_range {A} (a : list A) i v :
  ~ (0 <= i < Z.of_nat (length a)) -> wr a i v = a.
Proof.
  intros H. unfold wr. destruct (0 <=? i) eqn:E; [|reflexivity].
  apply list_insert_ge. lia.
Qed.

(** Resetting the coders of the chaos bins leaves their costs. *)
Lemma reset_encoders_cost n (E : list EntropyEncoder) bin sym :
  (forall e s, enc_simulate (enc_reset e) s = enc_simulate e s) ->
  enc_simulate
    (rd_or enc_new
       (for_range 0 n (fun ii enc => wr enc ii (enc_reset (rd_or enc_new enc ii))) E)
       bin) sym
  = enc_simulate (rd_or enc_new E bin) sym.
Proof.
  intros Hreset.
  apply (for_range_keeps
           (fun acc => enc_simulate (rd_or enc_new acc bin) sym
                       = enc_simulate (rd_or enc_new E bin) sym)); [reflexivity|].
  intros ii acc _ IH.
  destruct (Z.eq_dec ii bin) as [->|Hne].
  - destruct (Z_lt_dec bin 0) as [Hneg|Hpos];
      [rewrite wr_out_of_range by lia; exact IH|].
    destruct (Z_lt_dec bin (Z.of_nat (length acc))) as [Hin|Hout].
    + rewrite rd_or_wr_eq by lia. rewrite Hreset. exact IH.
    + rewrite wr_out_of_range by lia. exact IH.
  - rewrite rd_or_wr_ne by exact Hne. exact IH.
Qed.

Lemma length_resize {A} (d : A) (a : list A) n :
  0 <= n -> Z.of_nat (length (resize d a n)) = n.
Proof.
  intros Hn. unfold resize.
  rewrite length_app, length_take, length_replicate. lia.
Qed.

Lemma writeTables_row_filter_mode st :
  _filter_encoder st = None ->
  fst (fst (writeTables st))
  = with_write_state (tables_written st)
      {| w_chaos := chaos_start (_chaos st);
         w_seen := resize false (_tile_seen st) (_tiles_x st);
         w_prev := _prev_filter st;
         w_filter := _write_filter st |}.
Proof.
  intros Hfe. rewrite writeTables_unfold.
  destruct (tables_tile_size st), (tables_sympal st), (tables_normal st),
    (tables_chaos st), (tables_encoders st).
  rewrite Hfe. simpl fst. unfold initializeWriter, tables_written, with_write_state.
  destruct st; simpl in *. subst. reflexivity.
Qed.

Lemma emitted_bits_map_const (k : Z) (g : Z -> Z) (l : list Z) :
  emitted_bits (map (fun f => WriteBits (g f) k) l) = k * Z.of_nat (length l).
Proof.
  induction l as [|a l IH]; [unfold emitted_bits; simpl; lia|].
  change (emitted_bits (map (fun f => WriteBits (g f) k) (a :: l)))
    with (k + emitted_bits (map (fun f => WriteBits (g f) k) l)).
  rewrite IH. simpl length. lia.
Qed.

Lemma tables_encoders_bits st :
  emitted_bits (snd (tables_encoders st)) = fst (tables_encoders st).
Proof.
  unfold tables_encoders.
  apply (for_range_keeps (fun a : Z * list Emit => emitted_bits (snd a) = fst a));
    [reflexivity|].
  intros ii [o tr] _ IH. simpl in *. rewrite emitted_bits_app, IH.
  unfold emitted_bits. simpl. lia.
Qed.

(** The bits of the header in row-filter mode. *)
Lemma writeTables_bits st :
  _filter_encoder st = None ->
  0 <= _sympal_filter_count st -> SF_FIXED <= _normal_filter_count st ->
  _tile_bits_field_bc st = tile_bits_field_width (_params st) ->
  emitted_bits (snd (writeTables st)) + 7 * SF_FIXED
  + chaos_getBinCount (_chaos st) * 5 * num_syms (_params st)
  = simulate_header st + fst (tables_encoders st)
    + enc_writeTables (_row_filter_encoder st).
Proof.
  intros Hfe Hspc Hnfc Hbc.
  rewrite writeTables_trace, Hfe, tables_sympal_trace, tables_normal_trace.
  rewrite !emitted_bits_app.
  change (emitted_bits
            (WriteBits (u32 (_sympal_filter_count st - 1)) 4
             :: map (fun f => WriteBits (rd (_sympal st) f) 8)
                  (seqZ 0 (_sympal_filter_count st))))
    with (4 + emitted_bits
                (map (fun f => WriteBits (rd (_sympal st) f) 8)
                   (seqZ 0 (_sympal_filter_count st)))).
  change (emitted_bits
            (WriteBits (u32 (_normal_filter_count st - SF_FIXED)) 5
             :: map (fun f => WriteBits (rd (_filter_indices st) f) 7)
                  (seqZ SF_FIXED (_normal_filter_count st - SF_FIXED))))
    with (5 + emitted_bits
                (map (fun f => WriteBits (rd (_filter_indices st) f) 7)
                   (seqZ SF_FIXED (_normal_filter_count st - SF_FIXED)))).
  rewrite !emitted_bits_map_const, !length_seqZ, tables_encoders_bits.
  change (emitted_bits (snd (tables_chaos st))) with (4 + 0).
  change (emitted_bits
            [WriteBit 0;
             CoderTables RowFilterCoder (enc_writeTables (_row_filter_encoder st))])
    with (1 + (enc_writeTables (_row_filter_encoder st) + 0)).
  assert (emitted_bits (snd (tables_tile_size st))
          = tile_bits_field_width (_params st)) as ->.
  { unfold tables_tile_size. rewrite Hbc. unfold tile_bits_field_width. cbv zeta.
    destruct (u32 (max_bits (_params st) - min_bits (_params st)) >? 0) eqn:Er.
    - assert (0 <= BSR32 (u32 (max_bits (_params st) - min_bits (_params st))))
        by apply Z.log2_nonneg.
      destruct (BSR32 _ + 1 >? 0) eqn:Eb; [|lia].
      unfold emitted_bits. simpl. lia.
    - reflexivity. }
  unfold simulate_header, tile_bits_field_width. cbv zeta.
  destruct (u32 (max_bits (_params st) - min_bits (_params st)) >? 0); lia.
Qed.

(** C1 (amended).  simulate() is an estimate of the bits written, exact
    up to the terms of [estimate_gap]: in row-filter mode, with a coder
    that writes what it simulates, on a matrix without masked elements
    whose rows keep the write filter current, the value simulate()
    returns is the number of bits written by the tables, the row headers
    and the elements in raster order, plus [7 * SF_FIXED] and
    [5 * num_syms] per chaos bin, minus the bits of the coder tables,
    of the row-filter table and of one selector per tile row (as a
    32-bit count). *)
Theorem simulate_estimates_write_image st b :
  tiled st b ->
  _filter_encoder st = None ->
  (forall x y, in_matrix st x y -> mask (_params st) x y = false) ->
  write_filter_current st ->
  coder_writes_what_it_simulates ->
  0 <= _sympal_filter_count st ->
  SF_FIXED <= _normal_filter_count st <= MASK_TILE ->
  _tile_bits_field_bc st = tile_bits_field_width (_params st) ->
  snd (simulate st) = u32 (emitted_bits (snd (write_image st)) + estimate_gap st).
Proof.
  intros Ht Hfe Hmask Hcur [Hwrite Hreset] Hspc [Hsf Hnfc] Hbc.
  pose proof (writeTables_bits st Hfe Hspc Hsf Hbc) as Hhead.
  pose proof (writeTables_row_filter_mode st Hfe) as Hstate.
  unfold write_image.
  destruct (writeTables st) as [[st1 bits] tr0]. simpl in Hhead, Hstate. subst st1.
  rewrite write_rows_ok; [|exact Hfe|exact Hmask].
  match goal with |- context [rows_steps ?s ?w0] =>
    pose proof (rows_steps_bits s b Ht Hmask Hnfc Hcur w0) as Hrows end.
  cbv zeta in Hrows. simpl w_seen in Hrows. simpl w_chaos in Hrows.
  rewrite
    (for_row_filter_symbols_ext (tables_written st) (row_filter_use (tables_written st))
       (fun rf acc => acc + enc_simulate (_row_filter_encoder st) rf)) in Hrows.
  2: { intros rf acc. unfold row_filter_use. simpl. rewrite Hwrite, Hreset. reflexivity. }
  rewrite
    (raster_ext (tables_written st) (residual_use (tables_written st))
       (fun bin residual acc =>
          acc + enc_simulate (rd_or enc_new (_encoder st) bin) residual)) in Hrows.
  2: { intros bin residual acc. unfold residual_use. simpl. rewrite Hwrite.
       rewrite reset_encoders_cost by exact Hreset. reflexivity. }
  assert (Z.of_nat (length (resize false (_tile_seen st) (_tiles_x st)))
          = (size_x (_params st) + 2 ^ b - 1) / 2 ^ b) as Hlen.
  { destruct Ht as (Hb & _ & _ & _ & _ & Hx0 & _ & _ & _ & Htx & _).
    pose proof (pow2_bits b Hb).
    rewrite length_resize; [exact Htx|].
    rewrite Htx. apply Z.div_pos; lia. }
  specialize (Hrows Hlen).
  destruct (rows_steps (tables_written st) _) as [w1 tr1]. simpl snd in *.
  rewrite emitted_bits_app, Hrows.
  rewrite simulate_unfold, Hfe.
  unfold simulate_residuals.
  change (@raster _ Z (tables_written st)) with (@raster _ Z st) in *.
  change (@for_row_filter_symbols _ Z (tables_written st))
    with (@for_row_filter_symbols _ Z st) in *.
  change (_tiles_y (tables_written st)) with (_tiles_y st).
  destruct (raster st _ (chaos_start (_chaos st), 0)) as [c d]. simpl snd.
  unfold estimate_gap. f_equal. lia.
Qed.

End Estimate.

(** C1, counterexample: on the state process() leaves for the 2x2 input
    (no mask, one tile, row-filter mode, a flat coder that writes 8 bits
    where it simulates 8 and has no tables) the write pass emits 55 bits
    and simulate() returns 102. *)
Lemma simulate_differs_from_bits_written :
  let st := processed 10 params_2x2 in
  emitted_bits (snd (write_image st)) = 55 /\ snd (simulate st) = 102.
Proof. vm_compute. split; reflexivity. Qed.

(** C1 (amended) at the same state: the gap is [28 + 20 - 0 - 0 - 1]. *)
Lemma simulate_estimates_write_image_witness :
  let st := processed 10 params_2x2 in
  estimate_gap st = 47 /\
  snd (simulate st) = u32 (emitted_bits (snd (write_image st)) + 47).
Proof.
  set (st := processed 10 params_2x2).
  assert (size_x (_params st) = 2) as Esx by (vm_compute; reflexivity).
  assert (size_y (_params st) = 2) as Esy by (vm_compute; reflexivity).
  assert (tiled st 1) as Ht.
  { unfold tiled. rewrite Esx, Esy.
    repeat split; try (vm_compute; reflexivity); vm_compute; intros H; discriminate H. }
  assert (_filter_encoder st = None) as Hfe by (vm_compute; reflexivity).
  assert (forall x y, in_matrix st x y -> mask (_params st) x y = false) as Hmask.
  { intros x y _. vm_compute. reflexivity. }
  assert (forall x y, in_matrix st x y -> (x = 0 \/ x = 1) /\ (y = 0 \/ y = 1)) as Hcells.
  { unfold in_matrix. rewrite Esx, Esy. clearbody st. clear. intros x y. lia. }
  assert (write_filter_current st) as Hcur.
  { intros x y Hin _. destruct (Hcells x y Hin) as [[-> | ->] [-> | ->]];
      vm_compute; reflexivity. }
  assert (@coder_writes_what_it_simulates reference_primitives) as Hcoder.
  { split; intros; reflexivity. }
  assert (0 <= _sympal_filter_count st) as Hspc by (vm_compute; intros H; discriminate H).
  assert (SF_FIXED <= _normal_filter_count st <= MASK_TILE) as Hnfc.
  { split; vm_compute; intros H; discriminate H. }
  assert (_tile_bits_field_bc st = tile_bits_field_width (_params st)) as Hbc
    by (vm_compute; reflexivity).
  assert (estimate_gap st = 47) as Hgap by (vm_compute; reflexivity).
  split; [exact Hgap|]. rewrite <- Hgap.
  exact (simulate_estimates_write_image st 1 Ht Hfe Hmask Hcur Hcoder Hspc Hnfc Hbc).
Defined.

(** * Further properties of the stages *)

Section Sweeps.

(** ** The loops as folds *)

Lemma while_count_fold {T} (body : Z -> T -> T) bound :
  forall (c : nat) p s,
    while_count c p bound body s
    = fold_left (fun acc q => body q acc)
        (seqZ p (Z.min (Z.of_nat c) (bound - p))) s.
Proof.
  induction c as [|c IH]; intros p s; simpl while_count.
  - replace (Z.min (Z.of_nat 0) (bound - p)) with (Z.min 0 (bound - p)) by lia.
    destruct (Z_le_dec (Z.min 0 (bound - p)) 0) as [H|H]; [|lia].
    rewrite seqZ_nil by lia. reflexivity.
  - destruct (p <? bound) eqn:Hlt.
    + apply Z.ltb_lt in Hlt. rewrite IH.
      rewrite (seqZ_cons p (Z.min (Z.of_nat (S c)) (bound - p))) by lia.
      simpl fold_left. f_equal. f_equal. lia.
    + apply Z.ltb_ge in Hlt. rewrite seqZ_nil by lia. reflexivity.
Qed.

Lemma fold_left_flat_map {A B T} (f : T -> B -> T) (g : A -> list B) (l : list A) :
  forall s,
    fold_left f (flat_map g l) s = fold_left (fun acc a => fold_left f (g a) acc) l s.
Proof.
  induction l as [|a l IH]; intros s; simpl; [reflexivity|].
  rewrite fold_left_app. apply IH.
Qed.

Lemma fold_left_map {A B T} (f : T -> B -> T) (g : A -> B) (l : list A) :
  forall s, fold_left f (map g l) s = fold_left (fun acc a => f acc (g a)) l s.
Proof.
  induction l as [|a l IH]; intros s; simpl; [reflexivity|]. apply IH.
Qed.

Lemma fold_left_pointwise {A T} (f g : T -> A -> T) (l : list A) :
  (forall acc a, f acc a = g acc a) ->
  forall s, fold_left f l s = fold_left g l s.
Proof.
  intros Hfg. induction l as [|a l IH]; intros s; simpl; [reflexivity|].
  rewrite Hfg. apply IH.
Qed.

Lemma in_seqZ (p n x : Z) : In x (seqZ p n) <-> p <= x < p + n.
Proof.
  rewrite <- list_elem_of_In, elem_of_seqZ. reflexivity.
Qed.

End Sweeps.

Section TileSweep.
Context `{Prim : Primitives}.
Variable st : MonoWriter.
Variable b : Z.
Hypothesis Htiled : tiled st b.

Local Abbreviation sx := (size_x (_params st)).
Local Abbreviation sy := (size_y (_params st)).
Local Abbreviation ts := (2 ^ b).

(** The tile loops visit the tiles in row-major order. *)
Lemma for_tiles_ind {T} (P : Z -> T -> Prop) fuel (body : Z -> Z -> T -> T) s r :
  for_tiles fuel st body s = Some r ->
  P 0 s ->
  (forall kx ky acc, 0 <= kx < _tiles_x st -> 0 <= ky < _tiles_y st ->
      P (kx + ky * _tiles_x st) acc ->
      P (kx + ky * _tiles_x st + 1) (body (kx * ts) (ky * ts) acc)) ->
  P (_tiles_x st * _tiles_y st) r.
Proof.
  intros Hrun H0 Hstep.
  pose proof Htiled as (Hb & _ & _ & Hsx & Hsy & Hx0 & Hxw & Hy0 & Hyw & Htx & Hty).
  pose proof (ts_pos st b Htiled) as Hts.
  unfold for_tiles in Hrun.
  rewrite Hsx, Hsy, (u16_sx st b Htiled), (u16_sy st b Htiled) in Hrun.
  assert (forall size k, 0 <= k -> k * ts < size -> k < (size + ts - 1) / ts) as Hlt.
  { intros size k Hk Hks.
    assert (k + 1 <= (size + ts - 1) / ts); [|lia].
    apply Z.div_le_lower_bound; lia. }
  pose (Pout := fun (ky : Z) (a : T) => P (ky * _tiles_x st) a).
  assert (Pout ((sy + ts - 1) / ts) r) as HP.
  { change 0 with (0 * ts) in Hrun at 1.
    refine (for_u16_steps Pout sy ts _ _ _ _ _ fuel 0 _ _ _ _ Hrun _); try lia.
    - intros ky a a' Hky Hkyb HPa Hrow.
      pose (Pin := fun (kx : Z) (a : T) => P (kx + ky * _tiles_x st) a).
      assert (Pin ((sx + ts - 1) / ts) a') as HPin.
      { change 0 with (0 * ts) in Hrow at 1.
        refine (for_u16_steps Pin sx ts _ _ _ _ _ fuel 0 _ _ _ _ Hrow _); try lia.
        - intros kx c c' Hkx Hkxb HPc Htile. injection Htile as <-.
          unfold Pin.
          replace (kx + 1 + ky * _tiles_x st) with (kx + ky * _tiles_x st + 1) by lia.
          apply Hstep.
          + rewrite Htx. split; [lia|]. apply Hlt; lia.
          + rewrite Hty. split; [lia|]. apply Hlt; lia.
          + exact HPc.
        - unfold Pin. simpl. exact HPa. }
      unfold Pin in HPin. rewrite <- Htx in HPin. unfold Pout.
      replace ((ky + 1) * _tiles_x st) with (_tiles_x st + ky * _tiles_x st) by lia.
      exact HPin.
    - unfold Pout. simpl. exact H0. }
  unfold Pout in HP. rewrite <- Hty in HP.
  replace (_tiles_x st * _tiles_y st) with (_tiles_y st * _tiles_x st) by lia.
  exact HP.
Qed.

(** The tile loops return. *)
Lemma for_tiles_returns {T} fuel (body : Z -> Z -> T -> T) s :
  sx < Z.of_nat fuel -> sy < Z.of_nat fuel ->
  is_Some (for_tiles fuel st body s).
Proof.
  intros Hfx Hfy.
  pose proof Htiled as (Hb & _ & _ & Hsx & Hsy & Hx0 & Hxw & Hy0 & Hyw & Htx & Hty).
  pose proof (ts_pos st b Htiled) as Hts.
  apply for_tiles_total;
    rewrite ?Hsx, ?Hsy, ?(u16_sx st b Htiled), ?(u16_sy st b Htiled); lia.
Qed.

(** The element loops of a tile visit [tile_cells]. *)
Lemma for_tile_cells_fold {T} kx ky (body : Z -> Z -> T -> T) s :
  0 <= kx -> 0 <= ky ->
  for_tile_cells st (kx * ts) (ky * ts) body s
  = fold_left (fun acc c => body (fst c) (snd c) acc) (tile_cells st b kx ky) s.
Proof.
  intros Hkx Hky.
  pose proof Htiled as (Hb & _ & _ & Hsx & Hsy & Hx0 & Hxw & Hy0 & Hyw & Htx & Hty).
  pose proof (ts_pos st b Htiled) as Hts.
  unfold for_tile_cells, tile_cells, tile_span.
  rewrite Hsx, Hsy, (u16_sx st b Htiled), (u16_sy st b Htiled).
  rewrite while_count_fold, fold_left_flat_map, Z2Nat.id by lia.
  apply fold_left_pointwise. intros acc py.
  rewrite while_count_fold, fold_left_map, Z2Nat.id by lia. reflexivity.
Qed.

Lemma in_tile_cells kx ky x y :
  0 <= kx -> 0 <= ky ->
  In (x, y) (tile_cells st b kx ky) <-> in_matrix st x y /\ in_tile b kx ky x y.
Proof.
  intros Hkx Hky.
  pose proof (ts_pos st b Htiled) as Hts.
  unfold tile_cells, tile_span, in_matrix, in_tile.
  rewrite in_flat_map. split.
  - intros (py & Hpy & Hin). apply in_map_iff in Hin as (px & [= <- <-] & Hpx).
    apply in_seqZ in Hpy, Hpx.
    repeat split; try lia; apply div_tile; lia.
  - intros ((Hx & Hy) & (Hxk & Hyk)).
    assert (kx * ts <= x < kx * ts + ts).
    { rewrite <- Hxk. pose proof (Z.mul_div_le x ts ltac:(lia)).
      pose proof (Z.mod_pos_bound x ts ltac:(lia)).
      pose proof (Z.div_mod x ts ltac:(lia)). lia. }
    assert (ky * ts <= y < ky * ts + ts).
    { rewrite <- Hyk. pose proof (Z.mul_div_le y ts ltac:(lia)).
      pose proof (Z.mod_pos_bound y ts ltac:(lia)).
      pose proof (Z.div_mod y ts ltac:(lia)). lia. }
    exists y. split; [apply in_seqZ; lia|].
    apply in_map_iff. exists x. split; [reflexivity|apply in_seqZ; lia].
Qed.

(** A tile of the grid holds an element of the matrix. *)
Lemma tile_cells_inhabited kx ky :
  0 <= kx < _tiles_x st -> 0 <= ky < _tiles_y st ->
  In (kx * ts, ky * ts) (tile_cells st b kx ky).
Proof.
  intros Hkx Hky.
  pose proof Htiled as (Hb & _ & _ & Hsx & Hsy & Hx0 & Hxw & Hy0 & Hyw & Htx & Hty).
  pose proof (ts_pos st b Htiled) as Hts.
  assert (forall size k, 0 <= k < (size + ts - 1) / ts -> k * ts < size) as Hlt.
  { intros size k Hk.
    assert ((size + ts - 1) / ts * ts <= size + ts - 1).
    { rewrite Z.mul_comm. apply Z.mul_div_le. lia. }
    nia. }
  apply in_tile_cells; try lia.
  unfold in_matrix, in_tile. rewrite Htx in Hkx. rewrite Hty in Hky.
  pose proof (Hlt _ _ Hkx). pose proof (Hlt _ _ Hky).
  repeat split; try lia; apply Z.div_mul; lia.
Qed.

End TileSweep.

Section MaskTiles.
Context `{Prim : Primitives}.

Implicit Types (st : MonoWriter).

Lemma found_unmasked st (l : list (Z * Z)) :
  forall acc,
    fold_left (fun found c => found || negb (mask (_params st) (fst c) (snd c))) l acc
    = acc || existsb (fun c => negb (mask (_params st) (fst c) (snd c))) l.
Proof.
  induction l as [|c l IH]; intros acc; simpl; [rewrite orb_false_r; reflexivity|].
  rewrite IH, orb_assoc. reflexivity.
Qed.

(** X1.  maskTiles returns, assigns nothing but the tile map, and leaves
    in every tile of the grid MASK_TILE when each of its elements inside
    the matrix is masked and TODO_TILE otherwise. *)
Theorem maskTiles_marks_fully_masked_tiles st b fuel :
  tiled st b ->
  Z.of_nat (length (_tiles st)) = _tiles_x st * _tiles_y st ->
  size_x (_params st) < Z.of_nat fuel -> size_y (_params st) < Z.of_nat fuel ->
  exists tiles,
    maskTiles fuel st = Some (set_tiles tiles st) /\
    forall kx ky, 0 <= kx < _tiles_x st -> 0 <= ky < _tiles_y st ->
      let t := rd tiles (kx + ky * _tiles_x st) in
      (t = MASK_TILE \/ t = TODO_TILE) /\
      (t = MASK_TILE <->
       forall x y, in_matrix st x y -> in_tile b kx ky x y ->
                   mask (_params st) x y = true).
Proof.
  intros Htiled Hlen Hfx Hfy. unfold maskTiles.
  match goal with |- context [for_tiles fuel st ?body ?s] =>
    destruct (for_tiles_returns st b Htiled fuel body s Hfx Hfy) as [[p tiles] Hrun];
    rewrite Hrun;
    pose proof (for_tiles_ind st b Htiled
      (fun (i : Z) (a : Z * list Z) =>
         fst a = i /\ length (snd a) = length (_tiles st) /\
         forall kx ky, 0 <= kx < _tiles_x st -> 0 <= ky < _tiles_y st ->
           kx + ky * _tiles_x st < i ->
           let t := rd (snd a) (kx + ky * _tiles_x st) in
           (t = MASK_TILE \/ t = TODO_TILE) /\
           (t = MASK_TILE <->
            forall x y, in_matrix st x y -> in_tile b kx ky x y ->
                        mask (_params st) x y = true))
      fuel body s (p, tiles) Hrun) as Hind
  end.
  exists tiles. split; [reflexivity|].
  cbv beta in Hind. simpl fst in Hind. simpl snd in Hind.
  destruct Hind as (_ & _ & Hall).
  - split; [reflexivity|]. split; [reflexivity|]. intros kx ky Hkx Hky Hlt. exfalso.
    assert (0 <= ky * _tiles_x st) by nia. lia.
  - intros kx ky [p0 t0] Hkx Hky (Hp & Hl & IH). simpl in Hp, Hl, IH. subst p0.
    simpl fst. simpl snd. split; [reflexivity|]. split; [rewrite length_wr; exact Hl|].
    intros kx' ky' Hkx' Hky' Hlt.
    destruct (Z.eq_dec (kx' + ky' * _tiles_x st) (kx + ky * _tiles_x st)) as [Heq|Hne].
    + destruct (cell_index_inj (_tiles_x st) kx' ky' kx ky Hkx' Hkx Heq) as [-> ->].
      rewrite rd_wr_eq
        by (rewrite Hl, Hlen; apply cell_index_range; assumption).
      rewrite for_tile_cells_fold by (try exact Htiled; lia).
      rewrite found_unmasked. simpl orb.
      destruct (existsb _ (tile_cells st b kx ky)) eqn:Ex.
      * split; [right; reflexivity|]. split; [discriminate|].
        intros Hmasked. exfalso.
        apply existsb_exists in Ex as ([x y] & Hin & Hneg). simpl in Hneg.
        apply (in_tile_cells st b Htiled) in Hin as [Hm Ht]; try lia.
        rewrite (Hmasked x y Hm Ht) in Hneg. discriminate.
      * split; [left; reflexivity|]. split; [|reflexivity].
        intros _ x y Hm Ht.
        assert (In (x, y) (tile_cells st b kx ky)) as Hin
          by (apply (in_tile_cells st b Htiled); try lia; split; assumption).
        destruct (mask (_params st) x y) eqn:Em; [reflexivity|]. exfalso.
        assert (existsb (fun c => negb (mask (_params st) (fst c) (snd c)))
                  (tile_cells st b kx ky) = true) as Ht'.
        { apply existsb_exists. exists (x, y). split; [exact Hin|]. simpl.
          rewrite Em. reflexivity. }
        congruence.
    + rewrite rd_wr_ne by congruence. apply IH; try assumption. lia.
  - intros kx ky Hkx Hky. apply Hall; try assumption.
    apply cell_index_range; assumption.
Qed.

End MaskTiles.

(** X1 at the 2x1 input with 1x1 tiles: the tile of the masked element
    is MASK_TILE, the other one TODO_TILE. *)
Lemma maskTiles_marks_fully_masked_tiles_witness :
  let st := processed 10 params_2x1_unit in
  exists tiles,
    maskTiles 10 st = Some (set_tiles tiles st) /\
    rd tiles 0 = MASK_TILE /\ rd tiles 1 = TODO_TILE.
Proof.
  set (st := processed 10 params_2x1_unit).
  assert (size_x (_params st) = 2) as Esx by (vm_compute; reflexivity).
  assert (size_y (_params st) = 1) as Esy by (vm_compute; reflexivity).
  assert (_tiles_x st = 2) as Etx by (vm_compute; reflexivity).
  assert (_tiles_y st = 1) as Ety by (vm_compute; reflexivity).
  assert (tiled st 0) as Ht.
  { unfold tiled. rewrite Esx, Esy.
    repeat split; try (vm_compute; reflexivity); vm_compute; intros H; discriminate H. }
  assert (Z.of_nat (length (_tiles st)) = _tiles_x st * _tiles_y st) as Hlen
    by (vm_compute; reflexivity).
  assert (size_x (_params st) < Z.of_nat 10) as Hfx by (vm_compute; reflexivity).
  assert (size_y (_params st) < Z.of_nat 10) as Hfy by (vm_compute; reflexivity).
  assert (forall x y, mask (_params st) x y = (x =? 0) && (y =? 0)) as Hmask
    by (intros; vm_compute; reflexivity).
  assert (0 <= 0 < _tiles_x st /\ 0 <= 1 < _tiles_x st /\ 0 <= 0 < _tiles_y st)
    as (H0 & H1 & Hy) by (rewrite Etx, Ety; clearbody st; clear; lia).
  destruct (maskTiles_marks_fully_masked_tiles st 0 10 Ht Hlen Hfx Hfy)
    as (tiles & Hrun & Hall).
  exists tiles. split; [exact Hrun|].
  destruct (Hall 0 0 H0 Hy) as [_ Hleft]. destruct (Hall 1 0 H1 Hy) as [Hcase Hright].
  cbv zeta in Hleft, Hcase, Hright. rewrite Etx in Hleft, Hcase, Hright.
  change (0 + 0 * 2) with 0 in Hleft. change (1 + 0 * 2) with 1 in Hcase, Hright.
  split.
  - apply Hleft. intros x y [_ Hiy] [Hx _]. rewrite Esy in Hiy.
    rewrite Z.div_1_r in Hx. rewrite Hmask. subst x.
    replace y with 0 by (clearbody st; clear - Hiy; lia). reflexivity.
  - destruct Hcase as [Hm|Ht1]; [|exact Ht1]. exfalso.
    assert (in_matrix st 1 0) as Hin
      by (unfold in_matrix; rewrite Esx, Esy; clearbody st; clear; lia).
    assert (in_tile 0 1 0 1 0) as Hit by (split; reflexivity).
    pose proof (proj1 Hright Hm 1 0 Hin Hit) as Hbad.
    rewrite Hmask in Hbad. discriminate Hbad.
Defined.

Section PaletteTiles.
Context `{Prim : Primitives}.

Implicit Types (st : MonoWriter).

(** What designPaletteTiles leaves in every tile. *)
Lemma designPaletteTiles_pointwise st b fuel :
  tiled st b ->
  Z.of_nat (length (_tiles st)) = _tiles_x st * _tiles_y st ->
  size_x (_params st) < Z.of_nat fuel -> size_y (_params st) < Z.of_nat fuel ->
  0 <= _sympal_filter_count st ->
  exists tiles,
    designPaletteTiles fuel st = Some (set_tiles tiles st) /\
    forall p, 0 <= p < _tiles_x st * _tiles_y st ->
      let v := rd (_tiles st) p in
      let filter := u8 (rd (_sympal_filter_map st) (v - SF_COUNT)) in
      (v = MASK_TILE \/ v < SF_COUNT -> rd tiles p = v) /\
      (v <> MASK_TILE -> SF_COUNT <= v ->
       (filter <> UNUSED_SYMPAL -> rd tiles p = u8 (_normal_filter_count st + filter)) /\
       (filter = UNUSED_SYMPAL -> rd tiles p = TODO_TILE)).
Proof.
  intros Htiled Hlen Hfx Hfy Hcount. unfold designPaletteTiles.
  destruct (_sympal_filter_count st <? 0) eqn:Hneg; [lia|]. clear Hneg.
  match goal with |- context [for_tiles fuel st ?body ?s] =>
    destruct (for_tiles_returns st b Htiled fuel body s Hfx Hfy) as [[p tiles] Hrun];
    rewrite Hrun;
    pose proof (for_tiles_ind st b Htiled
      (fun (i : Z) (a : Z * list Z) =>
         fst a = i /\ length (snd a) = length (_tiles st) /\
         (forall q, i <= q -> rd (snd a) q = rd (_tiles st) q) /\
         forall q, 0 <= q < i ->
           let v := rd (_tiles st) q in
           let filter := u8 (rd (_sympal_filter_map st) (v - SF_COUNT)) in
           (v = MASK_TILE \/ v < SF_COUNT -> rd (snd a) q = v) /\
           (v <> MASK_TILE -> SF_COUNT <= v ->
            (filter <> UNUSED_SYMPAL ->
             rd (snd a) q = u8 (_normal_filter_count st + filter)) /\
            (filter = UNUSED_SYMPAL -> rd (snd a) q = TODO_TILE)))
      fuel body s (p, tiles) Hrun) as Hind
  end.
  exists tiles. split; [reflexivity|].
  cbv beta in Hind. simpl fst in Hind. simpl snd in Hind.
  destruct Hind as (_ & _ & _ & Hall).
  - split; [reflexivity|]. split; [reflexivity|]. split; [reflexivity|]. intros q Hq. lia.
  - intros kx ky [p0 t0] Hkx Hky (Hp & Hl & Hrest & IH). simpl in Hp, Hl, Hrest, IH.
    subst p0. simpl fst.
    pose proof (cell_index_range (_tiles_x st) (_tiles_y st) kx ky Hkx Hky) as Hrange.
    set (i := kx + ky * _tiles_x st) in *.
    rewrite (Hrest i) by lia.
    set (v := rd (_tiles st) i).
    set (t1 := if v =? MASK_TILE then t0 else _).
    assert (length t1 = length (_tiles st)) as Hl1.
    { unfold t1. destruct (v =? MASK_TILE); [exact Hl|].
      destruct (v >=? SF_COUNT); [|exact Hl].
      destruct (negb _); rewrite length_wr; exact Hl. }
    assert (forall q, q <> i -> rd t1 q = rd t0 q) as Hother.
    { intros q Hq. unfold t1. destruct (v =? MASK_TILE); [reflexivity|].
      destruct (v >=? SF_COUNT); [|reflexivity].
      destruct (negb _); rewrite rd_wr_ne by congruence; reflexivity. }
    simpl snd. split; [reflexivity|]. split; [exact Hl1|].
    split; [intros q Hq; rewrite Hother by lia; apply Hrest; lia|].
    intros q Hq. destruct (Z.eq_dec q i) as [->|Hne].
    + fold v. cbv zeta. unfold t1.
      destruct (v =? MASK_TILE) eqn:Em.
      * apply Z.eqb_eq in Em. split; [intros _; rewrite Hrest by lia; reflexivity|].
        intros Hnm. contradiction.
      * apply Z.eqb_neq in Em. destruct (v >=? SF_COUNT) eqn:Es.
        -- assert (SF_COUNT <= v) as Hge by lia.
           split; [intros [Hm|Hlt]; [contradiction|lia]|]. intros _ _.
           destruct (u8 (rd (_sympal_filter_map st) (v - SF_COUNT)) =? UNUSED_SYMPAL)
             eqn:Eu; simpl negb; cbv iota.
           ++ apply Z.eqb_eq in Eu. split; [intros Hn; contradiction|].
              intros _. apply rd_wr_eq. rewrite Hl. lia.
           ++ apply Z.eqb_neq in Eu. split; [|intros Hn; contradiction].
              intros _. apply rd_wr_eq. rewrite Hl. lia.
        -- assert (v < SF_COUNT) as Hlt by lia.
           split; [intros _; rewrite Hrest by lia; reflexivity|]. intros _ Hge. lia.
    + rewrite Hother by exact Hne. apply IH. lia.
  - exact Hall.
Qed.

(** X2.  designPaletteTiles returns and assigns nothing but the tile
    map: a masked tile and a tile whose value is below SF_COUNT keep
    their value; a tile marked [SF_COUNT + k] receives
    [_normal_filter_count + _sympal_filter_map[k]], or TODO_TILE when
    entry [k] of the map is UNUSED_SYMPAL. *)
Theorem designPaletteTiles_resolves_palette_marks st b fuel :
  tiled st b ->
  Z.of_nat (length (_tiles st)) = _tiles_x st * _tiles_y st ->
  size_x (_params st) < Z.of_nat fuel -> size_y (_params st) < Z.of_nat fuel ->
  0 <= _sympal_filter_count st ->
  exists tiles,
    designPaletteTiles fuel st = Some (set_tiles tiles st) /\
    forall p, 0 <= p < _tiles_x st * _tiles_y st ->
      let v := rd (_tiles st) p in
      let filter := u8 (rd (_sympal_filter_map st) (v - SF_COUNT)) in
      (v = MASK_TILE \/ v < SF_COUNT -> rd tiles p = v) /\
      (v <> MASK_TILE -> SF_COUNT <= v ->
       (filter <> UNUSED_SYMPAL -> rd tiles p = u8 (_normal_filter_count st + filter)) /\
       (filter = UNUSED_SYMPAL -> rd tiles p = TODO_TILE)).
Proof.
  intros Htiled Hlen Hfx Hfy Hcount.
  destruct (designPaletteTiles_pointwise st b fuel Htiled Hlen Hfx Hfy Hcount)
    as (tiles & Hrun & Hall).
  exists tiles. split.
  - exact Hrun.
  - intros p Hp. exact (Hall p Hp).
Qed.


End PaletteTiles.

(** X2 at a tile map [32; 33] with the palette map [1; 255]: the first
    tile becomes filter [4 + 1], the second TODO_TILE. *)
Lemma designPaletteTiles_resolves_palette_marks_witness :
  exists tiles,
    designPaletteTiles 10 st_palette_marks = Some (set_tiles tiles st_palette_marks) /\
    rd tiles 0 = 5 /\ rd tiles 1 = TODO_TILE.
Proof.
  set (st := st_palette_marks).
  assert (size_x (_params st) = 2) as Esx by (vm_compute; reflexivity).
  assert (size_y (_params st) = 1) as Esy by (vm_compute; reflexivity).
  assert (_tiles_x st * _tiles_y st = 2) as Etc by (vm_compute; reflexivity).
  assert (tiled st 0) as Ht.
  { unfold tiled. rewrite Esx, Esy.
    repeat split; try (vm_compute; reflexivity); vm_compute; intros H; discriminate H. }
  assert (Z.of_nat (length (_tiles st)) = _tiles_x st * _tiles_y st) as Hlen
    by (vm_compute; reflexivity).
  assert (size_x (_params st) < Z.of_nat 10) as Hfx by (vm_compute; reflexivity).
  assert (size_y (_params st) < Z.of_nat 10) as Hfy by (vm_compute; reflexivity).
  assert (0 <= _sympal_filter_count st) as Hc by (vm_compute; intros H; discriminate H).
  assert (0 <= 0 < _tiles_x st * _tiles_y st /\ 0 <= 1 < _tiles_x st * _tiles_y st)
    as (H0 & H1) by (rewrite Etc; clearbody st; clear; lia).
  destruct (designPaletteTiles_resolves_palette_marks st 0 10 Ht Hlen Hfx Hfy Hc)
    as (tiles & Hrun & Hall).
  exists tiles. split; [exact Hrun|].
  destruct (Hall 0 H0) as [_ Hfirst]. destruct (Hall 1 H1) as [_ Hsecond].
  cbv zeta in Hfirst, Hsecond.
  assert (rd (_tiles st) 0 = 32) as E0 by (vm_compute; reflexivity).
  assert (rd (_tiles st) 1 = 33) as E1 by (vm_compute; reflexivity).
  rewrite E0 in Hfirst. rewrite E1 in Hsecond.
  split.
  - assert (u8 (_normal_filter_count st + u8 (rd (_sympal_filter_map st) (32 - SF_COUNT)))
            = 5) as <- by (vm_compute; reflexivity).
    apply Hfirst.
    + unfold MASK_TILE. clear. lia.
    + vm_compute. intros H. discriminate H.
    + vm_compute. intros H. discriminate H.
  - apply Hsecond.
    + unfold MASK_TILE. clear. lia.
    + vm_compute. intros H. discriminate H.
    + vm_compute. reflexivity.
Defined.

Section BitAccounting.
Context `{Prim : Primitives}.

Implicit Types (st : MonoWriter).

(** Induction along the chain of inner coders. *)
Lemma writer_chain_ind (P : MonoWriter -> Prop) :
  (forall st, (forall inner, _filter_encoder st = Some inner -> P inner) -> P st) ->
  forall st, P st.
Proof.
  intros H. fix IH 1. intros st. apply H.
  destruct st as [? ? ? ? ? ? ? ? ? ? ? ? ? ? ? ? ? ? ? ? ? ? ? ? ? fe ? ? ? ?].
  simpl. destruct fe as [i|]; intros inner E; [|discriminate].
  injection E as <-. apply IH.
Qed.

Lemma coder_levels_unfold st :
  coder_levels st
  = match _filter_encoder st with
    | Some inner => 1 + coder_levels inner
    | None => 1
    end.
Proof. destruct st; reflexivity. Qed.

(** X4.  The bit count writeTables() returns leaves out, at every coder
    of the chain, the 4-bit field of the palette count and the 5-bit
    field of the filter count: the header is 9 bits longer per coder
    than reported. *)
Theorem writeTables_reports_nine_bits_short_per_coder st :
  emitted_bits (snd (writeTables st))
  = snd (fst (writeTables st)) + 9 * coder_levels st.
Proof.
  induction st as [st IH] using writer_chain_ind.
  rewrite writeTables_unfold, coder_levels_unfold.
  pose proof (tables_encoders_bits st) as Henc.
  unfold tables_tile_size, tables_sympal, tables_normal, tables_chaos.
  rewrite !for_range_emit.
  destruct (tables_encoders st) as [eo tr_enc]. simpl in Henc.
  assert (forall (g : Z -> Z) k l,
            emitted_bits (map (fun f => WriteBits (g f) k) l) = k * Z.of_nat (length l))
    as Hconst by (intros; apply emitted_bits_map_const).
  destruct (_filter_encoder st) as [inner|] eqn:Efe.
  - specialize (IH inner eq_refl).
    destruct (writeTables inner) as [[inner' bits] tr]. simpl in IH.
    destruct (_tile_bits_field_bc st >? 0); cbn iota beta zeta; cbn [fst snd];
      rewrite !emitted_bits_app;
      change (emitted_bits (WriteBit 1 :: tr)) with (1 + emitted_bits tr);
      rewrite IH, Henc, !Hconst; unfold emitted_bits; simpl; lia.
  - destruct (_tile_bits_field_bc st >? 0); cbn iota beta zeta; cbn [fst snd];
      rewrite !emitted_bits_app, Henc, !Hconst; unfold emitted_bits; simpl; lia.
Qed.

End BitAccounting.

Section RowFilterChoice.
Context `{Prim : Primitives}.

Implicit Types (st : MonoWriter).

(** Both halves of the code buffer after the inner loop of one tile row. *)
Lemma row_filter_codes_halves tiles tiles_x num_filters p codes :
  0 <= tiles_x -> 2 * tiles_x <= Z.of_nat (length codes) -> num_filters <= 128 ->
  (forall tx, 0 <= tx < tiles_x ->
     rd tiles (p + tx) <> MASK_TILE /\ 0 <= rd tiles (p + tx) < num_filters) ->
  let r := row_filter_codes tiles tiles_x num_filters (p, codes) in
  fst r = p + tiles_x /\ length (snd r) = length codes /\
  forall tx, 0 <= tx < tiles_x ->
    rd (snd r) tx = rd tiles (p + tx) /\ rd (snd r) (tx + tiles_x) = rd tiles (p + tx).
Proof.
  intros Htx Hlen Hnf Htiles r. unfold r, row_filter_codes.
  apply (for_range_ind
    (fun (i : Z) (pc : Z * list Z) =>
       fst pc = p + i /\ length (snd pc) = length codes /\
       forall tx, 0 <= tx < i ->
         rd (snd pc) tx = rd tiles (p + tx) /\
         rd (snd pc) (tx + tiles_x) = rd tiles (p + tx))); [lia| |].
  - simpl. split; [lia|]. split; [reflexivity|]. intros tx H. lia.
  - intros i [p0 c0] Hi (Hp & Hl & IH). simpl in Hp, Hl, IH. subst p0.
    destruct (Htiles i Hi) as [Hm Hf].
    destruct (rd tiles (p + i) =? MASK_TILE) eqn:Em; [apply Z.eqb_eq in Em; contradiction|].
    simpl negb. cbv iota. simpl fst. simpl snd.
    split; [lia|]. split; [rewrite !length_wr; exact Hl|].
    assert (u8 (rd tiles (p + i) + num_filters - 0) = rd tiles (p + i) + num_filters) as E1.
    { unfold u8. rewrite Z.mod_small by lia. lia. }
    rewrite E1.
    destruct (rd tiles (p + i) + num_filters >=? num_filters) eqn:Ege; [|lia].
    assert (u8 (rd tiles (p + i) + num_filters - num_filters) = rd tiles (p + i)) as E2.
    { unfold u8. rewrite Z.mod_small by lia. lia. }
    rewrite E2.
    intros tx Htxi. destruct (Z.eq_dec tx i) as [->|Hne].
    + split.
      * rewrite rd_wr_ne by lia. apply rd_wr_eq. lia.
      * apply rd_wr_eq. rewrite length_wr. lia.
    + rewrite !rd_wr_ne by lia. apply IH. lia.
Qed.

Lemma slice_halves codes tiles_x :
  (forall tx, 0 <= tx < tiles_x -> rd codes tx = rd codes (tx + tiles_x)) ->
  slice codes 0 tiles_x = slice codes tiles_x tiles_x.
Proof.
  intros H. unfold slice. apply map_ext_in. intros i Hi.
  apply in_seqZ in Hi. rewrite Z.add_0_l, (Z.add_comm tiles_x i). apply H. lia.
Qed.

(** One tile row: RF_NOOP is kept, the candidates being equal. *)
Lemma designRowFilters_row_noop tiles tiles_x num_filters passes ty s :
  0 <= tiles_x -> 2 * tiles_x <= Z.of_nat (length (rd_codes s)) -> num_filters <= 128 ->
  (forall tx, 0 <= tx < tiles_x ->
     rd tiles (rd_p s + tx) <> MASK_TILE /\ 0 <= rd tiles (rd_p s + tx) < num_filters) ->
  let s' := designRowFilters_row tiles tiles_x num_filters passes ty s in
  rd_p s' = rd_p s + tiles_x /\ length (rd_codes s') = length (rd_codes s) /\
  rd_row_filters s' = wr (rd_row_filters s) ty RF_NOOP.
Proof.
  intros Htx Hlen Hnf Htiles s'. unfold s', designRowFilters_row.
  pose proof (row_filter_codes_halves tiles tiles_x num_filters (rd_p s) (rd_codes s)
                Htx Hlen Hnf Htiles) as (Hp & Hl & Hhalves).
  cbv zeta in Hp, Hl, Hhalves.
  destruct (row_filter_codes tiles tiles_x num_filters (rd_p s, rd_codes s)) as [p c].
  simpl in Hp, Hl, Hhalves.
  rewrite <- (slice_halves c tiles_x).
  2:{ intros tx H. destruct (Hhalves tx H) as [-> ->]. reflexivity. }
  match goal with |- context [?e >? ?e] => replace (e >? e) with false
    by (symmetry; rewrite Z.gtb_ltb; apply Z.ltb_irrefl) end.
  simpl. auto.
Qed.

Lemma designRowFilters_pass_noop tiles tiles_x tiles_y num_filters passes s :
  0 <= tiles_x -> 0 <= tiles_y ->
  2 * tiles_x <= Z.of_nat (length (rd_codes s)) -> num_filters <= 128 ->
  tiles_y <= Z.of_nat (length (rd_row_filters s)) ->
  (forall q, rd_p s <= q < rd_p s + tiles_x * tiles_y ->
     rd tiles q <> MASK_TILE /\ 0 <= rd tiles q < num_filters) ->
  let s' :=
    for_range 0 tiles_y
      (fun ty acc => designRowFilters_row tiles tiles_x num_filters passes ty acc) s in
  rd_p s' = rd_p s + tiles_x * tiles_y /\
  length (rd_codes s') = length (rd_codes s) /\
  length (rd_row_filters s') = length (rd_row_filters s) /\
  forall ty, 0 <= ty < tiles_y -> rd (rd_row_filters s') ty = RF_NOOP.
Proof.
  intros Htx Hty Hlen Hnf Hrows Htiles s'. unfold s'.
  assert (let r := for_range 0 tiles_y
            (fun ty acc => designRowFilters_row tiles tiles_x num_filters passes ty acc) s in
          rd_p r = rd_p s + tiles_y * tiles_x /\
          length (rd_codes r) = length (rd_codes s) /\
          length (rd_row_filters r) = length (rd_row_filters s) /\
          forall ty, 0 <= ty < tiles_y -> rd (rd_row_filters r) ty = RF_NOOP) as H.
  { apply (for_range_ind
      (fun (i : Z) (acc : RowDesign) =>
         rd_p acc = rd_p s + i * tiles_x /\
         length (rd_codes acc) = length (rd_codes s) /\
         length (rd_row_filters acc) = length (rd_row_filters s) /\
         forall ty, 0 <= ty < i -> rd (rd_row_filters acc) ty = RF_NOOP)); [lia| |].
    - split; [lia|]. split; [reflexivity|]. split; [reflexivity|]. intros ty H. lia.
    - intros i acc Hi (Hp & Hl & Hr & IH).
      destruct (designRowFilters_row_noop tiles tiles_x num_filters passes i acc)
        as (Hp' & Hl' & Hr'); try assumption; try lia.
      { intros tx Htxi. apply Htiles. rewrite Hp. nia. }
      split; [rewrite Hp', Hp; lia|]. split; [congruence|].
      rewrite Hr'. split; [rewrite length_wr; exact Hr|].
      intros ty Hlt. destruct (Z.eq_dec ty i) as [->|Hne].
      + apply rd_wr_eq. lia.
      + rewrite rd_wr_ne by lia. apply IH. lia. }
  cbv zeta in H. destruct H as (Hp & H). split; [lia|exact H].
Qed.

Lemma designRowFilters_passes_noop tiles tiles_x tiles_y num_filters :
  0 <= tiles_x -> 0 <= tiles_y -> num_filters <= 128 ->
  forall (n passes : nat) s,
    (0 < n)%nat ->
    2 * tiles_x <= Z.of_nat (length (rd_codes s)) ->
    tiles_y <= Z.of_nat (length (rd_row_filters s)) ->
    (forall q, rd_p s <= q < rd_p s + Z.of_nat n * (tiles_x * tiles_y) ->
       rd tiles q <> MASK_TILE /\ 0 <= rd tiles q < num_filters) ->
    forall ty, 0 <= ty < tiles_y ->
      rd (rd_row_filters
            (designRowFilters_passes tiles tiles_x tiles_y num_filters n passes s)) ty
      = RF_NOOP.
Proof.
  intros Htx Hty Hnf. induction n as [|n IH]; intros passes s Hn Hlen Hrows Htiles;
    [lia|].
  simpl designRowFilters_passes.
  set (s0 := {| rd_p := rd_p s; rd_codes := rd_codes s; rd_ee := rd_ee s;
                rd_row_filters := rd_row_filters s; rd_total_entropy := 0 |}).
  assert (0 <= tiles_x * tiles_y) as Hprod by nia.
  destruct (designRowFilters_pass_noop tiles tiles_x tiles_y num_filters passes s0)
    as (Hp & Hl & Hr & Hall); try assumption.
  { intros q Hq. apply Htiles. simpl in Hq. nia. }
  cbv zeta in Hp, Hl, Hr, Hall. simpl in Hp, Hl, Hr.
  destruct n as [|n']; [exact Hall|].
  apply IH; [lia|rewrite Hl; exact Hlen|rewrite Hr; exact Hrows|].
  intros q Hq. apply Htiles. rewrite Hp in Hq. nia.
Qed.

(** X5.  On a tile map without masked tile whose filter ids are below
    the filter count (at most 128), designRowFilters selects RF_NOOP for
    every tile row: [prev] staying 0, the two candidate rows of codes
    are equal and the RF_PREV row is never strictly better. *)
Theorem designRowFilters_selects_noop_without_masked_tiles st :
  0 <= _tiles_x st -> 0 <= _tiles_y st ->
  (0 < MAX_ROW_PASSES)%nat ->
  u16 (_filter_count st) <= 128 ->
  _tiles_y st <= Z.of_nat (length (_tile_row_filters st)) ->
  (forall q, 0 <= q < Z.of_nat MAX_ROW_PASSES * (_tiles_x st * _tiles_y st) ->
     rd (_tiles st) q <> MASK_TILE /\ 0 <= rd (_tiles st) q < u16 (_filter_count st)) ->
  forall ty, 0 <= ty < _tiles_y st ->
    rd (_tile_row_filters (designRowFilters st)) ty = RF_NOOP.
Proof.
  intros Htx Hty Hpass Hnf Hrows Htiles ty Hlt.
  unfold designRowFilters. cbv zeta. simpl _tile_row_filters.
  apply designRowFilters_passes_noop; try assumption.
  simpl. rewrite length_resize by (unfold RF_COUNT; lia). unfold RF_COUNT. lia.
Qed.

End RowFilterChoice.

(** X5 on a row of four tiles on filter 3: RF_NOOP is selected, where
    differences from the previous tile would give the codes 3, 0, 0, 0. *)
Lemma designRowFilters_selects_noop_without_masked_tiles_witness :
  rd (_tile_row_filters (designRowFilters st_row_of_threes)) 0 = RF_NOOP.
Proof.
  set (st := st_row_of_threes).
  assert (_tiles_x st = 4) as Etx by (vm_compute; reflexivity).
  assert (_tiles_y st = 1) as Ety by (vm_compute; reflexivity).
  assert (0 <= _tiles_x st) as Hx by (vm_compute; intros H; discriminate H).
  assert (0 <= _tiles_y st) as Hy by (vm_compute; intros H; discriminate H).
  assert (0 < MAX_ROW_PASSES)%nat as Hp by (vm_compute; constructor).
  assert (u16 (_filter_count st) <= 128) as Hnf by (vm_compute; intros H; discriminate H).
  assert (_tiles_y st <= Z.of_nat (length (_tile_row_filters st))) as Hrows
    by (vm_compute; intros H; discriminate H).
  assert (forall q, 0 <= q < Z.of_nat MAX_ROW_PASSES * (_tiles_x st * _tiles_y st) ->
            rd (_tiles st) q <> MASK_TILE /\
            0 <= rd (_tiles st) q < u16 (_filter_count st)) as Htiles.
  { intros q Hq.
    assert (q = 0 \/ q = 1 \/ q = 2 \/ q = 3) as Hcase.
    { rewrite Etx, Ety in Hq. change (Z.of_nat MAX_ROW_PASSES) with 1 in Hq.
      clearbody st. clear - Hq. lia. }
    destruct Hcase as [-> | [-> | [-> | ->]]];
      (split; [vm_compute; intros H; discriminate H|
               split; vm_compute; [intros H; discriminate H|reflexivity]]). }
  assert (0 <= 0 < _tiles_y st) as H0 by (rewrite Ety; clearbody st; clear; lia).
  exact (designRowFilters_selects_noop_without_masked_tiles st Hx Hy Hp Hnf Hrows Htiles
           0 H0).
Defined.

Section StaleInnerCoder.
Context `{Prim : Primitives} `{Plan : !Planner} `{Tune : Tuning}.

Implicit Types (st : MonoWriter).

Lemma maskTiles_recursion_fields fuel st st' :
  maskTiles fuel st = Some st' -> recursion_fields st' = recursion_fields st.
Proof.
  unfold maskTiles. destruct (for_tiles fuel st _ _) as [[p t]|]; [|discriminate].
  intros [= <-]. reflexivity.
Qed.

Lemma designPaletteFilters_recursion_fields st :
  recursion_fields (designPaletteFilters st) = recursion_fields st.
Proof.
  unfold designPaletteFilters. destruct (plan_designPaletteFilters st) as [[a b] c].
  reflexivity.
Qed.

Lemma designPaletteTiles_recursion_fields fuel st st' :
  designPaletteTiles fuel st = Some st' -> recursion_fields st' = recursion_fields st.
Proof.
  unfold designPaletteTiles. destruct (_ <? 0); [intros [= <-]; reflexivity|].
  destruct (for_tiles fuel st _ _) as [[p t]|]; [|discriminate].
  intros [= <-]. reflexivity.
Qed.

Lemma designTiles_recursion_fields fuel st st' :
  Planning.designTiles fuel st = Some st' ->
  recursion_fields st' = recursion_fields st.
Proof.
  unfold Planning.designTiles. cbv zeta.
  destruct (Planning.designTiles_passes fuel st 0 _) as [s|]; [|discriminate].
  intros [= <-]. reflexivity.
Qed.

Lemma computeResiduals_recursion_fields fuel st st' :
  computeResiduals fuel st = Some st' -> recursion_fields st' = recursion_fields st.
Proof.
  unfold computeResiduals. destruct (for_tiles fuel st _ _) as [[p t]|]; [|discriminate].
  intros [= <-]. reflexivity.
Qed.

Lemma designChaos_recursion_fields st :
  recursion_fields (designChaos st) = recursion_fields st.
Proof.
  unfold designChaos. destruct (designChaos_sweep st) as [[[c ee] be] b]. reflexivity.
Qed.

Lemma initializeEncoders_recursion_fields st :
  recursion_fields (initializeEncoders st) = recursion_fields st.
Proof.
  unfold initializeEncoders. destruct (raster st _ _) as [c e].
  destruct (_filter_encoder st) eqn:E; unfold recursion_fields; simpl; rewrite ?E;
    reflexivity.
Qed.

(** X6.  An iteration of the tile-size loop whose tile count is below
    RECURSE_THRESH_COUNT does not assign the inner coder: the one an
    earlier iteration attached, built for another tile map, is still
    attached when the iteration ends. *)
Theorem process_body_below_threshold_keeps_inner_coder rec fuel bits st st' :
  process_body rec fuel bits st = Some st' ->
  _tiles_count st' < RECURSE_THRESH_COUNT ->
  _filter_encoder st' = _filter_encoder st.
Proof.
  unfold process_body. intros H Hcount. cbv zeta in H.
  match type of H with context [maskTiles fuel ?s] => set (st0 := s) in * end.
  assert (_filter_encoder st0 = _filter_encoder st) as E0 by reflexivity.
  destruct (maskTiles fuel st0) as [sa|] eqn:Ea; simpl in H; [|discriminate].
  destruct (designPaletteTiles fuel (designFilters (designPaletteFilters sa)))
    as [sb|] eqn:Eb; simpl in H; [|discriminate].
  destruct (Planning.designTiles fuel sb) as [sb'|] eqn:Et; simpl in H;
    [|discriminate].
  destruct (computeResiduals fuel sb') as [sc|] eqn:Ec; simpl in H;
    [|discriminate].
  destruct (recurseCompress rec (designRowFilters sc)) as [sd|] eqn:Ed; simpl in H;
    [|discriminate].
  injection H as <-.
  assert (recursion_fields (designRowFilters sc) = recursion_fields st0) as Hpre.
  { change (recursion_fields (designRowFilters sc)) with (recursion_fields sc).
    rewrite (computeResiduals_recursion_fields _ _ _ Ec),
      (designTiles_recursion_fields _ _ _ Et).
    rewrite (designPaletteTiles_recursion_fields _ _ _ Eb).
    change (recursion_fields (designFilters (designPaletteFilters sa)))
      with (recursion_fields (designPaletteFilters sa)).
    rewrite designPaletteFilters_recursion_fields.
    apply (maskTiles_recursion_fields _ _ _ Ea). }
  assert (_tiles_count sd = _tiles_count (designRowFilters sc)) as Hsame.
  { pose proof (recurseCompress_config _ _ _ Ed) as C. unfold config_of in C. congruence. }
  assert (_tiles_count (initializeEncoders (designChaos sd)) = _tiles_count sd) as Hend.
  { pose proof (initializeEncoders_recursion_fields (designChaos sd)) as C.
    rewrite designChaos_recursion_fields in C. unfold recursion_fields in C. congruence. }
  rewrite Hend, Hsame in Hcount.
  rewrite recurseCompress_below_threshold in Ed by exact Hcount. injection Ed as <-.
  pose proof (initializeEncoders_recursion_fields (designChaos (designRowFilters sc))) as C.
  rewrite designChaos_recursion_fields, Hpre in C. unfold recursion_fields in C.
  congruence.
Qed.

End StaleInnerCoder.

(** X6 at the 2x2 input, one tile: the inner coder attached before the
    iteration is attached after it. *)
Lemma process_body_below_threshold_keeps_inner_coder_witness :
  exists st',
    process_body (process 5) 10 1 st_inner_attached = Some st' /\
    _filter_encoder st' = Some MonoWriter_new.
Proof.
  destruct (process_body (process 5) 10 1 st_inner_attached) as [st'|] eqn:E.
  - exists st'. split; [reflexivity|].
    assert (_tiles_count st' < RECURSE_THRESH_COUNT) as Hc.
    { pose proof (process_body_config _ _ _ _ _ E) as C. cbv zeta in C.
      unfold config_of in C.
      assert (_tiles_count st' = 1) as -> by (injection C; intros; assumption).
      reflexivity. }
    exact (process_body_below_threshold_keeps_inner_coder _ _ _ _ _ E Hc).
  - exfalso. revert E. vm_compute. discriminate.
Defined.

Section BreakLoops.

Lemma while_count_break_fold {T} (body : Z -> T -> T * bool) bound :
  forall (c : nat) p s,
    while_count_break c p bound body s
    = break_fold body (seqZ p (Z.min (Z.of_nat c) (bound - p))) s.
Proof.
  induction c as [|c IH]; intros p s; simpl while_count_break.
  - replace (Z.min (Z.of_nat 0) (bound - p)) with (Z.min 0 (bound - p)) by lia.
    rewrite seqZ_nil by lia. reflexivity.
  - destruct (p <? bound) eqn:Hlt.
    + apply Z.ltb_lt in Hlt.
      rewrite (seqZ_cons p (Z.min (Z.of_nat (S c)) (bound - p))) by lia.
      simpl break_fold. destruct (body p s) as [s' go].
      destruct go; [|reflexivity]. rewrite IH. f_equal. f_equal. lia.
    + apply Z.ltb_ge in Hlt. rewrite seqZ_nil by lia. reflexivity.
Qed.

Lemma for_range_break_fold {T} (body : Z -> T -> T * bool) lo hi s :
  for_range_break lo hi body s = break_fold body (seqZ lo (hi - lo)) s.
Proof.
  unfold for_range_break.
  destruct (Z_le_dec (hi - lo) 0) as [Hle|Hgt].
  - rewrite seqZ_nil by lia. replace (Z.to_nat (hi - lo)) with O by lia. reflexivity.
  - rewrite <- (Z2Nat.id (hi - lo)) at 2 by lia.
    generalize (Z.to_nat (hi - lo)). intros n. clear Hgt. revert lo s.
    induction n as [|n IH]; intros lo s; [reflexivity|].
    rewrite seqZ_cons by lia. simpl. destruct (body lo s) as [s' go].
    destruct go; [|reflexivity]. rewrite IH. f_equal. f_equal. lia.
Qed.

(** An invariant of a loop with [break]: it holds of what the loop has
    gone through, whether the loop ran to its end or not. *)
Lemma break_fold_ind {A T} (P : list A -> T -> Prop) (Q : T -> Prop)
    (body : A -> T -> T * bool) (l : list A) (s : T) :
  P [] s ->
  (forall done a acc, P done acc ->
     (exists rest, l = done ++ a :: rest) ->
     (snd (body a acc) = true -> P (done ++ [a]) (fst (body a acc))) /\
     (snd (body a acc) = false -> Q (fst (body a acc)))) ->
  P l (break_fold body l s) \/ Q (break_fold body l s).
Proof.
  intros H0 Hstep.
  assert (forall todo done acc, l = done ++ todo -> P done acc ->
            P l (break_fold body todo acc) \/ Q (break_fold body todo acc)) as H.
  { induction todo as [|a todo IH]; intros done acc Hl HP.
    - left. rewrite app_nil_r in Hl. subst done. exact HP.
    - simpl. destruct (Hstep done a acc HP) as [Hgo Hstop]; [exists todo; exact Hl|].
      destruct (body a acc) as [s' go]. simpl in Hgo, Hstop. destruct go.
      + apply (IH (done ++ [a])); [rewrite <- app_assoc; exact Hl|auto].
      + right. auto. }
  apply (H l [] s); [reflexivity|exact H0].
Qed.

End BreakLoops.

Section PaletteFilters.
Context `{Prim : Primitives} `{Tune : Tuning}.

Implicit Types (st : MonoWriter).

(** ** The uniformity scan of designPaletteFilters *)

Lemma scan_cell_go st c s s' :
  fst (fst s) = true -> scan_cell st c s = (s', true) -> fst (fst s') = true.
Proof.
  destruct s as [[u seen] v]. simpl. intros ->. unfold scan_cell.
  destruct (negb (mask _ _ _)); [|intros [= <-]; reflexivity].
  destruct (negb seen); [intros [= <-]; reflexivity|].
  destruct (negb (_ =? v)); [discriminate|intros [= <-]; reflexivity].
Qed.

Lemma scan_cell_stop st c s s' :
  scan_cell st c s = (s', false) -> fst (fst s') = false.
Proof.
  destruct s as [[u seen] v]. unfold scan_cell.
  destruct (negb (mask _ _ _)); [|discriminate].
  destruct (negb seen); [discriminate|].
  destruct (negb (_ =? v)); [intros [= <-]; reflexivity|discriminate].
Qed.

Lemma scan_app st (l1 l2 : list (Z * Z)) :
  forall s, fst (fst s) = true ->
    break_fold (scan_cell st) (l1 ++ l2) s
    = let s' := break_fold (scan_cell st) l1 s in
      if fst (fst s') then break_fold (scan_cell st) l2 s' else s'.
Proof.
  induction l1 as [|c l1 IH]; intros s Hs; simpl.
  - rewrite Hs. reflexivity.
  - destruct (scan_cell st c s) as [s' go] eqn:E. destruct go.
    + apply IH. eapply scan_cell_go; eauto.
    + rewrite (scan_cell_stop _ _ _ _ E). reflexivity.
Qed.

Lemma scan_rows st (cols : Z -> list (Z * Z)) (rows : list Z) :
  forall s, fst (fst s) = true ->
    break_fold
      (fun py s => let s' := break_fold (scan_cell st) (cols py) s in (s', fst (fst s')))
      rows s
    = break_fold (scan_cell st) (flat_map cols rows) s.
Proof.
  induction rows as [|py rows IH]; intros s Hs; simpl; [reflexivity|].
  rewrite scan_app by exact Hs. cbv zeta.
  destruct (fst (fst (break_fold (scan_cell st) (cols py) s))) eqn:E; [|reflexivity].
  apply IH. exact E.
Qed.

Lemma break_fold_ext {A T} (f g : A -> T -> T * bool) (l : list A) :
  (forall a s, In a l -> f a s = g a s) ->
  forall s, break_fold f l s = break_fold g l s.
Proof.
  induction l as [|a l IH]; intros H s; simpl; [reflexivity|].
  rewrite (H a s) by (left; reflexivity). destruct (g a s) as [s' go].
  destruct go; [|reflexivity]. apply IH. intros a' s0 Hin. apply H. right. exact Hin.
Qed.

Lemma break_fold_map {A B T} (f : B -> T -> T * bool) (g : A -> B) (l : list A) :
  forall s, break_fold f (map g l) s = break_fold (fun a => f (g a)) l s.
Proof.
  induction l as [|a l IH]; intros s; simpl; [reflexivity|].
  destruct (f (g a) s) as [s' go]. destruct go; [apply IH|reflexivity].
Qed.

(** The loops of the scan go through the elements of the tile. *)
Lemma uniform_scan_cells st b kx ky :
  tiled st b -> 0 <= kx -> 0 <= ky ->
  Planning.uniform_scan st (kx * 2 ^ b) (ky * 2 ^ b)
  = break_fold (scan_cell st) (tile_cells st b kx ky) (true, false, 0).
Proof.
  intros Htiled Hkx Hky.
  pose proof Htiled as (Hb & _ & _ & Hsx & Hsy & Hx0 & Hxw & Hy0 & Hyw & Htx & Hty).
  pose proof (ts_pos st b Htiled) as Hts.
  unfold Planning.uniform_scan, tile_cells, tile_span. cbv zeta.
  rewrite Hsx, Hsy, (u16_sx st b Htiled), (u16_sy st b Htiled).
  rewrite while_count_break_fold, Z2Nat.id by lia.
  rewrite <- scan_rows by reflexivity.
  apply break_fold_ext. intros py s _.
  rewrite while_count_break_fold, Z2Nat.id, break_fold_map by lia.
  reflexivity.
Qed.

Lemma scan_seen st (l : list (Z * Z)) v :
  break_fold (scan_cell st) l (true, true, v)
  = (forallb (fun c => cell_value st (fst c) (snd c) =? v)
       (List.filter (fun c => negb (mask (_params st) (fst c) (snd c))) l), true, v).
Proof.
  induction l as [|c l IH]; [reflexivity|].
  cbn [break_fold List.filter]. unfold scan_cell at 1.
  destruct (negb (mask (_params st) (fst c) (snd c))) eqn:Em; [|exact IH].
  cbn [negb forallb].
  destruct (cell_value st (fst c) (snd c) =? v) eqn:Ev; cbn [negb andb];
    [exact IH|reflexivity].
Qed.

Lemma scan_unseen st (l : list (Z * Z)) :
  break_fold (scan_cell st) l (true, false, 0)
  = match List.filter (fun c => negb (mask (_params st) (fst c) (snd c))) l with
    | [] => (true, false, 0)
    | c :: rest =>
        (forallb (fun c' => cell_value st (fst c') (snd c') =? cell_value st (fst c) (snd c))
           (c :: rest), true, cell_value st (fst c) (snd c))
    end.
Proof.
  induction l as [|c l IH]; [reflexivity|].
  cbn [break_fold List.filter]. unfold scan_cell at 1.
  destruct (negb (mask (_params st) (fst c) (snd c))) eqn:Em; [|exact IH].
  cbn [negb forallb]. rewrite scan_seen, Z.eqb_refl. reflexivity.
Qed.

(** What the scan of a tile finds. *)
Lemma uniform_scan_spec st b kx ky :
  tiled st b -> 0 <= kx -> 0 <= ky ->
  let r := Planning.uniform_scan st (kx * 2 ^ b) (ky * 2 ^ b) in
  match tile_uniform_value st b kx ky with
  | Some w => fst (fst r) = true /\ snd r = w
  | None => fst (fst r) = false
  end.
Proof.
  intros Htiled Hkx Hky. cbv zeta. rewrite uniform_scan_cells by assumption.
  rewrite scan_unseen. unfold tile_uniform_value, tile_holds, unmasked_cells.
  destruct (List.filter _ (tile_cells st b kx ky)) as [|c rest] eqn:Ef; [split; reflexivity|].
  destruct (forallb _ (c :: rest)) eqn:Eh; [split; reflexivity|reflexivity].
Qed.

(** ** The histogram *)

Lemma tile_of_index tx kx ky :
  0 <= kx < tx -> 0 <= ky ->
  (kx + ky * tx) mod tx = kx /\ (kx + ky * tx) / tx = ky.
Proof.
  intros Hkx Hky. split.
  - rewrite Z.mod_add by lia. apply Z.mod_small. lia.
  - rewrite Z.div_add by lia. rewrite Z.div_small by lia. lia.
Qed.

Lemma seqZ_snoc (n : Z) : 0 <= n -> seqZ 0 (n + 1) = seqZ 0 n ++ [n].
Proof. intros Hn. rewrite seqZ_app by lia. f_equal. Qed.

Lemma rd_replicate_0 (n : nat) (v : Z) : rd (replicate n 0) v = 0.
Proof.
  unfold rd. destruct (0 <=? v); [|reflexivity].
  generalize (Z.to_nat v). induction n as [|n IH]; intros [|k]; simpl; auto.
Qed.

Lemma uniform_histogram_counts st b fuel hist :
  tiled st b -> 0 <= MAX_SYMS ->
  Planning.uniform_histogram fuel st = Some hist ->
  forall v, 0 <= v < MAX_SYMS -> rd hist v = tiles_counted_for st b v.
Proof.
  intros Htiled Hsyms Hrun.
  pose proof Htiled as (Hb & _ & _ & Hsx & Hsy & Hx0 & Hxw & Hy0 & Hyw & Htx & Hty).
  pose proof (ts_pos st b Htiled) as Hts.
  pose proof (tiles_along b (size_x (_params st)) Hb Hx0 Hxw) as [_ Htxr].
  pose proof (tiles_along b (size_y (_params st)) Hb Hy0 Hyw) as [_ Htyr].
  rewrite <- Htx in Htxr. rewrite <- Hty in Htyr.
  unfold Planning.uniform_histogram in Hrun.
  match type of Hrun with context [for_tiles fuel st ?body ?s] =>
    destruct (for_tiles fuel st body s) as [[p h]|] eqn:Eloops; [|discriminate];
    pose proof (for_tiles_ind st b Htiled
      (fun (i : Z) (a : Z * list Z) =>
         fst a = i /\ Z.of_nat (length (snd a)) = MAX_SYMS /\
         forall v, 0 <= v < MAX_SYMS ->
           rd (snd a) v = Z.of_nat (length (List.filter (counted_for st b v) (seqZ 0 i))))
      fuel body s (p, h) Eloops) as Hind
  end.
  injection Hrun as ->. cbv beta in Hind. simpl fst in Hind. simpl snd in Hind.
  destruct Hind as (_ & _ & Hall); [| |exact Hall].
  - split; [reflexivity|]. split; [rewrite length_replicate; lia|].
    intros v Hv. simpl. apply rd_replicate_0.
  - intros kx ky [p0 h0] Hkx Hky (Hp & Hl & IH). simpl in Hp, Hl, IH. subst p0.
    pose proof (cell_index_range (_tiles_x st) (_tiles_y st) kx ky Hkx Hky) as Hrange.
    destruct (tile_of_index (_tiles_x st) kx ky Hkx ltac:(lia)) as [Emod Ediv].
    set (i := kx + ky * _tiles_x st) in *.
    assert (forall v, length (List.filter (counted_for st b v) (seqZ 0 (i + 1)))
                      = (length (List.filter (counted_for st b v) (seqZ 0 i))
                         + (if counted_for st b v i then 1 else 0))%nat) as Hsnoc.
    { intros v. rewrite seqZ_snoc by lia. rewrite List.filter_app, length_app. simpl.
      destruct (counted_for st b v i); reflexivity. }
    assert (forall v, Z.of_nat (length (List.filter (counted_for st b v) (seqZ 0 i))) <= i)
      as Hbound.
    { intros v. pose proof (List.filter_length_le (counted_for st b v) (seqZ 0 i)) as Hle.
      rewrite length_seqZ in Hle. lia. }
    destruct (rd (_tiles st) i =? MASK_TILE) eqn:Em.
    + simpl fst. simpl snd. split; [reflexivity|]. split; [exact Hl|].
      intros v Hv. rewrite Hsnoc, (IH v Hv). unfold counted_for. rewrite Em. simpl. lia.
    + pose proof (uniform_scan_spec st b kx ky Htiled ltac:(lia) ltac:(lia)) as Hscan.
      cbv zeta in Hscan.
      destruct (Planning.uniform_scan st (kx * 2 ^ b) (ky * 2 ^ b)) as [[u seen] w].
      simpl fst. simpl snd. split; [reflexivity|].
      destruct (tile_uniform_value st b kx ky) as [w'|] eqn:Eu; simpl in Hscan.
      * destruct Hscan as [-> ->]. split; [rewrite length_wr; exact Hl|].
        intros v Hv. rewrite Hsnoc. unfold counted_for at 2.
        rewrite Em, Emod, Ediv, Eu. simpl negb. simpl andb.
        destruct (Z.eq_dec w' v) as [->|Hne].
        -- rewrite Z.eqb_refl. rewrite rd_wr_eq by lia. rewrite (IH v Hv).
           pose proof (Hbound v). unfold u32. rewrite Z.mod_small by nia. lia.
        -- rewrite rd_wr_ne by exact Hne. rewrite (IH v Hv).
           destruct (w' =? v) eqn:E; [apply Z.eqb_eq in E; contradiction|]. lia.
      * subst u. split; [exact Hl|].
        intros v Hv. rewrite Hsnoc, (IH v Hv). unfold counted_for.
        rewrite Em, Emod, Ediv, Eu. simpl. lia.
Qed.

(** ** The selection *)

Lemma select_sympal_picks hist thresh :
  forall (l : list Z) sympal count,
    0 <= count < MAX_PALETTE -> MAX_PALETTE <= Z.of_nat (length sympal) ->
    let picks := List.filter (fun sym => rd hist sym >? thresh) l in
    let r :=
      break_fold
        (fun sym '(sympal, sympal_count) =>
           let coverage := rd hist sym in
           if coverage >? thresh then
             let sympal := wr sympal sympal_count (u8 sym) in
             let sympal_count := sympal_count + 1 in
             ((sympal, sympal_count), negb (sympal_count >=? MAX_PALETTE))
           else ((sympal, sympal_count), true))
        l (sympal, count) in
    snd r = Z.min (count + Z.of_nat (length picks)) MAX_PALETTE /\
    length (fst r) = length sympal /\
    (forall j, 0 <= j < count -> rd (fst r) j = rd sympal j) /\
    (forall j, count <= j < snd r ->
       rd (fst r) j = u8 (nth (Z.to_nat (j - count)) picks 0)).
Proof.
  induction l as [|sym l IH]; intros sympal count Hc Hlen.
  - simpl. split; [lia|]. split; [reflexivity|]. split; [auto|]. intros j Hj. lia.
  - cbn [List.filter break_fold]. cbv zeta.
    destruct (rd hist sym >? thresh) eqn:Ep.
    + destruct (count + 1 >=? MAX_PALETTE) eqn:Efull; cbn [negb].
      * cbn [fst snd length]. split; [lia|]. split; [apply length_wr|].
        split; [intros j Hj; apply rd_wr_ne; lia|].
        intros j Hj. replace j with count by lia.
        rewrite Z.sub_diag. simpl nth. apply rd_wr_eq. lia.
      * specialize (IH (wr sympal count (u8 sym)) (count + 1) ltac:(lia)
                      ltac:(rewrite length_wr; exact Hlen)).
        cbv zeta in IH. destruct IH as (Hn & Hl & Hold & Hnew).
        cbn [length]. split; [rewrite Hn; lia|].
        split; [rewrite Hl; apply length_wr|].
        split.
        -- intros j Hj. rewrite Hold by lia. apply rd_wr_ne. lia.
        -- intros j Hj. destruct (Z.eq_dec j count) as [->|Hne].
           ++ rewrite Hold by lia. rewrite Z.sub_diag. simpl nth. apply rd_wr_eq. lia.
           ++ rewrite Hnew by lia.
              replace (Z.to_nat (j - count)) with (S (Z.to_nat (j - (count + 1)))) by lia.
              reflexivity.
    + apply IH; assumption.
Qed.

Lemma sympal_map_unused (m : list Z) count :
  0 <= count <= Z.of_nat (length m) ->
  forall i, 0 <= i < count ->
    rd (for_range 0 count (fun ii m => wr m ii UNUSED_SYMPAL) m) i = UNUSED_SYMPAL.
Proof.
  intros Hc.
  assert (let r := for_range 0 count (fun ii m => wr m ii UNUSED_SYMPAL) m in
          length r = length m /\ forall i, 0 <= i < count -> rd r i = UNUSED_SYMPAL) as H.
  { apply (for_range_ind
      (fun (k : Z) (a : list Z) =>
         length a = length m /\ forall i, 0 <= i < k -> rd a i = UNUSED_SYMPAL));
      [lia| |].
    - split; [reflexivity|]. intros i Hi. lia.
    - intros k a Hk [Hl IH]. split; [rewrite length_wr; exact Hl|].
      intros i Hi. destruct (Z.eq_dec i k) as [->|Hne].
      + apply rd_wr_eq. lia.
      + rewrite rd_wr_ne by lia. apply IH. lia. }
  exact (proj2 H).
Qed.

(** What designPaletteFilters leaves in the palette. *)
Lemma designPaletteFilters_run st b fuel :
  tiled st b ->
  size_x (_params st) < Z.of_nat fuel -> size_y (_params st) < Z.of_nat fuel ->
  1 <= MAX_PALETTE ->
  MAX_PALETTE <= Z.of_nat (length (_sympal st)) ->
  MAX_PALETTE <= Z.of_nat (length (_sympal_filter_map st)) ->
  num_syms (_params st) <= MAX_SYMS ->
  let picks :=
    List.filter
      (fun v => tiles_counted_for st b v >? sympal_thresh_tiles (_tiles_count st))
      (seqZ 0 (num_syms (_params st))) in
  let count := Z.min (Z.of_nat (length picks)) MAX_PALETTE in
  exists sympal sympal_filter_map,
    Planning.designPaletteFilters fuel st
    = Some (set_sympal_filter_count count
              (set_sympal_filter_map sympal_filter_map (set_sympal sympal st))) /\
    forall i, 0 <= i < count ->
      rd sympal i = u8 (nth (Z.to_nat i) picks 0) /\
      rd sympal_filter_map i = UNUSED_SYMPAL.
Proof.
  intros Htiled Hfx Hfy Hmp Hls Hlm Hns picks count.
  unfold Planning.designPaletteFilters.
  destruct (Planning.uniform_histogram fuel st) as [hist|] eqn:Eh.
  2:{ exfalso. unfold Planning.uniform_histogram in Eh.
      match type of Eh with context [for_tiles fuel st ?body ?s] =>
        destruct (for_tiles_returns st b Htiled fuel body s Hfx Hfy) as [[p h] Hrun];
        rewrite Hrun in Eh end.
      discriminate. }
  simpl. unfold Planning.select_sympal. rewrite for_range_break_fold, Z.sub_0_r.
  pose proof (select_sympal_picks hist (sympal_thresh_tiles (_tiles_count st))
                (seqZ 0 (num_syms (_params st))) (_sympal st) 0 ltac:(lia) Hls)
    as Hsel.
  cbv zeta in Hsel.
  assert (List.filter
            (fun sym => rd hist sym >? sympal_thresh_tiles (_tiles_count st))
            (seqZ 0 (num_syms (_params st))) = picks) as Epicks.
  { unfold picks. apply List.filter_ext_in. intros v Hv. apply in_seqZ in Hv.
    rewrite (uniform_histogram_counts st b fuel hist Htiled ltac:(lia) Eh) by lia.
    reflexivity. }
  rewrite Epicks in Hsel.
  match type of Hsel with context [break_fold ?f ?l ?s] =>
    destruct (break_fold f l s) as [sympal n] eqn:Er end.
  simpl in Hsel. destruct Hsel as (Hn & Hl & _ & Hnew).
  rewrite Z.add_0_l in Hn. fold count in Hn. subst n.
  eexists. eexists. split; [reflexivity|].
  intros i Hi. split.
  - rewrite Hnew by lia. rewrite Z.sub_0_r. reflexivity.
  - apply sympal_map_unused; lia.
Qed.

(** X7.  designPaletteFilters returns and assigns the palette, its map
    and its count only.  The palette holds, in increasing order, the
    values below [num_syms] for which the number of tiles that are not
    MASK_TILE and whose unmasked elements all hold the value exceeds the
    threshold, the first MAX_PALETTE of them at most; the map entry of
    each is UNUSED_SYMPAL. *)
Theorem designPaletteFilters_selects_frequent_uniform_values st b fuel :
  tiled st b ->
  size_x (_params st) < Z.of_nat fuel -> size_y (_params st) < Z.of_nat fuel ->
  1 <= MAX_PALETTE ->
  MAX_PALETTE <= Z.of_nat (length (_sympal st)) ->
  MAX_PALETTE <= Z.of_nat (length (_sympal_filter_map st)) ->
  num_syms (_params st) <= MAX_SYMS ->
  let picks :=
    List.filter
      (fun v => tiles_counted_for st b v >? sympal_thresh_tiles (_tiles_count st))
      (seqZ 0 (num_syms (_params st))) in
  let count := Z.min (Z.of_nat (length picks)) MAX_PALETTE in
  exists sympal sympal_filter_map,
    Planning.designPaletteFilters fuel st
    = Some (set_sympal_filter_count count
              (set_sympal_filter_map sympal_filter_map (set_sympal sympal st))) /\
    forall i, 0 <= i < count ->
      rd sympal i = u8 (nth (Z.to_nat i) picks 0) /\
      rd sympal_filter_map i = UNUSED_SYMPAL.
Proof.
  intros Htiled Hfx Hfy Hmp Hls Hlm Hns picks count.
  destruct (designPaletteFilters_run st b fuel Htiled Hfx Hfy Hmp Hls Hlm Hns)
    as (sympal & sympal_filter_map & Hrun & Hall).
  exists sympal, sympal_filter_map. split.
  - exact Hrun.
  - intros i Hi. exact (Hall i Hi).
Qed.


End PaletteFilters.

(** X7 on the 4x1 input [3; 3; 3; 1] with 1x1 tiles and a threshold of
    a quarter of the tiles: three tiles hold 3, more than one, and the
    palette is [3]. *)
Lemma designPaletteFilters_selects_frequent_uniform_values_witness :
  exists sympal sympal_filter_map,
    Planning.designPaletteFilters 10 st_palette_input
    = Some (set_sympal_filter_count 1
              (set_sympal_filter_map sympal_filter_map
                 (set_sympal sympal st_palette_input))) /\
    rd sympal 0 = 3 /\ rd sympal_filter_map 0 = UNUSED_SYMPAL.
Proof.
  set (st := st_palette_input).
  assert (size_x (_params st) = 4) as Esx by (vm_compute; reflexivity).
  assert (size_y (_params st) = 1) as Esy by (vm_compute; reflexivity).
  assert (tiled st 0) as Ht.
  { unfold tiled. rewrite Esx, Esy.
    repeat split; try (vm_compute; reflexivity); vm_compute; intros H; discriminate H. }
  assert (size_x (_params st) < Z.of_nat 10) as Hfx by (vm_compute; reflexivity).
  assert (size_y (_params st) < Z.of_nat 10) as Hfy by (vm_compute; reflexivity).
  assert (1 <= MAX_PALETTE) as H1 by (vm_compute; intros H; discriminate H).
  assert (MAX_PALETTE <= Z.of_nat (length (_sympal st))) as H2
    by (vm_compute; intros H; discriminate H).
  assert (MAX_PALETTE <= Z.of_nat (length (_sympal_filter_map st))) as H3
    by (vm_compute; intros H; discriminate H).
  assert (num_syms (_params st) <= MAX_SYMS) as H4
    by (vm_compute; intros H; discriminate H).
  pose proof (designPaletteFilters_selects_frequent_uniform_values st 0 10
                Ht Hfx Hfy H1 H2 H3 H4) as H.
  cbv zeta in H.
  match type of H with context [List.filter ?f ?l] =>
    assert (List.filter f l = [3]) as E by (vm_compute; reflexivity); rewrite E in H end.
  change (Z.min (Z.of_nat (length [3])) MAX_PALETTE) with 1 in H.
  destruct H as (sympal & map & Hrun & Hall).
  exists sympal, map. split; [exact Hrun|].
  assert (0 <= 0 < 1) as H0 by (clear; lia).
  destruct (Hall 0 H0) as [Hs Hm]. split; [exact Hs|exact Hm].
Defined.

Section DesignFilters.
Context `{Prim : Primitives} `{Tune : Tuning}.

Implicit Types (st : MonoWriter).

(** ** The uniformity test of designFilters *)

Lemma note_seen st (l : list (Z * Z)) :
  forall u v,
    fold_left (fun s c => note_cell st c s) l (u, true, v)
    = (u && forallb (fun c => cell_value st (fst c) (snd c) =? v)
              (List.filter (fun c => negb (mask (_params st) (fst c) (snd c))) l),
       true, v).
Proof.
  induction l as [|c l IH]; intros u v; [simpl; rewrite andb_true_r; reflexivity|].
  cbn [fold_left List.filter]. unfold note_cell at 2.
  destruct (negb (mask (_params st) (fst c) (snd c))) eqn:Em; [|apply IH].
  cbn [negb forallb].
  destruct (cell_value st (fst c) (snd c) =? v) eqn:Ev; cbn [negb andb]; rewrite IH.
  - reflexivity.
  - rewrite andb_false_r. reflexivity.
Qed.

Lemma note_unseen st (l : list (Z * Z)) :
  fold_left (fun s c => note_cell st c s) l (true, false, 0)
  = match List.filter (fun c => negb (mask (_params st) (fst c) (snd c))) l with
    | [] => (true, false, 0)
    | c :: rest =>
        (forallb (fun c' => cell_value st (fst c') (snd c') =? cell_value st (fst c) (snd c))
           (c :: rest), true, cell_value st (fst c) (snd c))
    end.
Proof.
  induction l as [|c l IH]; [reflexivity|].
  cbn [fold_left List.filter]. unfold note_cell at 2.
  destruct (negb (mask (_params st) (fst c) (snd c))) eqn:Em; [|exact IH].
  cbn [negb forallb]. rewrite note_seen, Z.eqb_refl. reflexivity.
Qed.

(** The scorer does not bear on the uniformity test. *)
Lemma score_cells_note st (sx num_syms : Z) (l : list (Z * Z)) :
  sx = size_x (_params st) ->
  forall s scores,
    fst (fold_left
           (fun acc c =>
              (fun px py '(uniform, seen, uniform_value, scores) =>
                 if negb (mask (_params st) px py) then
                   let value := rd (data (_params st)) (px + py * sx) in
                   let '(uniform, seen, uniform_value) :=
                     if negb seen then (uniform, true, value)
                     else if negb (value =? uniform_value)
                          then (false, seen, uniform_value)
                          else (uniform, seen, uniform_value) in
                   let scores :=
                     for_range 0 SF_COUNT
                       (fun f scores =>
                          let prediction :=
                            u8 (safe (rd_or no_filter MONO_FILTERS f)
                                  (data (_params st)) (num_syms - 1) px py sx) in
                          let residual := value + num_syms - prediction in
                          let residual :=
                            if residual >=? num_syms then residual - num_syms
                            else residual in
                          let score := u8 (ResidualScore residual num_syms) in
                          fs_add scores f score)
                       scores in
                   (uniform, seen, uniform_value, scores)
                 else (uniform, seen, uniform_value, scores))
                (fst c) (snd c) acc)
           l (s, scores))
    = fold_left (fun s c => note_cell st c s) l s.
Proof.
  intros ->. induction l as [|c l IH]; intros [[u seen] v] scores; [reflexivity|].
  cbn [fold_left]. unfold note_cell at 2. unfold cell_value.
  destruct (negb (mask (_params st) (fst c) (snd c))); [|apply IH].
  destruct (negb seen); [apply IH|].
  destruct (negb (_ =? v)); apply IH.
Qed.

Lemma score_tile_uniform st b kx ky scores :
  tiled st b -> 0 <= kx -> 0 <= ky ->
  let r := Planning.score_tile st (kx * 2 ^ b) (ky * 2 ^ b) scores in
  match tile_uniform_value st b kx ky with
  | Some w => fst (fst (fst r)) = true /\ snd (fst r) = w
  | None => fst (fst (fst r)) = false
  end.
Proof.
  intros Htiled Hkx Hky. cbv zeta. unfold Planning.score_tile. cbv zeta.
  rewrite (for_tile_cells_fold st b Htiled) by assumption.
  set (r := fold_left _ (tile_cells st b kx ky) _).
  assert (fst r = fold_left (fun s c => note_cell st c s) (tile_cells st b kx ky)
                    (true, false, 0)) as E.
  { unfold r.
    apply (score_cells_note st (u16 (size_x (_params st))) (u16 (num_syms (_params st)))).
    apply (u16_sx st b Htiled). }
  destruct r as [[[u seen] v] sc]. cbn [fst] in E. rewrite note_unseen in E.
  unfold tile_uniform_value, tile_holds, unmasked_cells. cbn [fst snd].
  destruct (List.filter _ (tile_cells st b kx ky)) as [|c rest].
  - injection E as -> _ ->. split; reflexivity.
  - injection E as Hu _ Hv. cbn [forallb]. rewrite Hu, Hv.
    destruct (_ && forallb _ rest); [split; reflexivity|reflexivity].
Qed.

(** ** The palette mark of a uniform tile *)

Lemma award_sympal_mark st p v awards tiles :
  snd (Planning.award_sympal st p v awards tiles)
  = match first_sympal st v with
    | Some f => wr tiles p (u8 (SF_COUNT + f))
    | None => tiles
    end.
Proof.
  unfold Planning.award_sympal, first_sympal.
  rewrite for_range_break_fold, Z.sub_0_r.
  generalize 0 at 3. generalize awards.
  induction (seqZ 0 (_sympal_filter_count st)) as [|f l IH]; intros aw off;
    [reflexivity|].
  cbn [break_fold find].
  destruct (rd (_sympal st) f =? v); [reflexivity|apply IH].
Qed.

Lemma find_first_sympal st v f :
  first_sympal st v = Some f ->
  0 <= f < _sympal_filter_count st /\ rd (_sympal st) f = v.
Proof.
  unfold first_sympal. intros H. apply find_some in H as [Hin He].
  apply in_seqZ in Hin. apply Z.eqb_eq in He. split; [lia|exact He].
Qed.

(** The value designFilters leaves in a tile of the grid. *)
Lemma designFilters_tile_mark st b kx ky p tiles scores awards :
  tiled st b -> 0 <= kx -> 0 <= ky ->
  let r := Planning.designFilters_tile st (kx * 2 ^ b) (ky * 2 ^ b)
             (p, tiles, scores, awards) in
  fst (fst (fst r)) = p + 1 /\
  snd (fst (fst r))
  = if rd tiles p =? MASK_TILE then tiles
    else match tile_uniform_value st b kx ky with
         | Some v =>
             match first_sympal st v with
             | Some f => wr tiles p (u8 (SF_COUNT + f))
             | None => tiles
             end
         | None => tiles
         end.
Proof.
  intros Htiled Hkx Hky. cbv zeta. unfold Planning.designFilters_tile.
  destruct (rd tiles p =? MASK_TILE); [split; reflexivity|].
  pose proof (score_tile_uniform st b kx ky (fs_reset scores) Htiled Hkx Hky) as Hs.
  cbv zeta in Hs.
  destruct (Planning.score_tile st (kx * 2 ^ b) (ky * 2 ^ b) (fs_reset scores))
    as [[[u seen] w] sc].
  simpl in Hs.
  destruct (tile_uniform_value st b kx ky) as [v|].
  - destruct Hs as [-> ->].
    pose proof (award_sympal_mark st p v awards tiles) as Ha.
    destruct (Planning.award_sympal st p v awards tiles) as [[off aw] t'].
    simpl in Ha. subst t'. split; reflexivity.
  - subst u. split; reflexivity.
Qed.

(** ** The choice of the filters *)

Lemma rd_wr_cases (a : list Z) i j v :
  rd (wr a i v) j = v \/ rd (wr a i v) j = rd a j.
Proof.
  destruct (Z.eq_dec i j) as [->|Hne]; [|right; apply rd_wr_ne; exact Hne].
  unfold rd, wr. destruct (0 <=? j); [|right; reflexivity].
  destruct (lt_dec (Z.to_nat j) (length a)) as [Hlt|Hge].
  - left. apply nth_lookup_Some with (d := 0).
    apply list_lookup_insert_eq. exact Hlt.
  - right. rewrite list_insert_ge by lia. reflexivity.
Qed.

Lemma choose_filter_ok top thresh ii count0 s :
  selection_ok count0 s ->
  let r := Planning.choose_filter top thresh ii s in
  selection_ok count0 (fst r) /\
  (snd r = true ->
   Planning.fsel_filters_set (fst r) = Planning.fsel_filters_set s \/
   Planning.fsel_filters_set (fst r) < MAX_FILTERS) /\
  Planning.fsel_filters_set (fst r) <= Planning.fsel_filters_set s + 1 /\
  (Planning.fsel_filters_set (fst r) = Planning.fsel_filters_set s \/
   Planning.fsel_filters_set s < Planning.fsel_filters_set (fst r)).
Proof.
  intros (Hsum & Hn & Hs & Hmap). cbv zeta. unfold Planning.choose_filter. cbv zeta.
  destruct (fst (rd_or (0, 0) top ii) >=? SF_FIXED) eqn:Efix.
  - destruct (fst (rd_or (0, 0) top ii) >=? SF_COUNT) eqn:Epal; cbn [Planning.fsel_filters_set].
    + match goal with |- context [if ?c then _ else _] => destruct c eqn:Efull end;
        cbn [fst snd Planning.fsel_filters_set]; unfold selection_ok;
        cbn [Planning.fsel_filters_set Planning.fsel_normal_f Planning.fsel_sympal_f
             Planning.fsel_map];
        (split; [split; [lia|]; split; [lia|]; split; [lia|];
                 intros k Hk;
                 destruct (rd_wr_cases (Planning.fsel_map s)
                             (fst (rd_or (0, 0) top ii) - SF_COUNT) k
                             (u8 (Planning.fsel_sympal_f s))) as [E|E]; rewrite E;
                 [right; exists (Planning.fsel_sympal_f s); split; [lia|reflexivity]|
                  destruct (Hmap k Hk) as [Hu|(r & Hr & He)];
                  [left; exact Hu|right; exists r; split; [lia|exact He]]]|]);
        (split; [intros Hgo; try discriminate; right; lia|]); split; lia.
    + match goal with |- context [if ?c then _ else _] => destruct c eqn:Efull end;
        cbn [fst snd Planning.fsel_filters_set]; unfold selection_ok;
        cbn [Planning.fsel_filters_set Planning.fsel_normal_f Planning.fsel_sympal_f
             Planning.fsel_map];
        (split; [split; [lia|]; split; [lia|]; split; [lia|exact Hmap]|]);
        (split; [intros Hgo; try discriminate; right; lia|]); split; lia.
  - cbn [fst snd Planning.fsel_filters_set]. unfold selection_ok.
    cbn [Planning.fsel_filters_set Planning.fsel_normal_f Planning.fsel_sympal_f
         Planning.fsel_map].
    split; [split; [lia|]; split; [lia|]; split; [lia|exact Hmap]|].
    split; [intros _; left; reflexivity|]. split; lia.
Qed.

Lemma choose_filters_ok st top count count0 :
  (forall k, 0 <= k < count0 ->
     rd (_sympal_filter_map st) k = UNUSED_SYMPAL \/
     exists r, 0 <= r < 0 /\ rd (_sympal_filter_map st) k = u8 r) ->
  let s := Planning.choose_filters st top count in
  selection_ok count0 s /\
  Planning.fsel_filters_set s <= Z.max (SF_FIXED + 1) MAX_FILTERS.
Proof.
  intros Hmap. cbv zeta. unfold Planning.choose_filters.
  destruct (for_range 0 SF_FIXED _ (_filters st, _filter_indices st)) as [fl fi].
  rewrite for_range_break_fold.
  match goal with |- context [break_fold ?f ?l ?s0] =>
    destruct (break_fold_ind
      (fun (_ : list Z) (s : Planning.FilterSelection) =>
         selection_ok count0 s /\
         (Planning.fsel_filters_set s = SF_FIXED \/
          Planning.fsel_filters_set s < MAX_FILTERS))
      (fun s => selection_ok count0 s /\
                Planning.fsel_filters_set s <= Z.max (SF_FIXED + 1) MAX_FILTERS)
      f l s0) as [[Hok Hb]|Hq]
  end.
  - split; [|left; reflexivity]. unfold selection_ok. simpl.
    split; [lia|]. split; [lia|]. split; [lia|exact Hmap].
  - intros done ii acc [Hok Hb] _.
    pose proof (choose_filter_ok top (filter_thresh_tiles (_tiles_count st)) ii count0 acc Hok)
      as (Hok' & Hgo & Hle & Hmono).
    cbv zeta in Hok', Hgo, Hle, Hmono. split.
    + intros Hs. split; [exact Hok'|]. destruct (Hgo Hs) as [He|Hlt]; [|right; exact Hlt].
      rewrite He. exact Hb.
    + intros _. split; [exact Hok'|]. lia.
  - split; [exact Hok|]. lia.
  - exact Hq.
Qed.

(** ** designFilters as a whole *)

Lemma designFilters_run st b fuel count0 :
  tiled st b ->
  Z.of_nat (length (_tiles st)) = _tiles_x st * _tiles_y st ->
  size_x (_params st) < Z.of_nat fuel -> size_y (_params st) < Z.of_nat fuel ->
  (forall k, 0 <= k < count0 -> rd (_sympal_filter_map st) k = UNUSED_SYMPAL) ->
  exists tiles filter_indices s,
    Planning.designFilters fuel st
    = Some (set_filter_count (Planning.fsel_filters_set s)
              (set_sympal_filter_count (Planning.fsel_sympal_f s)
                 (set_normal_filter_count (Planning.fsel_normal_f s)
                    (set_sympal_filter_map (Planning.fsel_map s)
                       (set_filter_indices filter_indices
                          (set_filters (Planning.fsel_filters s)
                             (set_tiles tiles st))))))) /\
    length tiles = length (_tiles st) /\
    (forall q, 0 <= q < _tiles_x st * _tiles_y st -> rd tiles q = palette_mark st b q) /\
    selection_ok count0 s /\
    Planning.fsel_filters_set s <= Z.max (SF_FIXED + 1) MAX_FILTERS.
Proof.
  intros Htiled Hlen Hfx Hfy Hmap. unfold Planning.designFilters.
  match goal with |- context [for_tiles fuel st ?body ?s0] =>
    destruct (for_tiles_returns st b Htiled fuel body s0 Hfx Hfy)
      as [[[[p tiles] scores] awards] Hrun];
    rewrite Hrun;
    pose proof (for_tiles_ind st b Htiled
      (fun (i : Z) (a : Z * list Z * FilterScorer * FilterScorer) =>
         fst (fst (fst a)) = i /\
         length (snd (fst (fst a))) = length (_tiles st) /\
         (forall q, i <= q -> rd (snd (fst (fst a))) q = rd (_tiles st) q) /\
         forall q, 0 <= q < i -> rd (snd (fst (fst a))) q = palette_mark st b q)
      fuel body s0 (p, tiles, scores, awards) Hrun) as Hind
  end.
  cbv beta in Hind. cbn [fst snd] in Hind.
  destruct Hind as (_ & Hl & _ & Hall).
  - split; [reflexivity|]. split; [reflexivity|]. split; [reflexivity|]. intros q Hq. lia.
  - intros kx ky [[[p0 t0] sc0] aw0] Hkx Hky (Hp & Hl & Hrest & IH).
    cbn [fst snd] in Hp, Hl, Hrest, IH. subst p0.
    pose proof (cell_index_range (_tiles_x st) (_tiles_y st) kx ky Hkx Hky) as Hrange.
    destruct (tile_of_index (_tiles_x st) kx ky Hkx ltac:(lia)) as [Emod Ediv].
    pose proof (designFilters_tile_mark st b kx ky (kx + ky * _tiles_x st) t0 sc0 aw0
                  Htiled ltac:(lia) ltac:(lia)) as [Hp' Ht'].
    cbv zeta in Hp', Ht'.
    destruct (Planning.designFilters_tile st (kx * 2 ^ b) (ky * 2 ^ b)
                (kx + ky * _tiles_x st, t0, sc0, aw0)) as [[[p1 t1] sc1] aw1].
    cbn [fst snd] in Hp', Ht' |- *. subst p1.
    set (i := kx + ky * _tiles_x st) in *.
    rewrite (Hrest i) in Ht' by lia.
    assert (length t1 = length (_tiles st) /\
            (forall q, q <> i -> rd t1 q = rd t0 q) /\ rd t1 i = palette_mark st b i)
      as (Hl1 & Hother & Hhere).
    { unfold palette_mark. rewrite Emod, Ediv. subst t1.
      destruct (rd (_tiles st) i =? MASK_TILE).
      - split; [exact Hl|]. split; [reflexivity|]. apply Hrest. lia.
      - destruct (tile_uniform_value st b kx ky) as [v|].
        + destruct (first_sympal st v) as [f|].
          * split; [rewrite length_wr; exact Hl|].
            split; [intros q Hq; apply rd_wr_ne; congruence|].
            apply rd_wr_eq. rewrite Hl. lia.
          * split; [exact Hl|]. split; [reflexivity|]. apply Hrest. lia.
        + split; [exact Hl|]. split; [reflexivity|]. apply Hrest. lia. }
    split; [reflexivity|]. split; [exact Hl1|].
    split; [intros q Hq; rewrite Hother by lia; apply Hrest; lia|].
    intros q Hq. destruct (Z.eq_dec q i) as [->|Hne]; [exact Hhere|].
    rewrite Hother by exact Hne. apply IH. lia.
  - cbv zeta.
    match goal with |- context [Planning.choose_filters st ?top ?count] =>
      pose proof (choose_filters_ok st top count count0) as Hsel;
      set (s := Planning.choose_filters st top count) in *
    end.
    cbv zeta in Hsel. destruct Hsel as [Hok Hbound].
    { intros k Hk. left. apply Hmap. exact Hk. }
    eexists tiles, _, s. split; [reflexivity|].
    split; [exact Hl|]. split; [exact Hall|]. split; [exact Hok|exact Hbound].
Qed.

(** X8.  designFilters returns with the counts it asserts before
    returning: the filter count is the sum of the normal and the palette
    filter counts, the fixed filters are among the normal ones, and the
    total exceeds neither MAX_FILTERS nor [SF_FIXED + 1], whichever is
    larger. *)
Theorem designFilters_filter_count_is_sum st b fuel :
  tiled st b ->
  Z.of_nat (length (_tiles st)) = _tiles_x st * _tiles_y st ->
  size_x (_params st) < Z.of_nat fuel -> size_y (_params st) < Z.of_nat fuel ->
  exists st',
    Planning.designFilters fuel st = Some st' /\
    _filter_count st' = _normal_filter_count st' + _sympal_filter_count st' /\
    SF_FIXED <= _normal_filter_count st' /\ 0 <= _sympal_filter_count st' /\
    _filter_count st' <= Z.max (SF_FIXED + 1) MAX_FILTERS.
Proof.
  intros Htiled Hlen Hfx Hfy.
  destruct (designFilters_run st b fuel 0 Htiled Hlen Hfx Hfy)
    as (tiles & fi & s & Hrun & _ & _ & (Hsum & Hn & Hs & _) & Hbound);
    [intros k Hk; lia|].
  eexists. split; [exact Hrun|]. simpl. auto.
Qed.

(** X9.  designFilters leaves a masked tile masked, and marks a tile
    that is not masked with [SF_COUNT + f] exactly when every unmasked
    element of the tile holds one value and [f] is the first palette
    entry that holds it; every other tile keeps its value. *)
Theorem designFilters_marks_uniform_tiles st b fuel :
  tiled st b ->
  Z.of_nat (length (_tiles st)) = _tiles_x st * _tiles_y st ->
  size_x (_params st) < Z.of_nat fuel -> size_y (_params st) < Z.of_nat fuel ->
  exists st',
    Planning.designFilters fuel st = Some st' /\
    forall kx ky, 0 <= kx < _tiles_x st -> 0 <= ky < _tiles_y st ->
      let t := rd (_tiles st) (kx + ky * _tiles_x st) in
      let t' := rd (_tiles st') (kx + ky * _tiles_x st) in
      (t = MASK_TILE -> t' = MASK_TILE) /\
      (t <> MASK_TILE ->
       match tile_uniform_value st b kx ky with
       | Some v =>
           match first_sympal st v with
           | Some f => t' = u8 (SF_COUNT + f)
           | None => t' = t
           end
       | None => t' = t
       end).
Proof.
  intros Htiled Hlen Hfx Hfy.
  destruct (designFilters_run st b fuel 0 Htiled Hlen Hfx Hfy)
    as (tiles & fi & s & Hrun & _ & Hmark & _); [intros k Hk; lia|].
  eexists. split; [exact Hrun|]. simpl _tiles.
  intros kx ky Hkx Hky. cbv zeta.
  pose proof (cell_index_range (_tiles_x st) (_tiles_y st) kx ky Hkx Hky) as Hrange.
  destruct (tile_of_index (_tiles_x st) kx ky Hkx ltac:(lia)) as [Emod Ediv].
  rewrite (Hmark _ Hrange). unfold palette_mark. rewrite Emod, Ediv.
  destruct (rd (_tiles st) (kx + ky * _tiles_x st) =? MASK_TILE) eqn:Em.
  - apply Z.eqb_eq in Em. split; [intros _; exact Em|]. intros Hn. contradiction.
  - apply Z.eqb_neq in Em. split; [intros Hm; contradiction|]. intros _.
    destruct (tile_uniform_value st b kx ky) as [v|]; [|reflexivity].
    destruct (first_sympal st v); reflexivity.
Qed.

End DesignFilters.

(** X8 on the 4x1 input: the counts designFilters leaves add up. *)
Lemma designFilters_filter_count_is_sum_witness :
  exists st',
    Planning.designFilters 10 st_palette_selected = Some st' /\
    _filter_count st' = _normal_filter_count st' + _sympal_filter_count st'.
Proof.
  set (st := st_palette_selected).
  assert (size_x (_params st) = 4) as Esx by (vm_compute; reflexivity).
  assert (size_y (_params st) = 1) as Esy by (vm_compute; reflexivity).
  assert (tiled st 0) as Ht.
  { unfold tiled. rewrite Esx, Esy.
    repeat split; try (vm_compute; reflexivity); vm_compute; intros H; discriminate H. }
  assert (Z.of_nat (length (_tiles st)) = _tiles_x st * _tiles_y st) as Hlen
    by (vm_compute; reflexivity).
  assert (size_x (_params st) < Z.of_nat 10) as Hfx by (vm_compute; reflexivity).
  assert (size_y (_params st) < Z.of_nat 10) as Hfy by (vm_compute; reflexivity).
  destruct (designFilters_filter_count_is_sum st 0 10 Ht Hlen Hfx Hfy)
    as (st' & Hrun & Hsum & _).
  exists st'. split; [exact Hrun|exact Hsum].
Defined.

(** X9 on the 4x1 input [3; 3; 3; 1] with the palette [3]: the first
    tile is marked with palette entry 0, the last keeps TODO_TILE. *)
Lemma designFilters_marks_uniform_tiles_witness :
  exists st',
    Planning.designFilters 10 st_palette_selected = Some st' /\
    rd (_tiles st') 0 = 32 /\ rd (_tiles st') 3 = TODO_TILE.
Proof.
  set (st := st_palette_selected).
  assert (size_x (_params st) = 4) as Esx by (vm_compute; reflexivity).
  assert (size_y (_params st) = 1) as Esy by (vm_compute; reflexivity).
  assert (_tiles_x st = 4) as Etx by (vm_compute; reflexivity).
  assert (_tiles_y st = 1) as Ety by (vm_compute; reflexivity).
  assert (tiled st 0) as Ht.
  { unfold tiled. rewrite Esx, Esy.
    repeat split; try (vm_compute; reflexivity); vm_compute; intros H; discriminate H. }
  assert (Z.of_nat (length (_tiles st)) = _tiles_x st * _tiles_y st) as Hlen
    by (vm_compute; reflexivity).
  assert (size_x (_params st) < Z.of_nat 10) as Hfx by (vm_compute; reflexivity).
  assert (size_y (_params st) < Z.of_nat 10) as Hfy by (vm_compute; reflexivity).
  assert (0 <= 0 < _tiles_x st /\ 0 <= 3 < _tiles_x st /\ 0 <= 0 < _tiles_y st)
    as (H0 & H3 & Hy) by (rewrite Etx, Ety; clearbody st; clear; lia).
  destruct (designFilters_marks_uniform_tiles st 0 10 Ht Hlen Hfx Hfy)
    as (st' & Hrun & Hall).
  exists st'. split; [exact Hrun|].
  destruct (Hall 0 0 H0 Hy) as [_ Hfirst]. destruct (Hall 3 0 H3 Hy) as [_ Hlast].
  cbv zeta in Hfirst, Hlast. rewrite Etx in Hfirst, Hlast.
  change (0 + 0 * 4) with 0 in Hfirst. change (3 + 0 * 4) with 3 in Hlast.
  assert (rd (_tiles st) 0 <> MASK_TILE) as N0 by (vm_compute; intros H; discriminate H).
  assert (rd (_tiles st) 3 <> MASK_TILE) as N3 by (vm_compute; intros H; discriminate H).
  specialize (Hfirst N0). specialize (Hlast N3).
  assert (tile_uniform_value st 0 0 0 = Some 3) as U0 by (vm_compute; reflexivity).
  assert (tile_uniform_value st 0 3 0 = Some 1) as U3 by (vm_compute; reflexivity).
  assert (first_sympal st 3 = Some 0) as F0 by (vm_compute; reflexivity).
  assert (first_sympal st 1 = None) as F3 by (vm_compute; reflexivity).
  rewrite U0, F0 in Hfirst. rewrite U3, F3 in Hlast.
  split; [exact Hfirst|]. rewrite Hlast. vm_compute. reflexivity.
Defined.

Section PaletteStages.
Context `{Prim : Primitives} `{Tune : Tuning}.

Implicit Types (st : MonoWriter).

(** X10.  On the tile map maskTiles leaves (every tile MASK_TILE or
    TODO_TILE), designPaletteFilters, designFilters and
    designPaletteTiles return in turn and leave every tile of the grid
    masked, open, or on a palette filter of the chosen set, whose ids
    are those from [_normal_filter_count] up to [_filter_count]. *)
Theorem palette_stages_leave_masked_open_or_palette_tiles st b fuel :
  tiled st b ->
  Z.of_nat (length (_tiles st)) = _tiles_x st * _tiles_y st ->
  size_x (_params st) < Z.of_nat fuel -> size_y (_params st) < Z.of_nat fuel ->
  (forall q, 0 <= q < _tiles_x st * _tiles_y st ->
     rd (_tiles st) q = MASK_TILE \/ rd (_tiles st) q = TODO_TILE) ->
  1 <= MAX_PALETTE ->
  MAX_PALETTE <= Z.of_nat (length (_sympal st)) ->
  MAX_PALETTE <= Z.of_nat (length (_sympal_filter_map st)) ->
  num_syms (_params st) <= MAX_SYMS ->
  0 < SF_COUNT -> SF_COUNT + MAX_PALETTE <= 128 ->
  0 <= SF_FIXED < MAX_FILTERS -> MAX_FILTERS <= 32 ->
  0 <= UNUSED_SYMPAL < 256 ->
  exists st1 st2 st3,
    Planning.designPaletteFilters fuel st = Some st1 /\
    Planning.designFilters fuel st1 = Some st2 /\
    designPaletteTiles fuel st2 = Some st3 /\
    forall q, 0 <= q < _tiles_x st * _tiles_y st ->
      palette_stage_tile st3 (rd (_tiles st3) q).
Proof.
  intros Htiled Hlen Hfx Hfy Hstart Hmp Hls Hlm Hns Hsf Hsfp Hfix Hmf Hun.
  (* designPaletteFilters *)
  destruct (designPaletteFilters_run st b fuel Htiled Hfx Hfy Hmp Hls Hlm Hns)
    as (sympal & map1 & Hrun1 & Hpal).
  cbv zeta in Hrun1, Hpal.
  match type of Hrun1 with _ = Some (set_sympal_filter_count ?c _) =>
    set (count1 := c) in * end.
  assert (0 <= count1 <= MAX_PALETTE) as Hc1 by (unfold count1; lia).
  match type of Hrun1 with _ = Some ?s => set (st1 := s) in * end.
  assert (tiled st1 b) as Htiled1 by exact Htiled.
  (* designFilters *)
  destruct (designFilters_run st1 b fuel count1 Htiled1 Hlen Hfx Hfy)
    as (tiles2 & fi & s & Hrun2 & Hl2 & Hmark & (Hsum & Hn & Hs & Hmap) & Hbound).
  { intros k Hk. apply (Hpal k Hk). }
  match type of Hrun2 with _ = Some ?s => set (st2 := s) in * end.
  assert (tiled st2 b) as Htiled2 by exact Htiled.
  assert (Z.of_nat (length (_tiles st2)) = _tiles_x st2 * _tiles_y st2) as Hlen2.
  { change (Z.of_nat (length tiles2) = _tiles_x st * _tiles_y st).
    rewrite Hl2. exact Hlen. }
  (* designPaletteTiles *)
  destruct (designPaletteTiles_pointwise st2 b fuel Htiled2 Hlen2 Hfx Hfy)
    as (tiles3 & Hrun3 & Hres); [exact Hs|].
  exists st1, st2, (set_tiles tiles3 st2).
  split; [exact Hrun1|]. split; [exact Hrun2|]. split; [exact Hrun3|].
  intros q Hq. unfold palette_stage_tile.
  change (_tiles (set_tiles tiles3 st2)) with tiles3.
  change (_normal_filter_count (set_tiles tiles3 st2)) with (Planning.fsel_normal_f s).
  change (_filter_count (set_tiles tiles3 st2)) with (Planning.fsel_filters_set s).
  specialize (Hres q Hq). cbv zeta in Hres.
  change (_tiles st2) with tiles2 in Hres.
  change (_sympal_filter_map st2) with (Planning.fsel_map s) in Hres.
  change (_normal_filter_count st2) with (Planning.fsel_normal_f s) in Hres.
  rewrite (Hmark q Hq) in Hres. destruct Hres as [Hkeep Hpalette].
  unfold palette_mark in Hkeep, Hpalette.
  change (rd (_tiles st1) q) with (rd (_tiles st) q) in Hkeep, Hpalette.
  destruct (Hstart q Hq) as [Hm|Ht].
  - rewrite Hm in Hkeep. rewrite Z.eqb_refl in Hkeep. left. apply Hkeep. left. reflexivity.
  - rewrite Ht in Hkeep, Hpalette.
    change (TODO_TILE =? MASK_TILE) with false in Hkeep, Hpalette.
    destruct (tile_uniform_value st1 b (q mod _tiles_x st1) (q / _tiles_x st1)) as [v|].
    2:{ right. left. apply Hkeep. right. unfold TODO_TILE. lia. }
    destruct (first_sympal st1 v) as [f|] eqn:Ef.
    2:{ right. left. apply Hkeep. right. unfold TODO_TILE. lia. }
    apply find_first_sympal in Ef as [Hf _].
    change (_sympal_filter_count st1) with count1 in Hf.
    assert (u8 (SF_COUNT + f) = SF_COUNT + f) as Eu8
      by (unfold u8; apply Z.mod_small; lia).
    rewrite Eu8 in Hpalette.
    destruct Hpalette as [Hused Hunused]; [unfold MASK_TILE; lia|lia|].
    replace (SF_COUNT + f - SF_COUNT) with f in Hused, Hunused by lia.
    destruct (Hmap f Hf) as [Eu|(r & Hr & Er)].
    + right. left. apply Hunused. rewrite Eu. unfold u8. apply Z.mod_small. lia.
    + assert (u8 (rd (Planning.fsel_map s) f) = r) as Efilter.
      { rewrite Er. unfold u8. rewrite Z.mod_mod by lia. apply Z.mod_small. lia. }
      rewrite Efilter in Hused, Hunused.
      destruct (Z.eq_dec r UNUSED_SYMPAL) as [Heq|Hne];
        [right; left; apply Hunused; exact Heq|].
      right. right. rewrite (Hused Hne).
      unfold u8. rewrite Z.mod_small by lia. lia.
Qed.

End PaletteStages.

(** X10 on the 4x1 input: after the three stages the first tile is
    masked, open or on a palette filter. *)
Lemma palette_stages_leave_masked_open_or_palette_tiles_witness :
  exists st1 st2 st3,
    Planning.designPaletteFilters 10 st_palette_input = Some st1 /\
    Planning.designFilters 10 st1 = Some st2 /\
    designPaletteTiles 10 st2 = Some st3 /\
    palette_stage_tile st3 (rd (_tiles st3) 0).
Proof.
  set (st := st_palette_input).
  assert (size_x (_params st) = 4) as Esx by (vm_compute; reflexivity).
  assert (size_y (_params st) = 1) as Esy by (vm_compute; reflexivity).
  assert (_tiles_x st * _tiles_y st = 4) as Etc by (vm_compute; reflexivity).
  assert (tiled st 0) as Ht.
  { unfold tiled. rewrite Esx, Esy.
    repeat split; try (vm_compute; reflexivity); vm_compute; intros H; discriminate H. }
  assert (Z.of_nat (length (_tiles st)) = _tiles_x st * _tiles_y st) as Hlen
    by (vm_compute; reflexivity).
  assert (size_x (_params st) < Z.of_nat 10) as Hfx by (vm_compute; reflexivity).
  assert (size_y (_params st) < Z.of_nat 10) as Hfy by (vm_compute; reflexivity).
  assert (forall q, 0 <= q < _tiles_x st * _tiles_y st ->
            rd (_tiles st) q = MASK_TILE \/ rd (_tiles st) q = TODO_TILE) as Hstart.
  { intros q Hq. rewrite Etc in Hq.
    assert (q = 0 \/ q = 1 \/ q = 2 \/ q = 3) as Hcase by (clearbody st; clear - Hq; lia).
    destruct Hcase as [-> | [-> | [-> | ->]]]; right; vm_compute; reflexivity. }
  assert (1 <= MAX_PALETTE) as H1 by (vm_compute; intros H; discriminate H).
  assert (MAX_PALETTE <= Z.of_nat (length (_sympal st))) as H2
    by (vm_compute; intros H; discriminate H).
  assert (MAX_PALETTE <= Z.of_nat (length (_sympal_filter_map st))) as H3
    by (vm_compute; intros H; discriminate H).
  assert (num_syms (_params st) <= MAX_SYMS) as H4
    by (vm_compute; intros H; discriminate H).
  assert (0 < SF_COUNT) as H5 by (vm_compute; reflexivity).
  assert (SF_COUNT + MAX_PALETTE <= 128) as H6 by (vm_compute; intros H; discriminate H).
  assert (0 <= SF_FIXED < MAX_FILTERS) as H7
    by (split; vm_compute; [intros H; discriminate H|reflexivity]).
  assert (MAX_FILTERS <= 32) as H8 by (vm_compute; intros H; discriminate H).
  assert (0 <= UNUSED_SYMPAL < 256) as H9
    by (split; vm_compute; [intros H; discriminate H|reflexivity]).
  destruct (palette_stages_leave_masked_open_or_palette_tiles st 0 10
              Ht Hlen Hfx Hfy Hstart H1 H2 H3 H4 H5 H6 H7 H8 H9)
    as (st1 & st2 & st3 & R1 & R2 & R3 & Hall).
  exists st1, st2, st3. split; [exact R1|]. split; [exact R2|]. split; [exact R3|].
  apply Hall. rewrite Etc. clearbody st. clear. lia.
Defined.

Section DesignTiles.
Context `{Prim : Primitives} `{Tune : Tuning}.

Implicit Types (st : MonoWriter).

Lemma for_u16_keeps {T} (P : T -> Prop) bound step (body : Z -> T -> option T) :
  (forall x s s', P s -> body x s = Some s' -> P s') ->
  forall fuel x s r, for_u16 fuel x bound step body s = Some r -> P s -> P r.
Proof.
  intros Hbody. induction fuel as [|fuel IH]; intros x s r Hrun HP; simpl in Hrun;
    [discriminate|].
  destruct (x <? bound).
  - destruct (body x s) as [s'|] eqn:Eb; [|discriminate].
    apply (IH _ _ _ Hrun). apply (Hbody x s s' HP Eb).
  - injection Hrun as <-. exact HP.
Qed.

(** In the first pass no tile takes the [return]. *)
Lemma designTiles_tile_goes_on st x y tx ty s :
  Planning.td_returned s = false ->
  Planning.td_returned (Planning.designTiles_tile st 0 x y tx ty s) = false.
Proof.
  intros Hs. unfold Planning.designTiles_tile. rewrite Hs. cbv zeta.
  destruct (rd (Planning.td_tiles s) (Planning.td_p s) >=? _normal_filter_count st);
    [reflexivity|].
  change (0 >? 0) with false. cbn [andb].
  destruct (Planning.codes_of_all_filters st x y _ _) as [code_count codes].
  destruct (Planning.best_filter st _ _ _ _ _ _ _ _) as [e f]. reflexivity.
Qed.

Lemma designTiles_sweep_goes_on fuel st s s' :
  Planning.designTiles_sweep fuel st 0 s = Some s' ->
  Planning.td_returned s = false -> Planning.td_returned s' = false.
Proof.
  unfold Planning.designTiles_sweep. intros Hrun Hs.
  match type of Hrun with context [for_u16 fuel 0 ?bd ?stp ?body (0, s)] =>
    destruct (for_u16 fuel 0 bd stp body (0, s)) as [[ty r]|] eqn:Eo; [|discriminate];
    pose proof (for_u16_keeps
      (fun a : Z * Planning.TileDesign => Planning.td_returned (snd a) = false)
      bd stp body) as Hkeep
  end.
  injection Hrun as <-.
  apply (Hkeep) with (fuel := fuel) (x := 0) (s := (0, s)) (r := (ty, r));
    [|exact Eo|exact Hs].
  intros y [ty0 s0] [ty1 s1] H0 Hrow. simpl in H0.
  match type of Hrow with context [for_u16 fuel 0 ?bd ?stp ?body (0, s0)] =>
    destruct (for_u16 fuel 0 bd stp body (0, s0)) as [[tx r0]|] eqn:Ei; [|discriminate];
    pose proof (for_u16_keeps
      (fun a : Z * Planning.TileDesign => Planning.td_returned (snd a) = false)
      bd stp body) as Hkeep2
  end.
  injection Hrow as _ <-.
  apply (Hkeep2) with (fuel := fuel) (x := 0) (s := (0, s0)) (r := (tx, r0));
    [|exact Ei|exact H0].
  intros x [tx0 s2] [tx1 s3] H2 Htile. simpl in H2. injection Htile as _ <-.
  simpl. apply designTiles_tile_goes_on. exact H2.
Qed.

Lemma designTiles_passes_never_ends st :
  0 < MAX_PASSES ->
  forall fuel s, Planning.td_returned s = false ->
                 Planning.designTiles_passes fuel st 0 s = None.
Proof.
  intros Hpass. induction fuel as [|fuel IH]; intros s Hs; [reflexivity|].
  simpl. destruct (0 <? MAX_PASSES) eqn:E; [|lia].
  destruct (Planning.designTiles_sweep fuel st 0 s) as [s'|] eqn:Es; [|reflexivity].
  rewrite (designTiles_sweep_goes_on _ _ _ _ Es Hs). apply IH.
  apply (designTiles_sweep_goes_on _ _ _ _ Es Hs).
Qed.

(** X11.  designTiles returns only when MAX_PASSES is not positive,
    having run no pass: the loop [while (passes < MAX_PASSES)] never
    assigns [passes], and the [return] inside it is taken on a pass
    after the first only.  With a positive MAX_PASSES the stage does
    not return, whatever the fuel. *)
Theorem designTiles_returns_only_without_passes st :
  (0 < MAX_PASSES -> forall fuel, Planning.designTiles fuel st = None) /\
  (MAX_PASSES <= 0 ->
   forall fuel,
     Planning.designTiles (S fuel) st
     = Some (set_ecodes
               (resize 0 (_ecodes st)
                  (u32 (u32 (_tile_size_x st * _tile_size_y st) * _filter_count st)))
               (set_tiles (_tiles st) st))).
Proof.
  split.
  - intros Hpass fuel. unfold Planning.designTiles. cbv zeta.
    rewrite designTiles_passes_never_ends; [reflexivity|exact Hpass|reflexivity].
  - intros Hpass fuel. unfold Planning.designTiles. cbv zeta. simpl.
    destruct (0 <? MAX_PASSES) eqn:E; [lia|]. reflexivity.
Qed.

(** ** One sweep over the tiles *)

Lemma designTiles_sweep_ind st b (P : Z -> Planning.TileDesign -> Prop) fuel passes s r :
  tiled st b ->
  Planning.designTiles_sweep fuel st passes s = Some r ->
  P 0 s ->
  (forall kx ky acc, 0 <= kx < _tiles_x st -> 0 <= ky < _tiles_y st ->
      P (kx + ky * _tiles_x st) acc ->
      P (kx + ky * _tiles_x st + 1)
        (Planning.designTiles_tile st passes (kx * 2 ^ b) (ky * 2 ^ b) kx ky acc)) ->
  P (_tiles_x st * _tiles_y st) r.
Proof.
  intros Htiled Hrun H0 Hstep.
  pose proof Htiled as (Hb & _ & _ & Hsx & Hsy & Hx0 & Hxw & Hy0 & Hyw & Htx & Hty).
  pose proof (ts_pos st b Htiled) as Hts.
  unfold Planning.designTiles_sweep in Hrun.
  rewrite Hsx, Hsy, (u16_sx st b Htiled), (u16_sy st b Htiled) in Hrun.
  assert (forall size k, 0 <= k -> k * 2 ^ b < size -> k < (size + 2 ^ b - 1) / 2 ^ b)
    as Hlt.
  { intros size k Hk Hks.
    assert (k + 1 <= (size + 2 ^ b - 1) / 2 ^ b); [|lia].
    apply Z.div_le_lower_bound; lia. }
  match type of Hrun with context [for_u16 fuel 0 ?bd ?stp ?body (0, s)] =>
    destruct (for_u16 fuel 0 bd stp body (0, s)) as [[ty r']|] eqn:Eo; [|discriminate]
  end.
  injection Hrun as ->.
  pose (Pout := fun (ky : Z) (a : Z * Planning.TileDesign) =>
                  fst a = ky /\ P (ky * _tiles_x st) (snd a)).
  assert (Pout ((size_y (_params st) + 2 ^ b - 1) / 2 ^ b) (ty, r)) as HP.
  { change 0 with (0 * 2 ^ b) in Eo at 1.
    refine (for_u16_steps Pout (size_y (_params st)) (2 ^ b) _ _ _ _ _ fuel 0 _ _ _ _ Eo _);
      try lia.
    - intros ky [ty0 a] [ty1 a'] Hky Hkyb [Hty0 HPa] Hrow. simpl in Hty0, HPa. subst ty0.
      match type of Hrow with context [for_u16 fuel 0 ?bd ?stp ?body (0, a)] =>
        destruct (for_u16 fuel 0 bd stp body (0, a)) as [[tx r0]|] eqn:Ei; [|discriminate]
      end.
      injection Hrow as <- <-.
      pose (Pin := fun (kx : Z) (c : Z * Planning.TileDesign) =>
                     fst c = kx /\ P (kx + ky * _tiles_x st) (snd c)).
      assert (Pin ((size_x (_params st) + 2 ^ b - 1) / 2 ^ b) (tx, r0)) as HPin.
      { change 0 with (0 * 2 ^ b) in Ei at 1.
        refine (for_u16_steps Pin (size_x (_params st)) (2 ^ b) _ _ _ _ _ fuel 0 _ _ _ _ Ei _);
          try lia.
        - intros kx [tx0 c] [tx1 c'] Hkx Hkxb [Htx0 HPc] Htile. simpl in Htx0, HPc.
          subst tx0. injection Htile as <- <-.
          unfold Pin. simpl fst. simpl snd. split; [reflexivity|].
          replace (kx + 1 + ky * _tiles_x st) with (kx + ky * _tiles_x st + 1) by lia.
          apply Hstep.
          + rewrite Htx. split; [lia|]. apply Hlt; lia.
          + rewrite Hty. split; [lia|]. apply Hlt; lia.
          + exact HPc.
        - unfold Pin. simpl. split; [reflexivity|exact HPa]. }
      destruct HPin as [_ HPin]. simpl in HPin. rewrite <- Htx in HPin.
      unfold Pout. simpl. split; [reflexivity|].
      replace ((ky + 1) * _tiles_x st) with (_tiles_x st + ky * _tiles_x st) by lia.
      exact HPin.
    - unfold Pout. simpl. split; [reflexivity|exact H0]. }
  destruct HP as [_ HP]. simpl in HP. rewrite <- Hty in HP.
  replace (_tiles_x st * _tiles_y st) with (_tiles_y st * _tiles_x st) by lia.
  exact HP.
Qed.

Lemma designTiles_sweep_returns st b fuel passes s :
  tiled st b ->
  size_x (_params st) < Z.of_nat fuel -> size_y (_params st) < Z.of_nat fuel ->
  is_Some (Planning.designTiles_sweep fuel st passes s).
Proof.
  intros Htiled Hfx Hfy.
  pose proof Htiled as (Hb & _ & _ & Hsx & Hsy & Hx0 & Hxw & Hy0 & Hyw & Htx & Hty).
  pose proof (ts_pos st b Htiled) as Hts.
  unfold Planning.designTiles_sweep.
  rewrite Hsx, Hsy, (u16_sx st b Htiled), (u16_sy st b Htiled).
  match goal with |- context [for_u16 fuel 0 ?bd ?stp ?body (0, s)] =>
    destruct (for_u16_total fuel 0 (0, s) bd stp body) as [[ty r] ->]
  end; try lia; [nia| |eexists; reflexivity].
  intros y [ty0 a].
  match goal with |- context [for_u16 fuel 0 ?bd ?stp ?body (0, a)] =>
    destruct (for_u16_total fuel 0 (0, a) bd stp body) as [[tx r] ->]
  end; try lia; [nia| |eexists; reflexivity].
  intros x [tx0 c]. eexists; reflexivity.
Qed.

Lemma best_filter_below_count st ee codes code_stride code_count a b c d :
  0 < _filter_count st ->
  0 <= snd (Planning.best_filter st ee codes code_stride code_count a b c d)
  < _filter_count st.
Proof.
  intros Hfc. unfold Planning.best_filter.
  apply (for_range_keeps (fun r : Z * Z => 0 <= snd r < _filter_count st)); [simpl; lia|].
  intros f [lowest best] Hf Hr. simpl in Hr. cbv zeta.
  match goal with |- context [if ?c then (_, f) else _] => destruct c end; simpl; lia.
Qed.

(** A tile of the first pass. *)
Lemma designTiles_tile_first_pass st x y tx ty s :
  Planning.td_returned s = false -> 0 < _filter_count st <= 256 ->
  let s' := Planning.designTiles_tile st 0 x y tx ty s in
  let p := Planning.td_p s in
  let t := rd (Planning.td_tiles s) p in
  Planning.td_p s' = p + 1 /\
  length (Planning.td_tiles s') = length (Planning.td_tiles s) /\
  (forall q, q <> p -> rd (Planning.td_tiles s') q = rd (Planning.td_tiles s) q) /\
  (_normal_filter_count st <= t -> rd (Planning.td_tiles s') p = t) /\
  (t < _normal_filter_count st -> 0 <= p < Z.of_nat (length (Planning.td_tiles s)) ->
   0 <= rd (Planning.td_tiles s') p < _filter_count st).
Proof.
  intros Hs Hfc. cbv zeta. unfold Planning.designTiles_tile. rewrite Hs. cbv zeta.
  destruct (rd (Planning.td_tiles s) (Planning.td_p s) >=? _normal_filter_count st) eqn:Et.
  - simpl. split; [reflexivity|]. split; [reflexivity|]. split; [reflexivity|].
    split; [reflexivity|]. intros H. lia.
  - change (0 >? 0) with false. cbn [andb].
    destruct (Planning.codes_of_all_filters st x y _ _) as [code_count codes].
    match goal with |- context [Planning.best_filter st ?ee ?cd ?cs ?cc ?a ?b ?c ?d] =>
      pose proof (best_filter_below_count st ee cd cs cc a b c d ltac:(lia)) as Hbest;
      destruct (Planning.best_filter st ee cd cs cc a b c d) as [e f]
    end.
    simpl in Hbest. simpl.
    split; [reflexivity|]. split; [apply length_wr|].
    split; [intros q Hq; apply rd_wr_ne; congruence|].
    split; [intros H; lia|].
    intros _ Hp. rewrite rd_wr_eq by exact Hp. unfold u8. rewrite Z.mod_small; lia.
Qed.

(** X12.  The first sweep of designTiles returns, leaves every tile
    whose value is [_normal_filter_count] or more as it is (masked
    tiles and palette tiles), gives every other tile a filter id below
    [_filter_count], and ends with the tile pointer at the end of the
    tile map, where the next sweep starts. *)
Theorem designTiles_sweep_assigns_open_tiles st b fuel s :
  tiled st b ->
  Planning.td_p s = 0 -> Planning.td_returned s = false ->
  Z.of_nat (length (Planning.td_tiles s)) = _tiles_x st * _tiles_y st ->
  size_x (_params st) < Z.of_nat fuel -> size_y (_params st) < Z.of_nat fuel ->
  0 < _filter_count st <= 256 ->
  exists s',
    Planning.designTiles_sweep fuel st 0 s = Some s' /\
    Planning.td_p s' = _tiles_x st * _tiles_y st /\
    forall q, 0 <= q < _tiles_x st * _tiles_y st ->
      let t := rd (Planning.td_tiles s) q in
      let t' := rd (Planning.td_tiles s') q in
      (_normal_filter_count st <= t -> t' = t) /\
      (t < _normal_filter_count st -> 0 <= t' < _filter_count st).
Proof.
  intros Htiled Hp Hret Hlen Hfx Hfy Hfc.
  destruct (designTiles_sweep_returns st b fuel 0 s Htiled Hfx Hfy) as [s' Hrun].
  exists s'. split; [exact Hrun|].
  pose proof (designTiles_sweep_ind st b
    (fun (i : Z) (a : Planning.TileDesign) =>
       Planning.td_p a = i /\ Planning.td_returned a = false /\
       length (Planning.td_tiles a) = length (Planning.td_tiles s) /\
       (forall q, i <= q -> rd (Planning.td_tiles a) q = rd (Planning.td_tiles s) q) /\
       forall q, 0 <= q < i ->
         let t := rd (Planning.td_tiles s) q in
         let t' := rd (Planning.td_tiles a) q in
         (_normal_filter_count st <= t -> t' = t) /\
         (t < _normal_filter_count st -> 0 <= t' < _filter_count st))
    fuel 0 s s' Htiled Hrun) as Hind.
  cbv beta in Hind. destruct Hind as (Hp' & _ & _ & _ & Hall); [| |split; assumption].
  - split; [exact Hp|]. split; [exact Hret|]. split; [reflexivity|].
    split; [reflexivity|]. intros q Hq. lia.
  - intros kx ky acc Hkx Hky (Hpa & Hra & Hla & Hrest & IH).
    pose proof (cell_index_range (_tiles_x st) (_tiles_y st) kx ky Hkx Hky) as Hrange.
    pose proof (designTiles_tile_first_pass st (kx * 2 ^ b) (ky * 2 ^ b) kx ky acc Hra Hfc)
      as (Hp1 & Hl1 & Hother & Hkeep & Hnew).
    cbv zeta in Hp1, Hl1, Hother, Hkeep, Hnew.
    rewrite Hpa in Hp1, Hother, Hkeep, Hnew.
    set (i := kx + ky * _tiles_x st) in *.
    rewrite (Hrest i) in Hkeep, Hnew by lia.
    split; [exact Hp1|]. split; [apply designTiles_tile_goes_on; exact Hra|].
    split; [congruence|].
    split; [intros q Hq; rewrite Hother by lia; apply Hrest; lia|].
    intros q Hq. cbv zeta. destruct (Z.eq_dec q i) as [->|Hne].
    + split; [exact Hkeep|]. intros Ht. apply Hnew; [exact Ht|]. rewrite Hla. lia.
    + rewrite Hother by exact Hne. apply IH. lia.
Qed.

End DesignTiles.

(** X11 with [MAX_PASSES = 4], on the state the palette stages are run
    on: no result within 50 sweeps. *)
Lemma designTiles_returns_only_without_passes_witness :
  Planning.designTiles (Tune := four_pass_tuning) 50 st_palette_input = None.
Proof.
  apply (proj1 (designTiles_returns_only_without_passes
                  (Tune := four_pass_tuning) st_palette_input)).
  reflexivity.
Defined.

(** X12 on the 4x1 input with four filters: the sweep ends with the tile
    pointer at 4 and the first tile on a filter below 4. *)
Lemma designTiles_sweep_assigns_open_tiles_witness :
  exists s',
    Planning.designTiles_sweep 10 st_palette_input 0 td_start = Some s' /\
    Planning.td_p s' = 4 /\ 0 <= rd (Planning.td_tiles s') 0 < 4.
Proof.
  set (st := st_palette_input).
  assert (size_x (_params st) = 4) as Esx by (vm_compute; reflexivity).
  assert (size_y (_params st) = 1) as Esy by (vm_compute; reflexivity).
  assert (_tiles_x st * _tiles_y st = 4) as Etc by (vm_compute; reflexivity).
  assert (_filter_count st = 4) as Efc by (vm_compute; reflexivity).
  assert (tiled st 0) as Ht.
  { unfold tiled. rewrite Esx, Esy.
    repeat split; try (vm_compute; reflexivity); vm_compute; intros H; discriminate H. }
  assert (Planning.td_p td_start = 0) as Hp by reflexivity.
  assert (Planning.td_returned td_start = false) as Hr by reflexivity.
  assert (Z.of_nat (length (Planning.td_tiles td_start)) = _tiles_x st * _tiles_y st)
    as Hlen by (vm_compute; reflexivity).
  assert (size_x (_params st) < Z.of_nat 10) as Hfx by (vm_compute; reflexivity).
  assert (size_y (_params st) < Z.of_nat 10) as Hfy by (vm_compute; reflexivity).
  assert (0 < _filter_count st <= 256) as Hfc
    by (rewrite Efc; clearbody st; clear; lia).
  destruct (designTiles_sweep_assigns_open_tiles st 0 10 td_start Ht Hp Hr Hlen Hfx Hfy Hfc)
    as (s' & Hrun & Hend & Hall).
  exists s'. split; [exact Hrun|]. rewrite Etc in Hend, Hall. split; [exact Hend|].
  assert (0 <= 0 < 4) as H0 by (clear; lia).
  destruct (Hall 0 H0) as [_ Hopen]. cbv zeta in Hopen. rewrite Efc in Hopen.
  apply Hopen. vm_compute. reflexivity.
Defined.

Section ResidualFrame.
Context `{Prim : Primitives}.

Implicit Types (st : MonoWriter).

Lemma fold_left_members {A T} (Q : T -> Prop) (f : T -> A -> T) (l : list A) :
  (forall acc a, In a l -> Q acc -> Q (f acc a)) ->
  forall s, Q s -> Q (fold_left f l s).
Proof.
  induction l as [|a l IH]; intros H s Hs; simpl; [exact Hs|].
  apply IH.
  - intros acc a' Hin. apply H. right. exact Hin.
  - apply H; [left; reflexivity|exact Hs].
Qed.

(** X13.  computeResiduals returns, assigns nothing but the residual
    matrix, and writes no cell of a masked element nor of an element
    whose tile is masked or on a palette filter: these cells hold what
    they held before. *)
Theorem computeResiduals_leaves_skipped_cells st b fuel :
  tiled st b ->
  size_x (_params st) < Z.of_nat fuel -> size_y (_params st) < Z.of_nat fuel ->
  exists residuals,
    computeResiduals fuel st = Some (set_residuals residuals st) /\
    forall x y,
      in_matrix st x y ->
      mask (_params st) x y = true \/ _normal_filter_count st <= getTile st x y ->
      rd residuals (x + y * size_x (_params st))
      = rd (_residuals st) (x + y * size_x (_params st)).
Proof.
  intros Htiled Hfx Hfy. unfold computeResiduals. cbv zeta.
  pose proof Htiled as (Hb & _ & _ & Hsx & Hsy & Hx0 & Hxw & Hy0 & Hyw & Htx & Hty).
  pose proof (ts_pos st b Htiled) as Hts.
  match goal with |- context [for_tiles fuel st ?body ?s] =>
    destruct (for_tiles_returns st b Htiled fuel body s Hfx Hfy) as [[p R] Hrun];
    rewrite Hrun;
    pose proof (for_tiles_ind st b Htiled
      (fun (i : Z) (a : Z * list Z) =>
         fst a = i /\
         forall x y,
           in_matrix st x y ->
           mask (_params st) x y = true \/ _normal_filter_count st <= getTile st x y ->
           rd (snd a) (x + y * size_x (_params st))
           = rd (_residuals st) (x + y * size_x (_params st)))
      fuel body s (p, R) Hrun) as Hind
  end.
  exists R. split; [reflexivity|].
  cbv beta in Hind. simpl fst in Hind. simpl snd in Hind.
  destruct Hind as [_ Hall]; [split; [reflexivity|auto]| |exact Hall].
  intros kx ky [p0 R0] Hkx Hky [Hp IH]. simpl in Hp, IH. subst p0.
  simpl fst. simpl snd. split; [reflexivity|].
  destruct (rd (_tiles st) (kx + ky * _tiles_x st) >=? _normal_filter_count st) eqn:Ef;
    [exact IH|].
  rewrite (for_tile_cells_fold st b Htiled) by lia.
  apply fold_left_members; [|exact IH].
  intros acc [px py] Hin Hacc x y Hxy Hskip. simpl fst. simpl snd.
  apply (in_tile_cells st b Htiled) in Hin as [Hpxy [Hpx Hpy]]; try lia.
  destruct (mask (_params st) px py) eqn:Em; simpl negb; cbv iota;
    [apply Hacc; assumption|].
  rewrite (u16_sx st b Htiled).
  destruct (Z.eq_dec (px + py * size_x (_params st)) (x + y * size_x (_params st)))
    as [Heq|Hne]; [|rewrite rd_wr_ne by exact Hne; apply Hacc; assumption].
  exfalso.
  destruct Hpxy as [Hpxr _]. destruct Hxy as [Hxr Hyr].
  destruct (cell_index_inj (size_x (_params st)) px py x y Hpxr Hxr Heq) as [-> ->].
  destruct Hskip as [Hm|Hge]; [congruence|].
  rewrite (getTile_div st b Htiled), Hpx, Hpy, <- Htx in Hge. lia.
Qed.

End ResidualFrame.

Section RoundTrips.
Context `{Prim : Primitives} `{Plan : !Planner} `{Tune : Tuning}.

Implicit Types (st : MonoWriter).

(** X14.  After computeResiduals the element of every unmasked cell on
    a normal filter is recovered from its residual cell and the
    prediction: [(residual + prediction) mod num_syms] is the element,
    when elements and predictions are below [num_syms] (at most 256). *)
Theorem computeResiduals_residual_recovers_element st b fuel :
  tiled st b ->
  0 < num_syms (_params st) <= 256 ->
  Z.of_nat (length (_residuals st)) = size_x (_params st) * size_y (_params st) ->
  size_x (_params st) < Z.of_nat fuel -> size_y (_params st) < Z.of_nat fuel ->
  (forall x y, in_matrix st x y ->
     0 <= rd (data (_params st)) (x + y * size_x (_params st)) < num_syms (_params st)) ->
  (forall x y, in_matrix st x y -> 0 <= predict st x y < num_syms (_params st)) ->
  exists st',
    computeResiduals fuel st = Some st' /\
    forall x y,
      in_matrix st x y -> mask (_params st) x y = false ->
      getTile st x y < _normal_filter_count st ->
      (rd (_residuals st') (x + y * size_x (_params st)) + predict st x y)
        mod num_syms (_params st)
      = rd (data (_params st)) (x + y * size_x (_params st)).
Proof.
  intros Ht Hn Hlen Hfx Hfy Hdata Hpred.
  pose proof Ht as (Hb & _ & _ & Hsx & Hsy & Hx0 & Hxw & Hy0 & Hyw & _).
  pose proof (ts_pos st b Ht) as Hts.
  destruct (computeResiduals_total fuel st) as [st' Hrun];
    rewrite ?Hsx, ?Hsy, ?(u16_sx st b Ht), ?(u16_sy st b Ht); try lia.
  exists st'. split; [exact Hrun|].
  unfold computeResiduals in Hrun. cbv zeta in Hrun.
  match type of Hrun with context [for_tiles fuel st ?body ?s] =>
    destruct (for_tiles fuel st body s) as [[p R]|] eqn:Eloops; [|discriminate] end.
  injection Hrun as <-.
  destruct (computeResiduals_loops st b Ht fuel p R Hlen Eloops) as [_ Hgood].
  intros x y Hin Hm Hf. simpl _residuals.
  rewrite (Hgood x y Hin Hm Hf).
  destruct (cell_residual_mod st b Ht Hn x y (Hdata x y Hin) (Hpred x y Hin)) as [-> _].
  set (n := num_syms (_params st)) in *.
  specialize (Hdata x y Hin). specialize (Hpred x y Hin).
  set (v := rd (data (_params st)) (x + y * size_x (_params st))) in *.
  set (q := predict st x y) in *.
  rewrite Z.add_mod_idemp_l by lia.
  replace (v + n - q + q) with (v + 1 * n) by lia.
  rewrite Z.mod_add by lia. apply Z.mod_small. lia.
Qed.

(** X15.  The symbol under which write(), initializeEncoders() and
    simulate() code the filter of a tile determines the filter: with at
    most 128 filters, under RF_PREV the symbol is below the filter count
    and [(symbol + previous filter) mod filter count] is the filter,
    which becomes the previous filter; under RF_NOOP the symbol is the
    filter and the previous filter is left alone. *)
Theorem row_filter_symbol_determines_filter filter_count tile_row_filter f prev :
  0 < filter_count <= 128 -> 0 <= f < filter_count -> 0 <= prev < filter_count ->
  let rf := fst (row_filter_symbol filter_count tile_row_filter f prev) in
  let prev' := snd (row_filter_symbol filter_count tile_row_filter f prev) in
  0 <= rf < filter_count /\
  (tile_row_filter = RF_PREV -> (rf + prev) mod filter_count = f /\ prev' = f) /\
  (tile_row_filter <> RF_PREV -> rf = f /\ prev' = prev).
Proof.
  intros HF Hf Hp. cbv zeta. unfold row_filter_symbol.
  destruct (tile_row_filter =? RF_PREV) eqn:E.
  - apply Z.eqb_eq in E.
    assert (u8 (f + (filter_count - prev)) = f + (filter_count - prev)) as E1
      by (unfold u8; apply Z.mod_small; lia).
    rewrite E1.
    destruct (f + (filter_count - prev) >=? filter_count) eqn:Ege; simpl fst; simpl snd.
    + assert (u8 (f + (filter_count - prev) - filter_count) = f - prev) as E2
        by (unfold u8; rewrite Z.mod_small by lia; lia).
      rewrite E2. split; [lia|]. split; [|intros Hn; contradiction].
      intros _. split; [|reflexivity].
      replace (f - prev + prev) with f by lia. apply Z.mod_small. lia.
    + split; [lia|]. split; [|intros Hn; contradiction].
      intros _. split; [|reflexivity].
      replace (f + (filter_count - prev) + prev) with (f + 1 * filter_count) by lia.
      rewrite Z.mod_add by lia. apply Z.mod_small. lia.
  - apply Z.eqb_neq in E. simpl. split; [lia|]. split; [intros He; contradiction|auto].
Qed.

(** X16.  The tile-size field of the header is wide enough for every
    tile size process() tries: with the width process() computes,
    [bits - min_bits] is below [2 ^ width] for every [bits] from
    [min_bits] to [max_bits], and the width is 0 exactly when the two
    are equal. *)
Theorem tile_size_field_holds_every_tile_size st params bits :
  0 <= max_bits params - min_bits params < 4294967296 ->
  min_bits params <= bits <= max_bits params ->
  let width := _tile_bits_field_bc (process_start st params) in
  0 <= width /\
  0 <= bits - min_bits params < 2 ^ width /\
  (width = 0 <-> max_bits params = min_bits params).
Proof.
  intros Hr Hb. cbv zeta. unfold process_start. cbv zeta. simpl _tile_bits_field_bc.
  unfold u32. rewrite Z.mod_small by lia. unfold BSR32.
  set (range := max_bits params - min_bits params) in *.
  destruct (range >? 0) eqn:E.
  - assert (0 < range) as Hpos by lia.
    pose proof (Z.log2_spec range Hpos) as [_ Hup].
    pose proof (Z.log2_nonneg range) as Hnn.
    replace (Z.succ (Z.log2 range)) with (Z.log2 range + 1) in Hup by lia.
    split; [lia|]. split; [lia|]. split; intros H; lia.
  - split; [lia|]. simpl. split; [lia|]. split; intros H; lia.
Qed.

(** X17.  The tile-size loop of process() hands to its stages, for an
    exponent whose 16-bit counters do not wrap, the object on square
    tiles of size [2 ^ bits]: the tile map has as many columns and rows
    as it takes to cover the matrix, less than one tile beyond it, the
    tile count is their product, the tile buffer has one cell per tile
    and the parameters are untouched.  No stage assigns these fields:
    an iteration that ends leaves them so. *)
Theorem process_body_sets_up_tile_grid rec fuel bits st :
  grid_ok bits (_params st) ->
  process_body rec fuel bits st = process_stages rec fuel (process_grid bits st) /\
  tiled (process_grid bits st) bits /\
  _params (process_grid bits st) = _params st /\
  _tiles_count (process_grid bits st)
  = _tiles_x (process_grid bits st) * _tiles_y (process_grid bits st) /\
  Z.of_nat (length (_tiles (process_grid bits st)))
  = _tiles_count (process_grid bits st) /\
  size_x (_params st) <= _tiles_x (process_grid bits st) * 2 ^ bits
                      < size_x (_params st) + 2 ^ bits /\
  size_y (_params st) <= _tiles_y (process_grid bits st) * 2 ^ bits
                      < size_y (_params st) + 2 ^ bits /\
  (forall st', process_body rec fuel bits st = Some st' ->
               config_of st' = config_of (process_grid bits st)).
Proof.
  intros (Hb & Hx0 & Hxw & Hy0 & Hyw).
  assert (process_body rec fuel bits st
          = process_stages rec fuel (process_grid bits st)) as Hbody by reflexivity.
  split; [exact Hbody|].
  assert (config_of (process_grid bits st) =
          (_params st, _tile_bits_field_bc st, (u16 bits, u16 bits),
           (u16 (Z.shiftl 1 bits), u16 (Z.shiftl 1 bits)),
           (u16 (Z.shiftr (size_x (_params st) + u16 (Z.shiftl 1 bits) - 1) bits),
            u16 (Z.shiftr (size_y (_params st) + u16 (Z.shiftl 1 bits) - 1) bits),
            u16 (Z.shiftr (size_x (_params st) + u16 (Z.shiftl 1 bits) - 1) bits)
            * u16 (Z.shiftr (size_y (_params st) + u16 (Z.shiftl 1 bits) - 1) bits))))
    as C by reflexivity.
  assert (Z.of_nat (length (_tiles (process_grid bits st)))
          = u16 (Z.shiftr (size_x (_params st) + u16 (Z.shiftl 1 bits) - 1) bits)
            * u16 (Z.shiftr (size_y (_params st) + u16 (Z.shiftl 1 bits) - 1) bits))
    as Hlen.
  { unfold process_grid. cbv zeta. cbn [_tiles set_residuals set_tile_row_filters
      set_tiles]. rewrite length_resize; [reflexivity|].
    unfold u16. pose proof (Z.mod_pos_bound
      (Z.shiftr (size_x (_params st) + Z.shiftl 1 bits mod 65536 - 1) bits) 65536
      ltac:(lia)).
    pose proof (Z.mod_pos_bound
      (Z.shiftr (size_y (_params st) + Z.shiftl 1 bits mod 65536 - 1) bits) 65536
      ltac:(lia)).
    nia. }
  rewrite (tile_size_pow2 bits Hb) in C, Hlen.
  destruct (tiles_along bits (size_x (_params st)) Hb Hx0 Hxw) as [Ex Hxr].
  destruct (tiles_along bits (size_y (_params st)) Hb Hy0 Hyw) as [Ey Hyr].
  rewrite Ex, Ey in C, Hlen.
  assert (u16 bits = bits) as Eb by (unfold u16; apply Z.mod_small; lia).
  rewrite Eb in C.
  assert (forall st', process_body rec fuel bits st = Some st' ->
                      config_of st' = config_of (process_grid bits st)) as Hframe.
  { intros st' Hrun. pose proof (process_body_config _ _ _ _ _ Hrun) as C'.
    cbv zeta in C'. rewrite C'. symmetry.
    rewrite (tile_size_pow2 bits Hb), Ex, Ey, Eb. exact C. }
  set (g := process_grid bits st) in *. clearbody g.
  unfold config_of in C.
  injection C as Hp _ Hbx Hby Hsx Hsy Htx Hty Htc.
  pose proof (pow2_bits bits Hb) as Hts.
  assert (forall size, 0 <= size ->
            size <= (size + 2 ^ bits - 1) / 2 ^ bits * 2 ^ bits < size + 2 ^ bits) as Hcover.
  { intros size Hs.
    pose proof (Z.div_mod (size + 2 ^ bits - 1) (2 ^ bits) ltac:(lia)) as Hdm.
    pose proof (Z.mod_pos_bound (size + 2 ^ bits - 1) (2 ^ bits) ltac:(lia)) as Hmb.
    lia. }
  split.
  { unfold tiled. rewrite Hp, Hbx, Hby, Hsx, Hsy, Htx, Hty. repeat split; lia. }
  split; [exact Hp|]. split; [rewrite Htc, Htx, Hty; reflexivity|].
  split; [rewrite Htc; exact Hlen|].
  rewrite Htx, Hty.
  split; [apply Hcover; assumption|]. split; [apply Hcover; assumption|].
  exact Hframe.
Qed.

End RoundTrips.

(** X13 at the 2x1 input whose left element is masked: its residual
    cell is not written. *)
Lemma computeResiduals_leaves_skipped_cells_witness :
  let st := processed 10 params_left_masked in
  exists residuals,
    computeResiduals 10 st = Some (set_residuals residuals st) /\
    rd residuals 0 = rd (_residuals st) 0.
Proof.
  set (st := processed 10 params_left_masked).
  assert (size_x (_params st) = 2) as Esx by (vm_compute; reflexivity).
  assert (size_y (_params st) = 1) as Esy by (vm_compute; reflexivity).
  assert (tiled st 1) as Ht.
  { unfold tiled. rewrite Esx, Esy.
    repeat split; try (vm_compute; reflexivity); vm_compute; intros H; discriminate H. }
  assert (size_x (_params st) < Z.of_nat 10) as Hfx by (vm_compute; reflexivity).
  assert (size_y (_params st) < Z.of_nat 10) as Hfy by (vm_compute; reflexivity).
  destruct (computeResiduals_leaves_skipped_cells st 1 10 Ht Hfx Hfy)
    as (residuals & Hrun & Hall).
  exists residuals. split; [exact Hrun|].
  assert (in_matrix st 0 0) as Hin
    by (unfold in_matrix; rewrite Esx, Esy; clearbody st; clear; lia).
  assert (mask (_params st) 0 0 = true) as Hm by (vm_compute; reflexivity).
  pose proof (Hall 0 0 Hin (or_introl Hm)) as H. rewrite Esx in H.
  change (0 + 0 * 2) with 0 in H. exact H.
Defined.

(** X14 at the 2x2 input: the element at (1, 0) holds 2, filter 0
    predicts 0, and the residual cell gives 2 back. *)
Lemma computeResiduals_residual_recovers_element_witness :
  let st := processed 10 params_2x2 in
  exists st',
    computeResiduals 10 st = Some st' /\
    (rd (_residuals st') 1 + predict st 1 0) mod 4 = 2.
Proof.
  set (st := processed 10 params_2x2).
  assert (size_x (_params st) = 2) as Esx by (vm_compute; reflexivity).
  assert (size_y (_params st) = 2) as Esy by (vm_compute; reflexivity).
  assert (num_syms (_params st) = 4) as Ens by (vm_compute; reflexivity).
  assert (tiled st 1) as Ht.
  { unfold tiled. rewrite Esx, Esy.
    repeat split; try (vm_compute; reflexivity); vm_compute; intros H; discriminate H. }
  assert (0 < num_syms (_params st) <= 256) as Hn.
  { rewrite Ens. split; vm_compute; [reflexivity|intros H; discriminate H]. }
  assert (Z.of_nat (length (_residuals st)) = size_x (_params st) * size_y (_params st))
    as Hlen by (vm_compute; reflexivity).
  assert (size_x (_params st) < Z.of_nat 10) as Hfx by (vm_compute; reflexivity).
  assert (size_y (_params st) < Z.of_nat 10) as Hfy by (vm_compute; reflexivity).
  assert (forall x y, in_matrix st x y -> (x = 0 \/ x = 1) /\ (y = 0 \/ y = 1)) as Hcells.
  { unfold in_matrix. rewrite Esx, Esy. clearbody st. clear. intros x y. lia. }
  assert (forall x y, in_matrix st x y ->
            0 <= rd (data (_params st)) (x + y * size_x (_params st))
            < num_syms (_params st)) as Hdata.
  { intros x y Hin. destruct (Hcells x y Hin) as [[-> | ->] [-> | ->]];
      split; vm_compute; try reflexivity; intros H; discriminate H. }
  assert (forall x y, in_matrix st x y -> 0 <= predict st x y < num_syms (_params st))
    as Hpred.
  { intros x y Hin. destruct (Hcells x y Hin) as [[-> | ->] [-> | ->]];
      split; vm_compute; try reflexivity; intros H; discriminate H. }
  destruct (computeResiduals_residual_recovers_element st 1 10
              Ht Hn Hlen Hfx Hfy Hdata Hpred) as (st' & Hrun & Hres).
  exists st'. split; [exact Hrun|].
  assert (in_matrix st 1 0) as Hin.
  { unfold in_matrix. rewrite Esx, Esy. clearbody st. clear. lia. }
  assert (mask (_params st) 1 0 = false) as Hm by (vm_compute; reflexivity).
  assert (getTile st 1 0 < _normal_filter_count st) as Hf by (vm_compute; reflexivity).
  pose proof (Hres 1 0 Hin Hm Hf) as H. rewrite Esx, Ens in H.
  change (1 + 0 * 2) with 1 in H. rewrite H. vm_compute. reflexivity.
Defined.

(** X15 with four filters, filter 1 after filter 3: the symbol is 2 and
    [(2 + 3) mod 4] is 1. *)
Lemma row_filter_symbol_determines_filter_witness :
  fst (row_filter_symbol 4 RF_PREV 1 3) = 2 /\
  (fst (row_filter_symbol 4 RF_PREV 1 3) + 3) mod 4 = 1.
Proof.
  split; [reflexivity|].
  assert (0 < 4 <= 128) as HF by lia.
  assert (0 <= 1 < 4) as Hf by lia.
  assert (0 <= 3 < 4) as Hp by lia.
  destruct (row_filter_symbol_determines_filter 4 RF_PREV 1 3 HF Hf Hp)
    as (_ & Hprev & _).
  exact (proj1 (Hprev eq_refl)).
Defined.

(** X16 with tile sizes 2 and 4 to try: the field is one bit wide. *)
Lemma tile_size_field_holds_every_tile_size_witness :
  _tile_bits_field_bc (process_start MonoWriter_new params_1x1) = 1 /\
  0 <= 2 - min_bits params_1x1
  < 2 ^ _tile_bits_field_bc (process_start MonoWriter_new params_1x1).
Proof.
  split; [reflexivity|].
  assert (0 <= max_bits params_1x1 - min_bits params_1x1 < 4294967296) as Hr
    by (simpl; lia).
  assert (min_bits params_1x1 <= 2 <= max_bits params_1x1) as Hb by (simpl; lia).
  exact (proj1 (proj2 (tile_size_field_holds_every_tile_size
                         MonoWriter_new params_1x1 2 Hr Hb))).
Defined.

(** X17 at the 2x2 input with 2x2 tiles: one tile covers the matrix. *)
Lemma process_body_sets_up_tile_grid_witness :
  tiled (process_grid 1 (process_start MonoWriter_new params_2x2)) 1 /\
  _tiles_count (process_grid 1 (process_start MonoWriter_new params_2x2)) = 1.
Proof.
  assert (grid_ok 1 (_params (process_start MonoWriter_new params_2x2))) as Hg
    by (unfold grid_ok; simpl; lia).
  destruct (process_body_sets_up_tile_grid (process 5) 10 1
              (process_start MonoWriter_new params_2x2) Hg)
    as (_ & Ht & _ & _).
  split; [exact Ht|]. vm_compute. reflexivity.
Defined.

Section WriteFilter.
Context `{Prim : Primitives}.

Implicit Types (st : MonoWriter).

(** X18.  In row-filter mode with nothing masked, once write() has
    coded the first row of a tile row, the filter it tests for an
    element of any column is the one of the last tile of that tile row,
    the last it met: in the rows below, the tile of the element itself
    is not looked at. *)
Theorem write_row_leaves_filter_of_last_tile st b y :
  tiled st b ->
  _filter_encoder st = None ->
  (forall x y, in_matrix st x y -> mask (_params st) x y = false) ->
  _normal_filter_count st <= MASK_TILE ->
  Z.of_nat (length (_tile_seen st)) = _tiles_x st ->
  0 < size_x (_params st) ->
  0 <= y < size_y (_params st) -> y mod 2 ^ b = 0 ->
  let st' := fst (write_row st y) in
  forall x y', 0 <= x < size_x (_params st) ->
    filter_in_effect st' x y' = getTile st (size_x (_params st) - 1) y.
Proof.
  intros Htiled Hfe Hmask Hnfc Hlen Hsx Hy Hym st' x y' Hx. unfold st'.
  rewrite <- (with_write_state_of st) at 1.
  rewrite write_row_ok by (try exact Hfe; intros x0 Hx0; apply Hmask; split; assumption).
  cbn [fst].
  rewrite (tiles_x_eq st b Htiled) in Hlen.
  destruct (row_steps_first st b Htiled Hmask Hnfc y (write_state_of st) 0 0 Hy Hym Hlen)
    as (_ & Hstate & _).
  destruct (Hstate Hsx) as [Hseen Hfilter].
  set (w := fst (row_steps st y (write_state_of st))) in *.
  unfold filter_in_effect.
  change (_tile_bits_x (with_write_state st w)) with (_tile_bits_x st).
  change (_tile_seen (with_write_state st w)) with (w_seen w).
  change (_write_filter (with_write_state st w)) with (w_filter w).
  rewrite (tile_column st b Htiled x Hx).
  pose proof (ts_pos st b Htiled) as Hts.
  rewrite (Hseen (x / 2 ^ b)).
  - rewrite Hfilter, (getTile_div st b Htiled). reflexivity.
  - rewrite (tiles_x_eq st b Htiled). apply div_below_tiles; lia.
Qed.

End WriteFilter.

(** X18 on a 4x2 matrix of two 2x2 tiles, on filters 1 and 2: after the
    first row, the filter tested for the element at (0, 1), which lies
    in the first tile, is 2. *)
Lemma write_row_leaves_filter_of_last_tile_witness :
  getTile st_two_tiles 0 1 = 1 /\
  filter_in_effect (fst (write_row st_two_tiles 0)) 0 1 = 2.
Proof.
  split; [vm_compute; reflexivity|].
  set (st := st_two_tiles).
  assert (size_x (_params st) = 4) as Esx by (vm_compute; reflexivity).
  assert (size_y (_params st) = 2) as Esy by (vm_compute; reflexivity).
  assert (tiled st 1) as Ht.
  { unfold tiled. rewrite Esx, Esy.
    repeat split; try (vm_compute; reflexivity); vm_compute; intros H; discriminate H. }
  assert (_filter_encoder st = None) as Hfe by (vm_compute; reflexivity).
  assert (forall x y, in_matrix st x y -> mask (_params st) x y = false) as Hmask
    by (intros x y _; vm_compute; reflexivity).
  assert (_normal_filter_count st <= MASK_TILE) as Hnfc
    by (vm_compute; intros H; discriminate H).
  assert (Z.of_nat (length (_tile_seen st)) = _tiles_x st) as Hlen
    by (vm_compute; reflexivity).
  assert (0 < size_x (_params st)) as Hsx by (vm_compute; reflexivity).
  assert (0 <= 0 < size_y (_params st)) as Hy by (rewrite Esy; clearbody st; clear; lia).
  assert (0 mod 2 ^ 1 = 0) as Hym by reflexivity.
  assert (0 <= 0 < size_x (_params st)) as Hx by (rewrite Esx; clearbody st; clear; lia).
  rewrite (write_row_leaves_filter_of_last_tile st 1 0 Ht Hfe Hmask Hnfc Hlen Hsx Hy Hym
             0 1 Hx).
  vm_compute. reflexivity.
Defined.

(** * The palette writer *)

Section RasterLoops.

Lemma for_range_break_ind {T} (P : Z -> T -> Prop) (Q : T -> Prop) lo hi
    (body : Z -> T -> T * bool) s :
  lo <= hi -> P lo s ->
  (forall i acc, lo <= i < hi -> P i acc ->
     (snd (body i acc) = true -> P (i + 1) (fst (body i acc))) /\
     (snd (body i acc) = false -> Q (fst (body i acc)))) ->
  P hi (for_range_break lo hi body s) \/ Q (for_range_break lo hi body s).
Proof.
  intros Hle H0 Hstep. unfold for_range_break.
  assert (forall (n : nat) i acc, i + Z.of_nat n = hi -> lo <= i -> P i acc ->
            P hi (for_break_from n i body acc)
            \/ Q (for_break_from n i body acc)) as H.
  { induction n as [|n IH]; intros i acc Hi Hlo HP; simpl.
    - left. replace hi with i by lia. exact HP.
    - destruct (Hstep i acc) as [Hgo Hstop]; [lia|exact HP|].
      destruct (body i acc) as [s' go]. simpl in Hgo, Hstop. destruct go.
      + apply IH; [lia|lia|auto].
      + right. auto. }
  apply H; [lia|lia|exact H0].
Qed.

(** The two loops over the pixels, left by a [return] inside: [P k]
    holds before the pixel at offset [k], [Q] after the [return]. *)
Lemma raster_break_ind {T} (P : Z -> T -> Prop) (Q : T -> Prop)
    (stopped : T -> bool) w h (body : Z -> Z -> T -> T * bool) s :
  0 <= w -> 0 <= h -> P 0 s ->
  (forall k acc, P k acc -> stopped acc = false) ->
  (forall acc, Q acc -> stopped acc = true) ->
  (forall x y acc, 0 <= x < w -> 0 <= y < h -> P (x + y * w) acc ->
     (snd (body y x acc) = true -> P (x + y * w + 1) (fst (body y x acc))) /\
     (snd (body y x acc) = false -> Q (fst (body y x acc)))) ->
  P (w * h)
    (for_range_break 0 h
       (fun y s => let s' := for_range_break 0 w (body y) s in
                   (s', negb (stopped s'))) s)
  \/ Q (for_range_break 0 h
          (fun y s => let s' := for_range_break 0 w (body y) s in
                      (s', negb (stopped s'))) s).
Proof.
  intros Hw Hh H0 HP HQ Hstep.
  destruct (for_range_break_ind (fun y acc => P (y * w) acc) Q 0 h
              (fun y s => let s' := for_range_break 0 w (body y) s in
                          (s', negb (stopped s'))) s) as [H|H].
  - exact Hh.
  - exact H0.
  - intros y acc Hy Hacc. cbn [fst snd].
    destruct (for_range_break_ind (fun x acc => P (x + y * w) acc) Q 0 w
                (body y) acc) as [H|H].
    + exact Hw.
    + exact Hacc.
    + intros x a Hx Ha.
      replace (x + 1 + y * w) with (x + y * w + 1) by lia.
      apply Hstep; [exact Hx|lia|exact Ha].
    + split; intros Hs.
      * replace ((y + 1) * w) with (w + y * w) by lia. exact H.
      * rewrite (HP _ _ H) in Hs. discriminate Hs.
    + split; intros Hs.
      * rewrite (HQ _ H) in Hs. discriminate Hs.
      * exact H.
  - left. rewrite Z.mul_comm. exact H.
  - right. exact H.
Qed.

(** The two loops over the pixels without a [return]. *)
Lemma raster_loops_ind {T} (P : Z -> T -> Prop) w h
    (body : Z -> Z -> T -> T) s :
  0 <= w -> 0 <= h -> P 0 s ->
  (forall x y acc, 0 <= x < w -> 0 <= y < h -> P (x + y * w) acc ->
     P (x + y * w + 1) (body y x acc)) ->
  P (w * h) (for_range 0 h (fun y s => for_range 0 w (body y) s) s).
Proof.
  intros Hw Hh H0 Hstep.
  rewrite Z.mul_comm.
  apply (for_range_ind (fun y acc => P (y * w) acc)); [exact Hh|exact H0|].
  intros y acc Hy Hacc.
  replace ((y + 1) * w) with (w + y * w) by lia.
  apply (for_range_ind (fun x acc => P (x + y * w) acc)); [exact Hw|exact Hacc|].
  intros x a Hx Ha.
  replace (x + 1 + y * w) with (x + y * w + 1) by lia.
  apply Hstep; [exact Hx|lia|exact Ha].
Qed.

End RasterLoops.

Section PaletteGeneration.
Context `{Tools : PaletteTools}.

Lemma open_colors_before_step w k :
  0 <= k ->
  Palette.open_colors_before w (k + 1)
  = Palette.open_colors_before w k
    ++ (if Palette.open_pixel w k then [rd (Palette._rgba w) k] else []).
Proof.
  intros Hk. unfold Palette.open_colors_before.
  rewrite seqZ_snoc by exact Hk. rewrite List.filter_app, map_app.
  f_equal. cbn [List.filter]. destruct (Palette.open_pixel w k); reflexivity.
Qed.

Lemma open_colors_before_mono w k n c :
  0 <= k <= n ->
  c ∈ Palette.open_colors_before w k -> c ∈ Palette.open_colors_before w n.
Proof.
  intros Hkn. unfold Palette.open_colors_before.
  rewrite !list_elem_of_In, !in_map_iff.
  intros (j & Hj & Hin). exists j. split; [exact Hj|].
  apply filter_In in Hin. destruct Hin as [Hin Hopen].
  apply filter_In. split; [|exact Hopen].
  apply in_seqZ in Hin. apply in_seqZ. lia.
Qed.

Lemma open_pixel_at w x y :
  0 <= x < Palette._width w -> 0 <= y ->
  Palette.open_pixel w (x + y * Palette._width w)
  = negb (Palette.masked (Palette._mask w) x y
          || Palette.visited (Palette._lz w) x y).
Proof.
  intros Hx Hy. unfold Palette.open_pixel.
  destruct (tile_of_index (Palette._width w) x y Hx Hy) as [-> ->].
  reflexivity.
Qed.

Lemma open_color_of_pixel w x y :
  Palette.in_image w x y ->
  Palette.masked (Palette._mask w) x y = false ->
  Palette.visited (Palette._lz w) x y = false ->
  rd (Palette._rgba w) (Palette.pixel_offset w x y) ∈ Palette.open_colors w.
Proof.
  intros [Hx Hy] Hm Hv. unfold Palette.open_colors, Palette.open_colors_before.
  rewrite list_elem_of_In, in_map_iff.
  exists (Palette.pixel_offset w x y). split; [reflexivity|].
  apply filter_In. unfold Palette.pixel_offset. split.
  - apply in_seqZ. nia.
  - rewrite open_pixel_at by lia. rewrite Hm, Hv. reflexivity.
Qed.

Lemma map_indexes_none m palette c :
  Palette.map_indexes m palette -> m !! c = None -> c ∉ palette.
Proof.
  intros Hmap Hnone Hin.
  apply list_elem_of_lookup in Hin. destruct Hin as [i Hi].
  assert (m !! c = Some (Z.of_nat i)) as Hsome.
  { apply Hmap. split; [lia|]. rewrite Nat2Z.id. exact Hi. }
  rewrite Hnone in Hsome. discriminate Hsome.
Qed.

Lemma map_indexes_some m palette c i :
  Palette.map_indexes m palette -> m !! c = Some i ->
  0 <= i < Z.of_nat (length palette) /\ rd palette i = c.
Proof.
  intros Hmap Hsome. apply Hmap in Hsome. destruct Hsome as [H0 Hi].
  pose proof (lookup_lt_Some _ _ _ Hi) as Hlt. split; [lia|].
  unfold rd. destruct (0 <=? i) eqn:E; [|apply Z.leb_gt in E; lia].
  apply nth_lookup_Some with (d := 0) in Hi. exact Hi.
Qed.

Lemma map_indexes_member m palette c :
  Palette.map_indexes m palette -> c ∈ palette ->
  exists i, m !! c = Some i.
Proof.
  intros Hmap Hin. apply list_elem_of_lookup in Hin. destruct Hin as [i Hi].
  exists (Z.of_nat i). apply Hmap. split; [lia|]. rewrite Nat2Z.id. exact Hi.
Qed.

Lemma map_indexes_push m palette c :
  Palette.map_indexes m palette -> m !! c = None ->
  Palette.map_indexes (<[c := Z.of_nat (length palette)]> m) (palette ++ [c]).
Proof.
  intros Hmap Hnone d i.
  pose proof (map_indexes_none m palette c Hmap Hnone) as Hnot.
  destruct (decide (c = d)) as [->|Hne].
  - rewrite lookup_insert_eq. split.
    + intros Heq. injection Heq as <-. split; [lia|].
      rewrite Nat2Z.id. apply lookup_snoc_Some. right. split; reflexivity.
    + intros [H0 Hi]. apply lookup_snoc_Some in Hi.
      destruct Hi as [[_ Hi]|[Hi _]].
      * exfalso. apply Hnot. apply list_elem_of_lookup. exists (Z.to_nat i).
        exact Hi.
      * f_equal. lia.
  - rewrite lookup_insert_ne by exact Hne. rewrite (Hmap d i).
    rewrite lookup_snoc_Some. split.
    + intros [H0 Hi]. split; [exact H0|]. left. split; [|exact Hi].
      apply (lookup_lt_Some _ _ _ Hi).
    + intros [H0 [[_ Hi]|[_ Hi]]]; [split; assumption|contradiction].
Qed.

Lemma generatePalette_pixel_step w x y s :
  0 <= x < Palette._width w -> 0 <= y < Palette._height w ->
  Palette.scan_invariant w (x + y * Palette._width w) s ->
  (snd (Palette.generatePalette_pixel w y x s) = true ->
     Palette.scan_invariant w (x + y * Palette._width w + 1)
       (fst (Palette.generatePalette_pixel w y x s))) /\
  (snd (Palette.generatePalette_pixel w y x s) = false ->
     Palette.scan_overflow w (fst (Palette.generatePalette_pixel w y x s))).
Proof.
  intros Hx Hy (Hfull & Hptr & Hidx & Hnd & Hmem & Hmap & Hlen).
  set (k := x + y * Palette._width w) in *.
  assert (0 <= k) as Hk by (subst k; nia).
  assert (k + 1 <= Palette._width w * Palette._height w) as Hk1 by (subst k; nia).
  pose proof (open_colors_before_step w k Hk) as Hnext.
  unfold k in Hnext at 3. rewrite open_pixel_at in Hnext by lia.
  unfold Palette.generatePalette_pixel. rewrite Hptr.
  destruct (Palette.masked (Palette._mask w) x y
            || Palette.visited (Palette._lz w) x y) eqn:Hskip;
    cbn [negb] in Hnext.
  { cbn [fst snd]. split; [intros _|intros H; discriminate H].
    rewrite app_nil_r in Hnext.
    unfold Palette.scan_invariant. cbn [Palette.gp_color Palette.gp_colorIndex Palette.gp_map
      Palette.gp_palette Palette.gp_full]. rewrite Hnext.
    split_and!; try assumption; reflexivity. }
  destruct (Palette.gp_map s !! rd (Palette._rgba w) k) as [i|] eqn:Hlook.
  { cbn [fst snd]. split; [intros _|intros H; discriminate H].
    assert (rd (Palette._rgba w) k ∈ Palette.gp_palette s) as Hin.
    { apply list_elem_of_lookup. exists (Z.to_nat i). apply Hmap. exact Hlook. }
    unfold Palette.scan_invariant. cbn [Palette.gp_color Palette.gp_colorIndex Palette.gp_map
      Palette.gp_palette Palette.gp_full]. rewrite Hnext.
    split_and!; try assumption; try reflexivity.
    intros c. rewrite elem_of_app, list_elem_of_singleton, <- Hmem.
    split; [intros Hc; left; exact Hc|].
    intros [Hc|Hc]; [exact Hc|subst c; exact Hin]. }
  pose proof (map_indexes_none _ _ _ Hmap Hlook) as Hnot.
  assert (NoDup (Palette.gp_palette s ++ [rd (Palette._rgba w) k])) as Hnd'.
  { apply NoDup_app. split_and!; [exact Hnd| |apply NoDup_singleton].
    intros c Hc Hc'. apply list_elem_of_singleton in Hc'. subst c.
    exact (Hnot Hc). }
  assert (forall c, c ∈ Palette.gp_palette s ++ [rd (Palette._rgba w) k]
                    <-> c ∈ Palette.open_colors_before w (k + 1)) as Hmem'.
  { intros c. rewrite Hnext, !elem_of_app, <- Hmem. reflexivity. }
  destruct (Palette.gp_colorIndex s >=? PALETTE_MAX) eqn:Hge; cbn [fst snd].
  - split; [intros H; discriminate H|intros _].
    apply Z.geb_le in Hge.
    split; [reflexivity|]. cbn [Palette.gp_color Palette.gp_colorIndex Palette.gp_map
      Palette.gp_palette Palette.gp_full].
    exists (Palette.gp_palette s ++ [rd (Palette._rgba w) k]).
    split_and!.
    + exact Hnd'.
    + intros c Hc. apply (open_colors_before_mono w (k + 1)); [lia|].
      apply Hmem'. exact Hc.
    + rewrite length_app. cbn [length]. lia.
  - split; [intros _|intros H; discriminate H].
    assert (Palette.gp_colorIndex s < PALETTE_MAX) as Hlt.
    { destruct (Z_lt_ge_dec (Palette.gp_colorIndex s) PALETTE_MAX) as [H|H];
        [exact H|].
      apply Z.ge_le in H. apply Z.geb_le in H. rewrite H in Hge.
      discriminate Hge. }
    unfold Palette.scan_invariant. cbn [Palette.gp_color Palette.gp_colorIndex Palette.gp_map
      Palette.gp_palette Palette.gp_full].
    split_and!.
    + exact Hfull.
    + reflexivity.
    + rewrite length_app. cbn [length]. lia.
    + exact Hnd'.
    + exact Hmem'.
    + rewrite Hidx. apply map_indexes_push; assumption.
    + right. rewrite length_app. cbn [length]. lia.
Qed.

Lemma generatePalette_scan_spec w :
  Palette.fresh w -> 0 <= Palette._width w -> 0 <= Palette._height w ->
  Palette.scan_invariant w (Palette._width w * Palette._height w)
    (Palette.generatePalette_scan w)
  \/ Palette.scan_overflow w (Palette.generatePalette_scan w).
Proof.
  intros [Hmap Hpal] Hw Hh. unfold Palette.generatePalette_scan.
  apply (raster_break_ind (Palette.scan_invariant w) (Palette.scan_overflow w)
           Palette.gp_full).
  - exact Hw.
  - exact Hh.
  - rewrite Hmap, Hpal. unfold Palette.scan_invariant.
    cbn [Palette.gp_color Palette.gp_colorIndex Palette.gp_map
      Palette.gp_palette Palette.gp_full].
    split_and!; try reflexivity.
    + apply NoDup_nil_2.
    + intros c i. rewrite lookup_empty, lookup_nil.
      split; [intros Hc; discriminate Hc|intros [_ Hc]; discriminate Hc].
    + left. reflexivity.
  - intros k acc H. apply H.
  - intros acc H. apply H.
  - intros x y acc Hx Hy H. apply generatePalette_pixel_step; assumption.
Qed.

(** What generatePalette leaves when it says yes. *)
Lemma generatePalette_yes w :
  Palette.fresh w -> 0 <= Palette._width w -> 0 <= Palette._height w ->
  snd (Palette.generatePalette w) = true ->
  NoDup (Palette._palette (fst (Palette.generatePalette w))) /\
  (forall c, c ∈ Palette._palette (fst (Palette.generatePalette w))
             <-> c ∈ Palette.open_colors w) /\
  Palette.map_indexes (Palette._map (fst (Palette.generatePalette w)))
    (Palette._palette (fst (Palette.generatePalette w))) /\
  Palette._palette (fst (Palette.generatePalette w)) <> [] /\
  Z.of_nat (length (Palette._palette (fst (Palette.generatePalette w))))
  <= PALETTE_MAX.
Proof.
  intros Hfresh Hw Hh.
  pose proof (generatePalette_scan_spec w Hfresh Hw Hh) as Hscan.
  unfold Palette.generatePalette.
  destruct Hscan as [(Hfull & _ & Hidx & Hnd & Hmem & Hmap & Hlen)|[Hfull _]];
    rewrite Hfull; cbn [fst snd]; [|intros H; discriminate H].
  destruct (Palette.gp_colorIndex (Palette.generatePalette_scan w) =? 0) eqn:E;
    cbn [fst snd]; [intros H; discriminate H|intros _].
  apply Z.eqb_neq in E.
  cbn [Palette.set_palette Palette._palette Palette._map].
  assert (Palette.gp_palette (Palette.generatePalette_scan w) <> []) as Hne.
  { intros Hnil. rewrite Hnil in Hidx. cbn [length] in Hidx. lia. }
  split_and!; try assumption.
  destruct Hlen as [Hlen|Hlen]; [contradiction|exact Hlen].
Qed.

Lemma generatePalette_enabled w :
  Palette._enabled (fst (Palette.generatePalette w))
  = snd (Palette.generatePalette w).
Proof.
  unfold Palette.generatePalette.
  destruct (Palette.gp_full (Palette.generatePalette_scan w));
    [reflexivity|].
  destruct (Palette.gp_colorIndex (Palette.generatePalette_scan w) =? 0);
    reflexivity.
Qed.

(** generatePalette touches the map, the palette and [_enabled] only. *)
Lemma generatePalette_frame w :
  Palette._rgba (fst (Palette.generatePalette w)) = Palette._rgba w /\
  Palette._width (fst (Palette.generatePalette w)) = Palette._width w /\
  Palette._height (fst (Palette.generatePalette w)) = Palette._height w /\
  Palette._mask (fst (Palette.generatePalette w)) = Palette._mask w /\
  Palette._lz (fst (Palette.generatePalette w)) = Palette._lz w /\
  Palette._image (fst (Palette.generatePalette w)) = Palette._image w /\
  Palette._image_alloc (fst (Palette.generatePalette w))
  = Palette._image_alloc w.
Proof.
  unfold Palette.generatePalette.
  destruct (Palette.gp_full (Palette.generatePalette_scan w));
    [split_and!; reflexivity|].
  destruct (Palette.gp_colorIndex (Palette.generatePalette_scan w) =? 0);
    split_and!; reflexivity.
Qed.

End PaletteGeneration.

(** X19 (generatePalette): on a writer with an empty map and palette,
    generatePalette says yes exactly when the pixels that are neither
    masked nor visited by the LZ stage have at least one and at most
    PALETTE_MAX distinct colours, and [_enabled] is what it says.  The
    palette then holds each of these colours once and no other, and the
    map sends every colour to its place in the palette. *)
Theorem generatePalette_accepts_small_color_sets `{Tools : PaletteTools}
    (w : Palette.ImagePaletteWriter) :
  Palette.fresh w -> 0 <= Palette._width w -> 0 <= Palette._height w ->
  (snd (Palette.generatePalette w) = true
   <-> Palette.open_colors w <> []
       /\ Z.of_nat (length (remove_dups (Palette.open_colors w)))
          <= PALETTE_MAX) /\
  Palette._enabled (fst (Palette.generatePalette w))
  = snd (Palette.generatePalette w) /\
  (snd (Palette.generatePalette w) = true ->
   NoDup (Palette._palette (fst (Palette.generatePalette w))) /\
   (forall c, c ∈ Palette._palette (fst (Palette.generatePalette w))
              <-> c ∈ Palette.open_colors w) /\
   Palette.map_indexes (Palette._map (fst (Palette.generatePalette w)))
     (Palette._palette (fst (Palette.generatePalette w)))).
Proof.
  intros Hfresh Hw Hh. split; [|split].
  - split.
    + intros Hyes.
      destruct (generatePalette_yes w Hfresh Hw Hh Hyes)
        as (Hnd & Hmem & _ & Hne & Hlen).
      split.
      * intros Hnil. apply Hne.
        destruct (Palette._palette (fst (Palette.generatePalette w)))
          as [|c l]; [reflexivity|].
        assert (c ∈ Palette.open_colors w) as Hc by (apply Hmem; left).
        rewrite Hnil in Hc. apply elem_of_nil in Hc. contradiction.
      * rewrite <- (Permutation_length
                      (l := Palette._palette (fst (Palette.generatePalette w)))).
        { exact Hlen. }
        apply NoDup_Permutation; [exact Hnd|apply NoDup_remove_dups|].
        intros c. rewrite elem_of_remove_dups. apply Hmem.
    + intros [Hne Hcount].
      pose proof (generatePalette_scan_spec w Hfresh Hw Hh) as Hscan.
      unfold Palette.generatePalette.
      destruct Hscan
        as [(Hfull & _ & Hidx & _ & Hmem & _)|(Hfull & l & Hnd & Hsub & Hlen)];
        rewrite Hfull; cbn [fst snd].
      * destruct (Palette.gp_colorIndex (Palette.generatePalette_scan w) =? 0)
          eqn:E; cbn [fst snd]; [|reflexivity].
        apply Z.eqb_eq in E. exfalso. apply Hne.
        destruct (Palette.open_colors w) as [|c l] eqn:Ecol; [reflexivity|].
        assert (c ∈ Palette.gp_palette (Palette.generatePalette_scan w)) as Hc.
        { apply Hmem. fold (Palette.open_colors w). rewrite Ecol. left. }
        destruct (Palette.gp_palette (Palette.generatePalette_scan w));
          [apply elem_of_nil in Hc; contradiction|].
        cbn [length] in Hidx. lia.
      * exfalso.
        assert (length l <= length (remove_dups (Palette.open_colors w)))%nat
          as Hle.
        { apply submseteq_length. apply NoDup_submseteq; [exact Hnd|].
          intros c Hc. apply elem_of_remove_dups. apply Hsub. exact Hc. }
        lia.
  - apply generatePalette_enabled.
  - intros Hyes.
    destruct (generatePalette_yes w Hfresh Hw Hh Hyes)
      as (Hnd & Hmem & Hmap & _ & _).
    split; [exact Hnd|]. split; [exact Hmem|exact Hmap].
Qed.

Lemma generatePalette_accepts_small_color_sets_witness :
  snd (Palette.generatePalette palette_writer_input) = true /\
  Palette._palette (fst (Palette.generatePalette palette_writer_input))
  = [4278190335; 16711680] /\
  Palette.map_indexes
    (Palette._map (fst (Palette.generatePalette palette_writer_input)))
    (Palette._palette (fst (Palette.generatePalette palette_writer_input))).
Proof.
  assert (Palette.fresh palette_writer_input) as Hfresh.
  { split; reflexivity. }
  destruct (generatePalette_accepts_small_color_sets palette_writer_input
              Hfresh) as (_ & _ & Hyes).
  - vm_compute. intros H. discriminate H.
  - vm_compute. intros H. discriminate H.
  - split; [vm_compute; reflexivity|].
    split; [vm_compute; reflexivity|].
    apply Hyes. vm_compute. reflexivity.
Defined.

Section PaletteRaster.
Context `{Tools : PaletteTools}.

Lemma rd_lookup (l : list Z) i :
  0 <= i < Z.of_nat (length l) -> l !! Z.to_nat i = Some (rd l i).
Proof.
  intros Hi. unfold rd. destruct (0 <=? i) eqn:E; [|apply Z.leb_gt in E; lia].
  destruct (l !! Z.to_nat i) as [v|] eqn:El.
  - apply nth_lookup_Some with (d := 0) in El. rewrite El. reflexivity.
  - apply lookup_ge_None in El. lia.
Qed.

Lemma u8_small v : 0 <= v < 256 -> u8 v = v.
Proof. intros H. unfold u8. apply Z.mod_small. exact H. Qed.

(** The map sortPalette builds. *)
Lemma sortPalette_map (palette : list Z) :
  NoDup palette -> Z.of_nat (length palette) <= 256 ->
  Palette.map_indexes
    (for_range 0 (Z.of_nat (length palette))
       (fun ii (m : gmap Z Z) => <[rd palette ii := u8 ii]> m) ∅)
    palette.
Proof.
  intros Hnd Hlen.
  assert (forall c i,
            for_range 0 (Z.of_nat (length palette))
              (fun ii (m : gmap Z Z) => <[rd palette ii := u8 ii]> m) ∅ !! c
            = Some i
            <-> 0 <= i < Z.of_nat (length palette)
                /\ palette !! Z.to_nat i = Some c) as H.
  { apply (for_range_ind
             (fun k (m : gmap Z Z) =>
                forall c i, m !! c = Some i
                            <-> 0 <= i < k /\ palette !! Z.to_nat i = Some c)).
    - lia.
    - intros c i. rewrite lookup_empty.
      split; [intros Hc; discriminate Hc|intros [Hc _]; lia].
    - intros k m Hk IH c i.
      pose proof (rd_lookup palette k Hk) as Hat.
      rewrite u8_small by lia.
      destruct (decide (rd palette k = c)) as [Hc|Hc].
      + rewrite Hc in *. rewrite lookup_insert_eq. split.
        * intros Heq. injection Heq as <-. split; [lia|exact Hat].
        * intros [Hi Hl]. f_equal.
          pose proof (NoDup_lookup _ _ _ _ Hnd Hat Hl) as Heq. lia.
      + rewrite lookup_insert_ne by exact Hc. rewrite IH. split.
        * intros [Hi Hl]. split; [lia|exact Hl].
        * intros [Hi Hl]. split; [|exact Hl].
          destruct (Z.eq_dec i k) as [->|Hne]; [|lia].
          rewrite Hat in Hl. injection Hl as Hl. contradiction. }
  intros c i. rewrite H. split.
  - intros [Hi Hl]. split; [lia|exact Hl].
  - intros [Hi Hl]. split; [|exact Hl].
    pose proof (lookup_lt_Some _ _ _ Hl). lia.
Qed.

Lemma image_buffer_length w size :
  Palette.buffer_sized w -> 0 <= size ->
  size <= Z.of_nat (length (fst (Palette.image_buffer w size))).
Proof.
  intros Hbuf Hsize. unfold Palette.image_buffer.
  destruct (Palette._image w) as [image|] eqn:Eimage.
  - destruct (Palette._image_alloc w <? size) eqn:E; cbn [fst].
    + rewrite length_replicate. lia.
    + apply Z.ltb_ge in E. rewrite (Hbuf image Eimage). exact E.
  - cbn [fst]. rewrite length_replicate. lia.
Qed.

Lemma pixel_offset_inj w x y x' y' :
  0 <= x < Palette._width w -> 0 <= y ->
  0 <= x' < Palette._width w -> 0 <= y' ->
  x + y * Palette._width w = x' + y' * Palette._width w ->
  x = x' /\ y = y'.
Proof.
  intros Hx Hy Hx' Hy' Heq.
  destruct (tile_of_index (Palette._width w) x y Hx Hy) as [Hm Hd].
  destruct (tile_of_index (Palette._width w) x' y' Hx' Hy') as [Hm' Hd'].
  rewrite Heq in Hm, Hd. split; congruence.
Qed.

(** What generateImage leaves: an index for every pixel of the image,
    and a map that gives the indices it gave before. *)
Lemma generateImage_run w :
  0 <= Palette._width w -> 0 <= Palette._height w ->
  Palette.buffer_sized w ->
  exists image,
    Palette._image (Palette.generateImage w) = Some image /\
    (forall x y, Palette.in_image w x y ->
       rd image (Palette.pixel_offset w x y) = Palette.pixel_index w x y) /\
    (forall c, default 0 (Palette._map (Palette.generateImage w) !! c)
               = default 0 (Palette._map w !! c)).
Proof.
  intros Hw Hh Hbuf. unfold Palette.generateImage.
  pose proof (image_buffer_length w (Palette._width w * Palette._height w)
                Hbuf ltac:(nia)) as Hlen.
  destruct (Palette.image_buffer w (Palette._width w * Palette._height w))
    as [image alloc]. cbn [fst] in Hlen.
  cbn [Palette.set_image Palette._image Palette._map].
  eexists. split; [reflexivity|].
  assert (forall s,
    Palette.gi_color s = Palette._width w * Palette._height w /\
    Palette.gi_image s = Palette._width w * Palette._height w /\
    length (Palette.gi_raster s) = length image /\
    (forall c, default 0 (Palette.gi_map s !! c)
               = default 0 (Palette._map w !! c)) /\
    (forall x y, Palette.in_image w x y ->
       x + y * Palette._width w < Palette._width w * Palette._height w ->
       rd (Palette.gi_raster s) (x + y * Palette._width w)
       = Palette.pixel_index w x y) ->
    (forall x y, Palette.in_image w x y ->
       rd (Palette.gi_raster s) (Palette.pixel_offset w x y)
       = Palette.pixel_index w x y) /\
    (forall c, default 0 (Palette.gi_map s !! c)
               = default 0 (Palette._map w !! c))) as Hend.
  { intros s (_ & _ & _ & Hmap & Hpix). split; [|exact Hmap].
    intros x y Hin. apply Hpix; [exact Hin|]. destruct Hin. nia. }
  apply Hend.
  apply (raster_loops_ind
    (fun k s =>
       Palette.gi_color s = k /\ Palette.gi_image s = k /\
       length (Palette.gi_raster s) = length image /\
       (forall c, default 0 (Palette.gi_map s !! c)
                  = default 0 (Palette._map w !! c)) /\
       (forall x y, Palette.in_image w x y ->
          x + y * Palette._width w < k ->
          rd (Palette.gi_raster s) (x + y * Palette._width w)
          = Palette.pixel_index w x y))).
  - exact Hw.
  - exact Hh.
  - cbn [Palette.gi_color Palette.gi_image Palette.gi_raster Palette.gi_map].
    split_and!; try reflexivity.
    intros x y [Hx Hy] Hlt. nia.
  - intros x y s Hx Hy (Hc & Hi & Hl & Hmap & Hpix).
    set (k := x + y * Palette._width w) in *.
    assert (0 <= k < Palette._width w * Palette._height w) as Hk
      by (subst k; nia).
    assert (forall v,
      length (wr (Palette.gi_raster s) k v) = length image /\
      (Palette.pixel_index w x y = v ->
       forall x' y', Palette.in_image w x' y' ->
         x' + y' * Palette._width w < k + 1 ->
         rd (wr (Palette.gi_raster s) k v) (x' + y' * Palette._width w)
         = Palette.pixel_index w x' y')) as Hwr.
    { intros v. split; [rewrite length_wr; exact Hl|].
      intros Hv x' y' Hin' Hlt.
      destruct (Z.eq_dec (x' + y' * Palette._width w) k) as [Heq|Hne].
      - rewrite Heq. rewrite rd_wr_eq by lia.
        destruct Hin' as [Hx' Hy'].
        destruct (pixel_offset_inj w x' y' x y) as [-> ->];
          [lia|lia|lia|lia|exact Heq|].
        symmetry. exact Hv.
      - rewrite rd_wr_ne by (intros E; apply Hne; symmetry; exact E).
        apply Hpix; [exact Hin'|lia]. }
    unfold Palette.generateImage_pixel. rewrite Hc, Hi.
    unfold Palette.pixel_index in Hwr at 1. unfold Palette.pixel_offset in Hwr.
    fold k in Hwr.
    destruct (Palette.masked (Palette._mask w) x y).
    + cbn [Palette.gi_color Palette.gi_image Palette.gi_raster Palette.gi_map].
      destruct (Hwr (u8 (Palette.mask_index w))) as [Hl' Hpix'].
      split_and!; try reflexivity; try assumption.
      apply Hpix'. reflexivity.
    + pose proof (Hmap (rd (Palette._rgba w) k)) as Hdef.
      destruct (Palette.gi_map s !! rd (Palette._rgba w) k) as [i|] eqn:Hlook;
        cbn [Palette.gi_color Palette.gi_image Palette.gi_raster
               Palette.gi_map]; cbn [default from_option id] in Hdef.
      * destruct (Hwr (u8 i)) as [Hl' Hpix'].
        split_and!; try reflexivity; try assumption.
        apply Hpix'. rewrite <- Hdef. reflexivity.
      * destruct (Hwr (u8 0)) as [Hl' Hpix'].
        split_and!; try reflexivity; try assumption.
        -- intros c.
           destruct (decide (rd (Palette._rgba w) k = c)) as [<-|Hne].
           ++ rewrite lookup_insert_eq. cbn [default from_option id]. exact Hdef.
           ++ rewrite lookup_insert_ne by exact Hne. apply Hmap.
        -- apply Hpix'. rewrite <- Hdef. reflexivity.
Qed.

Lemma generateImage_frame w :
  Palette._palette (Palette.generateImage w) = Palette._palette w /\
  Palette._enabled (Palette.generateImage w) = Palette._enabled w /\
  Palette._masked_palette (Palette.generateImage w) = Palette.mask_index w.
Proof.
  unfold Palette.generateImage.
  destruct (Palette.image_buffer w (Palette._width w * Palette._height w)).
  split_and!; reflexivity.
Qed.

End PaletteRaster.

(** X20 (generateImage): for every pixel of the image the raster holds
    the low byte of the mask's index when the pixel is masked, and
    otherwise the low byte of the index the map has for the colour of
    the pixel, 0 when the map does not have the colour.  The mask's
    index is the one the map has for the colour of the mask, 0 without
    one.  The palette is left as it was, and the map gives every
    colour the index it gave before. *)
Theorem generateImage_writes_an_index_per_pixel `{Tools : PaletteTools}
    (w : Palette.ImagePaletteWriter) :
  0 <= Palette._width w -> 0 <= Palette._height w ->
  Palette.buffer_sized w ->
  (forall x y, Palette.in_image w x y ->
     rd (Palette.raster (Palette.generateImage w)) (Palette.pixel_offset w x y)
     = Palette.pixel_index w x y) /\
  Palette._masked_palette (Palette.generateImage w) = Palette.mask_index w /\
  Palette._palette (Palette.generateImage w) = Palette._palette w /\
  (forall c, default 0 (Palette._map (Palette.generateImage w) !! c)
             = default 0 (Palette._map w !! c)).
Proof.
  intros Hw Hh Hbuf.
  destruct (generateImage_run w Hw Hh Hbuf) as (image & Himage & Hpix & Hmap).
  destruct (generateImage_frame w) as (Hpal & _ & Hmasked).
  split_and!.
  - intros x y Hin. unfold Palette.raster. rewrite Himage.
    apply Hpix. exact Hin.
  - exact Hmasked.
  - exact Hpal.
  - exact Hmap.
Qed.

Lemma generateImage_writes_an_index_per_pixel_witness :
  Palette.raster (Palette.generateImage
                    (fst (Palette.generatePalette palette_writer_input)))
  = [0; 1; 0; 0; 1; 0] /\
  rd (Palette.raster (Palette.generateImage
                        (fst (Palette.generatePalette palette_writer_input))))
     (Palette.pixel_offset
        (fst (Palette.generatePalette palette_writer_input)) 0 1)
  = Palette.pixel_index (fst (Palette.generatePalette palette_writer_input)) 0 1.
Proof.
  split; [vm_compute; reflexivity|].
  assert (0 <= Palette._width
                 (fst (Palette.generatePalette palette_writer_input))) as Hw.
  { vm_compute. intros H. discriminate H. }
  assert (0 <= Palette._height
                 (fst (Palette.generatePalette palette_writer_input))) as Hh.
  { vm_compute. intros H. discriminate H. }
  assert (Palette.buffer_sized
            (fst (Palette.generatePalette palette_writer_input))) as Hbuf.
  { intros image H. vm_compute in H. discriminate H. }
  assert (Palette.in_image
            (fst (Palette.generatePalette palette_writer_input)) 0 1) as Hin.
  { split; vm_compute; split;
      first [reflexivity|intros H; discriminate H]. }
  destruct (generateImage_writes_an_index_per_pixel
              (fst (Palette.generatePalette palette_writer_input)) Hw Hh Hbuf)
    as (Hpix & _).
  exact (Hpix 0 1 Hin).
Defined.

Section PaletteInit.
Context `{Tools : PaletteTools}.

Lemma sortPalette_frame w :
  Palette._rgba (Palette.sortPalette w) = Palette._rgba w /\
  Palette._width (Palette.sortPalette w) = Palette._width w /\
  Palette._height (Palette.sortPalette w) = Palette._height w /\
  Palette._mask (Palette.sortPalette w) = Palette._mask w /\
  Palette._lz (Palette.sortPalette w) = Palette._lz w /\
  Palette._image (Palette.sortPalette w) = Palette._image w /\
  Palette._image_alloc (Palette.sortPalette w) = Palette._image_alloc w /\
  Palette._enabled (Palette.sortPalette w) = Palette._enabled w /\
  Palette._palette (Palette.sortPalette w)
  = std_sort Palette.compareColors (Palette._palette w).
Proof. split_and!; reflexivity. Qed.

(** After generatePalette said yes and sortPalette ran, the map still
    sends every colour of an open pixel to its place in the palette. *)
Lemma sorted_palette_indexes w :
  Palette.fresh w -> 0 <= Palette._width w -> 0 <= Palette._height w ->
  PALETTE_MAX <= 256 ->
  (forall l, std_sort Palette.compareColors l ≡ₚ l) ->
  snd (Palette.generatePalette w) = true ->
  Palette.map_indexes
    (Palette._map (Palette.sortPalette (fst (Palette.generatePalette w))))
    (Palette._palette (Palette.sortPalette (fst (Palette.generatePalette w))))
  /\ (forall c, c ∈ Palette.open_colors w ->
        c ∈ Palette._palette
              (Palette.sortPalette (fst (Palette.generatePalette w))))
  /\ Z.of_nat (length (Palette._palette
                 (Palette.sortPalette (fst (Palette.generatePalette w)))))
     <= 256.
Proof.
  intros Hfresh Hw Hh Hmax Hsort Hyes.
  destruct (generatePalette_yes w Hfresh Hw Hh Hyes)
    as (Hnd & Hmem & _ & _ & Hlen).
  set (w2 := fst (Palette.generatePalette w)) in *.
  pose proof (Hsort (Palette._palette w2)) as Hperm.
  unfold Palette.sortPalette.
  cbn [Palette.set_palette Palette._map Palette._palette].
  split_and!.
  - apply sortPalette_map.
    + rewrite Hperm. exact Hnd.
    + rewrite Hperm. lia.
  - intros c Hc. rewrite Hperm. apply Hmem. exact Hc.
  - rewrite Hperm. lia.
Qed.

End PaletteInit.

(** X21 (initFromRGBA): when the writer is enabled after initFromRGBA on
    a writer with an empty map and palette, the palette read at the
    index the raster holds for a pixel is the colour of that pixel, for
    every pixel that is neither masked nor visited by the LZ stage.
    PALETTE_MAX is 256 at most, as write checks, and the sort returns
    the colours it was given, in some order. *)
Theorem initFromRGBA_palette_reads_back `{Tools : PaletteTools}
    (w0 : Palette.ImagePaletteWriter) (rgba : list Z) (width height : Z)
    (mask : Palette.ImageMaskWriter) (lz : Palette.ImageLZWriter) :
  Palette.fresh w0 -> Palette.buffer_sized w0 ->
  0 <= width -> 0 <= height -> PALETTE_MAX <= 256 ->
  (forall l, std_sort Palette.compareColors l ≡ₚ l) ->
  Palette._enabled (Palette.initFromRGBA w0 rgba width height mask lz) = true ->
  forall x y, 0 <= x < width -> 0 <= y < height ->
    Palette.masked mask x y = false -> Palette.visited lz x y = false ->
    rd (Palette._palette (Palette.initFromRGBA w0 rgba width height mask lz))
       (rd (Palette.raster (Palette.initFromRGBA w0 rgba width height mask lz))
           (x + y * width))
    = rd rgba (x + y * width).
Proof.
  intros [Hmap0 Hpal0] Hbuf Hw Hh Hmax Hsort.
  unfold Palette.initFromRGBA.
  set (w1 := Palette.set_source rgba width height mask lz w0).
  assert (Palette.fresh w1) as Hfresh by (split; assumption).
  pose proof (generatePalette_enabled w1) as Hen.
  pose proof (generatePalette_frame w1)
    as (Frgba & Fwidth & Fheight & Fmask & Flz & Fimage & Falloc).
  pose proof (sorted_palette_indexes w1 Hfresh Hw Hh Hmax Hsort) as Hsorted.
  destruct (Palette.generatePalette w1) as [w2 generated].
  cbn [fst snd] in *.
  destruct generated.
  2:{ intros Hyes. rewrite Hyes in Hen. discriminate Hen. }
  intros _ x y Hx Hy Hmask Hlz.
  destruct (Hsorted eq_refl) as (Hindexes & Hmem & Hlen).
  set (w3 := Palette.sortPalette w2) in *.
  assert (Palette._width w3 = width /\ Palette._height w3 = height /\
          Palette._rgba w3 = rgba /\ Palette._mask w3 = mask) as (Ew & Eh & Er & Em).
  { split_and!; [exact Fwidth|exact Fheight|exact Frgba|exact Fmask]. }
  assert (Palette.buffer_sized w3) as Hbuf3.
  { intros image Himage. change (Palette._image w3) with (Palette._image w2) in Himage.
    change (Palette._image_alloc w3) with (Palette._image_alloc w2).
    rewrite Fimage in Himage. rewrite Falloc. apply Hbuf. exact Himage. }
  destruct (generateImage_run w3) as (image & Himage & Hpix & _);
    [rewrite Ew; exact Hw|rewrite Eh; exact Hh|exact Hbuf3|].
  destruct (generateImage_frame w3) as (Hpal & _ & _).
  unfold Palette.raster. rewrite Himage, Hpal.
  assert (Palette.in_image w3 x y) as Hin.
  { unfold Palette.in_image. rewrite Ew, Eh. split; assumption. }
  specialize (Hpix x y Hin).
  unfold Palette.pixel_offset, Palette.pixel_index, Palette.pixel_offset in Hpix.
  rewrite Ew, Er, Em, Hmask in Hpix. rewrite Hpix.
  assert (rd rgba (x + y * width) ∈ Palette._palette w3) as Hc.
  { apply Hmem.
    pose proof (open_color_of_pixel w1 x y) as Hopen.
    unfold Palette.pixel_offset in Hopen. apply Hopen.
    - split; assumption.
    - exact Hmask.
    - exact Hlz. }
  destruct (map_indexes_member _ _ _ Hindexes Hc) as [i Hi].
  rewrite Hi. cbn [default from_option id].
  destruct (map_indexes_some _ _ _ _ Hindexes Hi) as [Hrange Hrd].
  rewrite u8_small by lia. exact Hrd.
Qed.

Section InsertionSort.

Lemma insert_sorted_perm lt c l : insert_sorted lt c l ≡ₚ c :: l.
Proof.
  induction l as [|d l IH]; cbn [insert_sorted]; [reflexivity|].
  destruct (lt d c); [|reflexivity].
  rewrite IH. apply perm_swap.
Qed.

Lemma insertion_sort_perm lt l : fold_right (insert_sorted lt) [] l ≡ₚ l.
Proof.
  induction l as [|c l IH]; cbn [fold_right]; [reflexivity|].
  rewrite insert_sorted_perm, IH. reflexivity.
Qed.

End InsertionSort.

Lemma initFromRGBA_palette_reads_back_witness :
  Palette._palette
    (Palette.initFromRGBA palette_writer_new palette_input_rgba 3 2
       palette_input_mask palette_input_lz)
  = [16711680; 4278190335] /\
  rd (Palette._palette
        (Palette.initFromRGBA palette_writer_new palette_input_rgba 3 2
           palette_input_mask palette_input_lz))
     (rd (Palette.raster
            (Palette.initFromRGBA palette_writer_new palette_input_rgba 3 2
               palette_input_mask palette_input_lz))
         (1 + 1 * 3))
  = rd palette_input_rgba (1 + 1 * 3).
Proof.
  split; [vm_compute; reflexivity|].
  apply (initFromRGBA_palette_reads_back palette_writer_new
           palette_input_rgba 3 2 palette_input_mask palette_input_lz).
  - split; reflexivity.
  - intros image H. discriminate H.
  - lia.
  - lia.
  - vm_compute. intros H. discriminate H.
  - intros l. apply insertion_sort_perm.
  - vm_compute. reflexivity.
  - lia.
  - lia.
  - reflexivity.
  - reflexivity.
Defined.

Section PaletteStream.
Context `{Prim : Primitives} `{Tools : PaletteTools}.

Lemma write_words (palette : list Z) tr bits :
  for_range 0 (Z.of_nat (length palette))
    (fun ii '(tr, bits) =>
       (tr ++ [Palette.writeWord (getLE (rd palette ii))], bits + 32))
    (tr, bits)
  = (tr ++ map (fun c => Palette.writeWord (getLE c)) palette,
     bits + 32 * Z.of_nat (length palette)).
Proof.
  assert (for_range 0 (Z.of_nat (length palette))
            (fun ii '(tr, bits) =>
               (tr ++ [Palette.writeWord (getLE (rd palette ii))], bits + 32))
            (tr, bits)
          = (tr ++ map (fun c => Palette.writeWord (getLE c))
                     (take (Z.to_nat (Z.of_nat (length palette))) palette),
             bits + 32 * Z.of_nat (length palette))) as H.
  { apply (for_range_ind
      (fun k acc =>
         acc = (tr ++ map (fun c => Palette.writeWord (getLE c))
                        (take (Z.to_nat k) palette),
                bits + 32 * k))).
    - lia.
    - cbn [Z.to_nat take map]. rewrite app_nil_r. f_equal. lia.
    - intros k acc Hk ->.
      replace (Z.to_nat (k + 1)) with (S (Z.to_nat k)) by lia.
      rewrite (take_S_r palette (Z.to_nat k) (rd palette k))
        by (apply rd_lookup; lia).
      rewrite map_app, app_assoc. cbn [map]. f_equal. lia. }
  rewrite H. rewrite Nat2Z.id, firstn_all. reflexivity.
Qed.

End PaletteStream.

(** X22 (write): for an enabled writer with fewer than 40 colours, write
    emits the bit 1, the palette size less one in 8 bits, the mask's
    index in 8 bits, the bit 0, and then every colour of the palette as
    one 32-bit word, in palette order; the count it keeps is 18 bits
    and 32 for each colour. *)
Theorem write_small_palette_layout `{Prim : Primitives} `{Tools : PaletteTools}
    (w : Palette.ImagePaletteWriter) :
  Palette._enabled w = true ->
  Z.of_nat (length (Palette._palette w)) < 40 ->
  Palette.write w
  = ([Palette.writeBit 1;
      Palette.writeBits (Z.of_nat (length (Palette._palette w)) - 1) 8;
      Palette.writeBits (Palette._masked_palette w) 8;
      Palette.writeBit 0]
     ++ map (fun c => Palette.writeWord (getLE c)) (Palette._palette w),
     18 + 32 * Z.of_nat (length (Palette._palette w))).
Proof.
  intros Hen Hsmall. unfold Palette.write. rewrite Hen.
  apply Z.ltb_lt in Hsmall. rewrite Hsmall.
  rewrite write_words. reflexivity.
Qed.

Lemma write_small_palette_layout_witness :
  Palette.write
    (Palette.initFromRGBA palette_writer_new palette_input_rgba 3 2
       palette_input_mask palette_input_lz)
  = ([Palette.writeBit 1; Palette.writeBits 1 8; Palette.writeBits 0 8;
      Palette.writeBit 0; Palette.writeWord 16711680;
      Palette.writeWord 4278190335], 82).
Proof.
  rewrite (write_small_palette_layout
             (Palette.initFromRGBA palette_writer_new palette_input_rgba 3 2
                palette_input_mask palette_input_lz)).
  - vm_compute. reflexivity.
  - vm_compute. reflexivity.
  - vm_compute. reflexivity.
Defined.

(** X23 (compareColors): for two colours of which the first has the
    smaller alpha byte and the greater luminance, compareColors says
    yes in both orders: it is not the strict order std::sort asks
    for. *)
Theorem compareColors_holds_both_ways `{Tools : PaletteTools} (a b : Z) :
  Palette.alpha_of a < Palette.alpha_of b ->
  luma_less (Palette.rgb_of b) (Palette.rgb_of a) = true ->
  Palette.compareColors a b = true /\ Palette.compareColors b a = true.
Proof.
  unfold Palette.alpha_of, Palette.rgb_of. intros Halpha Hluma. split.
  - unfold Palette.compareColors. cbv zeta.
    apply Z.ltb_lt in Halpha. rewrite Halpha. reflexivity.
  - unfold Palette.compareColors. cbv zeta.
    destruct (u8 (Z.shiftr (swapLE b) 24) <? u8 (Z.shiftr (swapLE a) 24));
      [reflexivity|].
    rewrite Hluma. reflexivity.
Qed.

Lemma compareColors_holds_both_ways_witness :
  Palette.compareColors 33554431 33554432 = true /\
  Palette.compareColors 33554432 33554431 = true.
Proof.
  apply (compareColors_holds_both_ways 33554431 33554432).
  - vm_compute. reflexivity.
  - vm_compute. reflexivity.
Defined.

Section PaletteReuse.
Context `{Tools : PaletteTools}.

Lemma for_range_break_keeps {T} (P : T -> Prop) lo hi
    (body : Z -> T -> T * bool) s :
  P s -> (forall i acc, P acc -> P (fst (body i acc))) ->
  P (for_range_break lo hi body s).
Proof.
  intros H0 Hstep. unfold for_range_break.
  generalize (Z.to_nat (hi - lo)). intros n. revert lo s H0.
  induction n as [|n IH]; intros lo s H0; cbn [for_break_from]; [exact H0|].
  pose proof (Hstep lo s H0) as Hs.
  destruct (body lo s) as [s' go]. cbn [fst] in Hs.
  destruct go; [apply IH; exact Hs|exact Hs].
Qed.

Lemma generatePalette_pixel_keeps w y x s :
  (exists more, Palette.gp_palette s = Palette._palette w ++ more) /\
  (forall c i, Palette._map w !! c = Some i ->
               Palette.gp_map s !! c = Some i) ->
  (exists more,
     Palette.gp_palette (fst (Palette.generatePalette_pixel w y x s))
     = Palette._palette w ++ more) /\
  (forall c i, Palette._map w !! c = Some i ->
     Palette.gp_map (fst (Palette.generatePalette_pixel w y x s)) !! c
     = Some i).
Proof.
  intros [[more Hpal] Hmap]. unfold Palette.generatePalette_pixel.
  destruct (Palette.masked (Palette._mask w) x y
            || Palette.visited (Palette._lz w) x y).
  { cbn [fst Palette.gp_palette Palette.gp_map].
    split; [exists more; exact Hpal|exact Hmap]. }
  destruct (Palette.gp_map s !! rd (Palette._rgba w) (Palette.gp_color s))
    as [j|] eqn:Hlook.
  { cbn [fst Palette.gp_palette Palette.gp_map].
    split; [exists more; exact Hpal|exact Hmap]. }
  destruct (Palette.gp_colorIndex s >=? PALETTE_MAX);
    cbn [fst Palette.gp_palette Palette.gp_map].
  - split; [exists more; exact Hpal|exact Hmap].
  - split.
    + exists (more ++ [rd (Palette._rgba w) (Palette.gp_color s)]).
      rewrite Hpal, app_assoc. reflexivity.
    + intros c i Hc. rewrite lookup_insert_ne; [apply Hmap; exact Hc|].
      intros Heq. subst c. rewrite (Hmap _ _ Hc) in Hlook. discriminate Hlook.
Qed.

Lemma generatePalette_scan_keeps w :
  (exists more,
     Palette.gp_palette (Palette.generatePalette_scan w)
     = Palette._palette w ++ more) /\
  (forall c i, Palette._map w !! c = Some i ->
     Palette.gp_map (Palette.generatePalette_scan w) !! c = Some i).
Proof.
  unfold Palette.generatePalette_scan.
  apply (for_range_break_keeps
    (fun s =>
       (exists more, Palette.gp_palette s = Palette._palette w ++ more) /\
       (forall c i, Palette._map w !! c = Some i ->
                    Palette.gp_map s !! c = Some i))).
  - cbn [Palette.gp_palette Palette.gp_map].
    split; [exists []; rewrite app_nil_r; reflexivity|].
    intros c i Hc. exact Hc.
  - intros y acc Hacc. cbn [fst].
    apply (for_range_break_keeps
      (fun s =>
         (exists more, Palette.gp_palette s = Palette._palette w ++ more) /\
         (forall c i, Palette._map w !! c = Some i ->
                      Palette.gp_map s !! c = Some i))).
    + exact Hacc.
    + intros x a Ha. apply generatePalette_pixel_keeps. exact Ha.
Qed.

End PaletteReuse.

(** X24 (generatePalette): generatePalette never takes a colour out:
    the palette the writer had is the beginning of the palette it
    leaves, and every colour of the map keeps its index, whatever the
    answer is.  A writer used for a second image keeps the colours of
    the first. *)
Theorem generatePalette_keeps_earlier_colors `{Tools : PaletteTools}
    (w : Palette.ImagePaletteWriter) :
  (exists more,
     Palette._palette (fst (Palette.generatePalette w))
     = Palette._palette w ++ more) /\
  (forall c i, Palette._map w !! c = Some i ->
     Palette._map (fst (Palette.generatePalette w)) !! c = Some i).
Proof.
  destruct (generatePalette_scan_keeps w) as [[more Hpal] Hmap].
  unfold Palette.generatePalette.
  destruct (Palette.gp_full (Palette.generatePalette_scan w)).
  - cbn [fst Palette.set_palette Palette._palette Palette._map].
    split; [exists more; exact Hpal|exact Hmap].
  - destruct (Palette.gp_colorIndex (Palette.generatePalette_scan w) =? 0);
      cbn [fst Palette.set_palette Palette._palette Palette._map].
    + split; [exists more; exact Hpal|exact Hmap].
    + split; [exists more; exact Hpal|exact Hmap].
Qed.

Section WrapNeg.

Lemma wrapNeg_bytes :
  forallb (fun p => wrapNeg p
                    =? (if 0 <? signed_byte p then 2 * signed_byte p - 1
                        else - (2 * signed_byte p)))
    (seqZ 0 256) = true.
Proof. vm_compute. reflexivity. Qed.

Lemma wrapNeg_signed p :
  0 <= p < 256 ->
  wrapNeg p = if 0 <? signed_byte p then 2 * signed_byte p - 1
              else - (2 * signed_byte p).
Proof.
  intros Hp. pose proof wrapNeg_bytes as H.
  rewrite forallb_forall in H. apply Z.eqb_eq. apply H.
  apply in_seqZ. lia.
Qed.

End WrapNeg.

(** X25 (wrapNeg): a byte read as a signed value v becomes 2v - 1 when
    v is positive and -2v otherwise, so that two different bytes never
    give the same result; the results lie between 0 and 256, and 256,
    which no byte holds, is the result for 128 only. *)
Theorem wrapNeg_folds_signed_bytes (p q : Z) :
  0 <= p < 256 -> 0 <= q < 256 ->
  wrapNeg p = (if 0 <? signed_byte p then 2 * signed_byte p - 1
               else - (2 * signed_byte p)) /\
  0 <= wrapNeg p <= 256 /\
  (wrapNeg p = 256 <-> p = 128) /\
  (wrapNeg p = wrapNeg q -> p = q).
Proof.
  intros Hp Hq.
  rewrite (wrapNeg_signed p Hp), (wrapNeg_signed q Hq).
  unfold signed_byte.
  destruct (p <? 128) eqn:Ep; destruct (q <? 128) eqn:Eq;
    [apply Z.ltb_lt in Ep|apply Z.ltb_lt in Ep|apply Z.ltb_ge in Ep
     |apply Z.ltb_ge in Ep];
    [apply Z.ltb_lt in Eq|apply Z.ltb_ge in Eq|apply Z.ltb_lt in Eq
     |apply Z.ltb_ge in Eq];
    destruct (0 <? p) eqn:Fp; destruct (0 <? q) eqn:Fq;
    try (apply Z.ltb_lt in Fp); try (apply Z.ltb_ge in Fp);
    try (apply Z.ltb_lt in Fq); try (apply Z.ltb_ge in Fq);
    destruct (0 <? p - 256) eqn:Gp; destruct (0 <? q - 256) eqn:Gq;
    try (apply Z.ltb_lt in Gp); try (apply Z.ltb_ge in Gp);
    try (apply Z.ltb_lt in Gq); try (apply Z.ltb_ge in Gq);
    split_and!; try split; intros; lia.
Qed.

Lemma wrapNeg_folds_signed_bytes_witness :
  wrapNeg 128 = 256 /\ (wrapNeg 3 = wrapNeg 3 -> 3 = 3).
Proof.
  destruct (wrapNeg_folds_signed_bytes 128 3) as (_ & _ & H128 & _);
    [lia|lia|].
  destruct (wrapNeg_folds_signed_bytes 3 3) as (_ & _ & _ & Hinj);
    [lia|lia|].
  split; [apply H128; reflexivity|exact Hinj].
Defined.

Section PaletteCoder.
Context `{Prim : Primitives} `{Tools : PaletteTools}.

Lemma calls_bits_app tr1 tr2 :
  Palette.calls_bits (tr1 ++ tr2)
  = Palette.calls_bits tr1 + Palette.calls_bits tr2.
Proof.
  unfold Palette.calls_bits.
  induction tr1 as [|c tr1 IH]; cbn [app fold_right]; [reflexivity|].
  rewrite IH. lia.
Qed.

Lemma four_symbols_bits (f : Z -> Z) (a b c d : Z) :
  Palette.calls_bits (map (fun sym => Palette.coderSymbol sym (f sym)) [a; b; c; d])
  = f (rd [a; b; c; d] 0) + f (rd [a; b; c; d] 1)
    + f (rd [a; b; c; d] 2) + f (rd [a; b; c; d] 3).
Proof.
  change (rd [a; b; c; d] 0) with a. change (rd [a; b; c; d] 1) with b.
  change (rd [a; b; c; d] 2) with c. change (rd [a; b; c; d] 3) with d.
  unfold Palette.calls_bits. cbn [map fold_right Palette.call_bits]. lia.
Qed.

(** The symbols of one colour, as the coder [encoder] writes them. *)
Lemma color_symbols_bits encoder cf color :
  Palette.calls_bits
    (map (fun sym => Palette.coderSymbol sym (enc_write encoder sym))
       (Palette.yuva_of cf color))
  = enc_write encoder (rd (Palette.yuva_of cf color) 0)
    + enc_write encoder (rd (Palette.yuva_of cf color) 1)
    + enc_write encoder (rd (Palette.yuva_of cf color) 2)
    + enc_write encoder (rd (Palette.yuva_of cf color) 3).
Proof.
  unfold Palette.yuva_of. cbv zeta. apply four_symbols_bits.
Qed.

Lemma write_symbols encoder cf (palette : list Z) tr bits :
  for_range 0 (Z.of_nat (length palette))
    (fun ii '(tr, bits) =>
       let yuva := Palette.yuva_of cf (getLE (rd palette ii)) in
       (tr ++ map (fun sym => Palette.coderSymbol sym (enc_write encoder sym))
                yuva,
        bits + enc_write encoder (rd yuva 0)
             + enc_write encoder (rd yuva 1)
             + enc_write encoder (rd yuva 2)
             + enc_write encoder (rd yuva 3)))
    (tr, bits)
  = (tr ++ flat_map
             (fun c => map (fun sym => Palette.coderSymbol sym
                                         (enc_write encoder sym))
                         (Palette.yuva_of cf (getLE c)))
             palette,
     bits + Palette.calls_bits
              (flat_map
                 (fun c => map (fun sym => Palette.coderSymbol sym
                                             (enc_write encoder sym))
                             (Palette.yuva_of cf (getLE c)))
                 palette)).
Proof.
  set (symbols := fun c => map (fun sym => Palette.coderSymbol sym
                                             (enc_write encoder sym))
                             (Palette.yuva_of cf (getLE c))).
  rewrite <- (firstn_all palette) at 2 3.
  rewrite <- (Nat2Z.id (length palette)) at 2 3.
  apply (for_range_ind
    (fun k acc =>
       acc = (tr ++ flat_map symbols (take (Z.to_nat k) palette),
              bits + Palette.calls_bits
                       (flat_map symbols (take (Z.to_nat k) palette))))).
  - lia.
  - change (take (Z.to_nat 0) palette) with (@nil Z).
    cbn [flat_map]. rewrite app_nil_r. f_equal.
    unfold Palette.calls_bits. cbn [fold_right]. lia.
  - intros k acc Hk ->. cbv zeta.
    replace (Z.to_nat (k + 1)) with (S (Z.to_nat k)) by lia.
    rewrite (take_S_r palette (Z.to_nat k) (rd palette k))
      by (apply rd_lookup; lia).
    rewrite flat_map_app. cbn [flat_map]. rewrite app_nil_r.
    rewrite calls_bits_app, app_assoc. fold (symbols (rd palette k)).
    pose proof (color_symbols_bits encoder cf (getLE (rd palette k))) as Hc.
    fold (symbols (rd palette k)) in Hc.
    f_equal. rewrite Hc. lia.
Qed.

Lemma best_color_filter_range (palette : list Z) :
  0 <= Palette.best_color_filter palette < Z.max 1 CF_COUNT.
Proof.
  unfold Palette.best_color_filter.
  apply (for_range_keeps (fun acc : Z * Z => 0 <= fst acc < Z.max 1 CF_COUNT)).
  - cbn [fst]. lia.
  - intros cf [bestCF bestScore] Hcf Hacc. cbn [fst] in Hacc.
    match goal with |- context [if ?c then _ else _] => destruct c end;
      cbn [fst]; lia.
Qed.

End PaletteCoder.

(** X26 (write): for an enabled writer with 40 colours or more, write
    emits the bit 1, the palette size less one in 8 bits, the mask's
    index in 8 bits, the bit 1, the colour filter it chose in 4 bits,
    the tables of the coder, and then four symbols for every colour of
    the palette, in palette order.  The filter is one of the CF_COUNT
    filters, and the count the function keeps is the number of bits of
    these calls. *)
Theorem write_large_palette_layout `{Prim : Primitives} `{Tools : PaletteTools}
    (w : Palette.ImagePaletteWriter) :
  Palette._enabled w = true ->
  40 <= Z.of_nat (length (Palette._palette w)) ->
  0 < CF_COUNT ->
  exists encoder,
    fst (Palette.write w)
    = [Palette.writeBit 1;
       Palette.writeBits (Z.of_nat (length (Palette._palette w)) - 1) 8;
       Palette.writeBits (Palette._masked_palette w) 8;
       Palette.writeBit 1;
       Palette.writeBits (Palette.best_color_filter (Palette._palette w)) 4;
       Palette.coderTables (enc_writeTables encoder)]
      ++ flat_map
           (fun c =>
              map (fun sym => Palette.coderSymbol sym (enc_write encoder sym))
                (Palette.yuva_of (Palette.best_color_filter (Palette._palette w))
                   (getLE c)))
           (Palette._palette w) /\
    0 <= Palette.best_color_filter (Palette._palette w) < CF_COUNT /\
    snd (Palette.write w) = Palette.calls_bits (fst (Palette.write w)).
Proof.
  intros Hen Hlarge Hcf. unfold Palette.write. rewrite Hen.
  assert ((Z.of_nat (length (Palette._palette w)) <? 40) = false) as Hsmall
    by (apply Z.ltb_ge; exact Hlarge).
  rewrite Hsmall. cbv zeta. rewrite write_symbols. cbn [fst snd].
  eexists. split; [|split].
  - cbn [app]. reflexivity.
  - pose proof (best_color_filter_range (Palette._palette w)). lia.
  - rewrite calls_bits_app. unfold Palette.calls_bits at 2.
    cbn [app fold_right Palette.call_bits]. lia.
Qed.

Lemma write_large_palette_layout_witness :
  Z.of_nat (length (Palette._palette palette_writer_large)) = 41 /\
  snd (Palette.write palette_writer_large)
  = Palette.calls_bits (fst (Palette.write palette_writer_large)).
Proof.
  split; [vm_compute; reflexivity|].
  destruct (write_large_palette_layout palette_writer_large)
    as (encoder & _ & _ & Hbits).
  - vm_compute. reflexivity.
  - vm_compute. intros H. discriminate H.
  - vm_compute. reflexivity.
  - exact Hbits.
Defined.
